(* ===== verification/_CoqProject ===== *)
-Q . S2P
Prelude.v
PyText.v
Unicode.v
Regex.v
Texts.v
Rounding.v
Sanitize.v
Config.v
Storage.v
StateMachine.v
Models.v
Codecs.v
Security.v
Tenancy.v
Orm.v
Roles.v
OrmLaws.v
Invariants.v
Kanban.v
Board.v
Analytics.v
Pagination.v
Redis.v
RedisLaws.v
Sessions.v
SessionLaws.v
SessionIndex.v
ForcedLogout.v
Cache.v
Auth.v
AuthLaws.v
AccountLaws.v
Staff.v
Experience.v
SkillGraph.v
Parser.v
ParserLaws.v
Matching.v
Search.v
KeyRotation.v
Portal.v
Queue.v
Questions.v
Profile.v
ServiceAuth.v
Agents.v
Supervisor.v
SupervisorLaws.v
Processing.v
Genai.v
GenaiLaws.v
Privacy.v
ProcessingLaws.v
Interviews.v
InterviewLaws.v
Isolation.v
Integrity.v
Retention.v
Dataset.v
Ops.v
