(* ===== verification/Prelude.v ===== *)
(** * A verification library for the applicant tracking back end

    The program is a FastAPI service over PostgreSQL, Redis and a job queue:
    organisations post jobs, candidates upload resumes, recruiters move
    applications over a board, interviewers evaluate. Every definition follows
    one function of [src/app]; a file's own header names its sources.

    ** The parts and how they interact

    - [Prelude], [PyText], [Unicode], [Rounding], [Codecs]: Python's exceptions
      as a state-and-error monad [M W A], its strings, its [round], JSON.
      [Regex], [Texts]: its regular expressions, as executable matchers with
      greedy and lazy repetition, and texts as lists of characters.
      [Config], [Sanitize]: the settings and the removal of HTML.
    - [Models], [Tenancy], [Orm], [OrmLaws]: the tables as records and finite
      maps; the tenant context of a request; the row-level-security policies
      of the database; and the statements of the ORM - select, insert, update,
      delete under the ORM's own criteria and the policies, commit, rollback.
      The class [Table] is the interface between the handlers and the tables;
      [Confining] and [IsolatedTable] say what a table's policies promise.
    - [Invariants]: [obeys], an invariant that a computation preserves, and the
      classes [Transactional], [Writes], [Deletes] of what its statements have
      to preserve. Handlers are proved once against these classes; the
      confinement to an organisation, the accounts that are kept, the
      integrity of the data and the readability of resumes are instances.
    - [Redis], [RedisLaws]: the commands of Redis as functions of a store, behind
      a class with one law (a pipeline acts as its commands); a computation is a
      sequence of turns, before each of which other clients act, and each of
      which may fail before or after the server has acted. [Cache], [Sessions],
      [SessionLaws], [ForcedLogout]: the JSON cache and the sessions of users.
    - [Security], [Auth], [AuthLaws], [AccountLaws]: passwords, tokens,
      [get_current_user], the routes of /auth. [Privacy]: the deletion of an
      account. [Staff]: jobs, the organisation, its administration, the inbox.
      [Portal]: the candidate's own routes and the recruiters' search.
    - [StateMachine], [Kanban], [Board], [Analytics], [Pagination]: the stages
      of an application, the handlers that move it, every interleaving of
      their transactions as a step relation, the dashboard, and keyset pages.
    - [Interviews], [InterviewLaws]: interviews with their booked reminders.
    - [Parser], [ParserLaws]: the text of a document and what is read in it.
      [Experience], [SkillGraph], [Matching]: years, skills and the score of a
      candidate. [Agents], [Supervisor], [SupervisorLaws]: the three agents,
      the resolution of their conflicts and the graph that runs them.
      [Processing], [ProcessingLaws]: the job that runs either pipeline on an
      uploaded resume and what its columns hold.
    - [Questions], [Profile], [Genai], [GenaiLaws]: the plan of an interview, the
      redacted profile the language model is given, the client, the job with
      its attempts, and the routes.
    - [Search], [KeyRotation]: encrypted columns, the search over hashed words,
      and the change of the key. [Queue]: the job queue. [Storage]: where the
      files of resumes are. [Retention]: which backups are kept.
    - [ServiceAuth], [Ops]: the signed calls between the services with the
      internal routes that take them, and the notices of the monitoring.
      [Dataset]: the split of the fine-tuning data and the checks of it.
    - [Isolation], [Integrity]: the whole program as one type of requests, and
      what no sequence of them does.

    ** What the theorems show

    - The whole program: after any sequence of requests and jobs the data is
      sound and readable ([Integrity]); the staff of an organisation changes
      nothing outside it ([Isolation]).
    - The board: histories are legal paths of the state machine, one at a time
      and interleaved, and what an overlap can still break.
    - Access: the user of a request belongs to the organisation whose rows
      it sees; interviewers see their own interviews.
    - Sessions: a refresh token is redeemed once, a renewal is a compare and
      swap, a forced logout is final under every interleaving.
    - Accounts: registration, recovery of passwords, deletion.
    - Lists and search: pages are slices and a walk reads everything once;
      the search over hashes answers as a search of the words; keys rotate.
    - Numbers: the score of a candidate is a percentage and monotone, years of
      experience are counted once, the mean of an evaluation is bounded, an
      analysis of the agents has the bounds of its schema.
    - Jobs: the processing of a resume changes only that resume, an agent that
      fails costs only its section, what the parser reports stands in the
      resume, and a set of questions settles.
    - Services: an internal call reads only the organisation its token names;
      an alert reaches exactly the operator's team, in one transaction.
    - Reminders, bulk jobs, file paths, sanitised text, backups, and data
      splits that the validator accepts.

    Of the theorems without a claim number some show a flaw: that overlapping
    moves reopen a rejected application, that two honest renewals end a
    session, that a null time loses reminders and a new link keeps old ones,
    that an extracted resume has one entry, that a profile that cannot be
    loaded strands a set of questions. The others carry on a component: the
    skills found in a text, the life of a service token, who is told of an alert.

    ** Bounds and fuel

    [_reencrypt] takes as fuel the number of rows plus one, [chunks] and the
    walk of [Pagination] the length of their list; the theorems state that this
    is enough, by giving the result. A loop of a regular expression takes the
    length of the text, as every turn consumes a character. The renewal of a
    session has the program's own bound of three attempts, and a job the
    queue's number of runs.

    ** Idealisations

    Times are integers (microseconds for PostgreSQL, tokens and backups, finer
    ticks for Redis), with one clock for server and Redis and one instant per
    call. Floats are exact rationals that are rounded where the code rounds.
    Outside [Texts], case and white space are those of ASCII on the bytes of
    UTF-8; the tables of Python's regular expressions over such strings are the
    class [Unicode]. Each ORM statement is flushed where it is written. Random
    values are arguments. JWT, bcrypt, Fernet, HMAC, user-agent parsing, the
    GeoIP database, e-mail address syntax, RQ and the scheduler, PyMuPDF,
    python-docx, Tesseract, spaCy, HTTP, the shuffle of [random] and the threads of
    the agents are class
    arguments or parameters with their documented behaviour.

    ** Not modelled

    The rendering and sending of e-mail and of offer letters, the wording of the
    prompts, rate limits, metrics and health probes, the wiring of the
    application, the rest of the fine-tuning tool (an offline program over
    texts and a tokenizer), the commands of a backup and of a restore, dashboards,
    load tests, and the migrations other than the one with the policies: they
    are I/O, texts or libraries around the state that is modelled. *)
From Stdlib Require Export Ascii String.
From stdpp Require Export base tactics option list gmap sets strings fin_maps pretty.
From Stdlib Require Export ZArith Lia.

Declare Scope ats_scope.
Delimit Scope ats_scope with ats.

(** ** Identifiers and instants

    [uuid.UUID] values are 128-bit numbers the program only compares and
    prints; instants of PostgreSQL and [datetime] are microseconds since the
    epoch (UTC). *)
Abbreviation uuid := N (only parsing).
Abbreviation instant := Z (only parsing).

(** ** Exceptions and the request monad *)

(** The exceptions a handler can leave with: an [HTTPException] carries the
    status code the client sees; any other Python exception is a crash, which
    FastAPI answers with 500. *)
Inductive exn :=
  | HTTPException (status_code : Z)
  | PyError (name : string).

#[global] Instance exn_eq_dec : EqDecision exn.
Proof. solve_decision. Defined.

(** A computation over a world [W]: Python code that reads and writes shared
    state and may raise. The state written before a raise stays written. *)
Definition M (W A : Type) : Type := W → (exn + A) * W.

#[global] Instance M_ret {W} : MRet (M W) := λ A a w, (inr a, w).
#[global] Instance M_bind {W} : MBind (M W) := λ A B f m w,
  match m w with
  | (inl e, w') => (inl e, w')
  | (inr a, w') => f a w'
  end.

Definition raise {W A} (e : exn) : M W A := λ w, (inl e, w).
Definition get {W} : M W W := λ w, (inr w, w).
Definition modify {W} (f : W → W) : M W unit := λ w, (inr tt, f w).
Definition reads {W A} (f : W → A) : M W A := λ w, (inr (f w), w).

(** [try: m except Exception: h] *)
Definition try_except {W A} (m : M W A) (h : exn → M W A) : M W A := λ w,
  match m w with
  | (inl e, w') => h e w'
  | r => r
  end.

Definition http_error {W A} (code : Z) : M W A := raise (HTTPException code).

(** [if c: raise HTTPException(code)] *)
Definition reject_if {W} (c : bool) (code : Z) : M W unit :=
  if c then http_error code else mret tt.

(** [x = ...; if x is None: raise HTTPException(code)] *)
Definition or_raise {W A} (o : option A) (code : Z) : M W A :=
  match o with Some a => mret a | None => http_error code end.

(** Unfold the monadic plumbing of a computation applied to a world. *)
Ltac mrun :=
  unfold mbind, M_bind, mret, M_ret, raise, http_error, reject_if, or_raise,
    get, modify, reads, try_except in *; cbn in *.

(** Inversion of a sequence: the first computation raised, or both ran. *)
Lemma bind_inv {W A B} (m : M W A) (f : A → M W B) w r w' :
  (m ≫= f) w = (r, w') →
  (∃ e, m w = (inl e, w') ∧ r = inl e) ∨ (∃ a w1, m w = (inr a, w1) ∧ f a w1 = (r, w')).
Proof.
  unfold mbind, M_bind. destruct (m w) as [[e|a] w1]; intros; simplify_eq; [left|right]; eauto.
Qed.

(** A first computation that returns. *)
Lemma bind_ok {W A B} (m : M W A) (f : A → M W B) w a w' : m w = (inr a, w') → (m ≫= f) w = f a w'.
Proof. unfold mbind, M_bind. by intros ->. Qed.

Lemma try_except_inv {W A} (m : M W A) h w r w' :
  try_except m h w = (r, w') →
  (∃ a, m w = (inr a, w') ∧ r = inr a) ∨ (∃ e w1, m w = (inl e, w1) ∧ h e w1 = (r, w')).
Proof. unfold try_except. destruct (m w) as [[e|a] w1]; intros; simplify_eq; eauto. Qed.

Lemma reject_if_inv {W} c code (w : W) r w' :
  reject_if c code w = (r, w') →
  w' = w ∧ (c = true ∧ r = inl (HTTPException code) ∨ c = false ∧ r = inr tt).
Proof. destruct c; intros [= <- <-]; auto 6. Qed.

Lemma or_raise_inv {W A} (o : option A) code (w : W) r w' :
  or_raise o code w = (r, w') →
  w' = w ∧ (o = None ∧ r = inl (HTTPException code) ∨ ∃ a, o = Some a ∧ r = inr a).
Proof. destruct o; intros [= <- <-]; eauto 7. Qed.

Lemma reject_bind_inv {W A} c code (k : M W A) w r w' :
  (reject_if c code;; k) w = (r, w') →
  (c = true ∧ r = inl (HTTPException code) ∧ w' = w) ∨ (c = false ∧ k w = (r, w')).
Proof. destruct c; [intros [= <- <-]; auto|auto]. Qed.

Lemma or_raise_bind_inv {W A B} (o : option A) code (f : A → M W B) w r w' :
  (a ← or_raise o code; f a) w = (r, w') →
  (o = None ∧ r = inl (HTTPException code) ∧ w' = w) ∨ (∃ a, o = Some a ∧ f a w = (r, w')).
Proof. destruct o; [eauto|intros [= <- <-]; auto]. Qed.

Lemma reads_bind {W A B} (g : W → A) (f : A → M W B) w : (reads g ≫= f) w = f (g w) w.
Proof. done. Qed.

(** ** Triples

    From a state with [P], [m] either returns and [Q] holds, or raises and
    [E] holds. *)
Definition triple {W A} (P : W → Prop) (m : M W A) (Q : A → W → Prop) (E : W → Prop) : Prop :=
  ∀ w, P w → match m w with (inr a, w') => Q a w' | (inl _, w') => E w' end.

Section triples.
Context {W : Type}.

Lemma triple_bind {A B} P (m : M W A) Q (f : A → M W B) R E :
  triple P m Q E → (∀ a, triple (Q a) (f a) R E) → triple P (m ≫= f) R E.
Proof.
  intros Hm Hf w Hw. specialize (Hm w Hw). unfold mbind, M_bind.
  destruct (m w) as [[e|a] w']; [done|]. by apply Hf.
Qed.

Lemma triple_ret {A} (P : W → Prop) (a : A) (Q : A → W → Prop) E :
  (∀ w, P w → Q a w) → triple P (mret a) Q E.
Proof. intros HQ w Hw. by apply HQ. Qed.

Lemma triple_raise {A} (P : W → Prop) e (Q : A → W → Prop) (E : W → Prop) :
  (∀ w, P w → E w) → triple P (raise e) Q E.
Proof. intros HE w Hw. by apply HE. Qed.

Lemma triple_weaken {A} (P P' : W → Prop) (m : M W A) (Q Q' : A → W → Prop) (E E' : W → Prop) :
  triple P' m Q' E' → (∀ w, P w → P' w) → (∀ a w, Q' a w → Q a w) → (∀ w, E' w → E w) → triple P m Q E.
Proof.
  intros Hm HP HQ HE w Hw. specialize (Hm w (HP w Hw)). destruct (m w) as [[e|a] w']; auto.
Qed.

(** A guard that leaves the state alone. *)
Lemma triple_reject (P : W → Prop) c code (Q : unit → W → Prop) (E : W → Prop) :
  (∀ w, P w → E w) → (∀ w, c = false → P w → Q tt w) → triple P (reject_if c code) Q E.
Proof. intros HE HQ w Hw. destruct c; [by apply HE|by apply HQ]. Qed.

Lemma triple_or_raise {A} (P : W → Prop) (o : option A) code (Q : A → W → Prop) (E : W → Prop) :
  (∀ w, P w → E w) → (∀ a w, o = Some a → P w → Q a w) → triple P (or_raise o code) Q E.
Proof. intros HE HQ w Hw. destruct o; [by apply HQ|by apply HE]. Qed.
End triples.

(** [bind_step H as e | a w1 H1]: split the run [H] of a sequence. *)
Tactic Notation "bind_step" hyp(H) "as" ident(e) "|" ident(a) ident(w1) ident(H1) :=
  let Hb := fresh "Hb" in
  apply bind_inv in H as [(e & H & Hb)|(a & w1 & H1 & H)];
  [try match type of Hb with ?r = _ => is_var r; subst r end|].

(** The guards at the head of a handler. *)
Ltac guard_step H :=
  first [ apply reject_bind_inv in H as [(? & ? & ?)|[? H]]
        | apply or_raise_bind_inv in H as [(? & ? & ?)|(? & ? & H)] ].

(** Case analysis on the next discriminee of the goal or of a hypothesis. *)
Ltac case_step :=
  match goal with
  | H : context [match ?x with _ => _ end] |- _ => destruct x eqn:?; simplify_eq/=
  | |- context [match ?x with _ => _ end] => destruct x eqn:?; simplify_eq/=
  end.

(** Turn the [bool] guards of the code into propositions. *)
Ltac bool_to_prop :=
  repeat match goal with
  | H : bool_decide _ = true |- _ => apply bool_decide_eq_true in H
  | H : bool_decide _ = false |- _ => apply bool_decide_eq_false in H
  | H : andb _ _ = true |- _ => apply andb_true_iff in H as [? ?]
  | H : orb _ _ = false |- _ => apply orb_false_iff in H as [? ?]
  | H : negb _ = true |- _ => apply negb_true_iff in H
  | H : negb _ = false |- _ => apply negb_false_iff in H
  end.

Create HintDb ats.

(** ** Python helpers shared by the components *)

(** Truthiness of an optional string: [None] and [""] are falsy. *)
Definition truthy (o : option string) : bool :=
  match o with Some s => negb (bool_decide (s = EmptyString)) | None => false end.

(** [scalar_one_or_none()] *)
Definition scalar_one_or_none {W A} (l : list A) : M W (option A) :=
  match l with
  | [] => mret None
  | [a] => mret (Some a)
  | _ => raise (PyError "MultipleResultsFound")
  end.

(** A computation that has nothing left to do. *)
Ltac ret_step H :=
  cbv [mret M_ret raise http_error get reads modify scalar_one_or_none] in H;
  simplify_eq/=.

(** ** Lists *)

Lemma existsb_false {A} (f : A → bool) (l : list A) :
  (∀ x, x ∈ l → f x = false) → existsb f l = false.
Proof.
  induction l as [|p l IH]; simpl; [done|]. intros Hl.
  rewrite Hl, IH; [done| |left]. intros q Hq. apply Hl. by right.
Qed.

Lemma filter_all {A} (P : A → Prop) `{!∀ x, Decision (P x)} (l : list A) :
  (∀ x, x ∈ l → P x) → filter P l = l.
Proof.
  induction l as [|x l IH]; intros Hl; [done|].
  rewrite filter_cons_True by (apply Hl; left). f_equal. apply IH. intros y Hy. apply Hl. by right.
Qed.

Lemma filter_none {A} (P : A → Prop) `{!∀ x, Decision (P x)} (l : list A) :
  (∀ x, x ∈ l → ¬ P x) → filter P l = [].
Proof.
  induction l as [|x l IH]; intros Hl; [done|].
  rewrite filter_cons_False by (apply Hl; left). apply IH. intros y Hy. apply Hl. by right.
Qed.

Lemma forallb_elem_of {A} (p : A → bool) (l : list A) : forallb p l = true ↔ ∀ x, x ∈ l → p x = true.
Proof. rewrite forallb_forall. split; intros Hp x Hx; apply Hp; by apply list_elem_of_In. Qed.
