(* ===== verification/PyText.v ===== *)
(** The Python text operations the program uses: [str] methods, [int()] on
    text and the text form of [uuid.UUID].

    A Python [str] is the [string] of its UTF-8 bytes; case mapping, white
    space and digits are those of the ASCII range, which is what the program
    feeds these operations with (identifiers, claims, header names). *)
From S2P Require Import Prelude.
Local Open Scope string_scope.

(** ** Characters *)

Definition code (c : ascii) : N := N_of_ascii c.

Definition char_lower (c : ascii) : ascii :=
  if bool_decide (65 ≤ code c ≤ 90)%N then ascii_of_N (code c + 32) else c.

(** [str.isspace] on ASCII: \t \n \v \f \r, 0x1c..0x1f and the space. *)
Definition is_space (c : ascii) : bool :=
  bool_decide ((9 ≤ code c ≤ 13)%N ∨ (28 ≤ code c ≤ 32)%N).

Definition is_digit (c : ascii) : bool := bool_decide (48 ≤ code c ≤ 57)%N.

(** ** Strings *)

Fixpoint map_chars (f : ascii → ascii) (s : string) : string :=
  match s with
  | EmptyString => EmptyString
  | String c r => String (f c) (map_chars f r)
  end.

(** [s.lower()] *)
Definition lower (s : string) : string := map_chars char_lower s.

Fixpoint lstrip_if (p : ascii → bool) (s : string) : string :=
  match s with
  | String c r => if p c then lstrip_if p r else s
  | EmptyString => EmptyString
  end.

Fixpoint rstrip_if (p : ascii → bool) (s : string) : string :=
  match s with
  | EmptyString => EmptyString
  | String c r =>
      match rstrip_if p r with
      | EmptyString => if p c then EmptyString else String c EmptyString
      | r' => String c r'
      end
  end.

(** [s.strip()] and [s.strip(chars)] *)
Definition strip_if (p : ascii → bool) (s : string) : string := rstrip_if p (lstrip_if p s).
Definition strip (s : string) : string := strip_if is_space s.

(** [s.startswith(p)] *)
Definition startswith (s p : string) : bool := String.prefix p s.

(** What follows the prefix [p] in [s], when [s] starts with it. *)
Fixpoint removeprefix (p s : string) : option string :=
  match p, s with
  | EmptyString, _ => Some s
  | String c p', String d s' => if bool_decide (c = d) then removeprefix p' s' else None
  | String _ _, EmptyString => None
  end.

(** [x in s] on strings *)
Fixpoint contains (s x : string) : bool :=
  String.prefix x s ||
  match s with EmptyString => false | String _ r => contains r x end.

(** [s.replace(x, "")] for a non-empty [x]; the scan resumes after a removed
    occurrence, hence the [skip] counter. *)
Fixpoint remove_aux (x s : string) (skip : nat) : string :=
  match s with
  | EmptyString => EmptyString
  | String c r =>
      match skip with
      | S k => remove_aux x r k
      | O => if String.prefix x s then remove_aux x r (String.length x - 1)
             else String c (remove_aux x r 0)
      end
  end.
Definition remove_all (x s : string) : string := remove_aux x s 0.

(** [s.partition(c)] for a one-character separator: head, found, tail. *)
Fixpoint partition (c : ascii) (s : string) : string * bool * string :=
  match s with
  | EmptyString => (EmptyString, false, EmptyString)
  | String d r =>
      if bool_decide (c = d) then (EmptyString, true, r)
      else let '(h, f, t) := partition c r in (String d h, f, t)
  end.

(** [s.split(c)] for a one-character separator *)
Fixpoint split (c : ascii) (s : string) : list string :=
  match s with
  | EmptyString => [EmptyString]
  | String d r =>
      if bool_decide (c = d) then EmptyString :: split c r
      else match split c r with
           | h :: t => String d h :: t
           | [] => [String d EmptyString]
           end
  end.

(** [sep.join(l)] *)
Fixpoint join (sep : string) (l : list string) : string :=
  match l with
  | [] => EmptyString
  | [x] => x
  | x :: r => x +:+ sep +:+ join sep r
  end.

Fixpoint all_chars (p : ascii → bool) (s : string) : bool :=
  match s with EmptyString => true | String c r => p c && all_chars p r end.

(** Number of code points of the UTF-8 text: bytes that do not continue a
    character ([len(s)] in Python). *)
Fixpoint py_len (s : string) : nat :=
  match s with
  | EmptyString => 0
  | String c r => (if bool_decide (128 ≤ code c < 192)%N then 0 else 1) + py_len r
  end.

(** [s[:n]]: the first [n] code points. *)
Fixpoint py_take (n : nat) (s : string) : string :=
  match s with
  | EmptyString => EmptyString
  | String c r =>
      if bool_decide (128 ≤ code c < 192)%N then String c (py_take n r)
      else match n with 0 => EmptyString | S m => String c (py_take m r) end
  end.

(** ** Hexadecimal integers *)

Definition hex_digit (n : N) : ascii :=
  ascii_of_N (if bool_decide (n < 10)%N then 48 + n else 87 + n)%N.

Definition hex_value (c : ascii) : option N :=
  let k := code c in
  if bool_decide (48 ≤ k ≤ 57)%N then Some (k - 48)%N
  else if bool_decide (97 ≤ k ≤ 102)%N then Some (k - 87)%N
  else if bool_decide (65 ≤ k ≤ 70)%N then Some (k - 55)%N
  else None.

(** The [n] low hexadecimal digits of [v], most significant first. *)
Fixpoint hex_digits (n : nat) (v : N) : string :=
  match n with
  | O => EmptyString
  | S k => hex_digits k (v / 16)%N +:+ String (hex_digit (v mod 16)%N) EmptyString
  end.

(** The digits of [int(s, 16)]; one underscore is allowed between digits
    ([under]: the previous character was a digit). *)
Fixpoint hex_int_aux (s : string) (acc : N) (under : bool) : option N :=
  match s with
  | EmptyString => if under then Some acc else None
  | String c r =>
      match hex_value c with
      | Some d => hex_int_aux r (16 * acc + d)%N true
      | None =>
          if bool_decide (c = "_"%char) && under then hex_int_aux r acc false else None
      end
  end.

(** [int(s, 16)]: surrounding white space, a sign and a [0x] prefix (possibly
    followed by an underscore) are accepted. *)
Definition hex_int (s : string) : option N :=
  let s := strip s in
  let s := default s (removeprefix "+" s) in
  let low := lower s in
  let digits :=
    match removeprefix "0x_" low with
    | Some r => r
    | None => default low (removeprefix "0x" low)
    end in
  hex_int_aux digits 0 false.

(** ** Decimal integers *)

(** The digits of [int(s)]; one underscore is allowed between digits. *)
Fixpoint dec_int_aux (s : string) (acc : N) (under : bool) : option N :=
  match s with
  | EmptyString => if under then Some acc else None
  | String c r =>
      if is_digit c then dec_int_aux r (10 * acc + (code c - 48))%N true
      else if bool_decide (c = "_"%char) && under then dec_int_aux r acc false else None
  end.

(** [int(s)]; [None] is [ValueError]. *)
Definition dec_int (s : string) : option Z :=
  let s := strip s in
  match removeprefix "-" s with
  | Some r => Z.opp <$> (Z.of_N <$> dec_int_aux r 0 false)
  | None => Z.of_N <$> dec_int_aux (default s (removeprefix "+" s)) 0 false
  end.

(** ** [uuid.UUID] *)

Definition uuid_ok (u : uuid) : Prop := (u < 2 ^ 128)%N.

(** [u.hex] *)
Definition uuid_hex (u : uuid) : string := hex_digits 32 u.

(** [str(u)]: 8-4-4-4-12 hexadecimal digits. *)
Definition uuid_str (u : uuid) : string :=
  hex_digits 8 (N.shiftr u 96) +:+ "-" +:+ hex_digits 4 (N.shiftr u 80) +:+ "-" +:+
  hex_digits 4 (N.shiftr u 64) +:+ "-" +:+ hex_digits 4 (N.shiftr u 48) +:+ "-" +:+
  hex_digits 12 u.

Definition is_brace (c : ascii) : bool := bool_decide (c = "{"%char ∨ c = "}"%char).

(** [uuid.UUID(s)]; [None] is [ValueError]. *)
Definition uuid_parse (s : string) : option uuid :=
  let h := remove_all "-" (strip_if is_brace (remove_all "uuid:" (remove_all "urn:" s))) in
  if bool_decide (py_len h = 32%nat) then hex_int h else None.

Arguments uuid_str : simpl never.
Arguments uuid_hex : simpl never.
Arguments uuid_parse : simpl never.

(** ** Lemmas *)

Lemma all_chars_app p a b : all_chars p (a +:+ b) = all_chars p a && all_chars p b.
Proof. induction a as [|c a IH]; simpl; [done|]. by rewrite IH, andb_assoc. Qed.

Lemma all_chars_impl (p q : ascii → bool) s :
  (∀ c, p c = true → q c = true) → all_chars p s = true → all_chars q s = true.
Proof.
  intros Hpq. induction s as [|c s IH]; simpl; [done|].
  rewrite !andb_true_iff. naive_solver.
Qed.

Lemma str_app_cons c (a b : string) : String c a +:+ b = String c (a +:+ b).
Proof. done. Qed.

Lemma str_app_assoc (a b c : string) : (a +:+ b) +:+ c = a +:+ (b +:+ c).
Proof. induction a as [|x a IH]; [done|]. by rewrite !str_app_cons, IH. Qed.

Lemma str_app_nil (a : string) : a +:+ "" = a.
Proof. induction a as [|x a IH]; [done|]. by rewrite str_app_cons, IH. Qed.

(** A pattern whose first character does not occur is never removed. *)
Lemma remove_all_absent (p : ascii → bool) c x s :
  p c = false → all_chars p s = true → remove_all (String c x) s = s.
Proof.
  intros Hc. unfold remove_all. induction s as [|d s IH]; simpl; [done|].
  intros [Hd Hs]%andb_true_iff. destruct (ascii_dec c d) as [->|]; [congruence|].
  by rewrite IH.
Qed.

Lemma remove_char_app c a b :
  remove_all (String c "") (a +:+ b) = remove_all (String c "") a +:+ remove_all (String c "") b.
Proof.
  unfold remove_all. induction a as [|d a IH]; [done|]. rewrite str_app_cons. cbn [remove_aux].
  replace (String.prefix (String c "") (String d (a +:+ b)))
    with (String.prefix (String c "") (String d a)).
  2:{ simpl. destruct (ascii_dec c d); [|done]. by destruct a, b. }
  destruct (String.prefix _ _); [done|]. by rewrite IH, str_app_cons.
Qed.

Lemma lstrip_if_id p s : all_chars (λ c, negb (p c)) s = true → lstrip_if p s = s.
Proof. destruct s as [|c s]; simpl; [done|]. intros [Hc _]%andb_true_iff. by destruct (p c). Qed.

Lemma rstrip_if_id p s : all_chars (λ c, negb (p c)) s = true → rstrip_if p s = s.
Proof.
  induction s as [|c s IH]; simpl; [done|]. intros [Hc Hs]%andb_true_iff.
  rewrite IH by done. destruct s; [|done]. by destruct (p c).
Qed.

Lemma strip_if_id p s : all_chars (λ c, negb (p c)) s = true → strip_if p s = s.
Proof. intros H. unfold strip_if. by rewrite lstrip_if_id, rstrip_if_id. Qed.

(** *** Hexadecimal text *)

(** The characters [hex_digits] produces. *)
Definition is_hex_lower (c : ascii) : bool :=
  bool_decide ((48 ≤ code c ≤ 57)%N ∨ (97 ≤ code c ≤ 102)%N).

Lemma code_of_N n : (n < 256)%N → code (ascii_of_N n) = n.
Proof. intros. by apply N_ascii_embedding. Qed.

Lemma hex_digit_lower d : (d < 16)%N → is_hex_lower (hex_digit d) = true.
Proof.
  intros. unfold is_hex_lower, hex_digit. apply bool_decide_eq_true.
  case_bool_decide; rewrite code_of_N by lia; lia.
Qed.

Lemma hex_value_digit d : (d < 16)%N → hex_value (hex_digit d) = Some d.
Proof.
  intros. unfold hex_digit. case_bool_decide; unfold hex_value;
    rewrite code_of_N by lia; repeat (case_bool_decide; try lia); f_equal; lia.
Qed.

Lemma hex_digits_lower n v : all_chars is_hex_lower (hex_digits n v) = true.
Proof.
  revert v. induction n as [|n IH]; intros v; simpl; [done|].
  rewrite all_chars_app, IH. simpl. rewrite hex_digit_lower; [done|].
  apply N.mod_lt. lia.
Qed.

Lemma hex_digits_app a b v :
  hex_digits a (N.shiftr v (4 * N.of_nat b)) +:+ hex_digits b v = hex_digits (a + b) v.
Proof.
  revert v. induction b as [|b IH]; intros v.
  - rewrite N.shiftr_0_r, Nat.add_0_r. apply str_app_nil.
  - rewrite Nat.add_succ_r. cbn [hex_digits]. rewrite <- IH, str_app_assoc. f_equal.
    f_equal. rewrite !N.shiftr_div_pow2, N.Div0.div_div. f_equal.
    replace (4 * N.of_nat (S b))%N with (4 + 4 * N.of_nat b)%N by lia.
    by rewrite N.pow_add_r.
Qed.

Lemma hex_int_aux_digits n v s acc u :
  hex_int_aux (hex_digits n v +:+ s) acc u =
  hex_int_aux s (acc * 16 ^ N.of_nat n + v mod 16 ^ N.of_nat n) (u || negb (bool_decide (n = O))).
Proof.
  revert v s acc u. induction n as [|n IH]; intros v s acc u.
  - rewrite N.mod_1_r, N.add_0_r, N.mul_1_r, orb_false_r. done.
  - cbn [hex_digits]. rewrite str_app_assoc, IH, str_app_cons. cbn [hex_int_aux].
    rewrite hex_value_digit by (apply N.mod_lt; lia).
    rewrite orb_true_r. f_equal. rewrite Nat2N.inj_succ, N.pow_succ_r'.
    rewrite (N.Div0.mod_mul_r v 16 (16 ^ N.of_nat n)). ring.
Qed.

Lemma hex_lower_id s : all_chars is_hex_lower s = true → lower s = s.
Proof.
  induction s as [|c s IH]; [done|]. cbn [all_chars]. intros [Hc Hs]%andb_true_iff.
  change (lower (String c s)) with (String (char_lower c) (lower s)).
  rewrite IH by done. f_equal. unfold char_lower.
  rewrite bool_decide_false; [done|]. apply bool_decide_eq_true in Hc. lia.
Qed.

Lemma hex_removeprefix_0x s : all_chars is_hex_lower s = true → removeprefix "0x" s = None.
Proof.
  destruct s as [|c [|d s]]; simpl; intros H; repeat case_bool_decide; try done.
  subst. by rewrite andb_false_r in H.
Qed.

Lemma hex_removeprefix_0x_ s : all_chars is_hex_lower s = true → removeprefix "0x_" s = None.
Proof.
  destruct s as [|c [|d s]]; simpl; intros H; repeat case_bool_decide; try done.
  subst. by rewrite andb_false_r in H.
Qed.

Lemma hex_removeprefix_plus s : all_chars is_hex_lower s = true → removeprefix "+" s = None.
Proof. destruct s as [|c s]; simpl; intros H; [done|]. case_bool_decide; by subst. Qed.

(** [int(hex_digits(n, v), 16)] is [v] modulo [16^n]. *)
Lemma hex_int_digits n v :
  n ≠ O → hex_int (hex_digits n v) = Some (v mod 16 ^ N.of_nat n)%N.
Proof.
  intros Hn. pose proof (hex_digits_lower n v) as Hl. unfold hex_int.
  unfold strip. rewrite strip_if_id.
  2:{ eapply all_chars_impl, Hl. intros c Hc. unfold is_hex_lower, is_space in *.
      apply bool_decide_eq_true in Hc. rewrite bool_decide_false by lia. done. }
  rewrite hex_removeprefix_plus by done. cbn [default].
  rewrite hex_lower_id, hex_removeprefix_0x_, hex_removeprefix_0x by done. cbn [default].
  rewrite <- (str_app_nil (hex_digits n v)), hex_int_aux_digits.
  by rewrite bool_decide_false by done.
Qed.

Lemma py_len_hex s : all_chars is_hex_lower s = true → py_len s = String.length s.
Proof.
  induction s as [|c s IH]; simpl; [done|]. intros [Hc Hs]%andb_true_iff.
  apply bool_decide_eq_true in Hc. rewrite bool_decide_false by lia. by rewrite IH.
Qed.

Lemma str_length_app (a b : string) : String.length (a +:+ b) = String.length a + String.length b.
Proof. induction a as [|c a IH]; [done|]. rewrite str_app_cons. simpl. by rewrite IH. Qed.

Lemma hex_digits_length n v : String.length (hex_digits n v) = n.
Proof.
  revert v. induction n as [|n IH]; intros v; [done|]. cbn [hex_digits].
  rewrite str_length_app, IH. simpl. lia.
Qed.

(** *** The text form of a UUID *)

Lemma remove_dash_hex n v : remove_all "-" (hex_digits n v) = hex_digits n v.
Proof. by apply (remove_all_absent is_hex_lower); [|apply hex_digits_lower]. Qed.

(** The characters of [str(uuid)]. *)
Definition is_uuid_char (c : ascii) : bool := is_hex_lower c || bool_decide (c = "-"%char).

Lemma uuid_str_chars u : all_chars is_uuid_char (uuid_str u) = true.
Proof.
  assert (∀ n v, all_chars is_uuid_char (hex_digits n v) = true) as Hh.
  { intros n v. eapply all_chars_impl, hex_digits_lower. intros c Hc.
    unfold is_uuid_char. by rewrite Hc. }
  unfold uuid_str. rewrite !all_chars_app, !Hh. done.
Qed.

Lemma remove_dash_uuid u : remove_all "-" (uuid_str u) = uuid_hex u.
Proof.
  unfold uuid_str, uuid_hex. rewrite !remove_char_app, !remove_dash_hex.
  change (remove_all "-" "-") with "". unfold String.append at 2 4 6 8. fold String.append.
  replace (N.shiftr u 96) with (N.shiftr (N.shiftr u 80) (4 * N.of_nat 4))
    by (rewrite N.shiftr_shiftr; f_equal; lia).
  rewrite <- (str_app_assoc (hex_digits 8 _)), hex_digits_app.
  replace (N.shiftr u 80) with (N.shiftr (N.shiftr u 64) (4 * N.of_nat 4))
    by (rewrite N.shiftr_shiftr; f_equal; lia).
  rewrite <- (str_app_assoc (hex_digits (8 + 4) _)), hex_digits_app.
  replace (N.shiftr u 64) with (N.shiftr (N.shiftr u 48) (4 * N.of_nat 4))
    by (rewrite N.shiftr_shiftr; f_equal; lia).
  rewrite <- (str_app_assoc (hex_digits (8 + 4 + 4) _)), hex_digits_app.
  replace 48%N with (4 * N.of_nat 12)%N by lia. by rewrite hex_digits_app.
Qed.

Lemma uuid_parse_str u : uuid_ok u → uuid_parse (uuid_str u) = Some u.
Proof.
  intros Hu. pose proof (uuid_str_chars u) as Hc. unfold uuid_parse.
  rewrite (remove_all_absent is_uuid_char "u" "rn:") by done.
  rewrite (remove_all_absent is_uuid_char "u" "uid:") by done.
  rewrite strip_if_id.
  2:{ eapply all_chars_impl, Hc. intros c. unfold is_uuid_char, is_hex_lower, is_brace.
      rewrite orb_true_iff, !bool_decide_eq_true, negb_true_iff, bool_decide_eq_false.
      assert (code "{" = 123%N) by done. assert (code "}" = 125%N) by done.
      intros [Hx| ->] [Hb|Hb]; try discriminate; subst c; lia. }
  rewrite remove_dash_uuid. unfold uuid_hex.
  rewrite py_len_hex, hex_digits_length by apply hex_digits_lower.
  rewrite bool_decide_true by done. rewrite hex_int_digits by done. f_equal.
  apply N.mod_small. exact Hu.
Qed.

Lemma uuid_str_inj u v : uuid_ok u → uuid_ok v → uuid_str u = uuid_str v → u = v.
Proof.
  intros Hu Hv E. apply (f_equal uuid_parse) in E.
  rewrite !uuid_parse_str in E by done. by simplify_eq.
Qed.

Lemma uuid_str_nonempty u : uuid_str u ≠ "".
Proof.
  intros E. apply (f_equal String.length) in E. unfold uuid_str in E.
  rewrite str_length_app, hex_digits_length in E. simpl in E. lia.
Qed.

#[export] Hint Resolve uuid_str_nonempty : ats.
#[export] Hint Rewrite uuid_parse_str using done : ats.
