(* ===== verification/Unicode.v ===== *)
(** Characters of Unicode texts, where the program splits text into words or
    reads numbers: a Python [str] is the [string] of its UTF-8 bytes, a
    character the bytes of one code point. The tables of Python's [re] are the
    class [Unicode], which fixes what they say of ASCII. *)
From S2P Require Import Prelude PyText.
Local Open Scope string_scope.
Local Open Scope list_scope.

(** A byte that continues a character. *)
Definition continues (c : ascii) : bool := bool_decide (128 ≤ code c < 192)%N.

(** The characters of a text, in order. *)
Fixpoint chars (s : string) : list string :=
  match s with
  | EmptyString => []
  | String c r =>
      match chars r with
      | (String d _ as x) :: rest =>
          if continues d then (String c x) :: rest else String c "" :: x :: rest
      | l => String c "" :: l
      end
  end.

Definition text_of (l : list string) : string := foldr String.append "" l.

Definition is_ascii_word (c : ascii) : bool :=
  is_digit c || bool_decide (65 ≤ code c ≤ 90)%N || bool_decide (97 ≤ code c ≤ 122)%N || bool_decide (code c = 95)%N.

Class Unicode := {
  word_char : string → bool;            (** [\w] *)
  decimal : string → option Z;          (** [\d], and [int()] of the digit *)
  word_char_ascii c : (code c < 128)%N → word_char (String c "") = is_ascii_word c;
  decimal_ascii c : (code c < 128)%N →
    decimal (String c "") = if is_digit c then Some (Z.of_N (code c) - 48)%Z else None }.

(** ASCII, and the Persian letters and digits. *)
Definition persian_digits : list string := ["۰"; "۱"; "۲"; "۳"; "۴"; "۵"; "۶"; "۷"; "۸"; "۹"].
Definition persian_word (s : string) : bool :=
  match s with
  | String c (String _ EmptyString) => bool_decide (216 ≤ code c ≤ 219)%N
  | _ => false
  end.

Fixpoint position (s : string) (l : list string) (i : Z) : option Z :=
  match l with [] => None | x :: r => if bool_decide (x = s) then Some i else position s r (i + 1) end.

#[refine] Definition text_unicode : Unicode := {|
  word_char s := match s with
                 | String c EmptyString => bool_decide (code c < 128)%N && is_ascii_word c
                 | _ => persian_word s
                 end;
  decimal s := match s with
               | String c EmptyString => if is_digit c then Some (Z.of_N (code c) - 48)%Z else None
               | _ => position s persian_digits 0
               end |}.
Proof.
  - intros c Hc. by rewrite bool_decide_true.
  - done.
Defined.

(** Maximal runs of the characters with [p], in order: [re.findall(r"[..]+")]. *)
Fixpoint runs (p : string → bool) (l : list string) (open : string) : list string :=
  match l with
  | [] => if bool_decide (open = "") then [] else [open]
  | c :: r =>
      if p c then runs p r (open +:+ c)
      else if bool_decide (open = "") then runs p r "" else open :: runs p r ""
  end.

Definition words (p : string → bool) (s : string) : list string := runs p (chars s) "".

(** [re.search(r"\d{3,4}", s)] and [int()] of the match: the first position
    that starts at least three digits, of which at most four are taken. *)
Section digits.
Context `{Unicode}.

Fixpoint digits_here (fuel : nat) (l : list string) : list Z :=
  match fuel, l with
  | S k, c :: r => match decimal c with Some d => d :: digits_here k r | None => [] end
  | _, _ => []
  end.

Definition number (ds : list Z) : Z := foldl (λ n d, 10 * n + d)%Z 0%Z ds.

Fixpoint search_year (l : list string) : option Z :=
  match l with
  | [] => None
  | _ :: r =>
      let ds := digits_here 4 l in
      if bool_decide (3 ≤ length ds)%nat then Some (number ds) else search_year r
  end.
End digits.
