(* ===== verification/Regex.v ===== *)
(** Python's regular expressions, as far as the program uses them to rewrite
    texts: a backtracking matcher - the first alternative that lets the rest
    match, repetition greedy - over the characters of a text, and [re.sub]. *)
From S2P Require Import Prelude PyText Unicode.
Local Open Scope string_scope.
Local Open Scope list_scope.

Inductive re :=
  | Eps
  | Chr (p : string → bool)
  | Seq (r s : re)
  | Alt (r s : re)
  | Star (r : re)
  | Rep (r : re) (min more : nat)        (** [r{min,min+more}] *)
  | Lazy (r : re) (most : nat)           (** [r{0,most}?] *)
  | NotBehind (p : string → bool)        (** [(?<!p)] *)
  | NotAhead (p : string → bool)         (** [(?!p)] *)
  | Boundary (p : string → bool).        (** [\b] between [p] and not [p] *)

Definition Opt (r : re) : re := Alt r Eps.
Definition Plus (r : re) : re := Seq r (Star r).
Definition OneOf (l : list string) : re := Chr (λ c, bool_decide (c ∈ l)).
(** Letters that differ in case ([re.IGNORECASE]); four letters outside ASCII
    are variants of ASCII ones. *)
Definition fold_case (c : string) : string :=
  if bool_decide (c ∈ ["ı"; "İ"]) then "i" else if bool_decide (c = "ſ") then "s"
  else if bool_decide (c = "K") then "k" else lower c.
Definition Lit (s : string) : re := foldr (λ c r, Seq (Chr (λ x, bool_decide (fold_case x = fold_case c))) r) Eps (chars s).
(** A text as it stands. *)
Definition Exact (s : string) : re := foldr (λ c r, Seq (OneOf [c]) r) Eps (chars s).
Fixpoint Alts (l : list re) : re := match l with [] => Chr (λ _, false) | [r] => r | r :: l => Alt r (Alts l) end.

Definition holds (p : string → bool) (o : option string) : bool := match o with Some c => p c | None => false end.

(** Match at the head of a text with [prev] before it; [k] is what has to
    match after. A turn of a repetition consumes something. *)
Fixpoint match_re {A} (r : re) (prev : option string) (s : list string)
    (k : option string → list string → option A) : option A :=
  match r with
  | Eps => k prev s
  | Chr p => match s with c :: s' => if p c then k (Some c) s' else None | [] => None end
  | Seq r1 r2 => match_re r1 prev s (λ prev s, match_re r2 prev s k)
  | Alt r1 r2 => match match_re r1 prev s k with Some x => Some x | None => match_re r2 prev s k end
  | Star r =>
      (fix loop (fuel : nat) (prev : option string) (s : list string) : option A :=
         match fuel with
         | O => k prev s
         | S fuel =>
             match match_re r prev s (λ prev' s', if (length s' <? length s)%nat then loop fuel prev' s' else None) with
             | Some x => Some x
             | None => k prev s
             end
         end) (length s) prev s
  | Rep r min more =>
      (fix must (n : nat) (prev : option string) (s : list string) : option A :=
         match n with
         | O =>
             (fix may (m : nat) (prev : option string) (s : list string) : option A :=
                match m with
                | O => k prev s
                | S m => match match_re r prev s (may m) with Some x => Some x | None => k prev s end
                end) more prev s
         | S n => match_re r prev s (must n)
         end) min prev s
  | Lazy r most =>
      (fix may (m : nat) (prev : option string) (s : list string) : option A :=
         match k prev s, m with
         | Some x, _ => Some x
         | None, S m => match_re r prev s (may m)
         | None, O => None
         end) most prev s
  | NotBehind p => if holds p prev then None else k prev s
  | NotAhead p => if holds p (head s) then None else k prev s
  | Boundary p => if xorb (holds p prev) (holds p (head s)) then k prev s else None
  end.

(** The text after a match at this place. *)
Definition match_at (r : re) (prev : option string) (s : list string) : option (list string) :=
  match_re r prev s (λ _ s, Some s).

(** [re.sub(r, repl, s)] of a pattern that never matches the empty text, from
    the left; the length of the text is enough fuel. *)
Fixpoint sub_from (r : re) (repl : list string) (fuel : nat) (prev : option string) (s : list string) : list string :=
  match fuel, s with
  | S fuel, c :: rest =>
      match match_at r prev s with
      | Some s' =>
          if (length s' <? length s)%nat
          then repl ++ sub_from r repl fuel (last (take (length s - length s') s)) s'
          else c :: sub_from r repl fuel (Some c) rest
      | None => c :: sub_from r repl fuel (Some c) rest
      end
  | _, _ => []
  end.

Definition sub (r : re) (repl s : string) : string :=
  let l := chars s in text_of (sub_from r (chars repl) (length l) None l).

(** The first place, from the left, where [at_] finds something. *)
Fixpoint search_with {A} (at_ : option string → list string → option A) (prev : option string) (s : list string) : option A :=
  match at_ prev s with
  | Some x => Some x
  | None => match s with [] => None | c :: s => search_with at_ (Some c) s end
  end.

(** What lies between two places of a text. *)
Definition between (s s' : list string) : list string := take (length s - length s') s.

(** [re.search(r, s).group(0)] *)
Definition group0 (r : re) (s : list string) : option (list string) :=
  search_with (λ prev s, match_re r prev s (λ _ s', Some (between s s'))) None s.

(** [re.search(r, s).group(1)] of a pattern [r] that is [before(group)after]. *)
Definition group1 (before group after : re) (s : list string) : option (list string) :=
  search_with (λ prev s, match_re before prev s (λ prev s1, match_re group prev s1 (λ prev s2,
    match_re after prev s2 (λ _ _, Some (between s1 s2))))) None s.

(** [re.finditer(..)]: [at_] gives what a match at this place says and the
    text after it; a match that consumes nothing is followed by a search one
    character further. *)
Fixpoint find_all {A} (at_ : option string → list string → option (A * list string)) (fuel : nat)
    (prev : option string) (s : list string) : list A :=
  match fuel with
  | O => []
  | S fuel =>
      match at_ prev s, s with
      | Some (x, s'), c :: rest =>
          if (length s' <? length s)%nat then x :: find_all at_ fuel (last (between s s')) s'
          else x :: find_all at_ fuel (Some c) rest
      | Some (x, _), [] => [x]
      | None, c :: rest => find_all at_ fuel (Some c) rest
      | None, [] => []
      end
  end.

Definition finditer {A} (at_ : option string → list string → option (A * list string)) (s : list string) : list A :=
  find_all at_ (S (length s)) None s.

(** [re.split(r, s)]: what lies between the matches; [piece] is open. *)
Fixpoint split_from (r : re) (fuel : nat) (prev : option string) (piece s : list string) : list (list string) :=
  match fuel with
  | O => [piece]
  | S fuel =>
      match s with
      | [] => [piece]
      | c :: rest =>
          match match_at r prev s with
          | Some s' =>
              if (length s' <? length s)%nat then piece :: split_from r fuel (last (between s s')) [] s'
              else split_from r fuel (Some c) (piece ++ [c]) rest
          | None => split_from r fuel (Some c) (piece ++ [c]) rest
          end
      end
  end.

Definition re_split (r : re) (s : list string) : list (list string) := split_from r (S (length s)) None [] s.

(** [re.search(r, s)] finds something. *)
Fixpoint found (r : re) (prev : option string) (s : list string) : bool :=
  match match_at r prev s with
  | Some _ => true
  | None => match s with [] => false | c :: s => found r (Some c) s end
  end.

Definition search (r : re) (s : string) : bool := found r None (chars s).

(** ** Laws *)

Lemma chars_cons c s : ∃ x l, chars (String c s) = x :: l ∧ x +:+ text_of l = String c (text_of (chars s)).
Proof.
  cbn [chars]. destruct (chars s) as [|[|d x] rest].
  - by exists (String c ""), [].
  - by exists (String c ""), ("" :: rest).
  - destruct (continues d); [by exists (String c (String d x)), rest|by exists (String c ""), (String d x :: rest)].
Qed.

Lemma text_of_chars s : text_of (chars s) = s.
Proof.
  induction s as [|c s IH]; [done|]. destruct (chars_cons c s) as (x & l & -> & E). change (x +:+ text_of l = String c s). by rewrite E, IH.
Qed.

(** Texts without a match stay as they are. *)
Lemma sub_from_absent r repl s : ∀ prev, found r prev s = false → sub_from r repl (length s) prev s = s.
Proof.
  induction s as [|c s IH]; intros prev Hf; [done|]. cbn [found length sub_from] in *.
  destruct (match_at r prev (c :: s)); [done|]. f_equal. by apply IH.
Qed.

Lemma sub_absent r repl s : search r s = false → sub r repl s = s.
Proof. unfold search, sub. intros Hf. rewrite sub_from_absent by done. apply text_of_chars. Qed.

(** ... and are not split. *)
Lemma split_from_absent r s : ∀ fuel prev piece,
  found r prev s = false → (length s < fuel)%nat → split_from r fuel prev piece s = [piece ++ s].
Proof.
  induction s as [|c s IH]; intros [|fuel] prev piece Hf Hl; cbn [length] in Hl; try lia; cbn [found split_from] in *.
  - by rewrite app_nil_r.
  - destruct (match_at r prev (c :: s)); [done|]. rewrite IH by (done || lia). by rewrite <- app_assoc.
Qed.

Lemma re_split_absent r s : found r None s = false → re_split r s = [s].
Proof. intros Hf. unfold re_split. by rewrite split_from_absent by (done || lia). Qed.

(** *** What a match leaves is an end of the text *)

Lemma match_re_suffix {A} (r : re) : ∀ prev s (k : option string → list string → option A) x,
  match_re r prev s k = Some x → ∃ prev' s', k prev' s' = Some x ∧ s' `suffix_of` s.
Proof.
  induction r as [|p|r1 IH1 r2 IH2|r1 IH1 r2 IH2|r IH|r IH min more|r IH most|p|p|p]; intros prev s k x Hm; cbn [match_re] in Hm.
  - eauto.
  - destruct s as [|c s]; [done|]. destruct (p c); [|done]. exists (Some c), s. split; [done|by apply suffix_cons_r].
  - apply IH1 in Hm as (p1 & s1 & Hm & Hs1). apply IH2 in Hm as (p2 & s2 & Hk & Hs2).
    exists p2, s2. split; [done|by etrans].
  - destruct (match_re r1 prev s k) eqn:E; [injection Hm as <-; by apply IH1 in E|by apply IH2 in Hm].
  - revert Hm. generalize (length s) as fuel. intros fuel. revert prev s. induction fuel as [|fuel IHf]; intros prev s Hm; [eauto|].
    destruct (match_re r prev s _) eqn:E; [|eauto]. injection Hm as <-.
    apply IH in E as (p1 & s1 & Hm & Hs1). destruct (_ <? _)%nat; [|done].
    apply IHf in Hm as (p2 & s2 & Hk & Hs2). exists p2, s2. split; [done|by etrans].
  - revert prev s Hm. induction min as [|min IHn]; intros prev s Hm.
    + revert prev s Hm. induction more as [|more IHm]; intros prev s Hm; [eauto|].
      destruct (match_re r prev s _) eqn:E; [|eauto]. injection Hm as <-.
      apply IH in E as (p1 & s1 & Hm & Hs1). apply IHm in Hm as (p2 & s2 & Hk & Hs2).
      exists p2, s2. split; [done|by etrans].
    + apply IH in Hm as (p1 & s1 & Hm & Hs1). apply IHn in Hm as (p2 & s2 & Hk & Hs2).
      exists p2, s2. split; [done|by etrans].
  - revert prev s Hm. induction most as [|most IHm]; intros prev s Hm.
    + destruct (k prev s) eqn:E; [|done]. injection Hm as <-. eauto.
    + destruct (k prev s) eqn:E; [injection Hm as <-; eauto|].
      apply IH in Hm as (p1 & s1 & Hm & Hs1). apply IHm in Hm as (p2 & s2 & Hk & Hs2).
      exists p2, s2. split; [done|by etrans].
  - destruct (holds p prev); [done|eauto].
  - destruct (holds p (head s)); [done|eauto].
  - destruct (xorb _ _); [eauto|done].
Qed.

Lemma chr_match {A} p prev s (k : option string → list string → option A) x :
  match_re (Chr p) prev s k = Some x → ∃ c s', s = c :: s' ∧ p c = true ∧ k (Some c) s' = Some x.
Proof. cbn. destruct s as [|c s]; [done|]. destruct (p c) eqn:E; [|done]. eauto. Qed.

Lemma seq_match {A} r1 r2 prev s (k : option string → list string → option A) :
  match_re (Seq r1 r2) prev s k = match_re r1 prev s (λ prev s, match_re r2 prev s k).
Proof. done. Qed.

Lemma star_match {A} p prev s (k : option string → list string → option A) x :
  match_re (Star (Chr p)) prev s k = Some x →
  ∃ w prev' s', s = w ++ s' ∧ Forall (λ c, p c = true) w ∧ k prev' s' = Some x.
Proof.
  assert (∀ prev s k (x : A), match_re (Chr p) prev s k = Some x →
    ∃ c s', s = c :: s' ∧ p c = true ∧ k (Some c) s' = Some x) as Hchr by apply chr_match.
  revert Hchr. generalize (Chr p) as r. intros r Hchr. cbn [match_re]. generalize (length s) as fuel. intros fuel. revert prev s.
  induction fuel as [|fuel IH]; intros prev s Hm; [by exists [], prev, s|].
  destruct (match_re r prev s _) eqn:E; [|by exists [], prev, s]. injection Hm as <-.
  apply Hchr in E as (c & s1 & -> & Hc & E). destruct (_ <? _)%nat in E; [|done].
  apply IH in E as (w & p' & s' & -> & Hw & Hk). exists (c :: w), p', s'. split; [done|]. split; [by constructor|done].
Qed.

(** [a] stands somewhere in [b]. *)
Definition infix (a b : list string) : Prop := ∃ l r, b = l ++ a ++ r.

#[export] Instance infix_refl : Reflexive infix.
Proof. intros a. exists [], []. by rewrite app_nil_r. Qed.
#[export] Instance infix_trans : Transitive infix.
Proof. intros a b c (l1 & r1 & ->) (l2 & r2 & ->). exists (l2 ++ l1), (r1 ++ r2). by rewrite <- !app_assoc. Qed.

Lemma infix_suffix a b : a `suffix_of` b → infix a b.
Proof. intros [l ->]. exists l, []. by rewrite app_nil_r. Qed.

Lemma infix_between s s' : infix (between s s') s.
Proof. exists [], (drop (length s - length s') s). unfold between. cbn [app]. by rewrite take_drop. Qed.

Lemma search_with_suffix {A} (at_ : option string → list string → option A) s : ∀ prev x,
  search_with at_ prev s = Some x → ∃ prev' s', at_ prev' s' = Some x ∧ s' `suffix_of` s.
Proof.
  induction s as [|c s IH]; intros prev x; cbn [search_with]; destruct (at_ prev _) eqn:E; intros Hx; try done.
  1,2: injection Hx as <-; eauto.
  apply IH in Hx as (p & s' & Ha & Hs). exists p, s'. split; [done|by apply suffix_cons_r].
Qed.

Lemma group0_infix r s x : group0 r s = Some x → infix x s.
Proof.
  intros (p & s1 & Hm & Hs)%search_with_suffix. apply match_re_suffix in Hm as (p2 & s2 & [= <-] & _).
  transitivity s1; [apply infix_between|by apply infix_suffix].
Qed.

Lemma group1_infix b g a s x : group1 b g a s = Some x → infix x s.
Proof.
  intros (p & s0 & Hm & Hs)%search_with_suffix. apply match_re_suffix in Hm as (p1 & s1 & Hm & Hs1).
  apply match_re_suffix in Hm as (p2 & s2 & Hm & _). apply match_re_suffix in Hm as (p3 & s3 & [= <-] & _).
  transitivity s1; [apply infix_between|]. apply infix_suffix. by etrans.
Qed.
