(* ===== verification/Texts.v ===== *)
(** Texts as their characters: the [str] methods of Python where the program
    reads documents, with the white space and the line ends of Unicode. *)
From S2P Require Import Prelude PyText Unicode Regex.
Local Open Scope string_scope.
Local Open Scope list_scope.

Definition text := list string.

(** The character with a code point below 2^16. *)
Definition utf8 (n : N) : string :=
  if bool_decide (n < 128)%N then String (ascii_of_N n) ""
  else if bool_decide (n < 2048)%N then String (ascii_of_N (192 + n / 64)) (String (ascii_of_N (128 + n mod 64)) "")
  else String (ascii_of_N (224 + n / 4096))
         (String (ascii_of_N (128 + n / 64 mod 64)) (String (ascii_of_N (128 + n mod 64)) "")).

(** [str.isspace], which is also [\s]; and where [str.splitlines] breaks. *)
Definition SPACES : list string := Eval vm_compute in
  utf8 <$> [9; 10; 11; 12; 13; 28; 29; 30; 31; 32; 0x85; 0xa0; 0x1680; 0x2000; 0x2001; 0x2002; 0x2003; 0x2004; 0x2005;
            0x2006; 0x2007; 0x2008; 0x2009; 0x200a; 0x2028; 0x2029; 0x202f; 0x205f; 0x3000]%N.
Definition LINE_BREAKS : list string := Eval vm_compute in
  utf8 <$> [10; 11; 12; 13; 28; 29; 30; 0x85; 0x2028; 0x2029]%N.
Definition LF : string := Eval vm_compute in utf8 10.
Definition CR : string := Eval vm_compute in utf8 13.

Definition is_wide_space (c : string) : bool := bool_decide (c ∈ SPACES).
Definition breaks_line (c : string) : bool := bool_decide (c ∈ LINE_BREAKS).

(** [s.strip()] *)
Fixpoint lstrip_text (s : text) : text :=
  match s with c :: r => if is_wide_space c then lstrip_text r else s | [] => [] end.
Fixpoint rstrip_text (s : text) : text :=
  match s with
  | [] => []
  | c :: r => match rstrip_text r with [] => if is_wide_space c then [] else [c] | r' => c :: r' end
  end.
Definition strip_text (s : text) : text := rstrip_text (lstrip_text s).

(** [s.split()]; [word] is open. *)
Fixpoint words_from (word s : text) : list text :=
  match s with
  | [] => match word with [] => [] | _ => [word] end
  | c :: r =>
      if is_wide_space c then match word with [] => words_from [] r | _ => word :: words_from [] r end
      else words_from (word ++ [c]) r
  end.
Definition split_words (s : text) : list text := words_from [] s.

(** [s.splitlines()]; [line] is open. *)
Fixpoint lines_from (line s : text) : list text :=
  match s with
  | [] => match line with [] => [] | _ => [line] end
  | c :: r =>
      if breaks_line c then
        line :: match r with
                | d :: r' => if bool_decide (c = CR) && bool_decide (d = LF) then lines_from [] r' else lines_from [] r
                | [] => []
                end
      else lines_from (line ++ [c]) r
  end.
Definition splitlines (s : text) : list text := lines_from [] s.

(** [sep.join(l)] *)
Fixpoint join_texts (sep : text) (l : list text) : text :=
  match l with
  | [] => []
  | [x] => x
  | x :: r => x ++ sep ++ join_texts sep r
  end.

(** [x in s] *)
Fixpoint starts_text (x s : text) : bool :=
  match x, s with
  | [], _ => true
  | c :: x, d :: s => bool_decide (c = d) && starts_text x s
  | _ :: _, [] => false
  end.
Fixpoint contains_text (s x : text) : bool :=
  starts_text x s || match s with [] => false | _ :: r => contains_text r x end.

Definition lower_text (s : text) : text := lower <$> s.

Definition empty_text (s : text) : bool := match s with [] => true | _ => false end.

(** Persian and Arabic digits as Latin ones. *)
Definition arabic_digits : list string := ["٠"; "١"; "٢"; "٣"; "٤"; "٥"; "٦"; "٧"; "٨"; "٩"].
Definition latin_digits : list string := ["0"; "1"; "2"; "3"; "4"; "5"; "6"; "7"; "8"; "9"].

Definition latin_digit (c : string) : string :=
  match position c persian_digits 0 with
  | Some i => nth (Z.to_nat i) latin_digits c
  | None => match position c arabic_digits 0 with Some i => nth (Z.to_nat i) latin_digits c | None => c end
  end.

Definition normalize_digits (s : text) : text := latin_digit <$> s.

(** ** Lemmas *)

Lemma starts_text_app x s : starts_text x s = true → ∃ r, s = x ++ r.
Proof.
  revert s. induction x as [|c x IH]; intros [|d s]; cbn; try done; [eauto|eauto|].
  intros [->%bool_decide_eq_true [r ->]%IH]%andb_true_iff. eauto.
Qed.

Lemma contains_text_infix s x : contains_text s x = true → infix x s.
Proof.
  induction s as [|c s IH]; cbn [contains_text]; rewrite orb_true_iff; intros [Hs|Hs]; try done.
  1,2: apply starts_text_app in Hs as [r ->]; by exists [], r.
  apply IH in Hs as (l & r & ->). by exists (c :: l), r.
Qed.

Lemma lstrip_suffix s : lstrip_text s `suffix_of` s.
Proof. induction s as [|c s IH]; cbn; [done|]. destruct (is_wide_space c); [by apply suffix_cons_r|done]. Qed.

Lemma rstrip_prefix s : rstrip_text s `prefix_of` s.
Proof.
  induction s as [|c s [r E]]; cbn; [done|]. destruct (rstrip_text s) as [|d s'] eqn:Hd.
  - destruct (is_wide_space c); [apply prefix_nil|]. exists s. done.
  - exists r. cbn. by rewrite E.
Qed.

Lemma strip_infix s : infix (strip_text s) s.
Proof.
  destruct (lstrip_suffix s) as [l E]. destruct (rstrip_prefix (lstrip_text s)) as [r E'].
  exists l, r. unfold strip_text. by rewrite <- E'.
Qed.

(** A line or a word is part of the text. *)
Lemma lines_from_infix s : ∀ line x, x ∈ lines_from line s → infix x (line ++ s).
Proof.
  assert (∀ n s line x, (length s ≤ n)%nat → x ∈ lines_from line s → infix x (line ++ s)) as Hall.
  2:{ intros line x. by apply (Hall (length s)). }
  induction n as [|n IH]; intros t line x Hn Hx.
  - destruct t; [|cbn in Hn; lia]. cbn in Hx. destruct line; [by apply elem_of_nil in Hx|].
    apply list_elem_of_singleton in Hx as ->. by rewrite app_nil_r.
  - destruct t as [|c r]; cbn [lines_from] in Hx.
    { destruct line; [by apply elem_of_nil in Hx|]. apply list_elem_of_singleton in Hx as ->. by rewrite app_nil_r. }
    cbn in Hn. assert (∀ t', t' `suffix_of` r → infix x t' → infix x (line ++ c :: r)) as Htail.
    { intros t' [p ->] Hi. transitivity t'; [done|]. apply infix_suffix. exists (line ++ c :: p). by rewrite <- app_assoc. }
    destruct (breaks_line c).
    + apply elem_of_cons in Hx as [->|Hx]; [by exists [], (c :: r)|].
      destruct r as [|d r]; [by apply elem_of_nil in Hx|]. cbn in Hn. destruct (_ && _).
      * apply (Htail r); [by apply suffix_cons_r|]. apply (IH r []); [lia|done].
      * apply (Htail (d :: r)); [done|]. apply (IH (d :: r) []); [cbn; lia|done].
    + apply IH in Hx; [|lia]. by rewrite <- app_assoc in Hx.
Qed.

Lemma splitlines_infix s x : x ∈ splitlines s → infix x s.
Proof. apply (lines_from_infix s []). Qed.
