(* ===== verification/Rounding.v ===== *)
(** Rounding to two decimals ([round(x, 2)]). Floats of the scoring code are
    exact rationals here: a double differs from the exact value by less than
    its rounding step, so only an exact tie can round differently. *)
From S2P Require Import Prelude.
From Stdlib Require Import QArith Lqa.
Local Open Scope Z_scope.

(** [round(n / d, 2)] in hundredths, ties to even. *)
Definition round_hundredths (n d : Z) : Z :=
  let q := (100 * n) / d in
  let r := (100 * n) mod d in
  if 2 * r <? d then q else if d <? 2 * r then q + 1 else if Z.even q then q else q + 1.

Definition round2 (q : Q) : Q := Qmake (round_hundredths (Qnum q) (Zpos (Qden q))) 100.

(** [round(x)]: to the nearest integer, ties to even. *)
Definition round0 (q : Q) : Z :=
  let n := Qnum q in let d := Zpos (Qden q) in
  let i := n / d in let r := n mod d in
  if 2 * r <? d then i else if d <? 2 * r then i + 1 else if Z.even i then i else i + 1.

Lemma round_hundredths_near n d :
  0 < d → - d <= 2 * (d * round_hundredths n d - 100 * n) <= d.
Proof.
  intros Hd. unfold round_hundredths. pose proof (Z.div_mod (100 * n) d ltac:(lia)) as E.
  pose proof (Z.mod_pos_bound (100 * n) d Hd) as Hb.
  destruct (Z.ltb_spec (2 * ((100 * n) mod d)) d); [nia|].
  destruct (Z.ltb_spec d (2 * ((100 * n) mod d))); [nia|]. destruct (Z.even _); nia.
Qed.

(** Rounding keeps the order. *)
Lemma round_hundredths_mono n d n' d' :
  0 < d → 0 < d' → n * d' <= n' * d → round_hundredths n d <= round_hundredths n' d'.
Proof.
  intros Hd Hd' Hle. unfold round_hundredths.
  pose proof (Z.div_mod (100 * n) d ltac:(lia)) as E. pose proof (Z.mod_pos_bound (100 * n) d Hd) as Hb.
  pose proof (Z.div_mod (100 * n') d' ltac:(lia)) as E'. pose proof (Z.mod_pos_bound (100 * n') d' Hd') as Hb'.
  set (q := (100 * n) / d) in *. set (r := (100 * n) mod d) in *.
  set (q' := (100 * n') / d') in *. set (r' := (100 * n') mod d') in *.
  assert ((d * q + r) * d' <= (d' * q' + r') * d) as Hqr by nia.
  assert (q <= q') as Hq.
  { destruct (Z.le_gt_cases q q') as [|Hgt]; [done|exfalso].
    assert (d * d' * (q' + 1) <= d * d' * q) by (apply Z.mul_le_mono_nonneg_l; nia). nia. }
  destruct (Z.eq_dec q q') as [Heq|Hne].
  - assert (r * d' <= r' * d) by nia. rewrite Heq.
    destruct (Z.ltb_spec (2 * r) d); destruct (Z.ltb_spec (2 * r') d');
      destruct (Z.ltb_spec d (2 * r)); destruct (Z.ltb_spec d' (2 * r')); destruct (Z.even q'); nia.
  - destruct (2 * r <? d), (d <? 2 * r), (Z.even q), (2 * r' <? d'), (d' <? 2 * r'), (Z.even q'); lia.
Qed.

Lemma round2_mono p q : (p <= q)%Q → (round2 p <= round2 q)%Q.
Proof.
  unfold Qle, round2. cbn [Qnum Qden]. intros Hle.
  pose proof (round_hundredths_mono (Qnum p) (Zpos (Qden p)) (Qnum q) (Zpos (Qden q))). nia.
Qed.
