(* ===== verification/Sanitize.v ===== *)
(** Sanitising of free text ([app/core/sanitize.py]). *)
From S2P Require Import Prelude PyText.
Local Open Scope string_scope.
Local Open Scope list_scope.

(** [re.sub(r"<[^>]*>", "", s)]: [tag] is the text of a tag that is open and
    not yet closed; one that is never closed stays. *)
Fixpoint sub_tags (s : string) (tag : option string) : string :=
  match s, tag with
  | EmptyString, None => EmptyString
  | EmptyString, Some t => t
  | String c r, None =>
      if bool_decide (c = "<"%char) then sub_tags r (Some "<") else String c (sub_tags r None)
  | String c r, Some t =>
      if bool_decide (c = ">"%char) then sub_tags r None else sub_tags r (Some (t +:+ String c ""))
  end.

Definition strip_html_tags (value : string) : string := strip (sub_tags value None).

(** ** Lemmas *)

Definition not_gt (c : ascii) : bool := negb (bool_decide (c = ">"%char)).
Definition not_lt (c : ascii) : bool := negb (bool_decide (c = "<"%char)).

(** No tag is left: no [<] has a [>] after it. *)
Fixpoint tag_free (s : string) : bool :=
  match s with
  | EmptyString => true
  | String c r => (not_lt c || all_chars not_gt r) && tag_free r
  end.

Lemma all_not_gt_tag_free s : all_chars not_gt s = true → tag_free s = true.
Proof.
  induction s as [|c r IH]; simpl; [done|]. intros [_ Hr]%andb_true_iff.
  rewrite Hr, orb_true_r. simpl. auto.
Qed.

(** The text of an open tag has no [>]. *)
Lemma sub_tags_open s t :
  all_chars not_gt t = true →
  tag_free (sub_tags s (Some t)) = true ∧ tag_free (sub_tags s None) = true.
Proof.
  revert t. induction s as [|c r IH]; intros t Ht; simpl.
  - split; [by apply all_not_gt_tag_free|done].
  - destruct (IH t Ht) as [_ Hn]. split.
    + case_bool_decide as Hc; [done|]. apply IH. rewrite all_chars_app, Ht. simpl.
      unfold not_gt. by rewrite bool_decide_false.
    + case_bool_decide as Hc; [by apply (IH "<")|]. simpl. unfold not_lt.
      rewrite bool_decide_false by done. done.
Qed.

Lemma lstrip_tag_free p s : tag_free s = true → tag_free (lstrip_if p s) = true.
Proof.
  induction s as [|c r IH]; simpl; [done|]. intros H.
  destruct (p c); [|done]. apply andb_true_iff in H as [_ Hr]. auto.
Qed.

Lemma rstrip_all_chars p q s : all_chars q s = true → all_chars q (rstrip_if p s) = true.
Proof.
  induction s as [|c r IH]; simpl; [done|]. intros [Hc Hr]%andb_true_iff.
  specialize (IH Hr). repeat case_match; simpl in *; rewrite ?Hc, ?IH; done.
Qed.

Lemma rstrip_tag_free p s : tag_free s = true → tag_free (rstrip_if p s) = true.
Proof.
  induction s as [|c r IH]; [done|].
  change (tag_free (String c r)) with ((not_lt c || all_chars not_gt r) && tag_free r).
  intros [Hc Hr]%andb_true_iff. specialize (IH Hr). cbn [rstrip_if].
  assert (not_lt c || all_chars not_gt (rstrip_if p r) = true) as Hc'.
  { apply orb_true_iff in Hc as [->|Hc]; [done|]. by rewrite rstrip_all_chars, orb_true_r. }
  destruct (rstrip_if p r) as [|d r'].
  - destruct (p c); [done|]. simpl. by rewrite orb_true_r.
  - change (tag_free (String c (String d r'))) with
      ((not_lt c || all_chars not_gt (String d r')) && tag_free (String d r')).
    by rewrite Hc', IH.
Qed.

(** A text without a complete tag is only stripped. *)
Lemma sub_tags_id s : tag_free s = true →
  sub_tags s None = s ∧ ∀ t, all_chars not_gt s = true → sub_tags s (Some t) = t +:+ s.
Proof.
  induction s as [|c r IH]; [intros _; split; [done|]; intros t _; simpl; by rewrite str_app_nil|].
  change (tag_free (String c r)) with ((not_lt c || all_chars not_gt r) && tag_free r).
  intros [Hc Hr]%andb_true_iff. destruct (IH Hr) as [IH1 IH2]. split.
  - cbn [sub_tags]. case_bool_decide as Hl.
    + subst c. simpl in Hc. by rewrite IH2.
    + by rewrite IH1.
  - intros t [Hg Hall]%andb_true_iff. cbn [sub_tags]. unfold not_gt in Hg.
    apply negb_true_iff, bool_decide_eq_false in Hg. rewrite bool_decide_false by done.
    rewrite IH2 by done. rewrite str_app_assoc. done.
Qed.

(** ** Properties *)

(** C19. Sanitised text has no tag in it, whatever the input: no [<] of the
    result is followed by a [>], not even one put together by the removal of
    others; and text that had none is only stripped of outer white space. *)
Theorem sanitized_text_has_no_tag (value : string) :
  tag_free (strip_html_tags value) = true ∧
  (tag_free value = true → strip_html_tags value = strip value) ∧
  (∀ a b c, strip_html_tags value ≠ a +:+ "<" +:+ b +:+ ">" +:+ c).
Proof.
  assert (tag_free (strip_html_tags value) = true) as Ht.
  { apply rstrip_tag_free, lstrip_tag_free. by apply (sub_tags_open value ""). }
  split_and!; [done| |].
  - intros Hv. unfold strip_html_tags. by rewrite (proj1 (sub_tags_id _ Hv)).
  - intros a b c E. rewrite E in Ht. clear E.
    induction a as [|d a IH].
    + change ("" +:+ "<" +:+ b +:+ ">" +:+ c) with (String "<" (b +:+ ">" +:+ c)) in Ht.
      apply andb_true_iff in Ht as [Hg _]. simpl in Hg. rewrite !all_chars_app in Hg.
      apply andb_true_iff in Hg as [_ Hg]. done.
    + apply IH. rewrite str_app_cons in Ht. by apply andb_true_iff in Ht as [_ Ht].
Qed.
