(* ===== verification/Config.v ===== *)
(** The settings of the program ([app/core/config.py]): every setting the
    modelled code reads, with the defaults of the class. Components take the
    settings as a class argument, so a theorem states which of them it needs. *)
From S2P Require Import Prelude.
From Stdlib Require Import QArith.
Local Open Scope string_scope.
Local Open Scope Z_scope.

Class Settings := mkSettings {
  PROJECT_NAME : string;
  API_V1_PREFIX : string;
  ENVIRONMENT : string;
  DB_POOL_SIZE : Z;
  DB_MAX_OVERFLOW : Z;
  DB_RLS_ROLE : string;
  SERVICE_NAME : string;
  SERVICE_AUTH_PRIVATE_KEY_FILE : string;
  SERVICE_AUTH_PUBLIC_KEYS_DIR : string;
  INTERNAL_API_URL : string;
  SECRET_KEY : string;
  ACCESS_TOKEN_EXPIRE_MINUTES : Z;
  REFRESH_TOKEN_EXPIRE_DAYS : Z;
  PII_ENCRYPTION_KEYS : string;
  PII_BLIND_INDEX_KEY : string;
  RESUME_PIPELINE : string;
  AGENT_TIMEOUT_SECONDS : Q;
  GEOIP_DB_PATH : string;
  SUSPICIOUS_LOGIN_DISTANCE_KM : Q;
  SUSPICIOUS_LOGIN_SPEED_KMH : Q;
  FRONTEND_ORIGIN : string;
  STORAGE_BACKEND : string;
  MEDIA_ROOT : string;
  MEDIA_BASE_URL : string;
  S3_ENDPOINT_URL : string;
  S3_BUCKET_NAME : string;
  S3_REGION : string;
  S3_PUBLIC_BASE_URL : string;
  OPS_WEBHOOK_TOKEN : string;
  OPS_ALERT_RECIPIENT_ROLES : string;
  OPS_ALERT_TENANT_ID : string;
  GENAI_BASE_URL : string;
  GENAI_MODEL : string;
  GENAI_TIMEOUT_SECONDS : Q;
  GENAI_MAX_OUTPUT_TOKENS : Z;
  GENAI_STRUCTURED_OUTPUT : string }.

(** [Settings()] with no environment. *)
Definition default_settings : Settings := {|
  PROJECT_NAME := "ATS Smart";
  API_V1_PREFIX := "/api/v1";
  ENVIRONMENT := "development";
  DB_POOL_SIZE := 10;
  DB_MAX_OVERFLOW := 10;
  DB_RLS_ROLE := "ats_app";
  SERVICE_NAME := "backend-api";
  SERVICE_AUTH_PRIVATE_KEY_FILE := "";
  SERVICE_AUTH_PUBLIC_KEYS_DIR := "";
  INTERNAL_API_URL := "";
  SECRET_KEY := "changeme-in-env-file";
  ACCESS_TOKEN_EXPIRE_MINUTES := 15;
  REFRESH_TOKEN_EXPIRE_DAYS := 7;
  PII_ENCRYPTION_KEYS := "";
  PII_BLIND_INDEX_KEY := "";
  RESUME_PIPELINE := "multi_agent";
  AGENT_TIMEOUT_SECONDS := 20;
  GEOIP_DB_PATH := "";
  SUSPICIOUS_LOGIN_DISTANCE_KM := 500;
  SUSPICIOUS_LOGIN_SPEED_KMH := 900;
  FRONTEND_ORIGIN := "http://localhost:5173";
  STORAGE_BACKEND := "local";
  MEDIA_ROOT := "media";
  MEDIA_BASE_URL := "http://localhost:8000/media";
  S3_ENDPOINT_URL := "";
  S3_BUCKET_NAME := "";
  S3_REGION := "us-east-1";
  S3_PUBLIC_BASE_URL := "";
  OPS_WEBHOOK_TOKEN := "";
  OPS_ALERT_RECIPIENT_ROLES := "Admin";
  OPS_ALERT_TENANT_ID := "";
  GENAI_BASE_URL := "";
  GENAI_MODEL := "";
  GENAI_TIMEOUT_SECONDS := 240;
  GENAI_MAX_OUTPUT_TOKENS := 4096;
  GENAI_STRUCTURED_OUTPUT := "json_schema" |}.

Definition nonempty (s : string) : bool := negb (bool_decide (s = "")).

Definition internal_api_enabled `{Settings} : bool :=
  nonempty INTERNAL_API_URL && nonempty SERVICE_AUTH_PRIVATE_KEY_FILE.

Definition genai_enabled `{Settings} : bool :=
  nonempty GENAI_BASE_URL && nonempty GENAI_MODEL.
