(* ===== verification/Storage.v ===== *)
(** Resume file storage ([app/core/storage.py]): the object keys, the URLs of
    the two back ends and the way back from a URL to the file. *)
From S2P Require Import Prelude PyText Config.
Local Open Scope string_scope.

(** ** Object keys *)

(** The characters [_SAFE_FILENAME_PATTERN] keeps: [A-Za-z0-9._-] *)
Definition is_safe_char (c : ascii) : bool :=
  is_digit c || bool_decide ((65 ≤ code c ≤ 90)%N ∨ (97 ≤ code c ≤ 122)%N) ||
  bool_decide (c = "."%char ∨ c = "_"%char ∨ c = "-"%char).

(** [_SAFE_FILENAME_PATTERN.sub("_", name)]: each run of other characters
    becomes one underscore ([in_run]: the previous character was replaced). *)
Fixpoint safe_sub (s : string) (in_run : bool) : string :=
  match s with
  | EmptyString => EmptyString
  | String c r =>
      if is_safe_char c then String c (safe_sub r false)
      else if in_run then safe_sub r true
      else String "_" (safe_sub r true)
  end.

Definition _build_object_key (candidate_id fresh : uuid) (original_filename : string) : string :=
  let sub := safe_sub original_filename false in
  let safe_name := if nonempty sub then sub else "resume" in
  uuid_str candidate_id +:+ "/" +:+ uuid_hex fresh +:+ "_" +:+ safe_name.

Definition is_slash (c : ascii) : bool := bool_decide (c = "/"%char).
Definition rstrip_slash (s : string) : string := rstrip_if is_slash s.

(** ** Paths *)

(** An absolute path: its components, root first. [None] for the
    implementation-defined root [//]. *)
Abbreviation abs_path := (list string).

(** The components of a path text; empty ones and [.] vanish. *)
Definition path_parts (s : string) : list string :=
  filter (λ p, p ≠ "" ∧ p ≠ ".") (split "/" s).

Definition is_absolute (s : string) : bool := startswith s "/".
Definition double_root (s : string) : bool := startswith s "//" && negb (startswith s "///").

(** [Path.resolve()] on a file system without symbolic links: [..] removes
    the component before it; at the root it does nothing. *)
Definition resolve_parts (ps : list string) : abs_path :=
  fold_left (λ acc p, if bool_decide (p = "..") then removelast acc else (acc ++ [p])%list) ps [].

(** [path.is_relative_to(root)] *)
Fixpoint is_relative_to (path root : abs_path) {struct root} : bool :=
  match root, path with
  | [], _ => true
  | r :: root', p :: path' => bool_decide (r = p) && is_relative_to path' root'
  | _ :: _, [] => false
  end.

(** ** The file system *)

Inductive Node := Dir | File (content : string).

(** What stands at the absolute paths below the root. *)
Abbreviation FileSystem := (gmap abs_path Node).

(** [mkdir(parents=True, exist_ok=True)] of [base / rest] where [base] is a
    directory; a file in the way is an [OSError]. *)
Fixpoint make_dirs (fs : FileSystem) (base : abs_path) (rest : list string) : option FileSystem :=
  match rest with
  | [] => Some fs
  | d :: rest =>
      let q := (base ++ [d])%list in
      match fs !! q with
      | Some (File _) => None
      | Some Dir => make_dirs fs q rest
      | None => make_dirs (<[q := Dir]> fs) q rest
      end
  end.

(** [refused]: the system refuses the write (rights, space). *)
Definition _write_file (refused : bool) (fs : FileSystem) (destination : abs_path) (content : string) : option FileSystem :=
  fs' ← make_dirs fs [] (removelast destination);
  match fs' !! destination with
  | Some Dir => None
  | _ => if refused then None else Some (<[destination := File content]> fs')
  end.

Section storage.
Context `{Settings}.
(** The working directory of the server process. *)
Context (cwd : abs_path).

Definition media_root : abs_path :=
  if is_absolute MEDIA_ROOT then resolve_parts (path_parts MEDIA_ROOT)
  else resolve_parts (cwd ++ path_parts MEDIA_ROOT)%list.

(** [root / rel], resolved: an absolute [rel] replaces the root. *)
Definition joined (root : abs_path) (rel : string) : abs_path :=
  if is_absolute rel then resolve_parts (path_parts rel) else resolve_parts (root ++ path_parts rel)%list.

(** ** Local disk *)

(** [LocalStorageBackend._root] *)
Definition local_root : abs_path := joined media_root "resumes".

(** The URL of a stored file. *)
Definition local_file_url (object_key : string) : string := rstrip_slash MEDIA_BASE_URL +:+ "/resumes/" +:+ object_key.

(** [LocalStorageBackend.save_file]: the file system after it and the URL, or
    the [OSError] of the write. *)
Definition local_save_file (refused : bool) (fs : FileSystem) (candidate_id fresh : uuid) (filename content : string) :
    option (FileSystem * string) :=
  let object_key := _build_object_key candidate_id fresh filename in
  let destination := joined local_root object_key in
  fs' ← _write_file refused fs destination content;
  Some (fs', local_file_url object_key).

Definition resolve_local_media_path (file_url : string) : option abs_path :=
  let base_url := rstrip_slash MEDIA_BASE_URL +:+ "/" in
  match removeprefix base_url file_url with
  | None => None
  | Some rel =>
      let candidate_path := joined media_root rel in
      if negb (is_relative_to candidate_path media_root) || double_root rel then None
      else Some candidate_path
  end.

(** [LocalStorageBackend.delete_file] *)
Definition local_delete_file (refused : bool) (fs : FileSystem) (file_url : string) : option (FileSystem * bool) :=
  match resolve_local_media_path file_url with
  | None => Some (fs, false)
  | Some path =>
      match fs !! path with
      | Some (File _) => if refused then None else Some (delete path fs, true)
      | _ => Some (fs, false)
      end
  end.

(** ** Object storage *)

Definition aws_base : string :=
  "https://" +:+ S3_BUCKET_NAME +:+ ".s3." +:+ S3_REGION +:+ ".amazonaws.com".

Definition _build_public_url (object_key : string) : string :=
  if nonempty S3_PUBLIC_BASE_URL then rstrip_slash S3_PUBLIC_BASE_URL +:+ "/" +:+ object_key
  else if nonempty S3_ENDPOINT_URL then
    rstrip_slash S3_ENDPOINT_URL +:+ "/" +:+ S3_BUCKET_NAME +:+ "/" +:+ object_key
  else aws_base +:+ "/" +:+ object_key.

Definition url_prefixes : list string :=
  filter (λ p, nonempty p = true)
    [S3_PUBLIC_BASE_URL;
     if nonempty S3_ENDPOINT_URL then rstrip_slash S3_ENDPOINT_URL +:+ "/" +:+ S3_BUCKET_NAME else "";
     aws_base].

Fixpoint first_key (prefixes : list string) (file_url : string) : option string :=
  match prefixes with
  | [] => None
  | p :: rest =>
      match removeprefix (rstrip_slash p +:+ "/") file_url with
      | Some key => if nonempty key then Some key else first_key rest file_url
      | None => first_key rest file_url
      end
  end.

Definition _object_key_from_url (file_url : string) : option string := first_key url_prefixes file_url.

(** The URL [S3StorageBackend.save_file] returns. *)
Definition s3_save_file (candidate_id fresh : uuid) (filename : string) : string :=
  _build_public_url (_build_object_key candidate_id fresh filename).

(** The URL of [get_storage_backend().save_file(...)]. *)
Definition save_file (candidate_id fresh : uuid) (filename : string) : string :=
  if bool_decide (STORAGE_BACKEND = "s3") then s3_save_file candidate_id fresh filename
  else local_file_url (_build_object_key candidate_id fresh filename).
End storage.

(** ** Lemmas *)

Lemma removeprefix_app p s : removeprefix p (p +:+ s) = Some s.
Proof.
  induction p as [|c p IH]; [done|]. rewrite str_app_cons. cbn [removeprefix].
  by rewrite bool_decide_true.
Qed.

Lemma rstrip_if_idem p s : rstrip_if p (rstrip_if p s) = rstrip_if p s.
Proof.
  induction s as [|c s IH]; simpl; [done|].
  destruct (rstrip_if p s) as [|d r] eqn:E; simpl in *.
  - destruct (p c) eqn:Hc; simpl; [done|]. by rewrite Hc.
  - destruct (rstrip_if p r) as [|d' r']; simpl in *; [|by rewrite IH].
    destruct (p d); by simplify_eq.
Qed.

(** The last character decides whether [rstrip] does anything. *)
Lemma rstrip_if_snoc p s c : p c = false → rstrip_if p (s +:+ String c "") = s +:+ String c "".
Proof.
  intros Hc. induction s as [|d s IH]; [simpl; by rewrite Hc|].
  rewrite str_app_cons. cbn [rstrip_if]. rewrite IH. by destruct s.
Qed.

Lemma is_relative_to_spec path root : is_relative_to path root = true ↔ ∃ rest, path = (root ++ rest)%list.
Proof.
  revert path. induction root as [|r root IH]; intros path; simpl.
  - split; [intros _; by exists path|done].
  - destruct path as [|p path]; [split; [done|by intros (? & ?)]|].
    rewrite andb_true_iff, bool_decide_eq_true, IH. naive_solver.
Qed.

Lemma split_no_sep c s : all_chars (λ d, negb (bool_decide (c = d))) s = true → split c s = [s].
Proof.
  induction s as [|d s IH]; simpl; [done|]. intros [Hd Hs]%andb_true_iff.
  destruct (bool_decide (c = d)); [done|]. by rewrite IH.
Qed.

Lemma split_app c a b :
  all_chars (λ d, negb (bool_decide (c = d))) a = true → split c (a +:+ String c b) = a :: split c b.
Proof.
  induction a as [|d a IH].
  - intros _. change ("" +:+ String c b) with (String c b). cbn [split]. by rewrite bool_decide_true.
  - cbn [all_chars]. intros [Hd Ha]%andb_true_iff. rewrite str_app_cons. cbn [split].
    destruct (bool_decide (c = d)); [done|]. by rewrite IH.
Qed.

Lemma safe_sub_chars s b : all_chars is_safe_char (safe_sub s b) = true.
Proof.
  revert b. induction s as [|c s IH]; intros b; simpl; [done|].
  destruct (is_safe_char c) eqn:E; simpl; [by rewrite E, IH|]. by destruct b; simpl.
Qed.

Lemma rstrip_if_app p a b : b ≠ "" → rstrip_if p b = b → rstrip_if p (a +:+ b) = a +:+ b.
Proof.
  intros Hb Hr. induction a as [|d a IH]; [done|].
  rewrite str_app_cons. cbn [rstrip_if]. rewrite IH.
  destruct (a +:+ b) eqn:E; [|done]. destruct a; [done|]. by rewrite str_app_cons in E.
Qed.

Lemma no_slash_all (p : ascii → bool) s :
  p "/"%char = false → all_chars p s = true →
  all_chars (λ d, negb (bool_decide ("/"%char = d))) s = true.
Proof.
  intros Hp. apply all_chars_impl. intros c Hc. apply negb_true_iff, bool_decide_eq_false.
  intros <-. congruence.
Qed.

Lemma resolve_parts_app a b :
  resolve_parts (a ++ b)%list =
  fold_left (λ acc p, if bool_decide (p = "..") then removelast acc else (acc ++ [p])%list) b (resolve_parts a).
Proof. apply fold_left_app. Qed.

Lemma removelast_subset {A} (l : list A) x : x ∈ removelast l → x ∈ l.
Proof. induction l as [|y l IH]; simpl; [done|]. destruct l; set_solver. Qed.

Lemma resolve_parts_no_up l : ".." ∉ resolve_parts l.
Proof.
  induction l as [|p l IH] using rev_ind; [set_solver|].
  rewrite resolve_parts_app. simpl. case_bool_decide as Hp.
  - intros Hin%removelast_subset. done.
  - set_solver.
Qed.

Lemma resolve_parts_id l : ".." ∉ l → resolve_parts l = l.
Proof.
  induction l as [|p l IH] using rev_ind; [done|]. intros Hl.
  rewrite resolve_parts_app, IH by set_solver. simpl. rewrite bool_decide_false; [done|set_solver].
Qed.

Section properties.
Context `{Settings}.

Lemma media_root_no_up cwd : ".." ∉ media_root cwd.
Proof. unfold media_root. case_match; apply resolve_parts_no_up. Qed.

(** The components of the path of a stored file, below [MEDIA_ROOT]. *)
Definition stored_file_name (fresh : uuid) (filename : string) : string :=
  let sub := safe_sub filename false in
  uuid_hex fresh +:+ "_" +:+ (if nonempty sub then sub else "resume").

Lemma stored_file_name_safe fresh filename :
  all_chars is_safe_char (stored_file_name fresh filename) = true.
Proof.
  unfold stored_file_name. rewrite !all_chars_app.
  replace (all_chars is_safe_char (uuid_hex fresh)) with true.
  2:{ symmetry. eapply all_chars_impl, hex_digits_lower. intros c.
      unfold is_hex_lower, is_safe_char, is_digit. rewrite !orb_true_iff, !bool_decide_eq_true. lia. }
  destruct (nonempty _); [|done]. by rewrite safe_sub_chars.
Qed.

Lemma stored_file_name_long fresh filename : (32 < String.length (stored_file_name fresh filename))%nat.
Proof. unfold stored_file_name. rewrite !str_length_app. unfold uuid_hex. rewrite hex_digits_length. simpl. lia. Qed.

Lemma stored_parts c fresh filename :
  path_parts ("resumes/" +:+ _build_object_key c fresh filename) =
  ["resumes"; uuid_str c; stored_file_name fresh filename].
Proof.
  unfold path_parts, _build_object_key. fold (stored_file_name fresh filename).
  change ("resumes/" +:+ uuid_str c +:+ "/" +:+ stored_file_name fresh filename)
    with ("resumes" +:+ String "/" (uuid_str c +:+ String "/" (stored_file_name fresh filename))).
  rewrite !split_app; [|by eapply (no_slash_all is_uuid_char), uuid_str_chars|done].
  rewrite split_no_sep by (by eapply (no_slash_all is_safe_char), stored_file_name_safe).
  pose proof (stored_file_name_long fresh filename) as Hl.
  rewrite !filter_cons_True; [done|..].
  - split; intros E; rewrite E in Hl; simpl in Hl; lia.
  - split; [apply uuid_str_nonempty|]. intros E. apply (f_equal String.length) in E.
    unfold uuid_str in E. rewrite !str_length_app, hex_digits_length in E. simpl in E. lia.
  - done.
Qed.

(** C9. Object-storage keys survive the trip through their public URL: for
    every non-empty key, whichever of the three URL forms the settings
    select, [_object_key_from_url] inverts [_build_public_url], so erasing
    an account deletes the object that was stored. *)
Theorem object_key_url_roundtrip (key : string) :
  key ≠ "" → S3_BUCKET_NAME ≠ "" →
  all_chars (λ c, negb (is_slash c)) S3_BUCKET_NAME = true →
  _object_key_from_url (_build_public_url key) = Some key.
Proof.
  intros Hk Hb Hs. assert (nonempty key = true) as Hk' by (unfold nonempty; by rewrite bool_decide_false).
  unfold _object_key_from_url, url_prefixes, _build_public_url.
  assert (∀ p rest url, url = rstrip_slash p +:+ "/" +:+ key → first_key (p :: rest) url = Some key) as Hfirst.
  { intros p rest url ->. cbn [first_key].
    rewrite <- str_app_assoc, removeprefix_app. by rewrite Hk'. }
  destruct (nonempty S3_PUBLIC_BASE_URL) eqn:Ep.
  - rewrite filter_cons_True by done. by apply Hfirst.
  - rewrite filter_cons_False by (by rewrite Ep). destruct (nonempty S3_ENDPOINT_URL) eqn:Ee.
    + rewrite filter_cons_True.
      * apply Hfirst. unfold rstrip_slash at 2.
        rewrite <- (str_app_assoc (rstrip_slash S3_ENDPOINT_URL) "/" S3_BUCKET_NAME).
        rewrite rstrip_if_app; [by rewrite !str_app_assoc|done|]. by apply rstrip_if_id.
      * unfold nonempty. rewrite bool_decide_false; [done|].
        intros E. apply (f_equal String.length) in E. rewrite !str_length_app in E. simpl in E. lia.
    + rewrite filter_cons_False by done. rewrite filter_cons_True by done.
      apply Hfirst. unfold rstrip_slash, aws_base. f_equal.
      rewrite <- !str_app_assoc. symmetry. apply rstrip_if_app; [done|]. by vm_compute.
Qed.

(** *** The local disk *)

Lemma make_dirs_files rest : ∀ fs base fs', make_dirs fs base rest = Some fs' →
  ∀ q x, fs' !! q = Some (File x) ↔ fs !! q = Some (File x).
Proof.
  induction rest as [|d rest IH]; cbn [make_dirs]; intros fs base fs'; [by intros [= ->]|].
  destruct (fs !! (base ++ [d])%list) as [[|y]|] eqn:E; [by apply IH|done|]. intros Hm q x. rewrite (IH _ _ _ Hm).
  destruct (decide (q = (base ++ [d])%list)) as [->|Hne]; [by rewrite lookup_insert_eq, E|by rewrite lookup_insert_ne].
Qed.

(** Without a file in the way the directories are made, and nothing deeper. *)
Lemma make_dirs_some rest : ∀ fs base,
  (∀ l x, l ≠ [] → l `prefix_of` rest → fs !! (base ++ l)%list ≠ Some (File x)) →
  ∃ fs', make_dirs fs base rest = Some fs' ∧
    ∀ q, (length base + length rest < length q)%nat → fs' !! q = fs !! q.
Proof.
  induction rest as [|d rest IH]; intros fs base Hfree; cbn [make_dirs]; [eauto|].
  assert (∀ x, fs !! (base ++ [d])%list ≠ Some (File x)) as Hd by (intros x; apply Hfree; [done|by exists rest]).
  assert (∀ fs1, (∀ q, q ≠ (base ++ [d])%list → fs1 !! q = fs !! q) →
    ∃ fs', make_dirs fs1 (base ++ [d])%list rest = Some fs' ∧
      ∀ q, (length base + length (d :: rest) < length q)%nat → fs' !! q = fs !! q) as Hnext.
  { intros fs1 Hfs1. destruct (IH fs1 (base ++ [d])%list) as (fs' & E & Hq).
    - intros l x Hl [k ->]. rewrite <- app_assoc. cbn [app]. rewrite Hfs1; [|intros Heq; apply app_inv_head in Heq; by destruct l].
      apply Hfree; [done|]. by exists k.
    - exists fs'. split; [done|]. intros q Hlen. rewrite length_app in Hq. cbn [length] in *. rewrite Hq by lia. apply Hfs1.
      intros ->. rewrite length_app in Hlen. cbn in Hlen. lia. }
  destruct (fs !! (base ++ [d])%list) as [[|y]|] eqn:E; [by apply Hnext|by destruct (Hd y)|].
  apply Hnext. intros q Hne. by rewrite lookup_insert_ne.
Qed.

Lemma joined_below root rel :
  is_absolute rel = false → ".." ∉ root → ".." ∉ path_parts rel → joined root rel = (root ++ path_parts rel)%list.
Proof. intros Hr Hroot Hp. unfold joined. rewrite Hr. apply resolve_parts_id. set_solver. Qed.

Lemma stored_no_up c fresh filename : ".." ∉ ["resumes"; uuid_str c; stored_file_name fresh filename].
Proof.
  rewrite !not_elem_of_cons. split_and!; [done| | |by apply not_elem_of_nil].
  - intros E. apply (f_equal String.length) in E. unfold uuid_str in E. rewrite !str_length_app, hex_digits_length in E. simpl in E. lia.
  - intros E. pose proof (stored_file_name_long fresh filename) as Hl. rewrite <- E in Hl. simpl in Hl. lia.
Qed.

(** Where a file is written, and where its URL leads. *)
Definition stored_path (cwd : abs_path) (c fresh : uuid) (filename : string) : abs_path :=
  (media_root cwd ++ ["resumes"; uuid_str c; stored_file_name fresh filename])%list.

Lemma destination_is_stored cwd c fresh filename :
  joined (local_root cwd) (_build_object_key c fresh filename) = stored_path cwd c fresh filename.
Proof.
  pose proof (stored_no_up c fresh filename) as Hup. pose proof (media_root_no_up cwd) as Hroot.
  assert (local_root cwd = (media_root cwd ++ ["resumes"])%list) as El.
  { unfold local_root. rewrite joined_below; [done|done|done|]. vm_compute. by intros ?%list_elem_of_singleton. }
  assert (path_parts (_build_object_key c fresh filename) = [uuid_str c; stored_file_name fresh filename]) as Ep.
  { pose proof (stored_parts c fresh filename) as Hp. unfold path_parts in *.
    change ("resumes/" +:+ ?k) with ("resumes" +:+ String "/" k) in Hp. rewrite split_app in Hp by done.
    rewrite filter_cons_True in Hp by done. exact (f_equal (drop 1) Hp). }
  unfold stored_path. rewrite joined_below, Ep, El, <- app_assoc; [done| | |].
  - unfold _build_object_key. pose proof (uuid_str_chars c) as Hc. destruct (uuid_str c) as [|a s] eqn:Eu; [done|].
    apply andb_true_iff in Hc as [Hc _]. unfold is_absolute, startswith. rewrite str_app_cons. cbn [String.prefix].
    destruct (ascii_dec _ _) as [<-|]; [by vm_compute in Hc|done].
  - rewrite El. set_solver.
  - rewrite Ep. set_solver.
Qed.

Lemma url_resolves cwd c fresh filename :
  resolve_local_media_path cwd (local_file_url (_build_object_key c fresh filename)) = Some (stored_path cwd c fresh filename).
Proof.
  unfold resolve_local_media_path, local_file_url.
  change (?a +:+ "/resumes/" +:+ ?k) with (a +:+ ("/" +:+ ("resumes/" +:+ k))).
  rewrite <- str_app_assoc, removeprefix_app.
  rewrite joined_below, stored_parts; [|done|apply media_root_no_up|rewrite stored_parts; apply stored_no_up].
  replace (double_root _) with false by done. fold (stored_path cwd c fresh filename).
  replace (is_relative_to _ _) with true; [done|]. symmetry. apply is_relative_to_spec. by eexists.
Qed.

Lemma resolved_inside cwd url path : resolve_local_media_path cwd url = Some path → ∃ rest, path = (media_root cwd ++ rest)%list.
Proof.
  unfold resolve_local_media_path. case_match; [|done].
  case_match eqn:E; [done|]. intros [= <-]. apply is_relative_to_spec.
  apply orb_false_iff in E as [E _]. by apply negb_false_iff in E.
Qed.

Lemma written cwd refused fs c fresh filename content fs' url :
  local_save_file cwd refused fs c fresh filename content = Some (fs', url) →
  let path := stored_path cwd c fresh filename in
  url = local_file_url (_build_object_key c fresh filename) ∧ fs' !! path = Some (File content) ∧
  ∀ q x, q ≠ path → fs' !! q = Some (File x) ↔ fs !! q = Some (File x).
Proof.
  unfold local_save_file, _write_file. rewrite destination_is_stored. set (path := stored_path _ _ _ _).
  intros (f2 & (f1 & Hm & Hw)%bind_Some & [= <- <-])%bind_Some. cbv zeta. split; [done|].
  assert (f2 = <[path := File content]> f1) as -> by (destruct (f1 !! path) as [[]|], refused; naive_solver).
  split; [by rewrite lookup_insert_eq|]. intros q x Hq. rewrite lookup_insert_ne by done. by eapply make_dirs_files.
Qed.

Lemma written_if_free cwd fs c fresh filename content :
  let path := stored_path cwd c fresh filename in
  fs !! path = None → (∀ q x, q `prefix_of` path → fs !! q ≠ Some (File x)) →
  is_Some (local_save_file cwd false fs c fresh filename content).
Proof.
  intros path Hnew Hfree. unfold local_save_file, _write_file. rewrite destination_is_stored. fold path.
  assert (∃ init x, path = (init ++ [x])%list) as (init & x & E).
  { exists (media_root cwd ++ ["resumes"; uuid_str c])%list, (stored_file_name fresh filename). unfold path, stored_path.
    by rewrite <- app_assoc. }
  destruct (make_dirs_some (removelast path) fs []) as (f1 & Hm & Hq).
  { intros l y _ Hl. apply Hfree. rewrite E, removelast_last in Hl. rewrite E. by apply prefix_app_r. }
  rewrite Hm. cbn [mbind option_bind]. rewrite Hq by (rewrite E, removelast_last, length_app; cbn; lia). rewrite Hnew. by eexists.
Qed.

(** C8. Stored resumes are found again and nothing else is reachable. When an
    upload to the local disk succeeds, however hostile its file name, the URL it
    returns resolves to the path where the content has been written, below
    [MEDIA_ROOT/resumes/<candidate>]; the other files are as before; and the
    deletion of that URL removes that file. It does succeed when the path is
    new, no file is in the way of its directories and the system lets it write.
    No URL at all resolves outside [MEDIA_ROOT] ([..] and absolute paths
    included), so that a deletion never removes a file elsewhere. *)
Theorem local_files_resolve_inside_root (cwd : abs_path) :
  (∀ refused fs c fresh filename content fs' url,
     local_save_file cwd refused fs c fresh filename content = Some (fs', url) →
     ∃ path name, resolve_local_media_path cwd url = Some path ∧
       path = (media_root cwd ++ ["resumes"; uuid_str c; name])%list ∧
       fs' !! path = Some (File content) ∧
       (∀ q x, q ≠ path → fs' !! q = Some (File x) ↔ fs !! q = Some (File x)) ∧
       local_delete_file cwd false fs' url = Some (delete path fs', true)) ∧
  (∀ fs c fresh filename content,
     (∀ path, resolve_local_media_path cwd (local_file_url (_build_object_key c fresh filename)) = Some path →
        fs !! path = None ∧ ∀ q x, q `prefix_of` path → fs !! q ≠ Some (File x)) →
     is_Some (local_save_file cwd false fs c fresh filename content)) ∧
  (∀ url path, resolve_local_media_path cwd url = Some path → ∃ rest, path = (media_root cwd ++ rest)%list) ∧
  (∀ refused fs url fs', local_delete_file cwd refused fs url = Some (fs', true) →
     ∃ path rest, path = (media_root cwd ++ rest)%list ∧ fs' = delete path fs).
Proof.
  split_and!.
  - intros refused fs c fresh filename content fs' url Hs. destruct (written _ _ _ _ _ _ _ _ _ Hs) as (-> & Hp & Hq).
    exists (stored_path cwd c fresh filename), (stored_file_name fresh filename). rewrite url_resolves.
    split_and!; try done. unfold local_delete_file. by rewrite url_resolves, Hp.
  - intros fs c fresh filename content Hfree. destruct (Hfree _ (url_resolves cwd c fresh filename)). by apply written_if_free.
  - apply resolved_inside.
  - intros refused fs url fs'. unfold local_delete_file. destruct (resolve_local_media_path cwd url) as [path|] eqn:E; [|done].
    apply resolved_inside in E as [rest ->]. destruct (fs !! _) as [[]|]; [done| |done]. destruct refused; [done|]. intros [= <-]. eauto.
Qed.
End properties.

(** An upload whose name climbs out of its folder. *)
Definition demo_upload : option (FileSystem * string) :=
  @local_save_file default_settings ["srv"] false ∅ 4 7 "../../x y.pdf" "pdf".

Lemma local_files_resolve_inside_root_witness :
  snd <$> demo_upload = Some ("http://localhost:8000/media/resumes/" +:+ uuid_str 4 +:+ "/" +:+ uuid_hex 7 +:+ "_.._.._x_y.pdf") ∧
  match demo_upload with
  | Some (fs, url) => ∃ name, fs !! ["srv"; "media"; "resumes"; uuid_str 4; name]%list = Some (File "pdf") ∧
      @local_delete_file default_settings ["srv"] false fs url =
        Some (delete ["srv"; "media"; "resumes"; uuid_str 4; name]%list fs, true)
  | None => False
  end.
Proof.
  split; [vm_compute; reflexivity|].
  assert (match demo_upload with Some _ => true | None => false end = true) as Hs by (vm_compute; reflexivity).
  destruct demo_upload as [[fs url]|] eqn:E; [|discriminate Hs].
  destruct (@local_files_resolve_inside_root default_settings ["srv"]) as (Hsaved & _).
  destruct (Hsaved _ _ _ _ _ _ _ _ E) as (path & name & _ & -> & Hp & _ & Hd). exists name. split; [exact Hp|exact Hd].
Defined.

(** The default settings with a bucket, for the witness. *)
Definition s3_settings : Settings :=
  match default_settings with
  | mkSettings x0 x1 x2 x3 x4 x5 x6 x7 x8 x9 x10 x11 x12 x13 x14 x15 x16 x17 x18 x19 x20 x21 x22 x23 x24 x25 x26 x27 x28 x29 x30 x31 x32 x33 x34 x35 => mkSettings x0 x1 x2 x3 x4 x5 x6 x7 x8 x9 x10 x11 x12 x13 x14 x15 x16 x17 x18 x19 x20 x21 x22 x23 x24 "cv" x26 x27 x28 x29 x30 x31 x32 x33 x34 x35
  end.

Lemma object_key_url_roundtrip_witness :
  "a/b" ≠ "" ∧ @_object_key_from_url s3_settings (@_build_public_url s3_settings "a/b") = Some "a/b".
Proof. split; [done|]. by apply object_key_url_roundtrip. Defined.
