(* ===== verification/StateMachine.v ===== *)
(** The strict hiring state machine ([app/core/state_machine.py]): the linear
    path of the Kanban board, its terminal states, the allowed transitions and
    the stages of the recruitment funnel. *)
From S2P Require Import Prelude.

(** ** Data *)

Inductive ApplicationStatus :=
  | DRAFT | APPLIED | SCREENING | TECHNICAL_INTERVIEW | HR_INTERVIEW
  | OFFER | ACCEPTED | HIRED | REJECTED.

#[global] Instance ApplicationStatus_eq_dec : EqDecision ApplicationStatus.
Proof. solve_decision. Defined.

(** The [str] value of each member of the [ApplicationStatus(str, Enum)]. *)
Definition status_value (s : ApplicationStatus) : string :=
  match s with
  | DRAFT => "Draft"
  | APPLIED => "Applied"
  | SCREENING => "Screening"
  | TECHNICAL_INTERVIEW => "Technical Interview"
  | HR_INTERVIEW => "HR Interview"
  | OFFER => "Offer"
  | ACCEPTED => "Accepted"
  | HIRED => "Hired"
  | REJECTED => "Rejected"
  end.

Definition LINEAR_PATH : list string :=
  [status_value DRAFT; status_value APPLIED; status_value SCREENING;
   status_value TECHNICAL_INTERVIEW; status_value HR_INTERVIEW;
   status_value OFFER; status_value ACCEPTED; status_value HIRED].

Definition TERMINAL_STATUSES : gset string :=
  {[status_value HIRED; status_value REJECTED]}.

Definition FUNNEL_STAGES : list string :=
  [status_value APPLIED; status_value SCREENING;
   status_value TECHNICAL_INTERVIEW; status_value HR_INTERVIEW;
   status_value OFFER; status_value ACCEPTED; status_value HIRED].

(** ** Operations *)

(** [list.index(x)]; [None] is Python's [ValueError]. *)
Definition index_of (x : string) (l : list string) : option nat :=
  fst <$> list_find (λ y, y = x) l.

Definition get_allowed_next_statuses (current_status : string) : gset string :=
  if bool_decide (current_status ∈ TERMINAL_STATUSES) then ∅
  else
    match index_of current_status LINEAR_PATH with
    | None => ∅
    | Some current_index =>
        let next_index := S current_index in
        let allowed : gset string :=
          match LINEAR_PATH !! next_index with
          | Some next => {[next]}
          | None => ∅
          end in
        allowed ∪ {[status_value REJECTED]}
    end.

Definition is_transition_allowed (current_status new_status : string) : bool :=
  bool_decide (new_status ∈ get_allowed_next_statuses current_status).

(** ** Lemmas *)

(** One move of the board. *)
Definition board_move (s t : string) : Prop := is_transition_allowed s t = true.

Lemma index_of_Some x l i : index_of x l = Some i → l !! i = Some x.
Proof.
  unfold index_of. intros H. destruct (list_find _ l) as [[j y]|] eqn:E; simplify_eq/=.
  apply list_find_Some in E as (? & -> & ?). done.
Qed.

Lemma index_of_None x l : index_of x l = None → x ∉ l.
Proof.
  unfold index_of. intros H. destruct (list_find _ l) eqn:E; simplify_eq/=.
  apply list_find_None in E. rewrite Forall_forall in E. naive_solver.
Qed.

Lemma LINEAR_PATH_NoDup : NoDup LINEAR_PATH.
Proof. apply (bool_decide_unpack _). vm_compute. exact I. Qed.

Lemma index_of_LINEAR i x : LINEAR_PATH !! i = Some x → index_of x LINEAR_PATH = Some i.
Proof.
  intros H. destruct (index_of x LINEAR_PATH) as [j|] eqn:E.
  - apply index_of_Some in E. f_equal. eapply NoDup_lookup; eauto using LINEAR_PATH_NoDup.
  - apply index_of_None in E. apply list_elem_of_lookup_2 in H. done.
Qed.

(** The transition table of the code in closed form: the current status is at
    some position of the linear path that is not its end, and the new status
    is the immediate successor or [Rejected]. *)
Lemma board_move_spec s t :
  board_move s t ↔
  ∃ i, LINEAR_PATH !! i = Some s ∧ i < 7 ∧
       (LINEAR_PATH !! S i = Some t ∨ t = status_value REJECTED).
Proof.
  unfold board_move, is_transition_allowed. rewrite bool_decide_eq_true.
  unfold get_allowed_next_statuses. split.
  - case_bool_decide as HT; [set_solver|]. destruct (index_of s LINEAR_PATH) as [i|] eqn:E; [|set_solver].
    apply index_of_Some in E. intros Ht. exists i. split; [done|].
    assert (i < 7) as Hi.
    { assert (i < 8) by (apply lookup_lt_Some in E; exact E).
      destruct (decide (i = 7)) as [->|]; [|lia]. simpl in E. simplify_eq. exfalso. apply HT. set_solver. }
    split; [done|]. destruct (LINEAR_PATH !! S i) as [n|] eqn:En; set_solver.
  - intros (i & Hs & Hi & Ht). rewrite (index_of_LINEAR _ _ Hs).
    assert (s ∉ TERMINAL_STATUSES) as HT.
    { intros Hin. unfold TERMINAL_STATUSES in Hin.
      do 7 (destruct i as [|i]; [simpl in Hs; simplify_eq; set_solver|]). lia. }
    rewrite bool_decide_false by done.
    destruct Ht as [Ht| ->]; [rewrite Ht; set_solver|set_solver].
Qed.

Lemma board_move_not_draft s : ¬ board_move s (status_value DRAFT).
Proof.
  rewrite board_move_spec. intros (i & _ & Hi & [H|H]); [|done].
  do 7 (destruct i as [|i]; [done|]). lia.
Qed.

#[export] Hint Resolve index_of_LINEAR board_move_not_draft : ats.

(** The moves of the board in closed form. *)
Lemma board_nsteps (n : nat) (t : string) :
  nsteps board_move n (status_value DRAFT) t ↔
  LINEAR_PATH !! n = Some t ∨ (t = status_value REJECTED ∧ 1 ≤ n ≤ 7).
Proof.
  revert t. induction n as [|n IH]; intros t.
  - split.
    + intros H. inversion H; subst. by left.
    + intros [H|[_ H]]; [simpl in H; simplify_eq; constructor|lia].
  - split.
    + intros H. apply nsteps_inv_r in H as (u & Hu & Hm).
      apply IH in Hu. apply board_move_spec in Hm as (i & Hi & Hi7 & Ht).
      destruct Hu as [Hu|[-> Hn]].
      * assert (i = n) as -> by (eapply NoDup_lookup; eauto using LINEAR_PATH_NoDup).
        destruct Ht as [?| ->]; [by left|right]. split; [done|lia].
      * exfalso. do 7 (destruct i as [|i]; [done|]). lia.
    + intros H.
      assert (∃ u, LINEAR_PATH !! n = Some u ∧ board_move u t) as (u & Hu & Hm).
      { destruct H as [H|[-> Hn]].
        - assert (S n < 8) by (apply lookup_lt_Some in H; exact H).
          destruct (lookup_lt_is_Some_2 LINEAR_PATH n) as [u Hu]; [simpl; lia|].
          exists u. split; [done|]. apply board_move_spec. exists n. split_and!; [done|lia|by left].
        - destruct (lookup_lt_is_Some_2 LINEAR_PATH n) as [u Hu]; [simpl; lia|].
          exists u. split; [done|]. apply board_move_spec. exists n. split_and!; [done|lia|by right]. }
      eapply nsteps_r; [apply IH; by left|done].
Qed.
