(* ===== verification/Models.v ===== *)
(** The relational data model ([app/models]): one record per ORM class, with
    every column, and the database as one finite map per table.

    Columns that are nullable (or filled by the ORM before the row is written)
    are options. The encrypted columns hold their clear value, as the program
    sees it ([app/core/crypto.py], see [Privacy.v]). *)
From S2P Require Import Prelude.
From Stdlib Require Import QArith.

(** ** JSON values ([JSONB] columns, request bodies) *)

Inductive json :=
  | JNull
  | JBool (b : bool)
  | JInt (n : Z)
  | JFloat (q : Q)
  | JStr (s : string)
  | JArr (l : list json)
  | JObj (o : list (string * json)).

Section json_ind.
Context (P : json → Prop).
Context (Hnull : P JNull) (Hbool : ∀ b, P (JBool b)) (Hint : ∀ n, P (JInt n)).
Context (Hfloat : ∀ q, P (JFloat q)) (Hstr : ∀ s, P (JStr s)).
Context (Harr : ∀ l, Forall P l → P (JArr l)).
Context (Hobj : ∀ o, Forall (λ p, P p.2) o → P (JObj o)).

Fixpoint json_ind' (j : json) : P j :=
  match j with
  | JNull => Hnull
  | JBool b => Hbool b
  | JInt n => Hint n
  | JFloat q => Hfloat q
  | JStr s => Hstr s
  | JArr l => Harr l ((fix go (l : list json) : Forall P l := match l with
                                  | [] => Forall_nil_2 _
                                  | x :: r => Forall_cons_2 _ _ _ (json_ind' x) (go r)
                                  end) l)
  | JObj o => Hobj o ((fix go (o : list (string * json)) : Forall (λ p, P p.2) o := match o with
                                  | [] => Forall_nil_2 _
                                  | p :: r => Forall_cons_2 _ _ _ (json_ind' p.2) (go r)
                                  end) o)
  end.
End json_ind.

(** JSON values are countable: they are finite trees of atoms. *)
Definition json_atom : Type := bool + Z + (Z * positive) + string.

Fixpoint json_tree (j : json) : gen_tree json_atom :=
  match j with
  | JNull => GenNode 0 []
  | JBool b => GenLeaf (inl (inl (inl b)))
  | JInt n => GenLeaf (inl (inl (inr n)))
  | JFloat q => GenLeaf (inl (inr (Qnum q, Qden q)))
  | JStr s => GenLeaf (inr s)
  | JArr l => GenNode 1 (json_tree <$> l)
  | JObj o => GenNode 2 ((λ p, GenNode 3 [GenLeaf (inr p.1); json_tree p.2]) <$> o)
  end.

Fixpoint tree_json (t : gen_tree json_atom) : json :=
  match t with
  | GenLeaf (inl (inl (inl b))) => JBool b
  | GenLeaf (inl (inl (inr n))) => JInt n
  | GenLeaf (inl (inr (n, d))) => JFloat (Qmake n d)
  | GenLeaf (inr s) => JStr s
  | GenNode 1 l => JArr (tree_json <$> l)
  | GenNode 2 l => JObj ((λ t, match t with
                               | GenNode _ [GenLeaf (inr k); v] => (k, tree_json v)
                               | _ => (EmptyString, JNull)
                               end) <$> l)
  | GenNode _ _ => JNull
  end.

Lemma tree_json_tree j : tree_json (json_tree j) = j.
Proof.
  induction j as [| | |[]| |l IH|o IH] using json_ind'; simpl; try done; f_equal.
  - rewrite <- list_fmap_compose. induction IH as [|x l Hx _ IHl]; simpl; [done|]. f_equal; done.
  - rewrite <- list_fmap_compose. induction IH as [|[k v] o Hx _ IHo]; simpl; [done|].
    f_equal; [|done]. simpl in *. by rewrite Hx.
Qed.

#[global] Instance json_eq_dec : EqDecision json.
Proof.
  intros x y. destruct (decide (json_tree x = json_tree y)) as [E|E].
  - left. by rewrite <- (tree_json_tree x), E, tree_json_tree.
  - right. congruence.
Defined.
#[global] Instance json_countable : Countable json := inj_countable' json_tree tree_json tree_json_tree.

(** ** Core tables ([app/models/core.py]) *)

Record User := mkUser {
  user_id : uuid;
  user_email : string;
  user_password_hash : string;
  user_role : string;
  user_is_active : bool;
  user_created_at : instant;
  user_tenant_id : option uuid;
  user_data_consent_at : option instant;
  user_data_consent_version : option string;
  user_anonymized_at : option instant }.

Record Company := mkCompany {
  company_id : uuid;
  company_name : string;
  company_industry : option string;
  company_logo_url : option string;
  company_owner_id : uuid }.

Record Candidate := mkCandidate {
  cand_id : uuid;
  cand_user_id : uuid;
  cand_first_name : string;
  cand_last_name : string;
  cand_phone : option string;
  cand_skills : option (list string);
  cand_location : option string }.

Record Job := mkJob {
  job_id : uuid;
  job_tenant_id : option uuid;
  job_company_id : option uuid;
  job_created_by : uuid;
  job_title : string;
  job_department : option string;
  job_description : option string;
  job_skills_required : option (list string);
  job_salary_range : option string;
  job_status : string;
  job_required_seniority : option string;
  job_required_education : option string;
  job_location : option string;
  job_created_at : instant }.

(** ** Process tables ([app/models/process.py]) *)

Record Application := mkApplication {
  app_id : uuid;
  app_tenant_id : option uuid;
  app_job_id : uuid;
  app_candidate_id : uuid;
  app_current_status : string;
  app_score_ai : option Z;
  app_created_at : instant;
  app_updated_at : instant }.

Record Interview := mkInterview {
  iv_id : uuid;
  iv_tenant_id : option uuid;
  iv_application_id : uuid;
  iv_interviewer_id : uuid;
  iv_scheduled_at : option instant;
  iv_meeting_link : option string;
  iv_reminder_job_ids : option (list string);
  iv_status : string;
  iv_evaluation_scores : option (list (string * Z));
  iv_overall_score : option Q;
  iv_feedback_text : option string;
  iv_evaluated_at : option instant }.

Record Resume := mkResume {
  res_id : uuid;
  res_tenant_id : option uuid;
  res_candidate_id : uuid;
  res_file_url : string;
  res_raw_text : option string;
  res_search_tokens : option (list string);
  res_parsed_data : option json;
  res_skill_analysis : option json;
  res_agent_analysis : option json }.

Record Skill := mkSkill {
  skill_id : uuid;
  skill_tenant_id : option uuid;
  skill_name : string }.

(** ** Security tables ([app/models/security.py]) *)

Record Notification := mkNotification {
  ntf_id : uuid;
  ntf_user_id : uuid;
  ntf_title : string;
  ntf_content : option string;
  ntf_is_read : bool;
  ntf_category : option string;
  ntf_created_at : instant }.

Record StatusHistory := mkStatusHistory {
  sh_id : uuid;
  sh_tenant_id : option uuid;
  sh_application_id : uuid;
  sh_old_status : option string;
  sh_new_status : string;
  sh_changed_by : uuid;
  sh_changed_at : instant }.

(** ** Generated interview questions ([app/models/genai.py]) *)

Record InterviewQuestionSet := mkQuestionSet {
  qs_id : uuid;
  qs_tenant_id : option uuid;
  qs_application_id : uuid;
  qs_job_id : uuid;
  qs_candidate_id : uuid;
  qs_requested_by : uuid;
  qs_status : string;
  qs_language : string;
  qs_question_count : Z;
  qs_difficulty : string;
  qs_focus_skills : list string;
  qs_prompt_version : string;
  qs_provider_model : option string;
  qs_input_profile : option json;
  qs_focus_summary : option string;
  qs_error : option string;
  qs_prompt_tokens : option Z;
  qs_completion_tokens : option Z;
  qs_latency_ms : option Z;
  qs_attempts : Z;
  qs_created_at : instant;
  qs_completed_at : option instant }.

Record InterviewQuestion := mkQuestion {
  q_id : uuid;
  q_tenant_id : option uuid;
  q_question_set_id : uuid;
  q_position : Z;
  q_category : string;
  q_skill : string;
  q_difficulty : string;
  q_question : string;
  q_purpose : string;
  q_expected_answer : string;
  q_evaluation_points : list string;
  q_red_flags : list string;
  q_follow_ups : list string;
  q_estimated_minutes : Z;
  q_is_approved : bool;
  q_interviewer_notes : option string;
  q_updated_by : option uuid;
  q_updated_at : option instant }.

(** ** The database *)

Record Db := mkDb {
  users : gmap uuid User;
  companies : gmap uuid Company;
  candidates : gmap uuid Candidate;
  jobs : gmap uuid Job;
  applications : gmap uuid Application;
  interviews : gmap uuid Interview;
  resumes : gmap uuid Resume;
  skills : gmap uuid Skill;
  notifications : gmap uuid Notification;
  status_history : gmap uuid StatusHistory;
  question_sets : gmap uuid InterviewQuestionSet;
  questions : gmap uuid InterviewQuestion }.

Definition empty_db : Db :=
  mkDb ∅ ∅ ∅ ∅ ∅ ∅ ∅ ∅ ∅ ∅ ∅ ∅.
