(* ===== verification/Codecs.v ===== *)
(** Text forms of values: the standard library's [json] and float printing,
    which the program uses to keep values in Redis and in cursors.

    The printers are not spelled out: what the program relies on is that
    reading gives back what was written ([JsonText], [FloatText]). The
    instances at the end are a concrete code for the witnesses. *)
From S2P Require Import Prelude Models.
From Stdlib Require Import QArith.
Local Open Scope string_scope.
Local Open Scope Z_scope.
Local Open Scope list_scope.

(** ** JSON *)

(** [o[key]] of a JSON object; [None] is the [KeyError]. *)
Definition json_get (key : string) (j : json) : option json :=
  match j with
  | JObj o => (λ p, p.2.2) <$> list_find (λ p, p.1 = key) o
  | _ => None
  end.

(** [o.get(key)]: [None] when the key is missing or null. *)
Definition json_opt (key : string) (j : json) : option json :=
  match json_get key j with
  | Some JNull | None => None
  | Some v => Some v
  end.

Definition json_str (j : json) : option string := match j with JStr s => Some s | _ => None end.

Definition json_bool (j : json) : option bool := match j with JBool b => Some b | _ => None end.

(** The string at a key. *)
Definition json_get_str (key : string) (j : json) : option string :=
  match json_get key j with Some v => json_str v | None => None end.

(** Python's falsy JSON values. *)
Definition json_falsy (j : json) : bool :=
  match j with
  | JNull | JBool false | JInt 0 | JStr EmptyString | JArr [] | JObj [] => true
  | JFloat q => bool_decide (Qnum q = 0)
  | _ => false
  end.

(** [json.dumps] and [json.loads]; [None] is the exception of [loads]. *)
Class JsonText := {
  dumps : json → string;
  loads : string → option json;
  loads_dumps j : loads (dumps j) = Some j }.

(** ** Floats *)

(** Instants of [time.time()] are ticks of 2^-22 s, the spacing of doubles
    between 2004 and 2038, so sums and differences with integers are exact. *)
Abbreviation time := Z (only parsing).
Definition TICKS : Z := 4194304.
Definition secs (n : Z) : Z := n * TICKS.

(** [str(t)] and [float(s)] of such instants, and [str(x)] of a coordinate;
    [None] is the [ValueError] of [float]. *)
Class FloatText := {
  str_time : time → string;
  float_time : string → option time;
  str_coordinate : Q → string;
  float_str_time t : float_time (str_time t) = Some t;
  str_time_nonempty t : str_time t ≠ "" }.

(** ** Concrete codes *)

(** Strings of bits: an injective text code for any countable type. *)
Fixpoint text_of_positive (p : positive) : string :=
  match p with
  | xH => ""
  | xO q => String "0" (text_of_positive q)
  | xI q => String "1" (text_of_positive q)
  end.
Fixpoint positive_of_text (s : string) : positive :=
  match s with
  | "" => xH
  | String c r => if bool_decide (c = "0"%char) then xO (positive_of_text r) else xI (positive_of_text r)
  end.
Definition text_encode `{Countable A} (a : A) : string := text_of_positive (encode a).
Definition text_decode `{Countable A} (s : string) : option A := decode (positive_of_text s).

Lemma text_decode_encode `{Countable A} (a : A) : text_decode (text_encode a) = Some a.
Proof.
  unfold text_decode, text_encode.
  assert (∀ p, positive_of_text (text_of_positive p) = p) as ->; [|apply decode_encode].
  induction p as [p IH|p IH|]; simpl; [| |done]; by rewrite IH.
Qed.

Definition text_json : JsonText.
Proof.
  refine {| dumps j := text_encode j; loads s := text_decode s |}.
  intros j. apply text_decode_encode.
Defined.

Definition text_floats : FloatText.
Proof.
  refine {| str_time t := "t" +:+ text_encode t;
            float_time s := match s with String _ r => text_decode r | "" => None end;
            str_coordinate q := text_encode (Qnum q, Qden q) |}.
  - intros t. apply text_decode_encode.
  - done.
Defined.
