(* ===== verification/Security.v ===== *)
(** Passwords and signed tokens ([app/core/security.py]).

    The JWT library (jose) and bcrypt (passlib) are not part of the
    repository: they are the classes [JwtLib] and [PasswordLib], whose laws
    are the documented behaviour of those libraries; [text_jwt] and
    [text_passwords] are concrete instances used by the witnesses. *)
From S2P Require Import Prelude PyText Config Codecs.
Local Open Scope string_scope.
Local Open Scope Z_scope.

(** ** Tokens *)

(** The payload of a token signed with [SECRET_KEY]: the integer [exp] claim
    and the other claims, all strings ([sub], [type], [tid], [sid], [jti]) -
    only [_create_token] signs with that key. *)
Record Claims := mkClaims { claim_exp : Z; claim : gmap string string }.

#[global] Instance Claims_eq_dec : EqDecision Claims.
Proof. solve_decision. Defined.
#[global] Instance Claims_countable : Countable Claims.
Proof.
  refine (inj_countable' (λ c, (claim_exp c, claim c)) (λ p, mkClaims p.1 p.2) _).
  by intros [].
Defined.

(** [jwt.encode]/[jwt.decode]: [decode] checks the signature and that [exp]
    is not before the current second; [None] is [JWTError]. *)
Class JwtLib := {
  jwt_encode : string → Claims → string;
  jwt_decode : string → Z → string → option Claims;
  jwt_decode_encode key c now :
    now ≤ claim_exp c → jwt_decode key now (jwt_encode key c) = Some c;
  jwt_decode_expired key c now :
    claim_exp c < now → jwt_decode key now (jwt_encode key c) = None }.

Class PasswordLib := {
  pwd_hash : string → string → string;   (** salt, password *)
  pwd_verify : string → string → bool;
  pwd_verify_hash salt p : pwd_verify p (pwd_hash salt p) = true }.

Definition microseconds : Z := 1000000.
Definition seconds_of (t : instant) : Z := t / microseconds.
Definition minutes (n : Z) : Z := n * 60 * microseconds.
Definition hours (n : Z) : Z := n * 3600 * microseconds.
Definition days (n : Z) : Z := n * 86400 * microseconds.

Section security.
Context `{Settings, JwtLib, PasswordLib}.

Definition hash_password (salt plain_password : string) : string :=
  pwd_hash salt plain_password.

Definition verify_password (plain_password password_hash : string) : bool :=
  pwd_verify plain_password password_hash.

(** An unknown e-mail costs one verification too, and fails. *)
Definition verify_login_password_async (plain_password : string)
    (password_hash : option string) : bool :=
  match password_hash with
  | None => false
  | Some h => verify_password plain_password h
  end.

(** [{"sub": .., "exp": .., "type": .., **extra_claims}], signed. *)
Definition _create_token (now : instant) (subject : string) (expires_delta : Z)
    (token_type : string) (extra_claims : gmap string string) : string * Z :=
  let expire_at := now + expires_delta in
  let payload := mkClaims (seconds_of expire_at)
    (extra_claims ∪ <["sub" := subject]> {["type" := token_type]}) in
  (jwt_encode SECRET_KEY payload, expires_delta ÷ microseconds).

Definition create_access_token (now : instant) (subject : string)
    (tenant_id : option uuid) (session_id : option string) : string * Z :=
  let claims : gmap string string := ∅ in
  let claims := match tenant_id with
                | Some t => <["tid" := uuid_str t]> claims
                | None => claims
                end in
  let claims := match session_id with
                | Some s => if truthy session_id then <["sid" := s]> claims else claims
                | None => claims
                end in
  _create_token now subject (minutes ACCESS_TOKEN_EXPIRE_MINUTES) "access" claims.

Definition create_refresh_token (now : instant) (subject : string)
    (session_id jti : option string) : string * Z :=
  let claims : gmap string string :=
    match session_id, jti with
    | Some s, Some j => if truthy session_id then <["sid" := s]> {["jti" := j]} else ∅
    | Some s, None => if truthy session_id then {["sid" := s]} else ∅
    | None, _ => ∅
    end in
  _create_token now subject (days REFRESH_TOKEN_EXPIRE_DAYS) "refresh" claims.

Definition decode_token (now : instant) (token : string) : option Claims :=
  jwt_decode SECRET_KEY (seconds_of now) token.

(** ** Lemmas *)

Lemma decode_create now t sub d ty ex :
  d >= 0 → now ≤ t < now + d →
  decode_token t (_create_token now sub d ty ex).1 =
  Some (mkClaims (seconds_of (now + d)) (ex ∪ <["sub" := sub]> {["type" := ty]})).
Proof.
  intros. apply jwt_decode_encode. simpl. unfold seconds_of, microseconds.
  apply Z.div_le_mono; lia.
Qed.

(** A token is refused from the second after its expiry on. *)
Lemma decode_expired now t sub d ty ex :
  now + d + microseconds ≤ t → decode_token t (_create_token now sub d ty ex).1 = None.
Proof.
  intros Ht. apply jwt_decode_expired. simpl. unfold seconds_of.
  apply (Z.div_le_mono _ _ microseconds) in Ht; [|done].
  replace (now + d + microseconds) with (now + d + 1 * microseconds) in Ht by lia.
  rewrite Z.div_add in Ht by done. lia.
Qed.

(** The claims of an access token, as [decode_token] returns them during
    its lifetime. *)
Lemma decode_access now t sub tid sid :
  ACCESS_TOKEN_EXPIRE_MINUTES >= 0 → now ≤ t < now + minutes ACCESS_TOKEN_EXPIRE_MINUTES →
  ∃ c, decode_token t (create_access_token now sub tid sid).1 = Some c ∧
    claim c !! "type" = Some "access" ∧ claim c !! "sub" = Some sub ∧
    claim c !! "tid" = uuid_str <$> tid ∧
    claim c !! "sid" = (if truthy sid then sid else None).
Proof.
  intros Hm Ht. unfold create_access_token. rewrite decode_create; [|unfold minutes, microseconds; lia|done].
  eexists. split; [done|]. simpl.
  destruct tid as [tid|], sid as [sid|]; simpl;
    try destruct (negb (bool_decide (sid = ""))); simpl; simplify_map_eq; done.
Qed.

Lemma decode_refresh now t sub sid jti :
  REFRESH_TOKEN_EXPIRE_DAYS >= 0 → now ≤ t < now + days REFRESH_TOKEN_EXPIRE_DAYS →
  sid ≠ "" →
  ∃ c, decode_token t (create_refresh_token now sub (Some sid) (Some jti)).1 = Some c ∧
    claim c !! "type" = Some "refresh" ∧ claim c !! "sub" = Some sub ∧
    claim c !! "sid" = Some sid ∧ claim c !! "jti" = Some jti.
Proof.
  intros Hm Ht Hs. unfold create_refresh_token. rewrite decode_create; [|unfold days, microseconds; lia|done].
  eexists. split; [done|]. unfold truthy. rewrite bool_decide_false by done. simpl.
  simplify_map_eq. done.
Qed.
End security.

(** ** Concrete libraries for the witnesses *)

Definition text_jwt : JwtLib.
Proof.
  refine {|
    jwt_encode key c := text_encode (key, c);
    jwt_decode key now s :=
      '(k, c) ← text_decode s;
      if bool_decide (k = key ∧ now ≤ claim_exp c) then Some c else None |}.
  - intros. rewrite text_decode_encode. simpl. by rewrite bool_decide_true.
  - intros. rewrite text_decode_encode. simpl. rewrite bool_decide_false; [done|]. lia.
Defined.

Definition text_passwords : PasswordLib.
Proof.
  refine {|
    pwd_hash salt p := text_encode (salt, p);
    pwd_verify p h := match text_decode (A:=string*string) h with
                      | Some (_, q) => bool_decide (p = q)
                      | None => false
                      end |}.
  intros. rewrite text_decode_encode. by rewrite bool_decide_true.
Defined.
