(* ===== verification/Tenancy.v ===== *)
(** Multi-tenancy: the tenant context of a request ([app/core/tenancy.py])
    and the row-level security policies of the database
    ([alembic/versions/d2f6b8a41c37_multi_tenancy_tenant_id_and_rls.py]). *)
From S2P Require Import Prelude PyText Config Models Security.
Local Open Scope string_scope.

(** ** The tenant context *)

Definition SCOPE_SYSTEM : string := "system".
Definition SCOPE_TENANT : string := "tenant".
Definition SCOPE_CANDIDATE : string := "candidate".
Definition SCOPE_PUBLIC : string := "public".

Record TenantContext := mkContext {
  scope : string;
  tenant_id : option uuid;
  ctx_user_id : option uuid }.

#[global] Instance TenantContext_eq_dec : EqDecision TenantContext.
Proof. solve_decision. Defined.

Definition is_system (c : TenantContext) : bool := bool_decide (scope c = SCOPE_SYSTEM).

Definition SYSTEM_CONTEXT : TenantContext := mkContext SCOPE_SYSTEM None None.
Definition PUBLIC_CONTEXT : TenantContext := mkContext SCOPE_PUBLIC None None.

(** A member of the organisation [t], and a candidate. *)
Definition tenant_ctx (t u : uuid) : TenantContext := mkContext SCOPE_TENANT (Some t) (Some u).
Definition candidate_ctx (u : uuid) : TenantContext := mkContext SCOPE_CANDIDATE None (Some u).

Section context.
Context `{Settings, JwtLib}.

(** The context of a request from its access token; a bad token gives the
    public context. [str(payload.get("sub"))] of a missing claim is
    ["None"], which is no UUID. *)
Definition context_from_token (now : instant) (token : option string) : TenantContext :=
  match token with
  | None => PUBLIC_CONTEXT
  | Some tok =>
      if negb (truthy token) then PUBLIC_CONTEXT else
      match decode_token now tok with
      | None => PUBLIC_CONTEXT
      | Some payload =>
          if negb (bool_decide (claim payload !! "type" = Some "access")) then PUBLIC_CONTEXT else
          match uuid_parse (default "None" (claim payload !! "sub")) with
          | None => PUBLIC_CONTEXT
          | Some user =>
              let tenant_claim := claim payload !! "tid" in
              if truthy tenant_claim then
                match uuid_parse (default "None" tenant_claim) with
                | None => PUBLIC_CONTEXT
                | Some t => mkContext SCOPE_TENANT (Some t) (Some user)
                end
              else mkContext SCOPE_CANDIDATE None (Some user)
          end
      end
  end.

(** The token of the first [Authorization] header, when its scheme is
    [Bearer]; header names are lower-cased by the server. *)
Fixpoint bearer_token (headers : list (string * string)) : option string :=
  match headers with
  | [] => None
  | (name, value) :: rest =>
      if bool_decide (name = "authorization") then
        let '(scheme, _, credentials) := partition " " value in
        if bool_decide (lower scheme = "bearer") then Some (strip credentials) else None
      else bearer_token rest
  end.

(** [TenantContextMiddleware.__call__]: the context an HTTP request runs in
    ([default] is the context of the other ASGI scopes). *)
Definition middleware_context (now : instant) (scope_type : string)
    (headers : list (string * string)) (default : TenantContext) : TenantContext :=
  if bool_decide (scope_type = "http") then context_from_token now (bearer_token headers)
  else default.
End context.

(** ** Database settings of a transaction *)

(** The role and the [app.*] settings [_APPLY_CONTEXT_SQL] sets; [None] is the
    empty text, which the SQL functions read back as NULL. *)
Record Guc := mkGuc {
  guc_role : string;
  guc_scope : string;
  guc_tenant_id : option uuid;
  guc_user_id : option uuid }.

Definition _context_parameters `{Settings} (c : TenantContext) : Guc :=
  {| guc_role := if is_system c then "none" else DB_RLS_ROLE;
     guc_scope := if is_system c then "" else scope c;
     guc_tenant_id := tenant_id c;
     guc_user_id := ctx_user_id c |}.

(** The SQL functions of the migration. *)
Definition app_current_tenant (g : Guc) : option uuid := guc_tenant_id g.
Definition app_current_scope (g : Guc) : string :=
  if bool_decide (guc_scope g = "") then "public" else guc_scope g.
Definition app_current_user_id (g : Guc) : option uuid := guc_user_id g.

(** SQL [a = b]: NULL is not true. *)
Definition sql_eq (a b : option uuid) : bool :=
  match a, b with Some x, Some y => bool_decide (x = y) | _, _ => false end.

(** ** Row-level security *)

Inductive Command := SELECT | INSERT | UPDATE | DELETE.
Inductive PolicyCommand := FOR_ALL | FOR (c : Command).

#[global] Instance Command_eq_dec : EqDecision Command.
Proof. solve_decision. Defined.

(** [CREATE POLICY name ON table FOR cmd USING (..) WITH CHECK (..)] *)
Record Policy (R : Type) := mkPolicy {
  pol_name : string;
  pol_cmd : PolicyCommand;
  pol_using : option (Guc → Db → R → bool);
  pol_check : option (Guc → Db → R → bool) }.
Arguments mkPolicy {_}.
Arguments pol_name {_}.
Arguments pol_cmd {_}.
Arguments pol_using {_}.
Arguments pol_check {_}.

Definition policy_for (cmd : Command) {R} (p : Policy R) : bool :=
  match pol_cmd p with FOR_ALL => true | FOR c => bool_decide (c = cmd) end.

(** The owner of the tables bypasses row security; only [ats_app] is subject
    to it. *)
Definition bypass_rls (g : Guc) : bool := bool_decide (guc_role g = "none").

(** Policies are permissive: one that applies is enough. A table without row
    security has no policy list. *)
Definition rls_using {R} (ps : option (list (Policy R))) (g : Guc) (cmd : Command) (db : Db) (r : R) : bool :=
  match ps with
  | None => true
  | Some l => bypass_rls g ||
      existsb (λ p, policy_for cmd p &&
                    match pol_using p with Some u => u g db r | None => false end) l
  end.

Definition rls_check {R} (ps : option (list (Policy R))) (g : Guc) (cmd : Command) (db : Db) (r : R) : bool :=
  match ps with
  | None => true
  | Some l => bypass_rls g ||
      existsb (λ p, policy_for cmd p &&
                    match pol_check p with Some c => c g db r | None => false end) l
  end.

(** *** The policies, table by table *)

Definition tenant_match {R} (col : R → option uuid) : Guc → Db → R → bool :=
  λ g _ r, sql_eq (col r) (app_current_tenant g).

Definition tenant_isolation {R} (col : R → option uuid) : Policy R :=
  mkPolicy "tenant_isolation" FOR_ALL (Some (tenant_match col)) (Some (tenant_match col)).

(** [SECURITY DEFINER]: reads [candidates] as the owner. *)
Definition app_current_candidate_id (g : Guc) (db : Db) : option uuid :=
  if bool_decide (app_current_scope g = "candidate") then
    cand_id <$> head (filter (λ c, sql_eq (Some (cand_user_id c)) (app_current_user_id g) = true)
                        (map_to_list (candidates db)).*2)
  else None.

Definition own_candidate {R} (col : R → uuid) : Guc → Db → R → bool :=
  λ g db r, sql_eq (Some (col r)) (app_current_candidate_id g db).

Definition job_policies : list (Policy Job) :=
  [tenant_isolation job_tenant_id;
   mkPolicy "public_read" (FOR SELECT)
     (Some (λ g _ _, bool_decide (app_current_scope g = "public" ∨ app_current_scope g = "candidate"))) None].

(** Sub-queries of a policy see the rows the current role may select. *)
Definition visible_jobs (g : Guc) (db : Db) : list Job :=
  filter (λ j, rls_using (Some job_policies) g SELECT db j = true) (map_to_list (jobs db)).*2.

Definition job_tenant (g : Guc) (db : Db) (a : Application) : bool :=
  existsb (λ j, bool_decide (job_id j = app_job_id a) && sql_eq (app_tenant_id a) (job_tenant_id j))
    (visible_jobs g db).

Definition application_policies : list (Policy Application) :=
  [tenant_isolation app_tenant_id;
   mkPolicy "candidate_read" (FOR SELECT) (Some (own_candidate app_candidate_id)) None;
   mkPolicy "candidate_apply" (FOR INSERT) None
     (Some (λ g db a, own_candidate app_candidate_id g db a && job_tenant g db a));
   mkPolicy "candidate_respond" (FOR UPDATE) (Some (own_candidate app_candidate_id))
     (Some (λ g db a, own_candidate app_candidate_id g db a && job_tenant g db a))].

Definition visible_applications (g : Guc) (db : Db) : list Application :=
  filter (λ a, rls_using (Some application_policies) g SELECT db a = true)
    (map_to_list (applications db)).*2.

Definition company_policies : list (Policy Company) :=
  let self : Guc → Db → Company → bool := λ g _ c, sql_eq (Some (company_id c)) (app_current_tenant g) in
  [mkPolicy "tenant_self_read" (FOR SELECT) (Some self) None;
   mkPolicy "tenant_self_update" (FOR UPDATE) (Some self) (Some self)].

Definition candidate_policies : list (Policy Candidate) :=
  let self : Guc → Db → Candidate → bool := λ g _ c,
    bool_decide (app_current_scope g = "candidate") &&
    sql_eq (Some (cand_user_id c)) (app_current_user_id g) in
  [mkPolicy "candidate_self" FOR_ALL (Some self) (Some self);
   mkPolicy "tenant_applicants_read" (FOR SELECT)
     (Some (λ g db c, existsb (λ a, bool_decide (app_candidate_id a = cand_id c) &&
                                    sql_eq (app_tenant_id a) (app_current_tenant g))
                        (visible_applications g db))) None].

Definition resume_policies : list (Policy Resume) :=
  [tenant_isolation res_tenant_id;
   mkPolicy "candidate_read" (FOR SELECT) (Some (own_candidate res_candidate_id)) None;
   mkPolicy "candidate_upload" (FOR INSERT) None
     (Some (λ g db r, own_candidate res_candidate_id g db r &&
                      existsb (λ j, sql_eq (job_tenant_id j) (res_tenant_id r)) (visible_jobs g db)))].

Definition interview_policies : list (Policy Interview) := [tenant_isolation iv_tenant_id].
Definition question_set_policies : list (Policy InterviewQuestionSet) := [tenant_isolation qs_tenant_id].
Definition question_policies : list (Policy InterviewQuestion) := [tenant_isolation q_tenant_id].

Definition own_application (p : Application → bool) (g : Guc) (db : Db) (id : uuid) : bool :=
  existsb (λ a, bool_decide (app_id a = id) &&
                sql_eq (Some (app_candidate_id a)) (app_current_candidate_id g db) && p a)
    (visible_applications g db).

Definition status_history_policies : list (Policy StatusHistory) :=
  [tenant_isolation sh_tenant_id;
   mkPolicy "candidate_read" (FOR SELECT)
     (Some (λ g db h, own_application (λ _, true) g db (sh_application_id h))) None;
   mkPolicy "candidate_insert" (FOR INSERT) None
     (Some (λ g db h, own_application (λ a, sql_eq (app_tenant_id a) (sh_tenant_id h)) g db
                        (sh_application_id h)))].

Definition skill_policies : list (Policy Skill) :=
  [mkPolicy "shared_read" (FOR SELECT)
     (Some (λ g _ s, bool_decide (skill_tenant_id s = None) ||
                     sql_eq (skill_tenant_id s) (app_current_tenant g))) None;
   mkPolicy "tenant_custom" FOR_ALL (Some (tenant_match skill_tenant_id)) (Some (tenant_match skill_tenant_id))].
