(* ===== verification/Orm.v ===== *)
(** The database session of a request: what a [select], an [INSERT], an
    [UPDATE] or a [DELETE] of the ORM does under the tenant context - the
    criteria [_add_tenant_criteria] adds, the stamping of
    [_stamp_tenant_on_new_rows] ([app/core/tenancy.py]) and the row-level
    security of the database - with [commit], [rollback] and [system_scope]
    ([app/db/session.py], [app/core/tenancy.py]). *)
From S2P Require Import Prelude PyText Config Models Security Tenancy.
Local Open Scope string_scope.

(** ** The world of a request *)

(** Work a handler leaves for later: tasks started with
    [asyncio.create_task] or put on the job queue, files written to storage,
    jobs given to the scheduler or taken back from it. *)
Inductive Effect :=
  | StatusChangeEmail (candidate job : uuid) (new_status : string)
  | PasswordResetOtp (email : string)
  | Enqueue (func : string) (args : list (option string))
  | SavedFile (url : string)
  | ScheduledJob (job_id : string) (run_at scheduled_at : instant) (args : list string)
  | DroppedJob (job_id : string)
  | RemovedFile (url : string).

#[global] Instance Effect_eq_dec : EqDecision Effect.
Proof. solve_decision. Defined.

(** The committed database, the state the open transaction sees, the tenant
    context and the effects outside the database, which no rollback undoes. *)
Record World := mkWorld {
  committed : Db;
  session : Db;
  ctx : TenantContext;
  effects : list Effect }.

Definition upd_session (f : Db → Db) (w : World) : World :=
  mkWorld (committed w) (f (session w)) (ctx w) (effects w).

Definition commit : M World unit := modify (λ w, mkWorld (session w) (session w) (ctx w) (effects w)).
Definition rollback : M World unit := modify (λ w, mkWorld (committed w) (committed w) (ctx w) (effects w)).
Definition emit (e : Effect) : M World unit :=
  modify (λ w, mkWorld (committed w) (session w) (ctx w) (effects w ++ [e])).
Definition set_ctx (c : TenantContext) : M World unit :=
  modify (λ w, mkWorld (committed w) (session w) c (effects w)).

(** [async with system_scope(db): m] - the previous context comes back
    whether [m] raises or not. *)
Definition system_scope {A} (m : M World A) : M World A :=
  λ w, let previous := ctx w in
       let '(r, w') := m (snd (set_ctx SYSTEM_CONTEXT w)) in
       (r, snd (set_ctx previous w')).

(** [get_db]: the session is closed at the end of the request, which drops
    what was not committed. *)
Definition run_request {A} (m : M World A) : M World A :=
  λ w, let '(r, w') := m w in (r, snd (rollback w')).

(** ** Tables *)

Inductive Mixin (R : Type) :=
  | NoMixin
  | TenantMixin (get : R → option uuid) (set : option uuid → R → R)
  | SharedTenantMixin (get : R → option uuid) (set : option uuid → R → R).
Arguments NoMixin {_}.
Arguments TenantMixin {_}.
Arguments SharedTenantMixin {_}.

(** What the ORM and the database know of a table. [constraints] are the
    unique, foreign-key and not-null constraints a written row must satisfy;
    [returning] tells whether an INSERT reads server defaults back;
    [on_update] is the server-side [onupdate]. *)
Class Table (R : Type) := {
  rows : Db → gmap uuid R;
  with_rows : gmap uuid R → Db → Db;
  pk : R → uuid;
  mixin : Mixin R;
  policies : option (list (Policy R));
  constraints : Db → R → bool;
  returning : bool;
  on_update : instant → R → R }.

(** *** Tenant criteria and stamping *)

Definition orm_criteria `{Table R} (c : TenantContext) (cmd : Command) (r : R) : bool :=
  if negb (bool_decide (scope c = SCOPE_TENANT)) then true else
  match mixin with
  | NoMixin => true
  | TenantMixin get _ => sql_eq (get r) (tenant_id c)
  | SharedTenantMixin get _ =>
      sql_eq (get r) (tenant_id c) || (bool_decide (cmd = SELECT) && bool_decide (get r = None))
  end.

Definition _stamp_tenant_on_new_rows `{Table R} (c : TenantContext) (r : R) : option R :=
  if negb (bool_decide (scope c = SCOPE_TENANT)) then Some r else
  match mixin with
  | NoMixin => Some r
  | TenantMixin get set | SharedTenantMixin get set =>
      match get r with
      | None => Some (set (tenant_id c) r)
      | Some t => if bool_decide (Some t = tenant_id c) then Some r else None
      end
  end.

(** *** Statements *)

Section statements.
Context `{Settings, Table R}.

Definition guc (w : World) : Guc := _context_parameters (ctx w).

Definition row_visible (w : World) (r : R) : bool :=
  orm_criteria (ctx w) SELECT r && rls_using policies (guc w) SELECT (session w) r.

(** The rows a [select(R)] of the session returns, before its [where]. *)
Definition visible_rows (w : World) : list R :=
  filter (λ r, row_visible w r = true) (map_to_list (rows (session w))).*2.

(** [select(R).where(p)] *)
Definition select_where (p : R → bool) : M World (list R) :=
  reads (λ w, filter (λ r, p r = true) (visible_rows w)).

(** [select(R).where(R.id == id)] then [scalar_one_or_none()] *)
Definition select_by_id (id : uuid) : M World (option R) :=
  reads (λ w, r ← rows (session w) !! id; if row_visible w r then Some r else None).

(** [db.refresh(r)]: a column load, so without the ORM criteria. *)
Definition refresh (id : uuid) : M World R :=
  o ← reads (λ w, r ← rows (session w) !! id;
                  if rls_using policies (guc w) SELECT (session w) r then Some r else None);
  match o with Some r => mret r | None => raise (PyError "InvalidRequestError") end.

(** [db.add(r)] of a new row, flushed. *)
Definition insert_row (r : R) : M World unit :=
  w ← get;
  match _stamp_tenant_on_new_rows (ctx w) r with
  | None => raise (PyError "TenantAccessError")
  | Some r =>
      let db := session w in
      if negb (rls_check policies (guc w) INSERT db r &&
               (negb returning || rls_using policies (guc w) SELECT db r))
      then raise (PyError "ProgrammingError")
      else if negb (bool_decide (rows db !! pk r = None) && constraints db r)
      then raise (PyError "IntegrityError")
      else modify (upd_session (λ db, with_rows (<[pk r := r]> (rows db)) db))
  end.

(** The flush of a modified object: [UPDATE .. SET .. WHERE id = ..] of the
    changed columns [f] only, so columns another transaction has changed
    since the object was read keep their new value. Existing and new row
    must pass the policies of UPDATE and, as the statement reads the row,
    those of SELECT. *)
Definition update_row (now : instant) (id : uuid) (f : R → R) : M World unit :=
  w ← get;
  let db := session w in
  match rows db !! id with
  | None => raise (PyError "StaleDataError")
  | Some old =>
      let r := on_update now (f old) in
      if negb (rls_using policies (guc w) UPDATE db old && rls_using policies (guc w) SELECT db old)
      then raise (PyError "StaleDataError")
      else if negb (rls_check policies (guc w) UPDATE db r && rls_using policies (guc w) SELECT db r)
      then raise (PyError "ProgrammingError")
      else if negb (constraints db r) then raise (PyError "IntegrityError")
      else modify (upd_session (λ db, with_rows (<[id := r]> (rows db)) db))
  end.

(** [update(R).where(p).values(..)]: one statement over the rows it sees, all
    or nothing; its row count. *)
Definition hit_by (w : World) (p : R → bool) (r : R) : bool :=
  orm_criteria (ctx w) UPDATE r && rls_using policies (guc w) UPDATE (session w) r &&
  rls_using policies (guc w) SELECT (session w) r && p r.

Definition changed_by (now : instant) (w : World) (p : R → bool) (f : R → R) (r : R) : R :=
  if hit_by w p r then on_update now (f r) else r.

Definition update_where (now : instant) (p : R → bool) (f : R → R) : M World nat :=
  w ← get;
  let db := session w in
  let change := changed_by now w p f in
  let l := filter (λ r, hit_by w p r = true) (map_to_list (rows db)).*2 in
  if negb (forallb (λ r, rls_check policies (guc w) UPDATE db (change r) &&
                         rls_using policies (guc w) SELECT db (change r)) l)
  then raise (PyError "ProgrammingError")
  else if negb (forallb (λ r, constraints db (change r)) l) then raise (PyError "IntegrityError")
  else modify (upd_session (λ db, with_rows (change <$> rows db) db));; mret (length l).

(** [db.delete(r)], flushed. *)
Definition delete_row (id : uuid) : M World unit :=
  w ← get;
  let db := session w in
  match rows db !! id with
  | None => raise (PyError "StaleDataError")
  | Some old =>
      if negb (rls_using policies (guc w) DELETE db old && rls_using policies (guc w) SELECT db old)
      then raise (PyError "StaleDataError")
      else modify (upd_session (λ db, with_rows (delete id (rows db)) db))
  end.
End statements.

(** ** The tables of the program *)

Definition exists_row {R} (m : gmap uuid R) (id : uuid) : bool :=
  match m !! id with Some _ => true | None => false end.
Definition exists_opt {R} (m : gmap uuid R) (id : option uuid) : bool :=
  match id with Some i => exists_row m i | None => true end.
Definition tenant_fk (db : Db) (t : option uuid) : bool :=
  match t with Some i => exists_row (companies db) i | None => false end.
(** No other row of the table has the same value of a unique column. *)
Definition unique_col {R A} `{EqDecision A} (m : gmap uuid R) (pk : R → uuid) (col : R → A) (r : R) : bool :=
  forallb (λ o, bool_decide (pk o = pk r) || negb (bool_decide (col o = col r))) (map_to_list m).*2.

#[global] Instance User_table : Table User := {
  rows := users;
  with_rows m db := mkDb m (companies db) (candidates db) (jobs db) (applications db) (interviews db)
    (resumes db) (skills db) (notifications db) (status_history db) (question_sets db) (questions db);
  pk := user_id; mixin := NoMixin; policies := None;
  constraints db u := unique_col (users db) user_id user_email u && exists_opt (companies db) (user_tenant_id u);
  returning := true; on_update _ r := r }.

#[global] Instance Company_table : Table Company := {
  rows := companies;
  with_rows m db := mkDb (users db) m (candidates db) (jobs db) (applications db) (interviews db)
    (resumes db) (skills db) (notifications db) (status_history db) (question_sets db) (questions db);
  pk := company_id; mixin := NoMixin; policies := Some company_policies;
  constraints db c := exists_row (users db) (company_owner_id c);
  returning := false; on_update _ r := r }.

#[global] Instance Candidate_table : Table Candidate := {
  rows := candidates;
  with_rows m db := mkDb (users db) (companies db) m (jobs db) (applications db) (interviews db)
    (resumes db) (skills db) (notifications db) (status_history db) (question_sets db) (questions db);
  pk := cand_id; mixin := NoMixin; policies := Some candidate_policies;
  constraints db c := unique_col (candidates db) cand_id cand_user_id c && exists_row (users db) (cand_user_id c);
  returning := false; on_update _ r := r }.

Definition job_set_tenant (t : option uuid) (j : Job) : Job :=
  mkJob (job_id j) t (job_company_id j) (job_created_by j) (job_title j) (job_department j)
    (job_description j) (job_skills_required j) (job_salary_range j) (job_status j)
    (job_required_seniority j) (job_required_education j) (job_location j) (job_created_at j).

#[global] Instance Job_table : Table Job := {
  rows := jobs;
  with_rows m db := mkDb (users db) (companies db) (candidates db) m (applications db) (interviews db)
    (resumes db) (skills db) (notifications db) (status_history db) (question_sets db) (questions db);
  pk := job_id; mixin := TenantMixin job_tenant_id job_set_tenant; policies := Some job_policies;
  constraints db j := tenant_fk db (job_tenant_id j) && exists_opt (companies db) (job_company_id j) &&
                      exists_row (users db) (job_created_by j);
  returning := true; on_update _ r := r }.

Definition app_set_tenant (t : option uuid) (a : Application) : Application :=
  mkApplication (app_id a) t (app_job_id a) (app_candidate_id a) (app_current_status a)
    (app_score_ai a) (app_created_at a) (app_updated_at a).

Definition app_touch (now : instant) (a : Application) : Application :=
  mkApplication (app_id a) (app_tenant_id a) (app_job_id a) (app_candidate_id a) (app_current_status a)
    (app_score_ai a) (app_created_at a) now.

#[global] Instance Application_table : Table Application := {
  rows := applications;
  with_rows m db := mkDb (users db) (companies db) (candidates db) (jobs db) m (interviews db)
    (resumes db) (skills db) (notifications db) (status_history db) (question_sets db) (questions db);
  pk := app_id; mixin := TenantMixin app_tenant_id app_set_tenant; policies := Some application_policies;
  constraints db a := tenant_fk db (app_tenant_id a) && exists_row (jobs db) (app_job_id a) &&
                      exists_row (candidates db) (app_candidate_id a);
  returning := true; on_update := app_touch }.

Definition iv_set_tenant (t : option uuid) (i : Interview) : Interview :=
  mkInterview (iv_id i) t (iv_application_id i) (iv_interviewer_id i) (iv_scheduled_at i)
    (iv_meeting_link i) (iv_reminder_job_ids i) (iv_status i) (iv_evaluation_scores i)
    (iv_overall_score i) (iv_feedback_text i) (iv_evaluated_at i).

#[global] Instance Interview_table : Table Interview := {
  rows := interviews;
  with_rows m db := mkDb (users db) (companies db) (candidates db) (jobs db) (applications db) m
    (resumes db) (skills db) (notifications db) (status_history db) (question_sets db) (questions db);
  pk := iv_id; mixin := TenantMixin iv_tenant_id iv_set_tenant; policies := Some interview_policies;
  constraints db i := tenant_fk db (iv_tenant_id i) && exists_row (applications db) (iv_application_id i) &&
                      exists_row (users db) (iv_interviewer_id i);
  returning := false; on_update _ r := r }.

Definition res_set_tenant (t : option uuid) (r : Resume) : Resume :=
  mkResume (res_id r) t (res_candidate_id r) (res_file_url r) (res_raw_text r) (res_search_tokens r)
    (res_parsed_data r) (res_skill_analysis r) (res_agent_analysis r).

#[global] Instance Resume_table : Table Resume := {
  rows := resumes;
  with_rows m db := mkDb (users db) (companies db) (candidates db) (jobs db) (applications db) (interviews db)
    m (skills db) (notifications db) (status_history db) (question_sets db) (questions db);
  pk := res_id; mixin := TenantMixin res_tenant_id res_set_tenant; policies := Some resume_policies;
  constraints db r := tenant_fk db (res_tenant_id r) && exists_row (candidates db) (res_candidate_id r);
  returning := false; on_update _ r := r }.

Definition skill_set_tenant (t : option uuid) (s : Skill) : Skill := mkSkill (skill_id s) t (skill_name s).

#[global] Instance Skill_table : Table Skill := {
  rows := skills;
  with_rows m db := mkDb (users db) (companies db) (candidates db) (jobs db) (applications db) (interviews db)
    (resumes db) m (notifications db) (status_history db) (question_sets db) (questions db);
  pk := skill_id; mixin := SharedTenantMixin skill_tenant_id skill_set_tenant; policies := Some skill_policies;
  constraints db s := exists_opt (companies db) (skill_tenant_id s) &&
    unique_col (skills db) skill_id (λ s, (skill_tenant_id s, lower (skill_name s))) s;
  returning := true; on_update _ r := r }.

#[global] Instance Notification_table : Table Notification := {
  rows := notifications;
  with_rows m db := mkDb (users db) (companies db) (candidates db) (jobs db) (applications db) (interviews db)
    (resumes db) (skills db) m (status_history db) (question_sets db) (questions db);
  pk := ntf_id; mixin := NoMixin; policies := None;
  constraints db n := exists_row (users db) (ntf_user_id n);
  returning := true; on_update _ r := r }.

Definition sh_set_tenant (t : option uuid) (h : StatusHistory) : StatusHistory :=
  mkStatusHistory (sh_id h) t (sh_application_id h) (sh_old_status h) (sh_new_status h)
    (sh_changed_by h) (sh_changed_at h).

#[global] Instance StatusHistory_table : Table StatusHistory := {
  rows := status_history;
  with_rows m db := mkDb (users db) (companies db) (candidates db) (jobs db) (applications db) (interviews db)
    (resumes db) (skills db) (notifications db) m (question_sets db) (questions db);
  pk := sh_id; mixin := TenantMixin sh_tenant_id sh_set_tenant; policies := Some status_history_policies;
  constraints db h := tenant_fk db (sh_tenant_id h) && exists_row (applications db) (sh_application_id h) &&
                      exists_row (users db) (sh_changed_by h);
  returning := true; on_update _ r := r }.

Definition qs_set_tenant (t : option uuid) (q : InterviewQuestionSet) : InterviewQuestionSet :=
  mkQuestionSet (qs_id q) t (qs_application_id q) (qs_job_id q) (qs_candidate_id q) (qs_requested_by q)
    (qs_status q) (qs_language q) (qs_question_count q) (qs_difficulty q) (qs_focus_skills q)
    (qs_prompt_version q) (qs_provider_model q) (qs_input_profile q) (qs_focus_summary q) (qs_error q)
    (qs_prompt_tokens q) (qs_completion_tokens q) (qs_latency_ms q) (qs_attempts q) (qs_created_at q)
    (qs_completed_at q).

#[global] Instance QuestionSet_table : Table InterviewQuestionSet := {
  rows := question_sets;
  with_rows m db := mkDb (users db) (companies db) (candidates db) (jobs db) (applications db) (interviews db)
    (resumes db) (skills db) (notifications db) (status_history db) m (questions db);
  pk := qs_id; mixin := TenantMixin qs_tenant_id qs_set_tenant; policies := Some question_set_policies;
  constraints db q := tenant_fk db (qs_tenant_id q) && exists_row (applications db) (qs_application_id q) &&
    exists_row (jobs db) (qs_job_id q) && exists_row (candidates db) (qs_candidate_id q) &&
    exists_row (users db) (qs_requested_by q) &&
    bool_decide (qs_status q ∈ ["pending"; "processing"; "completed"; "failed"]);
  returning := true; on_update _ r := r }.

Definition q_set_tenant (t : option uuid) (q : InterviewQuestion) : InterviewQuestion :=
  mkQuestion (q_id q) t (q_question_set_id q) (q_position q) (q_category q) (q_skill q) (q_difficulty q)
    (q_question q) (q_purpose q) (q_expected_answer q) (q_evaluation_points q) (q_red_flags q)
    (q_follow_ups q) (q_estimated_minutes q) (q_is_approved q) (q_interviewer_notes q) (q_updated_by q)
    (q_updated_at q).

#[global] Instance Question_table : Table InterviewQuestion := {
  rows := questions;
  with_rows m db := mkDb (users db) (companies db) (candidates db) (jobs db) (applications db) (interviews db)
    (resumes db) (skills db) (notifications db) (status_history db) (question_sets db) m;
  pk := q_id; mixin := TenantMixin q_tenant_id q_set_tenant; policies := Some question_policies;
  constraints db q := tenant_fk db (q_tenant_id q) && exists_row (question_sets db) (q_question_set_id q) &&
    exists_opt (users db) (q_updated_by q) &&
    unique_col (questions db) q_id (λ q, (q_question_set_id q, q_position q)) q &&
    bool_decide (q_difficulty q ∈ ["easy"; "medium"; "hard"]);
  returning := true; on_update _ r := r }.
