(* ===== verification/Roles.v ===== *)
(** Role-based access ([app/core/deps.py], [require_roles]) and the role
    lists of the routers. *)
From S2P Require Import Prelude Models.
Local Open Scope string_scope.

Definition CANDIDATE_ROLE : string := "Candidate".

(** [require_roles( *allowed )]: 403 unless the user has one of the roles. *)
Definition require_roles {W} (allowed_roles : list string) (current_user : User) : M W unit :=
  reject_if (negb (bool_decide (user_role current_user ∈ allowed_roles))) 403.

Lemma require_roles_inv {W} l u (w : W) x w' :
  require_roles l u w = (inr x, w') → user_role u ∈ l ∧ w' = w.
Proof.
  unfold require_roles. mrun. case_bool_decide; mrun; intros; by simplify_eq.
Qed.
