(* ===== verification/OrmLaws.v ===== *)
(** Laws of the session layer [Orm.v]: what a successful statement implies,
    and the two isolation layers of multi-tenancy - each is enough alone to
    keep a member of an organisation away from the rows of another, for reads
    (ORM criteria, row security) and for writes. *)
From S2P Require Import Prelude PyText Config Models Security Tenancy Orm Roles.
Local Open Scope string_scope.

(** ** Inversion of the statements *)

Section inversion.
Context `{Settings, Table R}.

Lemma select_by_id_inv id w r w' :
  select_by_id id w = (inr (Some r), w') →
  w' = w ∧ rows (session w) !! id = Some r ∧ row_visible w r = true.
Proof.
  unfold select_by_id, reads. intros E. injection E as E <-.
  destruct (rows (session w) !! id) as [r0|]; simpl in E; [|done].
  destruct (row_visible w r0) eqn:Hv; by simplify_eq.
Qed.

Lemma select_by_id_total id w : ∃ o, select_by_id id w = (inr o, w).
Proof. eexists. reflexivity. Qed.

Lemma insert_row_inv r w x w' :
  insert_row r w = (inr x, w') →
  ∃ r', _stamp_tenant_on_new_rows (ctx w) r = Some r' ∧
    rls_check policies (guc w) INSERT (session w) r' = true ∧
    rows (session w) !! pk r' = None ∧ constraints (session w) r' = true ∧
    w' = upd_session (λ db, with_rows (<[pk r' := r']> (rows db)) db) w.
Proof.
  unfold insert_row. mrun. destruct (_stamp_tenant_on_new_rows (ctx w) r) as [r'|]; [|done].
  intros E. exists r'. repeat case_match; simplify_eq. bool_to_prop. done.
Qed.

Lemma update_row_inv now id f w x w' :
  update_row now id f w = (inr x, w') →
  ∃ old, let r := on_update now (f old) in
    rows (session w) !! id = Some old ∧
    rls_using policies (guc w) UPDATE (session w) old = true ∧
    rls_using policies (guc w) SELECT (session w) old = true ∧
    rls_check policies (guc w) UPDATE (session w) r = true ∧
    constraints (session w) r = true ∧
    w' = upd_session (λ db, with_rows (<[id := r]> (rows db)) db) w.
Proof.
  unfold update_row. mrun. destruct (rows (session w) !! id) as [old|]; [|done].
  intros E. exists old. repeat case_match; simplify_eq. bool_to_prop. done.
Qed.

Lemma delete_row_inv id w x w' :
  delete_row id w = (inr x, w') →
  ∃ old, rows (session w) !! id = Some old ∧
    rls_using policies (guc w) DELETE (session w) old = true ∧
    w' = upd_session (λ db, with_rows (delete id (rows db)) db) w.
Proof.
  unfold delete_row. mrun. destruct (rows (session w) !! id) as [old|]; [|done].
  intros E. exists old. repeat case_match; simplify_eq. bool_to_prop. done.
Qed.

(** A write that passes the policies and the constraints. *)
Lemma update_row_ok now id f w old :
  let r := on_update now (f old) in
  rows (session w) !! id = Some old →
  rls_using policies (guc w) UPDATE (session w) old = true →
  rls_using policies (guc w) SELECT (session w) old = true →
  rls_check policies (guc w) UPDATE (session w) r = true →
  rls_using policies (guc w) SELECT (session w) r = true →
  constraints (session w) r = true →
  update_row now id f w = (inr tt, upd_session (λ db, with_rows (<[id := r]> (rows db)) db) w).
Proof.
  intros r Hl Hu Hs Hc Hs' Hk. unfold update_row, get, mbind, M_bind. rewrite Hl, Hu, Hs. fold r.
  by rewrite Hc, Hs', Hk.
Qed.

(** A failed statement leaves the world as it was. *)
Lemma insert_row_fail r w e w' : insert_row r w = (inl e, w') → w' = w.
Proof. unfold insert_row. mrun. repeat case_match; naive_solver. Qed.

Lemma update_row_fail now id f w e w' : update_row now id f w = (inl e, w') → w' = w.
Proof. unfold update_row. mrun. repeat case_match; naive_solver. Qed.

Lemma delete_row_fail id w e w' : delete_row id w = (inl e, w') → w' = w.
Proof. unfold delete_row. mrun. repeat case_match; naive_solver. Qed.
End inversion.

Lemma commit_bind {A} (f : unit → M World A) w :
  (commit ≫= f) w = f tt (mkWorld (session w) (session w) (ctx w) (effects w)).
Proof. done. Qed.
Lemma rollback_bind {A} (f : unit → M World A) w :
  (rollback ≫= f) w = f tt (mkWorld (committed w) (committed w) (ctx w) (effects w)).
Proof. done. Qed.
Lemma emit_bind {A} e (f : unit → M World A) w :
  (emit e ≫= f) w = f tt (mkWorld (committed w) (session w) (ctx w) (effects w ++ [e])).
Proof. done. Qed.

(** The visible row with a given key. *)
Definition lookup_visible `{Settings, Table R} (id : uuid) (w : World) : option R :=
  r ← rows (session w) !! id; if row_visible w r then Some r else None.

Lemma select_by_id_bind `{Settings, Table R} {A} id (f : option R → M World A) w :
  (select_by_id id ≫= f) w = f (lookup_visible id w) w.
Proof. done. Qed.
Lemma select_where_bind `{Settings, Table R} {A} p (f : list R → M World A) w :
  (select_where p ≫= f) w = f (filter (λ r, p r = true) (visible_rows w)) w.
Proof. done. Qed.

Lemma lookup_visible_Some `{Settings, Table R} id w r :
  lookup_visible id w = Some r ↔ rows (session w) !! id = Some r ∧ row_visible w r = true.
Proof.
  unfold lookup_visible. destruct (rows (session w) !! id) as [r0|]; simpl.
  - destruct (row_visible w r0) eqn:E; split; [by intros [= <-]|by intros [[= <-] _]|done|].
    intros [[= <-] ?]. congruence.
  - split; [done|by intros [? _]].
Qed.

(** What stamping may change. *)
Lemma stamp_inv `{Table R} col setc c (r r' : R) :
  mixin = TenantMixin col setc → _stamp_tenant_on_new_rows c r = Some r' →
  r' = r ∧ (scope c ≠ SCOPE_TENANT ∨ col r = tenant_id c) ∨
  col r = None ∧ scope c = SCOPE_TENANT ∧ r' = setc (tenant_id c) r.
Proof.
  intros Hm. unfold _stamp_tenant_on_new_rows. rewrite Hm. case_bool_decide as Hs; simpl.
  - destruct (col r) as [t|] eqn:Ec; [case_bool_decide|]; naive_solver.
  - naive_solver.
Qed.

(** ** Rows that belong to others *)

(** [m'] differs from [m] at most in rows of [own]. *)
Definition same_except {R} (own : R → Prop) (m m' : gmap uuid R) : Prop :=
  ∀ k r, ¬ own r → (m !! k = Some r ↔ m' !! k = Some r).

Section same_except.
Context {R : Type} (own : R → Prop).

Lemma same_except_fmap m (f : R → R) :
  (∀ k r, m !! k = Some r → f r = r ∨ (own r ∧ own (f r))) → same_except own m (f <$> m).
Proof.
  intros Hf k r Hr. rewrite lookup_fmap. split.
  - intros Hk. rewrite Hk. cbn. destruct (Hf k r Hk) as [->|[Ho _]]; [done|by destruct Hr].
  - destruct (m !! k) as [x|] eqn:Hk; [|done]. cbn. intros [= <-].
    destruct (Hf k x Hk) as [->|[_ Ho]]; [done|by destruct Hr].
Qed.

Lemma same_except_refl m : same_except own m m.
Proof. done. Qed.

Lemma same_except_trans m1 m2 m3 :
  same_except own m1 m2 → same_except own m2 m3 → same_except own m1 m3.
Proof. intros H1 H2 k r Hr. rewrite (H1 k r Hr). by apply H2. Qed.

Lemma same_except_insert m k r :
  own r → (∀ old, m !! k = Some old → own old) → same_except own m (<[k := r]> m).
Proof.
  intros Hr Hold j x Hx. destruct (decide (k = j)) as [->|].
  - rewrite lookup_insert_eq. split; intros E; [destruct Hx; eauto|by simplify_eq].
  - by rewrite lookup_insert_ne.
Qed.

Lemma same_except_delete m k :
  (∀ old, m !! k = Some old → own old) → same_except own m (delete k m).
Proof.
  intros Hold j x Hx. destruct (decide (k = j)) as [->|].
  - rewrite lookup_delete_eq. split; intros E; [destruct Hx; eauto|done].
  - by rewrite lookup_delete_ne.
Qed.
End same_except.

(** The rows the organisation [t] does not own are the same in both states:
    every row of every tenant table, the companies and the candidates. *)
Record same_foreign (t : uuid) (db db' : Db) : Prop := {
  sf_companies : same_except (λ c, company_id c = t) (companies db) (companies db');
  sf_candidates : candidates db = candidates db';
  sf_jobs : same_except (λ r, job_tenant_id r = Some t) (jobs db) (jobs db');
  sf_applications : same_except (λ r, app_tenant_id r = Some t) (applications db) (applications db');
  sf_interviews : same_except (λ r, iv_tenant_id r = Some t) (interviews db) (interviews db');
  sf_resumes : same_except (λ r, res_tenant_id r = Some t) (resumes db) (resumes db');
  sf_skills : same_except (λ r, skill_tenant_id r = Some t) (skills db) (skills db');
  sf_status_history : same_except (λ r, sh_tenant_id r = Some t) (status_history db) (status_history db');
  sf_question_sets : same_except (λ r, qs_tenant_id r = Some t) (question_sets db) (question_sets db');
  sf_questions : same_except (λ r, q_tenant_id r = Some t) (questions db) (questions db') }.

#[global] Instance same_foreign_preorder t : PreOrder (same_foreign t).
Proof.
  split.
  - intros db. by split.
  - intros a b c [] []. split; solve [congruence | eapply same_except_trans; eassumption].
Qed.

(** *** Policies in the context of a member of an organisation *)

Lemma sql_eq_true a b : sql_eq a b = true ↔ ∃ x, a = Some x ∧ b = Some x.
Proof.
  destruct a, b; simpl; try naive_solver. rewrite bool_decide_eq_true. naive_solver.
Qed.

Section member.
Context `{Settings}.
(** The database role of the requests is a real role. *)
Context (Hrole : DB_RLS_ROLE ≠ "none").
Context (t u : uuid).

Let g : Guc := _context_parameters (tenant_ctx t u).

Lemma guc_member : g = mkGuc DB_RLS_ROLE "tenant" (Some t) (Some u).
Proof. done. Qed.

Lemma scope_member : app_current_scope g = "tenant".
Proof. done. Qed.

Lemma bypass_rls_member : bypass_rls g = false.
Proof. rewrite guc_member. by apply bool_decide_eq_false. Qed.

Lemma current_candidate_member db : app_current_candidate_id g db = None.
Proof. rewrite guc_member. done. Qed.

Lemma own_candidate_member {R} (col : R → uuid) db r : own_candidate col g db r = false.
Proof. unfold own_candidate. by rewrite current_candidate_member. Qed.

Lemma own_application_member p db id : own_application p g db id = false.
Proof.
  unfold own_application. rewrite current_candidate_member.
  apply existsb_false. intros a _. simpl. by rewrite andb_false_r.
Qed.

(** [tenant_isolation] followed by policies that say nothing to a member. *)
Definition silent {R} (rest : list (Policy R)) : Prop :=
  ∀ p db r, p ∈ rest →
    (∀ f, pol_using p = Some f → f g db r = false) ∧ (∀ f, pol_check p = Some f → f g db r = false).

Lemma silent_nil {R} : silent (R:=R) [].
Proof. intros p db r Hp. set_solver. Qed.

Lemma rls_using_isolation {R} (col : R → option uuid) rest cmd db r :
  silent rest → rls_using (Some (tenant_isolation col :: rest)) g cmd db r = sql_eq (col r) (Some t).
Proof.
  intros Hs. unfold rls_using. rewrite bypass_rls_member. cbn.
  rewrite (existsb_false _ rest); [by rewrite orb_false_r|].
  intros p Hp. destruct (policy_for cmd p); [|done]. simpl.
  destruct (Hs p db r Hp) as [Hf _], (pol_using p); auto.
Qed.

Lemma rls_check_isolation {R} (col : R → option uuid) rest cmd db r :
  silent rest → rls_check (Some (tenant_isolation col :: rest)) g cmd db r = sql_eq (col r) (Some t).
Proof.
  intros Hs. unfold rls_check. rewrite bypass_rls_member. cbn.
  rewrite (existsb_false _ rest); [by rewrite orb_false_r|].
  intros p Hp. destruct (policy_for cmd p); [|done]. simpl.
  destruct (Hs p db r Hp) as [_ Hf], (pol_check p); auto.
Qed.
End member.

(** ** Tables confined by their policies *)

(** In the context of a member of [t], the policies let through only writes
    to rows that are [own t]; and changing only such rows leaves the rest of
    the database to its owners. *)
Class Confining (R : Type) `{Settings, Table R} (own : uuid → R → Prop) := {
  confining_check cmd t u db r :
    DB_RLS_ROLE ≠ "none" → cmd = INSERT ∨ cmd = UPDATE →
    rls_check policies (_context_parameters (tenant_ctx t u)) cmd db r = true → own t r;
  confining_using cmd t u db r :
    DB_RLS_ROLE ≠ "none" → cmd = UPDATE ∨ cmd = DELETE →
    rls_using policies (_context_parameters (tenant_ctx t u)) cmd db r = true → own t r;
  confining_frame t db m :
    same_except (own t) (rows db) m → same_foreign t db (with_rows m db) }.

Ltac frame_solve :=
  intros; split; cbn in *; solve [apply same_except_refl | assumption | reflexivity].

(** The rows of a [TenantMixin] table: the isolation policy comes first and
    the others are silent for members. *)
Class IsolatedTable (R : Type) `{Table R} (get : R → option uuid) (set : option uuid → R → R) := {
  isolated_mixin : mixin = TenantMixin get set;
  isolated_rest : list (Policy R);
  isolated_policies : policies = Some (tenant_isolation get :: isolated_rest);
  isolated_silent `{Settings} t u : silent t u isolated_rest }.

Ltac silent_solve :=
  intros ? t u p db r Hp;
  repeat (apply elem_of_cons in Hp as [->|Hp]; [cbn; split; intros ? [= <-]; cbn;
    rewrite ?own_candidate_member, ?own_application_member; reflexivity|]);
  set_solver.

Section instances.
#[export] Instance Job_isolated : IsolatedTable Job job_tenant_id job_set_tenant.
Proof. refine {| isolated_rest := tail job_policies |}; [done|done|silent_solve]. Defined.
#[export] Instance Application_isolated : IsolatedTable Application app_tenant_id app_set_tenant.
Proof. refine {| isolated_rest := tail application_policies |}; [done|done|silent_solve]. Defined.
#[export] Instance Interview_isolated : IsolatedTable Interview iv_tenant_id iv_set_tenant.
Proof. refine {| isolated_rest := tail interview_policies |}; [done|done|silent_solve]. Defined.
#[export] Instance Resume_isolated : IsolatedTable Resume res_tenant_id res_set_tenant.
Proof. refine {| isolated_rest := tail resume_policies |}; [done|done|silent_solve]. Defined.
#[export] Instance StatusHistory_isolated : IsolatedTable StatusHistory sh_tenant_id sh_set_tenant.
Proof. refine {| isolated_rest := tail status_history_policies |}; [done|done|silent_solve]. Defined.
#[export] Instance QuestionSet_isolated : IsolatedTable InterviewQuestionSet qs_tenant_id qs_set_tenant.
Proof. refine {| isolated_rest := tail question_set_policies |}; [done|done|silent_solve]. Defined.
#[export] Instance Question_isolated : IsolatedTable InterviewQuestion q_tenant_id q_set_tenant.
Proof. refine {| isolated_rest := tail question_policies |}; [done|done|silent_solve]. Defined.
End instances.

Lemma isolated_check `{Settings, IsolatedTable R col setc} cmd t u db r :
  DB_RLS_ROLE ≠ "none" →
  rls_check policies (_context_parameters (tenant_ctx t u)) cmd db r = true → col r = Some t.
Proof.
  intros Hr. rewrite isolated_policies, rls_check_isolation by (done || apply isolated_silent).
  intros (x & -> & Hx)%sql_eq_true. by simplify_eq.
Qed.

Lemma isolated_using `{Settings, IsolatedTable R col setc} cmd t u db r :
  DB_RLS_ROLE ≠ "none" →
  rls_using policies (_context_parameters (tenant_ctx t u)) cmd db r = true → col r = Some t.
Proof.
  intros Hr. rewrite isolated_policies, rls_using_isolation by (done || apply isolated_silent).
  intros (x & -> & Hx)%sql_eq_true. by simplify_eq.
Qed.

Ltac confining_isolated :=
  split; [intros; eapply isolated_check; eassumption
         |intros; eapply isolated_using; eassumption
         |frame_solve].

Section confining.
Context `{Settings}.

#[export] Instance User_confining : Confining User (λ _ _, True).
Proof. split; [done|done|frame_solve]. Qed.
#[export] Instance Notification_confining : Confining Notification (λ _ _, True).
Proof. split; [done|done|frame_solve]. Qed.
#[export] Instance Job_confining : Confining Job (λ t r, job_tenant_id r = Some t).
Proof. confining_isolated. Qed.
#[export] Instance Application_confining : Confining Application (λ t r, app_tenant_id r = Some t).
Proof. confining_isolated. Qed.
#[export] Instance Interview_confining : Confining Interview (λ t r, iv_tenant_id r = Some t).
Proof. confining_isolated. Qed.
#[export] Instance Resume_confining : Confining Resume (λ t r, res_tenant_id r = Some t).
Proof. confining_isolated. Qed.
#[export] Instance StatusHistory_confining : Confining StatusHistory (λ t r, sh_tenant_id r = Some t).
Proof. confining_isolated. Qed.
#[export] Instance QuestionSet_confining : Confining InterviewQuestionSet (λ t r, qs_tenant_id r = Some t).
Proof. confining_isolated. Qed.
#[export] Instance Question_confining : Confining InterviewQuestion (λ t r, q_tenant_id r = Some t).
Proof. confining_isolated. Qed.

#[export] Instance Candidate_confining : Confining Candidate (λ _ _, False).
Proof.
  split.
  - intros cmd t u db r Hr _. unfold rls_check. cbn [policies Candidate_table].
    rewrite bypass_rls_member by done. cbn.
    by rewrite scope_member, (bool_decide_false (_ = "candidate")), andb_false_r by done.
  - intros cmd t u db r Hr Hc. unfold rls_using. cbn [policies Candidate_table].
    rewrite bypass_rls_member by done. destruct Hc as [-> | ->]; cbn;
      rewrite scope_member, (bool_decide_false (_ = "candidate")) by done; [|done].
    by rewrite (bool_decide_false (SELECT = UPDATE)) by done.
  - intros t db m Hm. split; cbn in *; try apply same_except_refl.
    apply map_eq. intros k. apply option_eq. intros r.
    apply (Hm k r). tauto.
Qed.

#[export] Instance Company_confining : Confining Company (λ t c, company_id c = t).
Proof.
  split; [| |frame_solve].
  - intros cmd t u db r Hr Hc. unfold rls_check. cbn [policies Company_table].
    rewrite bypass_rls_member by done. intros Hs. apply existsb_exists in Hs as (p & Hp & Hs).
    destruct Hp as [<-|[<-|[]]]; cbn in Hs; [by rewrite andb_false_r in Hs|].
    apply andb_true_iff in Hs as [_ Hs]. by case_bool_decide.
  - intros cmd t u db r Hr Hc. unfold rls_using. cbn [policies Company_table].
    rewrite bypass_rls_member by done. intros Hs. apply existsb_exists in Hs as (p & Hp & Hs).
    destruct Hp as [<-|[<-|[]]]; cbn in Hs; apply andb_true_iff in Hs as [_ Hs]; by case_bool_decide.
Qed.

#[export] Instance Skill_confining : Confining Skill (λ t s, skill_tenant_id s = Some t).
Proof.
  split; [| |frame_solve].
  - intros cmd t u db r Hr _. unfold rls_check. cbn [policies Skill_table].
    rewrite bypass_rls_member by done. intros Hs. apply existsb_exists in Hs as (p & Hp & Hs).
    destruct Hp as [<-|[<-|[]]]; cbn in Hs; [by rewrite andb_false_r in Hs|].
    apply sql_eq_true in Hs as (x & -> & Hx). by simplify_eq.
  - intros cmd t u db r Hr Hc. unfold rls_using. cbn [policies Skill_table].
    rewrite bypass_rls_member by done. intros Hs. apply existsb_exists in Hs as (p & Hp & Hs).
    destruct Hp as [<-|[<-|[]]]; cbn in Hs.
    + apply andb_true_iff in Hs as [Hs _]. apply bool_decide_eq_true in Hs. by destruct Hc; subst.
    + apply sql_eq_true in Hs as (x & -> & Hx). by simplify_eq.
Qed.
End confining.

(** ** Computations that change nothing *)

Definition readonly {W A} (m : M W A) : Prop := ∀ w, snd (m w) = w.

Create HintDb readonly.

Lemma readonly_ret {W A} (a : A) : readonly (W:=W) (mret a).
Proof. done. Qed.
Lemma readonly_raise {W A} e : readonly (raise (W:=W) (A:=A) e).
Proof. done. Qed.
Lemma readonly_reads {W A} (f : W → A) : readonly (reads f).
Proof. done. Qed.
Lemma readonly_get {W} : readonly (get (W:=W)).
Proof. done. Qed.
Lemma readonly_bind {W A B} (m : M W A) (f : A → M W B) :
  readonly m → (∀ a, readonly (f a)) → readonly (m ≫= f).
Proof.
  intros Hm Hf w. specialize (Hm w). unfold mbind, M_bind. destruct (m w) as [[e|a] w']; cbn in *; [done|].
  subst. apply Hf.
Qed.
Lemma readonly_select_where `{Settings, Table R} (p : R → bool) : readonly (select_where p).
Proof. done. Qed.
Lemma readonly_select_by_id `{Settings, Table R} id : readonly (select_by_id (R:=R) id).
Proof. done. Qed.
Lemma readonly_refresh `{Settings, Table R} id : readonly (refresh (R:=R) id).
Proof. apply readonly_bind; [done|]. by intros []. Qed.
#[export] Hint Resolve readonly_ret readonly_raise readonly_reads readonly_get readonly_select_where
  readonly_select_by_id readonly_refresh : readonly.

Ltac readonly :=
  repeat first
    [ apply readonly_bind; [|intros]
    | progress unfold reject_if, or_raise, http_error, scalar_one_or_none, require_roles
    | solve [eauto with readonly]
    | case_match ].

Lemma readonly_run {W A} (m : M W A) w r w' : readonly m → m w = (r, w') → w' = w.
Proof. intros Hm E. specialize (Hm w). by rewrite E in Hm. Qed.

(** A table whose rows satisfy its constraints. *)
Definition table_ok (R : Type) `{Table R} (db : Db) : Prop :=
  ∀ k (r : R), rows db !! k = Some r → pk r = k ∧ constraints db r = true.

(** ** The platform's own context sees and writes every row *)

Section system.
Context `{Settings, Table R}.

Lemma system_using w cmd db (r : R) : ctx w = SYSTEM_CONTEXT → rls_using policies (guc w) cmd db r = true.
Proof. intros Hc. unfold rls_using, guc. rewrite Hc. by destruct policies. Qed.

Lemma system_check w cmd db (r : R) : ctx w = SYSTEM_CONTEXT → rls_check policies (guc w) cmd db r = true.
Proof. intros Hc. unfold rls_check, guc. rewrite Hc. by destruct policies. Qed.

Lemma system_visible w (r : R) : ctx w = SYSTEM_CONTEXT → row_visible w r = true.
Proof. intros Hc. unfold row_visible. rewrite system_using by done. unfold orm_criteria. by rewrite Hc. Qed.

Lemma system_rows w : ctx w = SYSTEM_CONTEXT → visible_rows (R:=R) w = (map_to_list (rows (session w))).*2.
Proof. intros Hc. unfold visible_rows. apply filter_all. intros r _. by apply system_visible. Qed.

Lemma system_update now id f w (old : R) :
  ctx w = SYSTEM_CONTEXT → rows (session w) !! id = Some old →
  constraints (session w) (on_update now (f old)) = true →
  update_row now id f w = (inr tt, upd_session (λ db, with_rows (<[id := on_update now (f old)]> (rows db)) db) w).
Proof. intros. apply update_row_ok; auto using system_using, system_check. Qed.

Lemma system_insert (r : R) w :
  ctx w = SYSTEM_CONTEXT → rows (session w) !! pk r = None → constraints (session w) r = true →
  insert_row r w = (inr tt, upd_session (λ db, with_rows (<[pk r := r]> (rows db)) db) w).
Proof.
  intros Hc Hn Hk. unfold insert_row. mrun.
  assert (_stamp_tenant_on_new_rows (ctx w) r = Some r) as -> by (unfold _stamp_tenant_on_new_rows; by rewrite Hc).
  rewrite system_check, system_using, orb_true_r by done. cbn. by rewrite Hn, Hk, bool_decide_true.
Qed.

Lemma system_lookup id w : ctx w = SYSTEM_CONTEXT → lookup_visible (R:=R) id w = rows (session w) !! id.
Proof.
  intros Hc. unfold lookup_visible. destruct (rows (session w) !! id) as [r|]; [|done]. cbn.
  by rewrite system_visible.
Qed.
End system.

Lemma in_system_scope {A} (m : M World A) w :
  system_scope m w = (fst (m (mkWorld (committed w) (session w) SYSTEM_CONTEXT (effects w))),
    let w' := snd (m (mkWorld (committed w) (session w) SYSTEM_CONTEXT (effects w))) in
    mkWorld (committed w') (session w') (ctx w) (effects w')).
Proof. unfold system_scope. cbn. by destruct (m _) as [r w']. Qed.
