(* ===== verification/Invariants.v ===== *)
(** Invariants of the database over whole handlers: what every statement of a
    handler preserves, the handler preserves. Three invariants are given as
    instances of one interface: a member of an organisation changes only rows
    of the organisation, staff changes no account of others, and the rows
    satisfy the constraints of their tables. *)
From S2P Require Import Prelude PyText Config Models Security Tenancy Orm Roles OrmLaws.
Local Open Scope string_scope.

(** ** The interface *)

Definition obeys {A} (I : World → Prop) (m : M World A) : Prop := ∀ w, I w → I (snd (m w)).

(** Ends of transactions and effects keep [I]. *)
Class Transactional (I : World → Prop) := {
  tx_commit : obeys I commit;
  tx_rollback : obeys I rollback;
  tx_emit e : obeys I (emit e) }.

(** So do the statements that write rows of [R]; an update does not change the
    key of a row. *)
Class Writes (I : World → Prop) (R : Type) `{Settings, Table R} := {
  writes_insert (r : R) : obeys I (insert_row r);
  writes_update now id (f : R → R) : (∀ r, pk (on_update now (f r)) = pk r) → obeys I (update_row now id f) }.

Class BulkWrites (I : World → Prop) (R : Type) `{Settings, Table R} :=
  writes_where now p (f : R → R) : (∀ r, pk (on_update now (f r)) = pk r) → obeys I (update_where now p f).

Class Deletes (I : World → Prop) (R : Type) `{Settings, Table R} :=
  deletes id : obeys I (delete_row (R:=R) id).

Create HintDb obeys.

Section computations.
Context `{Settings} (I : World → Prop).

Lemma obeys_ret {A} (a : A) : obeys I (mret a).
Proof. by intros w. Qed.
Lemma obeys_raise {A} e : obeys I (raise (A:=A) e).
Proof. by intros w. Qed.
Lemma obeys_reads {A} (f : World → A) : obeys I (reads f).
Proof. by intros w. Qed.
Lemma obeys_get : obeys I (get (W:=World)).
Proof. by intros w. Qed.
Lemma obeys_bind {A B} (m : M World A) (f : A → M World B) :
  obeys I m → (∀ a, obeys I (f a)) → obeys I (m ≫= f).
Proof.
  intros Hm Hf w Hw. unfold mbind, M_bind. specialize (Hm w Hw). destruct (m w) as [[e|a] w']; [done|]. by apply Hf.
Qed.
Lemma obeys_try {A} (m : M World A) h : obeys I m → (∀ e, obeys I (h e)) → obeys I (try_except m h).
Proof.
  intros Hm Hh w Hw. unfold try_except. specialize (Hm w Hw). destruct (m w) as [[e|a] w']; [by apply Hh|done].
Qed.
Lemma obeys_request `{!Transactional I} {A} (m : M World A) : obeys I m → obeys I (run_request m).
Proof.
  intros Hm w Hw. unfold run_request. specialize (Hm w Hw). destruct (m w) as [r w']. by apply tx_rollback.
Qed.
Lemma obeys_readonly {A} (m : M World A) : readonly m → obeys I m.
Proof. intros Hm w Hw. by rewrite Hm. Qed.

Context `{Table R}.
Lemma obeys_select_where (p : R → bool) : obeys I (select_where p).
Proof. by intros w. Qed.
Lemma obeys_select_by_id id : obeys I (select_by_id (R:=R) id).
Proof. by intros w. Qed.
Lemma obeys_refresh id : obeys I (refresh (R:=R) id).
Proof. apply obeys_readonly. apply readonly_refresh. Qed.
End computations.

#[export] Hint Resolve obeys_ret obeys_raise obeys_reads obeys_get tx_commit tx_rollback tx_emit
  obeys_select_where obeys_select_by_id obeys_refresh obeys_request writes_insert deletes : obeys.

(** A handler keeps an invariant when its statements do. *)
Ltac obey :=
  repeat first
    [ solve [eauto 2 with obeys]
    | apply tx_commit | apply tx_rollback | apply tx_emit
    | apply writes_insert
    | apply writes_update; intros; reflexivity
    | apply writes_where; intros; reflexivity
    | apply obeys_refresh
    | match goal with
      | |- obeys _ (_ ≫= _) => apply obeys_bind; [|intros]
      | |- obeys _ (try_except _ _) => apply obeys_try; [|intros]
      | |- obeys _ (let '_ := ?p in _) => destruct p
      end
    | progress unfold reject_if, or_raise, http_error, scalar_one_or_none, require_roles
    | case_match ].

(** ** Members of an organisation *)

(** Starting from [db0], the member [u] of [t] has only changed rows of [t], in
    the open transaction and in the committed state. *)
Definition Confined (t u : uuid) (db0 : Db) (w : World) : Prop :=
  ctx w = tenant_ctx t u ∧ same_foreign t db0 (committed w) ∧ same_foreign t db0 (session w).

Section confined.
Context `{Settings} (Hr : DB_RLS_ROLE ≠ "none") (t u : uuid) (db0 : Db).

#[export] Instance Confined_transactional : Transactional (Confined t u db0).
Proof. split; by intros; intros w (? & ? & ?). Qed.

Context `{Table R} `{!Confining R own}.

Lemma Confined_upd w m :
  Confined t u db0 w → same_except (own t) (rows (session w)) m →
  Confined t u db0 (upd_session (with_rows m) w).
Proof.
  intros (? & ? & ?) Hm. split_and!; [done|done|]. cbn. etrans; [eassumption|]. by apply confining_frame.
Qed.

Lemma Confined_writes : Writes (Confined t u db0) R.
Proof.
  split.
  - intros r w Hw. destruct (insert_row r w) as [[e|x] w'] eqn:E; simpl; [by apply insert_row_fail in E as ->|].
    apply insert_row_inv in E as (r' & _ & Hc & Hn & _ & ->).
    apply (Confined_upd _ _ Hw). unfold guc in Hc. rewrite (proj1 Hw) in Hc.
    apply same_except_insert; [eapply (confining_check INSERT); eauto|]. intros old. by rewrite Hn.
  - intros now id f _ w Hw. destruct (update_row now id f w) as [[e|x] w'] eqn:E; simpl; [by apply update_row_fail in E as ->|].
    apply update_row_inv in E as (old & Ho & Hu & _ & Hc & _ & ->).
    apply (Confined_upd _ _ Hw). unfold guc in Hc, Hu. rewrite (proj1 Hw) in Hc, Hu.
    apply same_except_insert; [eapply (confining_check UPDATE); eauto|].
    intros old' Ho'. simplify_eq. eapply (confining_using UPDATE); eauto.
Qed.

Lemma Confined_where : BulkWrites (Confined t u db0) R.
Proof.
  intros now p f _ w Hw. unfold update_where. mrun.
  case_match eqn:E1; [done|]. case_match; [done|]. cbn. apply (Confined_upd _ _ Hw).
  apply negb_false_iff in E1. rewrite forallb_elem_of in E1.
  apply same_except_fmap. intros k r Hk. unfold changed_by. destruct (hit_by w p r) eqn:Eh; [right|by left].
  assert (r ∈ filter (λ r, hit_by w p r = true) (map_to_list (rows (session w))).*2) as Hin.
  { apply list_elem_of_filter. split; [done|]. apply list_elem_of_fmap. exists (k, r). split; [done|].
    by apply elem_of_map_to_list. }
  specialize (E1 r Hin). unfold changed_by in E1. rewrite Eh in E1.
  unfold hit_by, guc in Eh. unfold guc in E1. rewrite (proj1 Hw) in Eh, E1. bool_to_prop.
  split; [eapply (confining_using UPDATE); eauto|eapply (confining_check UPDATE); eauto].
Qed.

Lemma Confined_deletes : Deletes (Confined t u db0) R.
Proof.
  intros id w Hw. destruct (delete_row id w) as [[e|x] w'] eqn:E; simpl; [by apply delete_row_fail in E as ->|].
  apply delete_row_inv in E as (old & Ho & Hu & ->).
  apply (Confined_upd _ _ Hw). unfold guc in Hu. rewrite (proj1 Hw) in Hu.
  apply same_except_delete. intros old' Ho'. simplify_eq. eapply (confining_using DELETE); eauto.
Qed.
End confined.

(** ** Accounts *)

(** The accounts of [m] are all as they were; new ones belong to [t] and are
    of its staff. *)
Definition accounts_kept (t : uuid) (m m' : gmap uuid User) : Prop :=
  (∀ k u, m !! k = Some u → m' !! k = Some u) ∧
  (∀ k u, m' !! k = Some u → m !! k = None →
     user_tenant_id u = Some t ∧ user_role u ∈ ["HR_Manager"; "Interviewer"]).

(** What holds of a part of the database, committed and in the session. *)
Definition On {X} (part : Db → X) (P : X → Prop) (w : World) : Prop := P (part (committed w)) ∧ P (part (session w)).

(** A table that is not in the part. *)
Class Outside {X} (part : Db → X) (R : Type) `{Table R} := outside db m : part (with_rows (R:=R) m db) = part db.

Section parts.
Context `{Settings} {X : Type} (part : Db → X) (P : X → Prop).

#[export] Instance On_transactional : Transactional (On part P).
Proof. split; by intros; intros w (? & ?). Qed.

Context `{Table R} `{!Outside part R}.

Lemma On_upd w (g : gmap uuid R → gmap uuid R) :
  On part P w → On part P (upd_session (λ db, with_rows (g (rows db)) db) w).
Proof. intros [Hc Hs]. split; [done|]. cbn. by rewrite outside. Qed.

#[export] Instance On_writes : Writes (On part P) R.
Proof.
  split.
  - intros r w Hw. destruct (insert_row r w) as [[e|x] w'] eqn:E; simpl; [by apply insert_row_fail in E as ->|].
    apply insert_row_inv in E as (r' & _ & _ & _ & _ & ->). by apply (On_upd w (λ m, <[pk r' := r']> m)).
  - intros now id f _ w Hw. destruct (update_row now id f w) as [[e|x] w'] eqn:E; simpl; [by apply update_row_fail in E as ->|].
    apply update_row_inv in E as (old & _ & _ & _ & _ & _ & ->).
    by apply (On_upd w (λ m, <[id := on_update now (f old)]> m)).
Qed.

#[export] Instance On_where : BulkWrites (On part P) R.
Proof.
  intros now p f _ w Hw. unfold update_where. mrun. case_match; [done|]. case_match; [done|]. cbn.
  by apply (On_upd w (λ m, changed_by now w p f <$> m)).
Qed.

#[export] Instance On_deletes : Deletes (On part P) R.
Proof.
  intros id w Hw. destruct (delete_row id w) as [[e|x] w'] eqn:E; simpl; [by apply delete_row_fail in E as ->|].
  apply delete_row_inv in E as (old & _ & _ & ->). by apply (On_upd w (λ m, delete id m)).
Qed.
End parts.

(** The accounts are those of [db0] and new ones of the staff. *)
Definition Accounts (t : uuid) (db0 : Db) : World → Prop := On users (accounts_kept t (users db0)).

Lemma Accounts_insert_user `{Settings} t db0 (r : User) :
  user_tenant_id r = Some t → user_role r ∈ ["HR_Manager"; "Interviewer"] → obeys (Accounts t db0) (insert_row r).
Proof.
  intros Ht Hr w [Hc [Hs1 Hs2]]. destruct (insert_row r w) as [[e|x] w'] eqn:E; simpl; [by apply insert_row_fail in E as ->|].
  apply insert_row_inv in E as (r' & Hst & _ & Hn & _ & ->).
  assert (r' = r) as -> by (revert Hst; unfold _stamp_tenant_on_new_rows; cbn; case_match; congruence).
  split; [done|]. cbn in *. split.
  - intros k u Hu. apply Hs1 in Hu. rewrite lookup_insert_ne; [done|]. congruence.
  - intros k u. destruct (decide (k = user_id r)) as [->|Hne].
    + rewrite lookup_insert_eq. by intros [= <-] _.
    + rewrite lookup_insert_ne by done. apply Hs2.
Qed.

#[export] Instance Job_outside_users : Outside users Job.
Proof. done. Qed.
#[export] Instance Application_outside_users : Outside users Application.
Proof. done. Qed.
#[export] Instance Interview_outside_users : Outside users Interview.
Proof. done. Qed.
#[export] Instance StatusHistory_outside_users : Outside users StatusHistory.
Proof. done. Qed.
#[export] Instance Notification_outside_users : Outside users Notification.
Proof. done. Qed.
#[export] Instance QuestionSet_outside_users : Outside users InterviewQuestionSet.
Proof. done. Qed.
#[export] Instance Question_outside_users : Outside users InterviewQuestion.
Proof. done. Qed.

#[export] Instance User_outside_resumes : Outside resumes User.
Proof. done. Qed.
#[export] Instance Company_outside_resumes : Outside resumes Company.
Proof. done. Qed.
#[export] Instance Candidate_outside_resumes : Outside resumes Candidate.
Proof. done. Qed.
#[export] Instance Job_outside_resumes : Outside resumes Job.
Proof. done. Qed.
#[export] Instance Application_outside_resumes : Outside resumes Application.
Proof. done. Qed.
#[export] Instance Interview_outside_resumes : Outside resumes Interview.
Proof. done. Qed.
#[export] Instance StatusHistory_outside_resumes : Outside resumes StatusHistory.
Proof. done. Qed.
#[export] Instance Notification_outside_resumes : Outside resumes Notification.
Proof. done. Qed.
#[export] Instance QuestionSet_outside_resumes : Outside resumes InterviewQuestionSet.
Proof. done. Qed.
#[export] Instance Question_outside_resumes : Outside resumes InterviewQuestion.
Proof. done. Qed.

(** ** Integrity of the data *)

(** Every row is stored under its key and satisfies the constraints of its
    table: references lead to rows that exist, unique columns are unique,
    and the checked columns have values of their type. *)
Record Integrity (db : Db) : Prop := {
  ok_users : table_ok User db;
  ok_companies : table_ok Company db;
  ok_candidates : table_ok Candidate db;
  ok_jobs : table_ok Job db;
  ok_applications : table_ok Application db;
  ok_interviews : table_ok Interview db;
  ok_resumes : table_ok Resume db;
  ok_skills : table_ok Skill db;
  ok_notifications : table_ok Notification db;
  ok_status_history : table_ok StatusHistory db;
  ok_question_sets : table_ok InterviewQuestionSet db;
  ok_questions : table_ok InterviewQuestion db }.

(** The same, evaluated. *)
Definition table_check (R : Type) `{Table R} (db : Db) : bool :=
  forallb (λ p, bool_decide (pk p.2 = p.1) && constraints db p.2) (map_to_list (rows db)).

Lemma table_check_ok (R : Type) `{Table R} db : table_check R db = true → table_ok R db.
Proof.
  intros Hc k r Hk. unfold table_check in Hc. rewrite forallb_forall in Hc.
  specialize (Hc (k, r)). rewrite <- list_elem_of_In in Hc.
  apply elem_of_map_to_list, Hc, andb_true_iff in Hk as [Hp Hr]. by apply bool_decide_eq_true in Hp.
Qed.

Definition integrity_check (db : Db) : bool :=
  forallb id [table_check User db; table_check Company db; table_check Candidate db; table_check Job db;
    table_check Application db; table_check Interview db; table_check Resume db; table_check Skill db;
    table_check Notification db; table_check StatusHistory db; table_check InterviewQuestionSet db;
    table_check InterviewQuestion db].

Lemma integrity_check_ok db : integrity_check db = true → Integrity db.
Proof.
  unfold integrity_check. cbn [forallb]. unfold id. rewrite !andb_true_iff. intros Hc. destruct_and!.
  split; by apply table_check_ok.
Qed.

Definition keys_kept {R} (m m' : gmap uuid R) : Prop := ∀ k, is_Some (m !! k) → is_Some (m' !! k).

Lemma keys_kept_refl {R} (m : gmap uuid R) : keys_kept m m.
Proof. by intros k. Qed.

Lemma keys_kept_insert {R} (m : gmap uuid R) k r : keys_kept m (<[k := r]> m).
Proof. intros j Hj. destruct (decide (k = j)) as [->|]; [rewrite lookup_insert_eq; eauto|by rewrite lookup_insert_ne]. Qed.

(** The tables a row can refer to have lost no row. *)
Record refs_kept (db db' : Db) : Prop := {
  rk_users : keys_kept (users db) (users db');
  rk_companies : keys_kept (companies db) (companies db');
  rk_candidates : keys_kept (candidates db) (candidates db');
  rk_jobs : keys_kept (jobs db) (jobs db');
  rk_applications : keys_kept (applications db) (applications db');
  rk_question_sets : keys_kept (question_sets db) (question_sets db') }.

Lemma exists_row_kept {R} (m m' : gmap uuid R) i : keys_kept m m' → exists_row m i = true → exists_row m' i = true.
Proof.
  intros Hk. unfold exists_row. specialize (Hk i). destruct (m !! i) as [r|]; [|done].
  destruct Hk as [r' ->]; [by eexists|done].
Qed.

Lemma exists_opt_kept {R} (m m' : gmap uuid R) i : keys_kept m m' → exists_opt m i = true → exists_opt m' i = true.
Proof. destruct i as [i|]; [apply exists_row_kept|done]. Qed.

Lemma tenant_fk_kept db db' i : refs_kept db db' → tenant_fk db i = true → tenant_fk db' i = true.
Proof. intros []. destruct i as [i|]; [by apply exists_row_kept|done]. Qed.

(** A unique column after one more row. *)
Lemma unique_insert {R A} `{EqDecision A} (m : gmap uuid R) (pk : R → uuid) (col : R → A) r r0 :
  unique_col m pk col r = true → unique_col m pk col r0 = true → m !! pk r0 = Some r0 ∨ r0 = r →
  unique_col (<[pk r := r]> m) pk col r0 = true.
Proof.
  unfold unique_col. rewrite !forallb_elem_of. intros Hr Hr0 Hin o Ho.
  apply list_elem_of_fmap in Ho as ([k o'] & -> & Ho). apply elem_of_map_to_list in Ho. cbn in *.
  assert (∀ k x, m !! k = Some x → x ∈ (map_to_list m).*2) as Hm.
  { intros k' x Hx. apply list_elem_of_fmap. exists (k', x). split; [done|by apply elem_of_map_to_list]. }
  destruct (decide (k = pk r)) as [->|Hne].
  - rewrite lookup_insert_eq in Ho. simplify_eq. destruct Hin as [Hin| ->]; [|by rewrite bool_decide_true].
    specialize (Hr r0 (Hm _ _ Hin)). apply orb_true_iff in Hr as [Hr|Hr]; bool_to_prop.
    + by rewrite bool_decide_true.
    + rewrite (bool_decide_false (col o' = col r0)) by congruence. by rewrite orb_true_r.
  - rewrite lookup_insert_ne in Ho by done. apply Hr0. eauto.
Qed.

(** What the constraints of a table depend on. *)
Class Sound (R : Type) `{Table R} := {
  sound_rows db m : rows (with_rows m db) = m;
  sound_frame db db' (r : R) :
    refs_kept db db' → rows db' = rows db → constraints db r = true → constraints db' r = true;
  sound_insert db (r r0 : R) :
    refs_kept db (with_rows (<[pk r := r]> (rows db)) db) →
    constraints db r = true → constraints db r0 = true → rows db !! pk r0 = Some r0 ∨ r0 = r →
    constraints (with_rows (<[pk r := r]> (rows db)) db) r0 = true }.

Ltac constraint_solve :=
  intros; cbn in *; bool_to_prop; repeat (apply andb_true_iff; split);
  first [ assumption
        | eapply tenant_fk_kept; eassumption
        | eapply exists_row_kept; [|eassumption]; eauto using rk_users, rk_companies, rk_candidates, rk_jobs, rk_applications, rk_question_sets
        | eapply exists_opt_kept; [|eassumption]; eauto using rk_users, rk_companies, rk_candidates, rk_jobs, rk_applications, rk_question_sets
        | by apply bool_decide_eq_true
        | apply unique_insert; assumption
        | congruence ].

Ltac sound := split; [done|constraint_solve|constraint_solve].

#[export] Instance User_sound : Sound User. Proof. sound. Qed.
#[export] Instance Company_sound : Sound Company. Proof. sound. Qed.
#[export] Instance Candidate_sound : Sound Candidate. Proof. sound. Qed.
#[export] Instance Job_sound : Sound Job. Proof. sound. Qed.
#[export] Instance Application_sound : Sound Application. Proof. sound. Qed.
#[export] Instance Interview_sound : Sound Interview. Proof. sound. Qed.
#[export] Instance Resume_sound : Sound Resume. Proof. sound. Qed.
#[export] Instance Skill_sound : Sound Skill. Proof. sound. Qed.
#[export] Instance Notification_sound : Sound Notification. Proof. sound. Qed.
#[export] Instance StatusHistory_sound : Sound StatusHistory. Proof. sound. Qed.
#[export] Instance QuestionSet_sound : Sound InterviewQuestionSet. Proof. sound. Qed.
#[export] Instance Question_sound : Sound InterviewQuestion. Proof. sound. Qed.

Lemma table_frame `{Table R} `{!Sound R} db db' :
  refs_kept db db' → rows db' = rows db → table_ok R db → table_ok R db'.
Proof.
  intros Hk Hr Hok k r. rewrite Hr. intros E. destruct (Hok k r E) as [Hp Hc]. split; [done|].
  by eapply sound_frame.
Qed.

Lemma table_insert `{Table R} `{!Sound R} db (r : R) :
  refs_kept db (with_rows (<[pk r := r]> (rows db)) db) → constraints db r = true → table_ok R db →
  table_ok R (with_rows (<[pk r := r]> (rows db)) db).
Proof.
  intros Hk Hc Hok k r0. rewrite sound_rows. intros Hl.
  assert (pk r0 = k ∧ constraints db r0 = true ∧ (rows db !! pk r0 = Some r0 ∨ r0 = r)) as (Hp & Hc0 & Hin).
  { destruct (decide (k = pk r)) as [->|Hne].
    - rewrite lookup_insert_eq in Hl. simplify_eq. auto.
    - rewrite lookup_insert_ne in Hl by done. destruct (Hok k r0 Hl) as [<- Hc0]. auto. }
  split; [done|]. by apply sound_insert.
Qed.

(** Writing a sound row keeps the whole database sound. *)
Class Written (R : Type) `{Table R} := {
  written_refs db (r : R) : refs_kept db (with_rows (<[pk r := r]> (rows db)) db);
  written_ok db (r : R) : Integrity db → constraints db r = true → Integrity (with_rows (<[pk r := r]> (rows db)) db) }.

Ltac written R :=
  assert (∀ db (r : R), refs_kept db (with_rows (<[pk r := r]> (rows db)) db)) as Hrefs
    by (intros db r; split; cbn; solve [apply keys_kept_refl | apply keys_kept_insert]);
  split; [exact Hrefs|]; intros db r [] Hc; specialize (Hrefs db r);
  split; solve [apply table_insert; assumption | eapply table_frame; [exact Hrefs|reflexivity|assumption]].

#[export] Instance User_written : Written User. Proof. written User. Qed.
#[export] Instance Company_written : Written Company. Proof. written Company. Qed.
#[export] Instance Candidate_written : Written Candidate. Proof. written Candidate. Qed.
#[export] Instance Job_written : Written Job. Proof. written Job. Qed.
#[export] Instance Application_written : Written Application. Proof. written Application. Qed.
#[export] Instance Interview_written : Written Interview. Proof. written Interview. Qed.
#[export] Instance Resume_written : Written Resume. Proof. written Resume. Qed.
#[export] Instance Skill_written : Written Skill. Proof. written Skill. Qed.
#[export] Instance Notification_written : Written Notification. Proof. written Notification. Qed.
#[export] Instance StatusHistory_written : Written StatusHistory. Proof. written StatusHistory. Qed.
#[export] Instance QuestionSet_written : Written InterviewQuestionSet. Proof. written InterviewQuestionSet. Qed.
#[export] Instance Question_written : Written InterviewQuestion. Proof. written InterviewQuestion. Qed.

Definition Sane (w : World) : Prop := Integrity (committed w) ∧ Integrity (session w).

Section sane.
Context `{Settings}.

#[export] Instance Sane_transactional : Transactional Sane.
Proof. split; by intros; intros w (? & ?). Qed.

(** The rows of a table are those it stores. *)
Class Stored (R : Type) `{Table R} := integrity_table db : Integrity db → table_ok R db.

Context `{Table R} `{!Written R, !Stored R}.

#[export] Instance Sane_writes : Writes Sane R.
Proof.
  split.
  - intros r w [Hc Hs]. destruct (insert_row r w) as [[e|x] w'] eqn:E; simpl; [by apply insert_row_fail in E as ->|].
    apply insert_row_inv in E as (r' & _ & _ & _ & Hk & ->). split; [done|]. by apply written_ok.
  - intros now id f Hpk w [Hc Hs]. destruct (update_row now id f w) as [[e|x] w'] eqn:E; simpl; [by apply update_row_fail in E as ->|].
    apply update_row_inv in E as (old & Ho & _ & _ & _ & Hk & ->). split; [done|]. cbn.
    destruct (integrity_table _ Hs _ _ Ho) as [<- _]. rewrite <- (Hpk old). by apply written_ok.
Qed.
End sane.

#[export] Instance User_stored : Stored User. Proof. by intros ? []. Qed.
#[export] Instance Company_stored : Stored Company. Proof. by intros ? []. Qed.
#[export] Instance Candidate_stored : Stored Candidate. Proof. by intros ? []. Qed.
#[export] Instance Job_stored : Stored Job. Proof. by intros ? []. Qed.
#[export] Instance Application_stored : Stored Application. Proof. by intros ? []. Qed.
#[export] Instance Interview_stored : Stored Interview. Proof. by intros ? []. Qed.
#[export] Instance Resume_stored : Stored Resume. Proof. by intros ? []. Qed.
#[export] Instance Skill_stored : Stored Skill. Proof. by intros ? []. Qed.
#[export] Instance Notification_stored : Stored Notification. Proof. by intros ? []. Qed.
#[export] Instance StatusHistory_stored : Stored StatusHistory. Proof. by intros ? []. Qed.
#[export] Instance QuestionSet_stored : Stored InterviewQuestionSet. Proof. by intros ? []. Qed.
#[export] Instance Question_stored : Stored InterviewQuestion. Proof. by intros ? []. Qed.

(** Nothing refers to an interview. *)
#[export] Instance Sane_deletes_interview `{Settings} : Deletes Sane Interview.
Proof.
  intros id w [Hc Hs]. destruct (delete_row id w) as [[e|x] w'] eqn:E; simpl; [by apply delete_row_fail in E as ->|].
  apply delete_row_inv in E as (old & _ & _ & ->). split; [done|]. cbn [session upd_session].
  assert (refs_kept (session w) (with_rows (R:=Interview) (delete id (rows (session w))) (session w))) as Hrefs
    by (split; apply keys_kept_refl).
  destruct Hs. split; try (eapply table_frame; [exact Hrefs|reflexivity|assumption]).
  intros k i Hk. cbn in Hk. apply lookup_delete_Some in Hk as [_ Hk]. exact (ok_interviews0 k i Hk).
Qed.

#[export] Instance Sane_where_notification `{Settings} : BulkWrites Sane Notification.
Proof.
  intros now p f Hpk w [Hc Hs]. unfold update_where. mrun. case_match; [done|]. case_match eqn:E; [done|].
  apply negb_false_iff in E. rewrite forallb_elem_of in E.
  split; [done|]. cbn [snd session upd_session]. set (m := changed_by _ _ _ _ <$> _).
  assert (refs_kept (session w) (with_rows (R:=Notification) m (session w))) as Hrefs by (split; apply keys_kept_refl).
  destruct Hs. split; try (eapply table_frame; [exact Hrefs|reflexivity|assumption]).
  intros k n Hk. unfold m in Hk. cbn in Hk. rewrite lookup_fmap in Hk.
  destruct (notifications (session w) !! k) as [n0|] eqn:E0; [|done]. cbn in Hk. simplify_eq.
  destruct (ok_notifications0 k n0 E0) as [Hp Hc0].
  unfold changed_by in *. destruct (hit_by w p n0) eqn:Eh; [|done]. split.
  - etrans; [|exact Hp]. exact (Hpk n0).
  - assert (n0 ∈ filter (λ r, hit_by w p r = true) (map_to_list (notifications (session w))).*2) as Hin.
    { apply list_elem_of_filter. split; [done|]. apply list_elem_of_fmap. exists (k, n0). split; [done|by apply elem_of_map_to_list]. }
    specialize (E n0 Hin). by rewrite Eh in E.
Qed.
