(* ===== verification/Kanban.v ===== *)
(** The hiring process ([app/routers/applications.py],
    [app/routers/candidates.py], [app/routers/resumes.py],
    [app/core/candidate_utils.py], [app/core/status_notifier.py]): every
    handler that creates an application or moves it on the board. *)
From S2P Require Import Prelude PyText Config Storage StateMachine Models Security Tenancy Orm OrmLaws Roles.
Local Open Scope string_scope.
Local Open Scope Z_scope.

Definition APPLICATION_MANAGER_ROLES : list string := ["Admin"; "HR_Manager"].

(** ** Data of the requests *)

Record ApplicationStatusUpdateRequest := {
  req_current_status : ApplicationStatus;
  req_new_status : ApplicationStatus }.

Record ApplicationStatusUpdateResponse := {
  resp_application_id : uuid;
  resp_previous_status : string;
  resp_new_status : string;
  resp_updated_at : instant }.

(** [decision: Literal["accept", "reject"]] *)
Inductive OfferDecision := accept | reject.

Record OfferResponseResult := {
  offer_application_id : uuid;
  offer_new_status : string }.

Record UploadFile := {
  filename : option string;
  content_type : option string;
  content_length : Z }.

Record ResumeUploadResponse := {
  up_application_id : uuid;
  up_status : string }.

(** [application.current_status = new] *)
Definition app_set_status (new_status : string) (a : Application) : Application :=
  mkApplication (app_id a) (app_tenant_id a) (app_job_id a) (app_candidate_id a) new_status
    (app_score_ai a) (app_created_at a) (app_updated_at a).

Section handlers.
Context `{Settings}.

(** ** The Kanban board of the recruiters *)

(** The read half of [update_application_status]: the application as the
    transaction sees it, after the checks. *)
Definition check_transition (application_id : uuid) (payload : ApplicationStatusUpdateRequest) :
    M World Application :=
  o ← select_by_id application_id;
  application ← or_raise o 404;
  let requested_current := status_value (req_current_status payload) in
  let requested_new := status_value (req_new_status payload) in
  (if negb (bool_decide (app_current_status application = requested_current))
   then rollback;; http_error 400 else mret tt);;
  (if negb (is_transition_allowed requested_current requested_new)
   then rollback;; http_error 400 else mret tt);;
  mret application.

(** The write half: the new status, its history row, the commit and the
    notification hook. *)
Definition write_transition (now : instant) (history_id : uuid) (current_user : User)
    (application : Application) (requested_new : string) : M World ApplicationStatusUpdateResponse :=
  let previous_status := app_current_status application in
  update_row now (app_id application) (app_set_status requested_new);;
  insert_row (mkStatusHistory history_id None (app_id application) (Some previous_status)
                requested_new (user_id current_user) now);;
  commit;;
  application ← refresh (app_id application);
  emit (StatusChangeEmail (app_candidate_id application) (app_job_id application)
          (app_current_status application));;
  mret {| resp_application_id := app_id application;
          resp_previous_status := previous_status;
          resp_new_status := app_current_status application;
          resp_updated_at := app_updated_at application |}.

Definition update_application_status (now : instant) (history_id : uuid) (current_user : User)
    (application_id : uuid) (payload : ApplicationStatusUpdateRequest) :
    M World ApplicationStatusUpdateResponse :=
  require_roles APPLICATION_MANAGER_ROLES current_user;;
  application ← check_transition application_id payload;
  write_transition now history_id current_user application (status_value (req_new_status payload)).

(** ** The candidate portal *)

(** [user.email.split("@")[0]] *)
Definition placeholder_name (email : string) : string := default "" (head (split "@" email)).

Definition get_or_create_candidate_profile (now : instant) (fresh : uuid) (user : User) : M World Candidate :=
  l ← select_where (λ c, bool_decide (cand_user_id c = user_id user));
  o ← scalar_one_or_none l;
  match o with
  | Some candidate => mret candidate
  | None =>
      let candidate := mkCandidate fresh (user_id user) (placeholder_name (user_email user)) "" None None None in
      insert_row candidate;;
      commit;;
      mret candidate
  end.

(** The read half of [respond_to_offer]: the candidate's own application,
    with an open offer. *)
Definition check_offer (now : instant) (fresh : uuid) (current_user : User) (application_id : uuid)
    (new_status : string) : M World Application :=
  candidate ← get_or_create_candidate_profile now fresh current_user;
  l ← select_where (λ a, bool_decide (app_id a = application_id) &&
                         bool_decide (app_candidate_id a = cand_id candidate));
  o ← scalar_one_or_none l;
  application ← or_raise o 404;
  reject_if (negb (bool_decide (app_current_status application = status_value OFFER))) 400;;
  reject_if (negb (is_transition_allowed (app_current_status application) new_status)) 400;;
  mret application.

Definition write_response (now : instant) (history_id : uuid) (current_user : User)
    (application : Application) (new_status : string) : M World OfferResponseResult :=
  let previous_status := app_current_status application in
  update_row now (app_id application) (app_set_status new_status);;
  insert_row (mkStatusHistory history_id (app_tenant_id application) (app_id application)
                (Some previous_status) new_status (user_id current_user) now);;
  commit;;
  mret {| offer_application_id := app_id application; offer_new_status := new_status |}.

Definition decision_status (d : OfferDecision) : string :=
  match d with accept => status_value ACCEPTED | reject => status_value REJECTED end.

Definition respond_to_offer (now : instant) (fresh history_id : uuid) (current_user : User)
    (application_id : uuid) (decision : OfferDecision) : M World OfferResponseResult :=
  require_roles ["Candidate"] current_user;;
  application ← check_offer now fresh current_user application_id (decision_status decision);
  write_response now history_id current_user application (decision_status decision).

(** ** Resume upload *)

Definition _ALLOWED_CONTENT_TYPES : list string :=
  ["application/pdf"; "application/vnd.openxmlformats-officedocument.wordprocessingml.document"].
Definition _ALLOWED_EXTENSIONS : list string := [".pdf"; ".docx"].
Definition _MAX_FILE_SIZE_BYTES : Z := 10 * 1024 * 1024.
Definition RESUME_VIEWER_ROLES : list string := ["Admin"; "HR_Manager"].

(** [f".{name.rsplit('.', 1)[-1].lower()}" if "." in name else ""] *)
Definition file_extension (original_filename : string) : string :=
  if contains original_filename "." then
    "." +:+ lower (default "" (last (split "." original_filename)))
  else "".

Definition upload_resume (now : instant) (fresh_candidate fresh_file fresh_resume fresh_application : uuid)
    (current_user : User) (job : uuid) (file : UploadFile) : M World ResumeUploadResponse :=
  require_roles ["Candidate"] current_user;;
  let original_filename := default "" (filename file) in
  reject_if (negb (match content_type file with
                   | Some c => bool_decide (c ∈ _ALLOWED_CONTENT_TYPES)
                   | None => false
                   end) ||
             negb (bool_decide (file_extension original_filename ∈ _ALLOWED_EXTENSIONS))) 400;;
  reject_if (bool_decide (content_length file = 0)) 400;;
  reject_if (bool_decide (_MAX_FILE_SIZE_BYTES < content_length file)) 400;;
  o ← select_by_id (R:=Job) job;
  job ← or_raise o 404;
  candidate ← get_or_create_candidate_profile now fresh_candidate current_user;
  let file_url := save_file (cand_id candidate) fresh_file original_filename in
  emit (SavedFile file_url);;
  try_except
    (insert_row (mkResume fresh_resume (job_tenant_id job) (cand_id candidate) file_url None None None None None);;
     insert_row (mkApplication fresh_application (job_tenant_id job) (job_id job) (cand_id candidate)
                   "Draft" None now now);;
     commit)
    (λ _, rollback;; http_error 500);;
  application ← refresh (R:=Application) fresh_application;
  emit (Enqueue "process_resume_task" [Some (uuid_str (app_id application)); Some file_url]);;
  mret {| up_application_id := app_id application; up_status := app_current_status application |}.

Definition get_resume (current_user : User) (resume_id : uuid) : M World Resume :=
  require_roles RESUME_VIEWER_ROLES current_user;;
  o ← select_by_id resume_id;
  or_raise o 404.

(** ** The notification hook *)

(** The keys of [STATUS_NOTIFICATION_STAGES] ([app/tasks/notifications.py]). *)
Definition STATUS_NOTIFICATION_STAGES : list string :=
  ["Screening"; "Technical Interview"; "HR Interview"; "Rejected"].
Definition _NOTIFIABLE_STATUSES : list string := "Offer" :: STATUS_NOTIFICATION_STAGES.

(** Runs as a background task with a session of its own, in the context of
    the request that started it. *)
Definition trigger_status_change_email (candidate_id job_id : uuid) (new_status : string) : M World unit :=
  if negb (bool_decide (new_status ∈ _NOTIFIABLE_STATUSES)) then mret tt else
  rollback;;
  o ← select_by_id (R:=Candidate) candidate_id;
  match o with None => mret tt | Some candidate =>
  o ← select_by_id (R:=User) (cand_user_id candidate);
  match o with None => mret tt | Some user =>
  o ← select_by_id (R:=Job) job_id;
  match o with None => mret tt | Some job =>
    let full := strip (cand_first_name candidate +:+ " " +:+ cand_last_name candidate) in
    let candidate_name := if nonempty full then full else user_email user in
    if bool_decide (new_status = "Offer") then
      company_name ← match job_company_id job with
                     | Some c => company ← select_by_id (R:=Company) c; mret (company_name <$> company)
                     | None => mret None
                     end;
      emit (Enqueue "send_job_offer_email_task"
              [Some (user_email user); Some candidate_name; Some (job_title job); company_name])
    else
      emit (Enqueue "send_status_update_email_task"
              [Some (user_email user); Some candidate_name; Some (job_title job); Some new_status])
  end end end.
End handlers.
