(* ===== verification/Board.v ===== *)
(** The hiring process over time: a step relation for the requests that move
    applications on the board, in which the read half and the write half of a
    request may be separated by other requests (each request is one
    transaction at READ COMMITTED, without a row lock), its serial
    restriction, and the invariants of the status history. *)
From S2P Require Import Prelude PyText Config Storage StateMachine Models Security Tenancy Orm OrmLaws Roles Kanban.
Local Open Scope string_scope.

(** ** What a transition writes *)

(** The application row [id] replaced by [a] and the history row [h] added. *)
Definition db_move (db : Db) (id : uuid) (a : Application) (h : StatusHistory) : Db :=
  with_rows (<[sh_id h := h]> (status_history db)) (with_rows (<[id := a]> (applications db)) db).

(** A computation that commits nothing. *)
Definition keeps_committed {A} (m : M World A) : Prop := ∀ w, committed (snd (m w)) = committed w.

Section moves.
Context `{Settings}.

Lemma keeps_committed_insert `{Table R} (r : R) : keeps_committed (insert_row r).
Proof. intros w. unfold insert_row. mrun. by repeat case_match. Qed.
Lemma keeps_committed_update `{Table R} now id (f : R → R) : keeps_committed (update_row now id f).
Proof. intros w. unfold update_row. mrun. by repeat case_match. Qed.
Lemma keeps_committed_refresh `{Table R} id : keeps_committed (refresh (R:=R) id).
Proof. intros w. unfold refresh. mrun. by repeat case_match. Qed.
Lemma keeps_committed_bind {A B} (m : M World A) (f : A → M World B) :
  keeps_committed m → (∀ a, keeps_committed (f a)) → keeps_committed (m ≫= f).
Proof.
  intros Hm Hf w. unfold mbind, M_bind. specialize (Hm w). destruct (m w) as [[e|a] w']; [done|].
  simpl in Hm. by rewrite Hf.
Qed.

Lemma move_committed {A} now id new h (k : M World A) w :
  keeps_committed k → committed w = session w →
  let w' := snd ((update_row now id (app_set_status new);; insert_row h;; commit;; k) w) in
  committed w' = committed w ∨
  ∃ old h', applications (committed w) !! id = Some old ∧
    status_history (committed w) !! sh_id h' = None ∧
    _stamp_tenant_on_new_rows (ctx w) h = Some h' ∧
    committed w' = db_move (committed w) id (app_touch now (app_set_status new old)) h'.
Proof.
  intros Hk Hw. unfold mbind, M_bind.
  pose proof (keeps_committed_update now id (app_set_status new) w) as Hc1.
  destruct (update_row now id (app_set_status new) w) as [[e|x] w1] eqn:E1; [by left|].
  apply update_row_inv in E1 as (old & Hold & _ & _ & _ & _ & ->).
  match goal with |- context [insert_row h ?w1] => remember w1 as w1' eqn:Ew1 end.
  pose proof (keeps_committed_insert h w1') as Hc2.
  destruct (insert_row h w1') as [[e|y] w2] eqn:E2; [left; simpl in *; congruence|].
  apply insert_row_inv in E2 as (h' & Hst & _ & Hn & _ & ->).
  right. exists old, h'. subst w1'. rewrite Hw. simpl. rewrite Hk. done.
Qed.
End moves.

(** ** What the read halves establish *)

Section checks.
Context `{Settings}.

Lemma check_transition_inv id payload w a w' :
  check_transition id payload w = (inr a, w') →
  w' = w ∧ applications (session w) !! id = Some a ∧ row_visible w a = true ∧
  board_move (app_current_status a) (status_value (req_new_status payload)).
Proof.
  unfold check_transition. intros E. mrun.
  destruct (applications (session w) !! id) as [a0|] eqn:El; simpl in E; [|done].
  destruct (row_visible w a0) eqn:Ev; simpl in E; [|done].
  case_bool_decide as Hc; simpl in E; [|done].
  destruct (is_transition_allowed _ _) eqn:Em; simpl in E; [|done].
  simplify_eq. rewrite Hc. done.
Qed.

Lemma keeps_committed_check id payload : keeps_committed (check_transition id payload).
Proof.
  intros w. unfold check_transition. rewrite select_by_id_bind.
  destruct (lookup_visible id w) as [a|]; [|done]. mrun.
  case_bool_decide; simpl; [|done]. by destruct (is_transition_allowed _ _).
Qed.

Lemma visible_rows_elem `{Table R} w (r : R) :
  r ∈ visible_rows w → row_visible w r = true ∧ ∃ k, rows (session w) !! k = Some r.
Proof.
  unfold visible_rows. rewrite list_elem_of_filter. intros [Hv Hin]. split; [done|].
  apply list_elem_of_fmap in Hin as ([k r'] & -> & Hin). apply elem_of_map_to_list in Hin. eauto.
Qed.

Lemma select_where_inv `{Table R} p w l w' :
  select_where (R:=R) p w = (inr l, w') →
  w' = w ∧ ∀ r, r ∈ l → p r = true ∧ row_visible w r = true ∧ ∃ k, rows (session w) !! k = Some r.
Proof.
  unfold select_where. mrun. intros E. simplify_eq. split; [done|]. intros r Hr.
  apply list_elem_of_filter in Hr as [Hp Hr]. apply visible_rows_elem in Hr. naive_solver.
Qed.

(** A profile request changes neither applications nor history. *)
Definition board_eq (db db' : Db) : Prop :=
  applications db = applications db' ∧ status_history db = status_history db' ∧ jobs db = jobs db'.

Lemma profile_inv now fresh user w c w' :
  get_or_create_candidate_profile now fresh user w = (inr c, w') →
  ctx w' = ctx w ∧ board_eq (session w) (session w') ∧
  (w' = w ∨ committed w' = session w').
Proof.
  intros E. unfold get_or_create_candidate_profile in E. bind_step E as e | l w1 E1; [done|].
  apply select_where_inv in E1 as [-> _].
  bind_step E as e | o w1 E1; [done|].
  destruct l as [|c1 [|c2 l]]; ret_step E1; [|ret_step E; split; [done|split; [done|by left]]].
  bind_step E as e | x w2 E2; [done|]. apply insert_row_inv in E2 as (c' & _ & _ & _ & _ & ->).
  rewrite commit_bind in E. ret_step E. split; [done|split; [done|by right]].
Qed.

Lemma check_offer_inv now fresh user id new w a w' :
  check_offer now fresh user id new w = (inr a, w') →
  ctx w' = ctx w ∧ board_eq (session w) (session w') ∧
  (w' = w ∨ committed w' = session w') ∧ app_id a = id ∧
  (∃ k, applications (session w) !! k = Some a) ∧
  app_current_status a = status_value OFFER ∧ board_move (app_current_status a) new.
Proof.
  unfold check_offer. intros E. bind_step E as e | c w1 E1; [done|].
  apply profile_inv in E1 as (Hctx & (Ha & Hh & Hj) & Hcm).
  bind_step E as e | l w2 E1; [done|]. apply select_where_inv in E1 as [-> Hl].
  bind_step E as e | o w2 E1; [done|].
  destruct l as [|a1 [|a2 l]]; ret_step E1; guard_step E; [done..|]. simplify_eq. guard_step E; [done|].
  ret_step E. bool_to_prop.
  destruct (Hl a) as (Hp & _ & k & Hk); [by left|]. bool_to_prop.
  repeat split; try done. exists k. by rewrite Ha.
Qed.

Lemma profile_frame now fresh user w r w' :
  get_or_create_candidate_profile now fresh user w = (r, w') →
  committed w = session w → board_eq (session w) (session w') ∧ board_eq (committed w) (committed w').
Proof.
  intros E Hw. destruct r as [e|c].
  - unfold get_or_create_candidate_profile in E. bind_step E as e' | l w1 E1.
    { unfold select_where in E. by ret_step E. }
    apply select_where_inv in E1 as [-> _]. bind_step E as e' | o w1 E1.
    { destruct l as [|c1 [|c2 l]]; by ret_step E. }
    destruct l as [|c1 [|c2 l]]; ret_step E1.
    bind_step E as e' | x w2 E2; [by apply insert_row_fail in E as ->|].
    rewrite commit_bind in E. by ret_step E.
  - apply profile_inv in E as (_ & Hb & [-> | ->]); split; try done. by rewrite Hw.
Qed.

Lemma check_offer_frame now fresh user id new w e w' :
  check_offer now fresh user id new w = (inl e, w') →
  committed w = session w → board_eq (committed w) (committed w').
Proof.
  unfold check_offer. intros E Hw. bind_step E as e' | c w1 E1; [by eapply profile_frame|].
  pose proof (profile_frame _ _ _ _ _ _ E1 Hw) as [_ Hb].
  rewrite select_where_bind in E. bind_step E as e' | o w2 E2.
  - by destruct (filter _ _) as [|? [|]]; ret_step E.
  - assert (w2 = w1) as -> by (destruct (filter _ _) as [|? [|]]; by ret_step E2).
    repeat (guard_step E; [by subst|]). by ret_step E.
Qed.

Lemma upload_committed now f1 f2 f3 f4 user job file w r w' :
  upload_resume now f1 f2 f3 f4 user job file w = (r, w') →
  committed w = session w →
  board_eq (committed w) (committed w') ∨
  ∃ a, applications (committed w) !! f4 = None ∧ app_id a = f4 ∧
       app_current_status a = status_value DRAFT ∧
       applications (committed w') = <[f4 := a]> (applications (committed w)) ∧
       status_history (committed w') = status_history (committed w).
Proof.
  intros E Hw. unfold upload_resume, require_roles in E.
  guard_step E; [left; by simplify_eq|]. guard_step E; [left; by simplify_eq|].
  guard_step E; [left; by simplify_eq|]. guard_step E; [left; by simplify_eq|].
  rewrite select_by_id_bind in E. guard_step E; [left; by simplify_eq|].
  bind_step E as e | c w1 E2.
  { apply profile_frame in E as [_ Hb]; [by left|done]. }
  rewrite emit_bind in E.
  bind_step E as e | x2 w2 E3.
  { left. unfold try_except in E. case_match eqn:Et. case_match; [|done]. subst.
    rewrite rollback_bind in E. ret_step E.
    destruct (profile_frame _ _ _ _ _ _ E2 Hw) as [_ Hb].
    bind_step Et as e1 | y1 w3 E4; [by apply insert_row_fail in Et as ->|].
    apply insert_row_inv in E4 as (r1 & _ & _ & _ & _ & ->).
    bind_step Et as e1 | y2 w3 E4; [by apply insert_row_fail in Et as ->|].
    apply insert_row_inv in E4 as (r2 & _ & _ & _ & _ & ->). done. }
  unfold try_except in E3. case_match eqn:Et. case_match; [by rewrite rollback_bind in E3; ret_step E3|].
  simplify_eq.
  bind_step Et as e1 | y1 w3 E4; [done|]. apply insert_row_inv in E4 as (r1 & _ & _ & _ & _ & ->).
  bind_step Et as e1 | y2 w3 E4; [done|]. apply insert_row_inv in E4 as (r2 & Hr2 & _ & Hn & _ & ->).
  unfold commit in Et. ret_step Et.
  match type of E with ?m ?w2 = _ =>
    assert (keeps_committed m) as Hk; [|specialize (Hk w2); rewrite E in Hk; simpl in Hk] end.
  { apply keeps_committed_bind; [apply keeps_committed_refresh|done]. }
  destruct (profile_frame _ _ _ _ _ _ E2 Hw) as [(Ha & Hh & _) _].
  right. exists r2. rewrite Hk, Hw. cbn [applications status_history]. rewrite Ha, Hh.
  apply (stamp_inv (R:=Application) app_tenant_id app_set_tenant) in Hr2; [|done]; destruct Hr2 as [[-> _]|(_ & _ & ->)]; simpl in *; done.
Qed.
End checks.

(** ** The board as a transition system *)

(** A request between its two halves: its context, its user, the application
    it has read and the status it is about to write. [pd_offer] tells the
    candidate's response from the recruiter's move. *)
Record Pending := mkPending {
  pd_ctx : TenantContext;
  pd_user : User;
  pd_app : Application;
  pd_new : string;
  pd_offer : bool }.

Record BoardState := mkBoard { bd_db : Db; bd_pending : list Pending }.

(** A new session of a request in context [c]. *)
Definition open_session (db : Db) (c : TenantContext) : World := mkWorld db db c [].

(** What identifies an application on the board; the other columns (score,
    time stamps) may be changed by anyone at any time. *)
Definition app_core (a : Application) : uuid * option uuid * uuid * uuid * string :=
  (app_id a, app_tenant_id a, app_job_id a, app_candidate_id a, app_current_status a).

Definition same_board (db db' : Db) : Prop :=
  app_core <$> applications db = app_core <$> applications db' ∧ status_history db = status_history db'.

Section steps.
Context `{Settings}.

Inductive step : BoardState → BoardState → Prop :=
  | step_staff_check db ps t u user id payload a w' :
      user_role user ∈ APPLICATION_MANAGER_ROLES →
      check_transition id payload (open_session db (tenant_ctx t u)) = (inr a, w') →
      step (mkBoard db ps)
        (mkBoard (committed w')
           (mkPending (tenant_ctx t u) user a (status_value (req_new_status payload)) false :: ps))
  | step_staff_write db ps1 ps2 p now hid :
      pd_offer p = false →
      step (mkBoard db (ps1 ++ p :: ps2))
        (mkBoard (committed (snd (write_transition now hid (pd_user p) (pd_app p) (pd_new p)
                                    (open_session db (pd_ctx p))))) (ps1 ++ ps2))
  | step_offer_check db ps u user id now fresh d a w' :
      user_role user = "Candidate" →
      check_offer now fresh user id (decision_status d) (open_session db (candidate_ctx u)) = (inr a, w') →
      step (mkBoard db ps)
        (mkBoard (committed w') (mkPending (candidate_ctx u) user a (decision_status d) true :: ps))
  | step_offer_write db ps1 ps2 p now hid :
      pd_offer p = true →
      step (mkBoard db (ps1 ++ p :: ps2))
        (mkBoard (committed (snd (write_response now hid (pd_user p) (pd_app p) (pd_new p)
                                    (open_session db (pd_ctx p))))) (ps1 ++ ps2))
  | step_upload db ps u now f1 f2 f3 f4 user job file :
      step (mkBoard db ps)
        (mkBoard (committed (snd (upload_resume now f1 f2 f3 f4 user job file
                                    (open_session db (candidate_ctx u))))) ps)
  | step_other db db' ps :
      same_board db db' → step (mkBoard db ps) (mkBoard db' ps).

(** Whole requests, one after the other. *)
Inductive serial_step : Db → Db → Prop :=
  | serial_staff db t u user id payload now hid :
      serial_step db (committed (snd (update_application_status now hid user id payload
                                        (open_session db (tenant_ctx t u)))))
  | serial_offer db u user id d now fresh hid :
      serial_step db (committed (snd (respond_to_offer now fresh hid user id d
                                        (open_session db (candidate_ctx u)))))
  | serial_upload db u now f1 f2 f3 f4 user job file :
      serial_step db (committed (snd (upload_resume now f1 f2 f3 f4 user job file
                                        (open_session db (candidate_ctx u)))))
  | serial_other db db' : same_board db db' → serial_step db db'.
End steps.

(** ** The invariant of the status history *)

(** The application [id] has been in status [s]. *)
Definition reached (db : Db) (id : uuid) (s : string) : Prop :=
  s = status_value DRAFT ∨
  ∃ k h, status_history db !! k = Some h ∧ sh_application_id h = id ∧ sh_new_status h = s.

(** A history row records an allowed move of an existing application, of the
    same organisation, from a status the application had reached before. *)
Definition history_row_ok (db : Db) (h : StatusHistory) : Prop :=
  ∃ a s, applications db !! sh_application_id h = Some a ∧ sh_tenant_id h = app_tenant_id a ∧
    sh_old_status h = Some s ∧ board_move s (sh_new_status h) ∧ reached db (sh_application_id h) s.

Definition pending_ok (db : Db) (p : Pending) : Prop :=
  ∃ a, applications db !! app_id (pd_app p) = Some a ∧
    app_tenant_id (pd_app p) = app_tenant_id a ∧
    board_move (app_current_status (pd_app p)) (pd_new p) ∧
    reached db (app_id (pd_app p)) (app_current_status (pd_app p)) ∧
    if pd_offer p then scope (pd_ctx p) ≠ SCOPE_TENANT
    else scope (pd_ctx p) = SCOPE_TENANT ∧ tenant_id (pd_ctx p) = app_tenant_id a.

Record board_ok (b : BoardState) : Prop := {
  ok_keys k a : applications (bd_db b) !! k = Some a → app_id a = k;
  ok_history k h : status_history (bd_db b) !! k = Some h → history_row_ok (bd_db b) h;
  ok_current k a : applications (bd_db b) !! k = Some a → reached (bd_db b) k (app_current_status a);
  ok_pending p : p ∈ bd_pending b → pending_ok (bd_db b) p }.

(** *** Facts that survive a change of the database *)

(** [db'] keeps the applications of [db] (up to status and free columns) and
    all its history. *)
Definition extends (db db' : Db) : Prop :=
  (∀ k a, applications db !! k = Some a →
     ∃ a', applications db' !! k = Some a' ∧ app_tenant_id a' = app_tenant_id a ∧
           app_job_id a' = app_job_id a ∧ app_id a' = app_id a) ∧
  (∀ k h, status_history db !! k = Some h → status_history db' !! k = Some h).

Lemma extends_reached db db' id s : extends db db' → reached db id s → reached db' id s.
Proof. intros [_ Hh] [->|(k & h & Hk & Hi & Hs)]; [by left|right]. eauto 6. Qed.

Lemma extends_history db db' h : extends db db' → history_row_ok db h → history_row_ok db' h.
Proof.
  intros He (a & s & Ha & Ht & Ho & Hm & Hr). destruct (proj1 He _ _ Ha) as (a' & Ha' & Ht' & _).
  exists a', s. rewrite Ht'. split_and!; eauto using extends_reached.
Qed.

Lemma extends_pending db db' p : extends db db' → pending_ok db p → pending_ok db' p.
Proof.
  intros He (a & Ha & Ht & Hm & Hr & Hc). destruct (proj1 He _ _ Ha) as (a' & Ha' & Ht' & _).
  exists a'. rewrite Ht'. split_and!; eauto using extends_reached.
Qed.

Lemma same_board_lookup db db' k a :
  same_board db db' → applications db !! k = Some a →
  ∃ a', applications db' !! k = Some a' ∧ app_core a' = app_core a.
Proof.
  intros [Hm _] Ha. assert ((app_core <$> applications db') !! k = Some (app_core a)) as E.
  { rewrite <- Hm, lookup_fmap, Ha. done. }
  rewrite lookup_fmap in E. destruct (applications db' !! k) as [a'|]; [|done].
  exists a'. split; [done|]. by apply (inj Some) in E.
Qed.

Lemma same_board_sym db db' : same_board db db' → same_board db' db.
Proof. intros []. by split. Qed.

Lemma board_eq_same db db' : board_eq db db' → same_board db db'.
Proof. intros (Ha & Hh & _). split; [by rewrite Ha|done]. Qed.

Lemma same_board_extends db db' : same_board db db' → extends db db'.
Proof.
  intros Hs. split; [|intros k h; by rewrite (proj2 Hs)].
  intros k a Ha. destruct (same_board_lookup _ _ _ _ Hs Ha) as (a' & Ha' & E).
  exists a'. unfold app_core in E. by simplify_eq.
Qed.

(** A change that leaves the board alone keeps the invariant. *)
Lemma board_ok_same db db' ps :
  same_board db db' → board_ok (mkBoard db ps) → board_ok (mkBoard db' ps).
Proof.
  intros Hs [Hk Hh Hc Hp]. pose proof (same_board_extends _ _ Hs) as He. split; simpl in *.
  - intros k a' Ha'. apply same_board_sym in Hs.
    destruct (same_board_lookup _ _ _ _ Hs Ha') as (a & Ha & E). unfold app_core in E. simplify_eq.
    rewrite <- (Hk _ _ Ha). congruence.
  - intros k h Hkh. rewrite <- (proj2 Hs) in Hkh. eauto using extends_history.
  - intros k a' Ha'. pose proof (same_board_sym _ _ Hs) as Hs'.
    destruct (same_board_lookup _ _ _ _ Hs' Ha') as (a & Ha & E). unfold app_core in E.
    replace (app_current_status a') with (app_current_status a) by congruence.
    eauto using extends_reached.
  - eauto using extends_pending.
Qed.

(** *** The invariant is preserved *)

Lemma db_move_extends db id old a h :
  applications db !! id = Some old → app_tenant_id a = app_tenant_id old → app_job_id a = app_job_id old →
  app_id a = app_id old →
  status_history db !! sh_id h = None → extends db (db_move db id a h).
Proof.
  intros Ho Ht Hj Hi Hn. split; simpl.
  - intros k x Hx. destruct (decide (k = id)) as [->|].
    + rewrite lookup_insert_eq. exists a. simplify_eq. done.
    + rewrite lookup_insert_ne by done. eauto.
  - intros k x Hx. rewrite lookup_insert_ne; [done|]. congruence.
Qed.

Lemma board_ok_pending_incl db ps ps' :
  (∀ p, p ∈ ps' → p ∈ ps) → board_ok (mkBoard db ps) → board_ok (mkBoard db ps').
Proof. intros Hi [Hk Hh Hc Hp]. split; simpl in *; eauto. Qed.

(** A move on behalf of a snapshot that satisfies [pending_ok]. *)
Lemma board_ok_move db ps snap now new h old :
  board_ok (mkBoard db ps) →
  applications db !! app_id snap = Some old →
  status_history db !! sh_id h = None →
  sh_application_id h = app_id snap → sh_tenant_id h = app_tenant_id old →
  sh_old_status h = Some (app_current_status snap) → sh_new_status h = new →
  board_move (app_current_status snap) new →
  reached db (app_id snap) (app_current_status snap) →
  board_ok (mkBoard (db_move db (app_id snap) (app_touch now (app_set_status new old)) h) ps).
Proof.
  intros [Hk Hh Hc Hp] Ho Hn Hi Ht Hos Hns Hm Hr.
  set (db' := db_move _ _ _ _).
  assert (extends db db') as He by (eapply db_move_extends; eauto).
  assert (applications db' !! app_id snap = Some (app_touch now (app_set_status new old))) as Hl
    by (simpl; by rewrite lookup_insert_eq).
  assert (status_history db' !! sh_id h = Some h) as Hlh by (simpl; by rewrite lookup_insert_eq).
  split; simpl in *.
  - intros k a Ha. destruct (decide (k = app_id snap)) as [->|].
    + rewrite lookup_insert_eq in Ha. simplify_eq/=. eauto.
    + rewrite lookup_insert_ne in Ha by done. eauto.
  - intros k x Hx. destruct (decide (k = sh_id h)) as [->|].
    + rewrite lookup_insert_eq in Hx. simplify_eq.
      eexists _, _. rewrite Hi. split_and!; [exact Hl|done|done|congruence|eauto using extends_reached].
    + rewrite lookup_insert_ne in Hx by done. eauto using extends_history.
  - intros k a Ha. destruct (decide (k = app_id snap)) as [->|].
    + rewrite lookup_insert_eq in Ha. simplify_eq/=. right. exists (sh_id h), h. done.
    + rewrite lookup_insert_ne in Ha by done. eauto using extends_reached.
  - eauto using extends_pending.
Qed.

Section preservation.
Context `{Settings}.

Lemma write_transition_shape now hid user a new w :
  committed w = session w →
  let w' := snd (write_transition now hid user a new w) in
  committed w' = committed w ∨
  ∃ old h, applications (committed w) !! app_id a = Some old ∧
    status_history (committed w) !! sh_id h = None ∧
    _stamp_tenant_on_new_rows (ctx w)
      (mkStatusHistory hid None (app_id a) (Some (app_current_status a)) new (user_id user) now) = Some h ∧
    committed w' = db_move (committed w) (app_id a) (app_touch now (app_set_status new old)) h.
Proof.
  intros Hw. apply move_committed; [|done].
  apply keeps_committed_bind; [apply keeps_committed_refresh|done].
Qed.

Lemma write_response_shape now hid user a new w :
  committed w = session w →
  let w' := snd (write_response now hid user a new w) in
  committed w' = committed w ∨
  ∃ old h, applications (committed w) !! app_id a = Some old ∧
    status_history (committed w) !! sh_id h = None ∧
    _stamp_tenant_on_new_rows (ctx w)
      (mkStatusHistory hid (app_tenant_id a) (app_id a) (Some (app_current_status a)) new (user_id user) now)
      = Some h ∧
    committed w' = db_move (committed w) (app_id a) (app_touch now (app_set_status new old)) h.
Proof. intros Hw. by apply move_committed. Qed.

Lemma stamp_history_inv c (h h' : StatusHistory) :
  _stamp_tenant_on_new_rows c h = Some h' →
  h' = h ∧ (scope c ≠ SCOPE_TENANT ∨ sh_tenant_id h = tenant_id c) ∨
  sh_tenant_id h = None ∧ scope c = SCOPE_TENANT ∧ h' = sh_set_tenant (tenant_id c) h.
Proof. by apply (stamp_inv (R:=StatusHistory) sh_tenant_id sh_set_tenant). Qed.

(** The write half of a recruiter's move and of a candidate's response. *)
Lemma board_ok_staff_write db ps p now hid :
  board_ok (mkBoard db ps) → p ∈ ps → pd_offer p = false →
  board_ok (mkBoard (committed (snd (write_transition now hid (pd_user p) (pd_app p) (pd_new p)
                                       (open_session db (pd_ctx p))))) ps).
Proof.
  intros Hok Hp Hof. destruct (ok_pending _ Hok p Hp) as (a & Ha & Ht & Hm & Hr & Hc).
  rewrite Hof in Hc. destruct Hc as [Hs Hct].
  destruct (write_transition_shape now hid (pd_user p) (pd_app p) (pd_new p) (open_session db (pd_ctx p)))
    as [-> | (old & h & Ho & Hn & Hst & ->)]; [done|done|]. simpl in *. simplify_eq.
  apply stamp_history_inv in Hst as [[-> [Hx|Hx]]|(_ & _ & ->)]; simpl in *.
  - done.
  - eapply board_ok_move; simpl; eauto; congruence.
  - eapply board_ok_move; simpl; eauto.
Qed.

Lemma board_ok_offer_write db ps p now hid :
  board_ok (mkBoard db ps) → p ∈ ps → pd_offer p = true →
  board_ok (mkBoard (committed (snd (write_response now hid (pd_user p) (pd_app p) (pd_new p)
                                       (open_session db (pd_ctx p))))) ps).
Proof.
  intros Hok Hp Hof. destruct (ok_pending _ Hok p Hp) as (a & Ha & Ht & Hm & Hr & Hc).
  rewrite Hof in Hc.
  destruct (write_response_shape now hid (pd_user p) (pd_app p) (pd_new p) (open_session db (pd_ctx p)))
    as [-> | (old & h & Ho & Hn & Hst & ->)]; [done|done|]. simpl in *. simplify_eq.
  apply stamp_history_inv in Hst as [[-> _]|(_ & ? & ->)]; simpl in *; [|done].
  eapply board_ok_move; simpl; eauto.
Qed.

(** A fresh application in [Draft]. *)
Lemma board_ok_new_application db db' ps a :
  board_ok (mkBoard db ps) → applications db !! app_id a = None →
  app_current_status a = status_value DRAFT →
  applications db' = <[app_id a := a]> (applications db) → status_history db' = status_history db →
  board_ok (mkBoard db' ps).
Proof.
  intros [Hk Hh Hc Hp] Hn Hd Ha Hs.
  assert (extends db db') as He.
  { split; [|by rewrite Hs]. intros k x Hx. rewrite Ha, lookup_insert_ne by congruence. eauto. }
  split; simpl in *.
  - intros k x. rewrite Ha. intros [[<- <-]|[_ Hx]]%lookup_insert_Some; eauto.
  - intros k x. rewrite Hs. eauto using extends_history.
  - intros k x. rewrite Ha. intros [[<- <-]|[_ Hx]]%lookup_insert_Some;
      [left; done|eauto using extends_reached].
  - eauto using extends_pending.
Qed.

Lemma row_visible_member t u db (a : Application) :
  row_visible (open_session db (tenant_ctx t u)) a = true → app_tenant_id a = Some t.
Proof.
  unfold row_visible. intros [Ho _]%andb_true_iff. unfold orm_criteria in Ho. simpl in Ho.
  apply sql_eq_true in Ho as (x & -> & Hx). by simplify_eq.
Qed.

Lemma step_preserves b b' : board_ok b → step b b' → board_ok b'.
Proof.
  intros Hok Hs. destruct Hs.
  - apply check_transition_inv in H1 as (-> & Ha & Hv & Hm). simpl in *.
    destruct Hok as [Hk Hh Hc Hp]. split; simpl in *; eauto. intros p [->|Hin]%elem_of_cons; [|eauto].
    pose proof (Hk _ _ Ha) as Hi. apply row_visible_member in Hv.
    exists a. simpl. rewrite Hi. split_and!; eauto.
  - eapply board_ok_pending_incl, (board_ok_staff_write db (ps1 ++ p :: ps2)); [|done|set_solver|done].
    set_solver.
  - apply check_offer_inv in H1 as (_ & Hb & Hcm & Hi & (k & Ha) & Hst & Hm). simpl in *.
    assert (board_ok (mkBoard (committed w') ps)) as Hok'.
    { destruct Hcm as [-> | ->]; [done|]. eapply board_ok_same, Hok. by apply board_eq_same. }
    pose proof (ok_keys _ Hok k a Ha) as Hid. simpl in Hid.
    assert (applications (committed w') !! k = Some a) as Ha'.
    { destruct Hcm as [-> | ->]; [done|]. by rewrite <- (proj1 Hb). }
    destruct Hok' as [Hk Hh Hc Hp]. split; simpl in *; eauto.
    intros p [->|Hin]%elem_of_cons; [|eauto].
    exists a. simpl. rewrite Hid. split_and!; eauto.
  - eapply board_ok_pending_incl, (board_ok_offer_write db (ps1 ++ p :: ps2)); [|done|set_solver|done].
    set_solver.
  - destruct (upload_resume _ _ _ _ _ _ _ _ _) as [r w'] eqn:E.
    destruct (upload_committed _ _ _ _ _ _ _ _ _ _ _ E eq_refl) as [Hb|(a & Hn & <- & Hd & Ha & Hh)].
    + eapply board_ok_same, Hok. by apply board_eq_same.
    + eapply board_ok_new_application; eauto.
  - by eapply board_ok_same.
Qed.

(** A database without history, whose applications are all drafts. *)
Definition fresh_board (db : Db) : Prop :=
  status_history db = ∅ ∧
  ∀ k a, applications db !! k = Some a → app_id a = k ∧ app_current_status a = status_value DRAFT.

Lemma fresh_board_ok db : fresh_board db → board_ok (mkBoard db []).
Proof.
  intros [Hh Ha]. split; simpl.
  - intros k a Hk. by apply Ha.
  - intros k h. rewrite Hh. by rewrite lookup_empty.
  - intros k a Hk. left. by apply (Ha k).
  - set_solver.
Qed.

Lemma reachable_board_ok db b : fresh_board db → rtc step (mkBoard db []) b → board_ok b.
Proof.
  intros Hf Hr. assert (∀ b0 b', rtc step b0 b' → board_ok b0 → board_ok b') as Hpres.
  { induction 1; eauto using step_preserves. }
  eauto using fresh_board_ok.
Qed.
End preservation.

(** ** Serial executions: one path per application *)

(** The rows [l], in this order, lead from status [s] to status [t]. *)
Fixpoint history_path (s : string) (l : list (uuid * StatusHistory)) (t : string) : Prop :=
  match l with
  | [] => s = t
  | (_, h) :: rest => sh_old_status h = Some s ∧ board_move s (sh_new_status h) ∧
                      history_path (sh_new_status h) rest t
  end.

(** All the history rows of the application [id], each once, form a path of
    allowed moves from [Draft] to [t]. *)
Definition trail (db : Db) (id : uuid) (t : string) : Prop :=
  ∃ l, NoDup l ∧
    (∀ k h, (k, h) ∈ l ↔ status_history db !! k = Some h ∧ sh_application_id h = id) ∧
    history_path (status_value DRAFT) l t.

Lemma history_path_snoc s l t k h u :
  history_path s l t → sh_old_status h = Some t → sh_new_status h = u → board_move t u →
  history_path s (l ++ [(k, h)]) u.
Proof.
  revert s. induction l as [|[k' h'] l IH]; simpl; intros s.
  - intros -> ? <- ?. done.
  - naive_solver.
Qed.

Lemma history_path_nsteps s l t : history_path s l t → nsteps board_move (length l) s t.
Proof.
  revert s. induction l as [|[k h] l IH]; simpl; intros s.
  - intros ->. constructor.
  - intros (_ & Hm & Hp). econstructor; eauto.
Qed.

Record trails_ok (db : Db) : Prop := {
  tr_keys k a : applications db !! k = Some a → app_id a = k;
  tr_known k h : status_history db !! k = Some h → is_Some (applications db !! sh_application_id h);
  tr_trail k a : applications db !! k = Some a → trail db k (app_current_status a) }.

Lemma trail_history db db' k t :
  status_history db = status_history db' → trail db k t → trail db' k t.
Proof. intros E (l & Hn & Hl & Hp). exists l. by rewrite <- E. Qed.

Lemma trails_ok_same db db' : same_board db db' → trails_ok db → trails_ok db'.
Proof.
  intros Hs [Hk Hn Ht]. pose proof (same_board_sym _ _ Hs) as Hs'. split.
  - intros k a' Ha'. destruct (same_board_lookup _ _ _ _ Hs' Ha') as (a & Ha & E).
    rewrite <- (Hk _ _ Ha). unfold app_core in E. congruence.
  - intros k h Hh. rewrite <- (proj2 Hs) in Hh. destruct (Hn _ _ Hh) as [a Ha].
    destruct (same_board_lookup _ _ _ _ Hs Ha) as (a' & Ha' & _). eauto.
  - intros k a' Ha'. destruct (same_board_lookup _ _ _ _ Hs' Ha') as (a & Ha & E).
    replace (app_current_status a') with (app_current_status a) by (unfold app_core in E; congruence).
    eapply trail_history, Ht, Ha. apply Hs.
Qed.

Lemma trails_ok_new db db' a :
  trails_ok db → applications db !! app_id a = None → app_current_status a = status_value DRAFT →
  applications db' = <[app_id a := a]> (applications db) → status_history db' = status_history db →
  trails_ok db'.
Proof.
  intros [Hk Hn Ht] Hf Hd Ha Hh. split.
  - intros k x. rewrite Ha. intros [[<- <-]|[_ Hx]]%lookup_insert_Some; eauto.
  - intros k h. rewrite Hh, Ha. intros Hx. destruct (Hn _ _ Hx) as [y Hy].
    rewrite lookup_insert_ne by congruence. eauto.
  - intros k x. rewrite Ha. intros [[<- <-]|[_ Hx]]%lookup_insert_Some.
    + exists []. split_and!; [constructor| |by rewrite Hd].
      intros k h. rewrite Hh. split; [set_solver|]. intros [Hx Hi].
      destruct (Hn _ _ Hx) as [y Hy]. congruence.
    + eapply trail_history; [symmetry; exact Hh|eauto].
Qed.

Lemma trails_ok_move db snap now new h :
  trails_ok db → applications db !! app_id snap = Some snap →
  status_history db !! sh_id h = None → sh_application_id h = app_id snap →
  sh_old_status h = Some (app_current_status snap) → sh_new_status h = new →
  board_move (app_current_status snap) new →
  trails_ok (db_move db (app_id snap) (app_touch now (app_set_status new snap)) h).
Proof.
  intros [Hk Hn Ht] Hs Hf Hi Ho Hw Hm. split; simpl.
  - intros k x [[<- <-]|[_ Hx]]%lookup_insert_Some; eauto.
  - intros k x. intros [[<- <-]|[_ Hx]]%lookup_insert_Some.
    + rewrite Hi, lookup_insert_eq. eauto.
    + destruct (decide (sh_application_id x = app_id snap)) as [->|].
      * rewrite lookup_insert_eq. eauto.
      * rewrite lookup_insert_ne by done. eauto.
  - intros k x [[<- <-]|[Hne Hx]]%lookup_insert_Some; simpl.
    + destruct (Ht _ _ Hs) as (l & Hnd & Hl & Hp).
      exists (l ++ [(sh_id h, h)])%list. split_and!; [| |by eapply history_path_snoc].
      * apply NoDup_app. split_and!; [done| |apply NoDup_singleton].
        intros [k' h'] Hin Hx%list_elem_of_singleton. simplify_eq.
        apply Hl in Hin as [? _]. congruence.
      * intros k' h'. rewrite elem_of_app, Hl, list_elem_of_singleton. simpl.
        rewrite lookup_insert_Some. split.
        -- intros [[Hx Ha]|E]; [|simplify_eq; auto]. split; [right|done]. split; congruence.
        -- intros [[[<- <-]|[_ Hx]] Ha]; auto.
    + destruct (Ht _ _ Hx) as (l & Hnd & Hl & Hp). exists l. split_and!; [done| |done].
      intros k' h'. rewrite Hl. simpl. rewrite lookup_insert_Some. split.
      * intros [Hx' Ha]. split; [right|done]. split; congruence.
      * intros [[[<- <-]|[_ Hx']] Ha]; [congruence|auto].
Qed.

Section serial.
Context `{Settings}.

Lemma serial_step_trails db db' : trails_ok db → serial_step db db' → trails_ok db'.
Proof.
  intros Hok Hs. destruct Hs.
  - unfold update_application_status, require_roles.
    match goal with |- context [snd ?x] => destruct x as [r w'] eqn:E end; simpl.
    guard_step E; [by subst|]. bind_step E as e | a w1 E1.
    { pose proof (keeps_committed_check id payload (open_session db (tenant_ctx t u))) as Hk.
      rewrite E in Hk. simpl in Hk. by subst. }
    apply check_transition_inv in E1 as (-> & Ha & _ & Hm). simpl in Ha.
    pose proof (write_transition_shape now hid user a (status_value (req_new_status payload))
      (open_session db (tenant_ctx t u)) eq_refl) as Hw.
    rewrite E in Hw. simpl in Hw. destruct Hw as [-> | (old & h & Ho & Hn & Hst & ->)]; [done|].
    pose proof (tr_keys _ Hok _ _ Ha) as Hid. subst id. simpl in *. simplify_eq.
    apply stamp_history_inv in Hst as [[-> _]|(_ & _ & ->)]; by eapply trails_ok_move.
  - unfold respond_to_offer, require_roles.
    match goal with |- context [snd ?x] => destruct x as [r w'] eqn:E end; simpl.
    guard_step E; [by subst|]. bind_step E as e | a w1 E1.
    { apply check_offer_frame in E; [|done]. eapply trails_ok_same, Hok. by apply board_eq_same. }
    apply check_offer_inv in E1 as (_ & Hb & Hcm & Hi & (k & Ha) & Hst & Hm). simpl in *.
    pose proof (tr_keys _ Hok _ _ Ha) as <-.
    assert (committed w1 = session w1) as Hcs by (by destruct Hcm as [-> | ->]).
    pose proof (write_response_shape now hid user a (decision_status d) w1 Hcs) as Hw.
    rewrite E in Hw. simpl in Hw. rewrite Hcs in Hw.
    assert (trails_ok (session w1)) as Hok1 by (eapply trails_ok_same, Hok; by apply board_eq_same).
    destruct Hw as [-> | (old & h & Ho & Hn & Hsh & ->)]; [done|].
    rewrite <- (proj1 Hb) in Ho. simplify_eq.
    apply stamp_history_inv in Hsh as [[-> _]|(_ & _ & ->)];
      (eapply trails_ok_move; [done|by rewrite <- (proj1 Hb)|done..]).
  - destruct (upload_resume _ _ _ _ _ _ _ _ _) as [r w'] eqn:E.
    destruct (upload_committed _ _ _ _ _ _ _ _ _ _ _ E eq_refl) as [Hb|(a & Hn & <- & Hd & Ha & Hh)].
    + eapply trails_ok_same, Hok. by apply board_eq_same.
    + by eapply trails_ok_new.
  - by eapply trails_ok_same.
Qed.

Lemma fresh_board_trails db : fresh_board db → trails_ok db.
Proof.
  intros [Hh Ha]. split.
  - intros k a Hk. by apply Ha.
  - intros k h. by rewrite Hh, lookup_empty.
  - intros k a Hk. destruct (Ha _ _ Hk) as [_ ->]. exists []. split_and!; [constructor| |done].
    intros k' h. rewrite Hh, lookup_empty. split; [set_solver|by intros []].
Qed.

Lemma serial_trails db0 db : fresh_board db0 → rtc serial_step db0 db → trails_ok db.
Proof.
  intros Hf Hr. apply fresh_board_trails in Hf. induction Hr; eauto using serial_step_trails.
Qed.
End serial.

(** ** An example organisation, for the witnesses *)

Definition demo_company : Company := mkCompany 1 "Acme" None None 2.
Definition demo_hr : User := mkUser 2 "hr@acme.ir" "h" "HR_Manager" true 0 (Some 1%N) None None None.
Definition demo_candidate_user : User := mkUser 3 "ali@mail.ir" "h" "Candidate" true 0 None None None None.
Definition demo_candidate : Candidate := mkCandidate 4 3 "Ali" "Rezaei" None None None.
Definition demo_job : Job :=
  mkJob 5 (Some 1%N) None 2 "Backend developer" None None None None "Active" None None None 0.
Definition demo_application : Application := mkApplication 6 (Some 1%N) 5 4 "Draft" None 0 0.

Definition demo_db : Db :=
  mkDb {[2%N := demo_hr; 3%N := demo_candidate_user]} {[1%N := demo_company]} {[4%N := demo_candidate]}
    {[5%N := demo_job]} {[6%N := demo_application]} ∅ ∅ ∅ ∅ ∅ ∅ ∅.

Definition demo_settings : Settings := default_settings.

(** One recruiter's move of the example application. *)
Definition demo_move (cur new : ApplicationStatus) : ApplicationStatusUpdateRequest :=
  {| req_current_status := cur; req_new_status := new |}.

Definition demo_update (hid : uuid) (cur new : ApplicationStatus) (db : Db) : Db :=
  committed (snd (@update_application_status demo_settings 10 hid demo_hr 6 (demo_move cur new)
                    (open_session db (tenant_ctx 1 2)))).

Lemma demo_fresh : fresh_board demo_db.
Proof.
  split; [done|]. intros k a Ha. unfold demo_db in Ha. simpl in Ha.
  apply lookup_singleton_Some in Ha as [<- <-]. done.
Qed.

(** ** Properties *)

Section properties.
Context `{Settings}.

(** C1. Serial executions: after any sequence of whole requests (recruiters'
    moves, candidates' responses, uploads, failures included), the history
    rows of an application are exactly one path of allowed moves from
    [Draft] to its current status, so its [n] rows put it at position [n] of
    the linear path, or it is [Rejected] after at most 7 moves. *)
Theorem serial_history_is_one_path (db0 db : Db) (k : uuid) (a : Application) :
  fresh_board db0 → rtc serial_step db0 db → applications db !! k = Some a →
  ∃ l, NoDup l ∧
    (∀ i h, (i, h) ∈ l ↔ status_history db !! i = Some h ∧ sh_application_id h = k) ∧
    history_path (status_value DRAFT) l (app_current_status a) ∧
    (LINEAR_PATH !! length l = Some (app_current_status a) ∨
     app_current_status a = status_value REJECTED ∧ (1 ≤ length l ≤ 7)%nat).
Proof.
  intros Hf Hr Ha. destruct (tr_trail _ (serial_trails _ _ Hf Hr) _ _ Ha) as (l & Hn & Hl & Hp).
  exists l. split_and!; [done|done|done|]. by apply board_nsteps, history_path_nsteps.
Qed.

(** C2. Overlapping requests: however the read and write halves of the
    requests interleave, every history row is an allowed move of an
    application of the same organisation, starting from a status the
    application had been in, and every current status has its history row:
    no interleaving can skip a stage. *)
Theorem interleaved_history_is_legal (db : Db) (b : BoardState) :
  fresh_board db → rtc step (mkBoard db []) b →
  (∀ i h, status_history (bd_db b) !! i = Some h → history_row_ok (bd_db b) h) ∧
  (∀ k a, applications (bd_db b) !! k = Some a → reached (bd_db b) k (app_current_status a)).
Proof. intros Hf Hr. destruct (reachable_board_ok _ _ Hf Hr). done. Qed.
End properties.

Lemma serial_history_is_one_path_witness :
  ∃ db a, fresh_board demo_db ∧ rtc (@serial_step demo_settings) demo_db db ∧
    applications db !! 6%N = Some a ∧ app_current_status a = "Screening" ∧
    ∃ l, NoDup l ∧
      (∀ i h, (i, h) ∈ l ↔ status_history db !! i = Some h ∧ sh_application_id h = 6%N) ∧
      history_path (status_value DRAFT) l (app_current_status a) ∧
      (LINEAR_PATH !! length l = Some (app_current_status a) ∨
       app_current_status a = status_value REJECTED ∧ (1 ≤ length l ≤ 7)%nat).
Proof.
  assert (rtc (@serial_step demo_settings) demo_db
            (demo_update 8 APPLIED SCREENING (demo_update 7 DRAFT APPLIED demo_db))) as Hr.
  { eapply rtc_l; [apply serial_staff|]. eapply rtc_l; [apply serial_staff|apply rtc_refl]. }
  eexists _, (mkApplication 6 (Some 1%N) 5 4 "Screening" None 0 10).
  split_and!; [apply demo_fresh|exact Hr|by vm_compute|done|].
  apply (@serial_history_is_one_path demo_settings demo_db); [apply demo_fresh|exact Hr|by vm_compute].
Defined.

Lemma interleaved_history_is_legal_witness :
  let b := mkBoard demo_db [mkPending (tenant_ctx 1 2) demo_hr demo_application "Applied" false] in
  fresh_board demo_db ∧ rtc (@step demo_settings) (mkBoard demo_db []) b ∧
  (∀ i h, status_history (bd_db b) !! i = Some h → history_row_ok (bd_db b) h) ∧
  (∀ k a, applications (bd_db b) !! k = Some a → reached (bd_db b) k (app_current_status a)).
Proof.
  intros b. assert (rtc (@step demo_settings) (mkBoard demo_db []) b) as Hr.
  { apply rtc_once. subst b.
    apply (@step_staff_check demo_settings demo_db [] 1 2 demo_hr 6 (demo_move DRAFT APPLIED)
             demo_application (open_session demo_db (tenant_ctx 1 2))).
    - apply (bool_decide_unpack _). by vm_compute.
    - by vm_compute. }
  split_and!; [apply demo_fresh|exact Hr|..];
    apply (@interleaved_history_is_legal demo_settings demo_db b); (apply demo_fresh || exact Hr).
Defined.

(** Two overlapping recruiters' requests can reopen a closed file: both
    read the application in [Draft], one writes [Rejected], then the other
    writes [Applied]. The client's [current_status] is compared with the
    value read, not with the value overwritten, so the final application is
    [Applied] although its history says it was rejected. *)
Theorem overlapping_moves_reopen_rejected :
  ∃ b a i h, fresh_board demo_db ∧ rtc (@step demo_settings) (mkBoard demo_db []) b ∧
    applications (bd_db b) !! 6%N = Some a ∧ app_current_status a = status_value APPLIED ∧
    status_history (bd_db b) !! i = Some h ∧ sh_application_id h = 6%N ∧
    sh_new_status h = status_value REJECTED.
Proof.
  pose (p1 := mkPending (tenant_ctx 1 2) demo_hr demo_application "Applied" false).
  pose (p2 := mkPending (tenant_ctx 1 2) demo_hr demo_application "Rejected" false).
  assert (∀ new ps, is_transition_allowed "Draft" (status_value new) = true →
    @step demo_settings (mkBoard demo_db ps)
      (mkBoard demo_db (mkPending (tenant_ctx 1 2) demo_hr demo_application (status_value new) false :: ps)))
    as Hcheck.
  { intros new ps Hnew.
    apply (@step_staff_check demo_settings demo_db ps 1 2 demo_hr 6 (demo_move DRAFT new)
             demo_application (open_session demo_db (tenant_ctx 1 2))).
    - apply (bool_decide_unpack _). by vm_compute.
    - destruct new; try (by vm_compute in Hnew); by vm_compute. }
  eexists (mkBoard _ []), (mkApplication 6 (Some 1%N) 5 4 "Applied" None 0 12), 7%N, _.
  split; [apply demo_fresh|]. split.
  - eapply rtc_l; [apply (Hcheck APPLIED []); by vm_compute|].
    eapply rtc_l; [apply (Hcheck REJECTED [p1]); by vm_compute|].
    eapply rtc_l; [apply (step_staff_write demo_db [] [p1] p2 11 7); done|].
    eapply rtc_l; [apply (step_staff_write _ [] [] p1 12 8); done|]. apply rtc_refl.
  - split_and!; by vm_compute.
Qed.
