(* ===== verification/Analytics.v ===== *)
(** The dashboard of the recruiters ([app/routers/analytics.py]): the
    recruitment funnel and the daily trend of applications. *)
From S2P Require Import Prelude PyText Config Storage StateMachine Models Security Tenancy Orm OrmLaws Roles Kanban Board.
Local Open Scope string_scope.
Local Open Scope Z_scope.

Definition ANALYTICS_ROLES : list string := ["Admin"; "HR_Manager"].

Record FunnelStageCount := mkStage { stage : string; stage_count : nat }.
Record DailyApplicationCount := mkDaily { day : Z; day_count : nat }.

(** ** Handlers *)

Section handlers.
Context `{Settings}.

Definition _ensure_job_exists (job_id : uuid) : M World unit :=
  o ← select_by_id (R:=Job) job_id;
  match o with None => http_error 404 | Some _ => mret tt end.

Definition ensure_job (job_id : option uuid) : M World unit :=
  match job_id with Some j => _ensure_job_exists j | None => mret tt end.

(** [JOIN applications ... WHERE applications.job_id = :job_id] *)
Definition history_of_job (w : World) (job : option uuid) (h : StatusHistory) : bool :=
  match job with
  | None => true
  | Some j => existsb (λ a, bool_decide (app_id a = sh_application_id h) && bool_decide (app_job_id a = j))
                (visible_rows w)
  end.

(** The distinct applications whose history has a row with this status:
    [GROUP BY new_status], [count(distinct application_id)]. *)
Definition applications_reaching (w : World) (job : option uuid) (st : string) : list uuid :=
  remove_dups (sh_application_id <$>
    filter (λ h, bool_decide (sh_new_status h ∈ FUNNEL_STAGES) && history_of_job w job h &&
                 bool_decide (sh_new_status h = st) = true) (visible_rows w)).

Definition get_recruitment_funnel (current_user : User) (job_id : option uuid) : M World (list FunnelStageCount) :=
  require_roles ANALYTICS_ROLES current_user;;
  ensure_job job_id;;
  counts_by_stage ← reads (λ w st, length (applications_reaching w job_id st));
  mret ((λ st, mkStage st (counts_by_stage st)) <$> FUNNEL_STAGES).

Definition application_of_job (job : option uuid) (a : Application) : bool :=
  match job with Some j => bool_decide (app_job_id a = j) | None => true end.

(** Days are counted from the epoch, in UTC. *)
Definition day_of (t : instant) : Z := t `div` days 1.

(** [ge=1, le=365]: FastAPI answers 422 otherwise. *)
Definition get_applications_trend (now : instant) (current_user : User) (n : Z) (job_id : option uuid) :
    M World (list DailyApplicationCount) :=
  reject_if (negb (bool_decide (1 ≤ n ≤ 365))) 422;;
  require_roles ANALYTICS_ROLES current_user;;
  ensure_job job_id;;
  let today_utc := day_of now in
  let start_date := today_utc - (n - 1) in
  let range_start := start_date * days 1 in
  rows ← select_where (λ a, bool_decide (range_start ≤ app_created_at a) &&
                            application_of_job job_id a);
  let counts_by_day d := length (filter (λ a, day_of (app_created_at a) = d) rows) in
  mret ((λ offset, let d := start_date + Z.of_nat offset in mkDaily d (counts_by_day d)) <$> seq 0 (Z.to_nat n)).
End handlers.

(** ** Lemmas *)

(** What a member of [t] sees of a tenant table: the rows of [t]. *)
Lemma row_visible_isolated `{Settings, IsolatedTable R col setc} w t u (r : R) :
  ctx w = tenant_ctx t u → row_visible w r = true ↔ col r = Some t.
Proof.
  intros Hc. unfold row_visible, guc. rewrite Hc. unfold orm_criteria. rewrite isolated_mixin. simpl.
  assert (sql_eq (col r) (Some t) = true ↔ col r = Some t) as Hs.
  { rewrite sql_eq_true. naive_solver. }
  rewrite andb_true_iff, Hs. split; [by intros []|]. intros Hr. split; [done|].
  rewrite isolated_policies. destruct (decide (DB_RLS_ROLE = "none")) as [E|E].
  - unfold rls_using, bypass_rls. simpl. by rewrite E.
  - rewrite rls_using_isolation by (done || apply isolated_silent). by apply Hs.
Qed.

Lemma visible_rows_spec `{Settings, Table R} w (r : R) :
  r ∈ visible_rows w ↔ row_visible w r = true ∧ ∃ k, rows (session w) !! k = Some r.
Proof.
  unfold visible_rows. rewrite list_elem_of_filter, list_elem_of_fmap. split.
  - intros [Hv ([k r'] & -> & Hin)]. apply elem_of_map_to_list in Hin. eauto.
  - intros (Hv & k & Hk). split; [done|]. exists (k, r). by rewrite elem_of_map_to_list.
Qed.

Lemma applications_reaching_spec `{Settings} w job st id :
  id ∈ applications_reaching w job st ↔
  ∃ h, sh_application_id h = id ∧ sh_new_status h = st ∧ st ∈ FUNNEL_STAGES ∧
       history_of_job w job h = true ∧ row_visible w h = true ∧ ∃ k, status_history (session w) !! k = Some h.
Proof.
  unfold applications_reaching. rewrite elem_of_remove_dups, list_elem_of_fmap. split.
  - intros (h & -> & Hin). apply list_elem_of_filter in Hin as [Hp Hv].
    apply visible_rows_spec in Hv as [Hv Hk]. bool_to_prop. subst. eauto 10.
  - intros (h & <- & <- & Hf & Hj & Hv & Hk). exists h. split; [done|].
    apply list_elem_of_filter. split; [|by apply visible_rows_spec].
    rewrite Hj, !bool_decide_true by done. done.
Qed.

(** The stage before a stage of the funnel. *)
Lemma funnel_predecessor i s st st' :
  FUNNEL_STAGES !! i = Some st → FUNNEL_STAGES !! S i = Some st' → board_move s st' →
  s = st ∧ st ≠ status_value DRAFT.
Proof.
  intros Hi Hi' Hm. apply board_move_spec in Hm as (j & Hj & Hj7 & Ht).
  change FUNNEL_STAGES with (tail LINEAR_PATH) in *. rewrite lookup_tail in Hi, Hi'.
  assert (∀ k x, LINEAR_PATH !! k = Some x → LINEAR_PATH !! S j = Some x → k = S j) as Huniq
    by (intros; eapply NoDup_lookup; eauto using LINEAR_PATH_NoDup).
  destruct Ht as [Ht| ->].
  - assert (S (S i) = S j) as [= <-] by eauto. split; [congruence|]. intros ->.
    assert (S i = 0%nat); [|done].
    eapply (NoDup_lookup LINEAR_PATH); [apply LINEAR_PATH_NoDup|exact Hi|done].
  - exfalso. apply list_elem_of_lookup_2 in Hi'. revert Hi'.
    apply (bool_decide_unpack _). by vm_compute.
Qed.

Lemma remove_dups_length_le {A} `{EqDecision A} (l k : list A) :
  (∀ x, x ∈ remove_dups l → x ∈ remove_dups k) → (length (remove_dups l) ≤ length (remove_dups k))%nat.
Proof.
  intros Hi. apply submseteq_length, NoDup_submseteq; [apply NoDup_remove_dups|].
  done.
Qed.

(** The applications of a stage were all in the stage before. *)
Lemma reaching_previous `{Settings} w t u job i st st' :
  ctx w = tenant_ctx t u → board_ok (mkBoard (session w) []) →
  FUNNEL_STAGES !! i = Some st → FUNNEL_STAGES !! S i = Some st' →
  ∀ id, id ∈ applications_reaching w job st' → id ∈ applications_reaching w job st.
Proof.
  intros Hc Hok Hi Hi' id. rewrite !applications_reaching_spec.
  intros (h & <- & <- & _ & Hj & Hv & k & Hk).
  destruct (ok_history _ Hok k h Hk) as (a & s & Ha & Ht & Ho & Hm & Hr).
  destruct (funnel_predecessor i s st _ Hi Hi' Hm) as [-> Hnd].
  destruct Hr as [Hr|(k' & h' & Hk' & Hid & Hs)]; [done|].
  destruct (ok_history _ Hok k' h' Hk') as (a' & s' & Ha' & Ht' & _).
  exists h'. split_and!; [done|done|by eapply list_elem_of_lookup_2| | |by exists k'].
  - destruct job as [j|]; simpl in *; [|done]. by rewrite Hid.
  - rewrite (row_visible_isolated w t u) in Hv |- * by done. rewrite Hid in Ha'. congruence.
Qed.

(** *** Days *)

Lemma length_filter_split {A} (P Q R : A → Prop) `{!∀ x, Decision (P x)} `{!∀ x, Decision (Q x)}
    `{!∀ x, Decision (R x)} (l : list A) :
  (∀ x, R x ↔ P x ∨ Q x) → (∀ x, P x → Q x → False) →
  length (filter R l) = (length (filter P l) + length (filter Q l))%nat.
Proof.
  intros HR HD. induction l as [|x l IH]; [done|].
  rewrite !filter_cons. repeat case_decide; simpl; rewrite ?IH; naive_solver lia.
Qed.

Lemma count_range {A} (f : A → Z) (l : list A) (s : Z) (n : nat) :
  sum_list_with (λ i, length (filter (λ a, f a = s + Z.of_nat i) l)) (seq 0 n) =
  length (filter (λ a, s ≤ f a < s + Z.of_nat n) l).
Proof.
  induction n as [|n IH].
  - simpl. symmetry. induction l as [|x l IH]; [done|]. rewrite filter_cons_False; [done|lia].
  - rewrite seq_S, sum_list_with_app, IH. simpl. rewrite Nat.add_0_r. symmetry.
    apply length_filter_split; intros; lia.
Qed.

Lemma day_floor d t : d * days 1 ≤ t ↔ d ≤ day_of t.
Proof. unfold day_of. symmetry. change (days 1) with 86400000000. split; intros; Z.to_euclidean_division_equations; lia. Qed.

Lemma sum_list_with_fmap {A B} (f : B → nat) (g : A → B) l :
  sum_list_with f (g <$> l) = sum_list_with (f ∘ g) l.
Proof. induction l as [|x l IH]; [done|]. cbn. f_equal. exact IH. Qed.

(** ** Properties *)

Section properties.
Context `{Settings}.

(** C7. The funnel is a funnel: for every organisation, every optional job
    and every board state reachable by (overlapping) requests, a successful
    answer lists the seven stages in order with counts that never increase
    from one stage to the next. *)
Theorem funnel_counts_decrease (db0 : Db) (b : BoardState) (t u : uuid) (user : User) (job : option uuid)
    (stages : list FunnelStageCount) (w' : World) :
  fresh_board db0 → rtc step (mkBoard db0 []) b →
  get_recruitment_funnel user job (open_session (bd_db b) (tenant_ctx t u)) = (inr stages, w') →
  stage <$> stages = FUNNEL_STAGES ∧
  ∀ i x y, stages !! i = Some x → stages !! S i = Some y → (stage_count y ≤ stage_count x)%nat.
Proof.
  intros Hf Hr E. unfold get_recruitment_funnel, require_roles in E. guard_step E; [done|].
  bind_step E as e | v w1 E1; [done|].
  assert (w1 = open_session (bd_db b) (tenant_ctx t u)) as ->.
  { unfold ensure_job, _ensure_job_exists in E1. destruct job as [j|]; [|by ret_step E1].
    rewrite select_by_id_bind in E1. destruct (lookup_visible j _); by ret_step E1. }
  assert (stages = (λ st, mkStage st (length (applications_reaching
    (open_session (bd_db b) (tenant_ctx t u)) job st))) <$> FUNNEL_STAGES) as -> by (by injection E).
  split; [by rewrite <- list_fmap_compose|].
  intros i x y Hx Hy. apply list_lookup_fmap_Some in Hx as (st & -> & Hi), Hy as (st' & -> & Hi').
  apply remove_dups_length_le, (reaching_previous _ t u job i st st'); [done| |done|done].
  destruct b as [db ps]. eapply board_ok_pending_incl, (reachable_board_ok db0 (mkBoard db ps)); [|done|done].
  set_solver.
Qed.

(** The trend chart has no holes: for [1 <= n <= 365] the answer has
    exactly one entry per day, in order, ending today (UTC), days without
    applications included with 0; and the entries add up to the number of
    visible applications (of the job, when one is given) created in these
    [n] days. *)
Theorem trend_is_zero_filled (now : instant) (user : User) (n : Z) (job : option uuid) (w w' : World)
    (series : list DailyApplicationCount) :
  get_applications_trend now user n job w = (inr series, w') →
  day <$> series = (λ i, day_of now - (n - 1) + Z.of_nat i) <$> seq 0 (Z.to_nat n) ∧
  last (day <$> series) = Some (day_of now) ∧
  sum_list (day_count <$> series) =
    length (filter (λ a : Application,
      day_of now - (n - 1) ≤ day_of (app_created_at a) ≤ day_of now ∧
      application_of_job job a = true) (visible_rows w)).
Proof.
  intros E. unfold get_applications_trend, require_roles in E.
  guard_step E; [done|]. guard_step E; [done|]. bool_to_prop.
  bind_step E as e | v w1 E1; [done|].
  assert (w1 = w) as ->.
  { unfold ensure_job, _ensure_job_exists in E1. destruct job as [j|]; [|by ret_step E1].
    rewrite select_by_id_bind in E1. destruct (lookup_visible j _); by ret_step E1. }
  rewrite select_where_bind in E. cbv zeta in E. unfold mret, M_ret in E.
  apply (f_equal fst) in E. simpl in E. injection E as <-.
  rewrite <- !list_fmap_compose. split; [done|]. split.
  - destruct (Z.to_nat n) as [|k] eqn:Ek; [lia|].
    rewrite seq_S, fmap_app. cbn [fmap list_fmap]. rewrite last_snoc. simpl. f_equal. lia.
  - rewrite sum_list_with_fmap. unfold compose. cbn [day_count id].
    rewrite (count_range (λ a : Application, day_of (app_created_at a))), list_filter_filter. f_equal.
    apply list_filter_iff. intros a. rewrite andb_true_iff, bool_decide_eq_true.
    pose proof (day_floor (day_of now - (n - 1)) (app_created_at a)). rewrite Z2Nat.id by lia. naive_solver lia.
Qed.
End properties.

(** The example organisation after the recruiter has moved the application to
    [Applied]. *)
Definition demo_db_applied : Db :=
  committed (snd (@write_transition demo_settings 11 7 demo_hr demo_application "Applied"
                    (open_session demo_db (tenant_ctx 1 2)))).

Lemma demo_applied_reachable :
  rtc (@step demo_settings) (mkBoard demo_db []) (mkBoard demo_db_applied []).
Proof.
  pose (p := mkPending (tenant_ctx 1 2) demo_hr demo_application "Applied" false).
  eapply rtc_l, rtc_l, rtc_refl.
  - apply (@step_staff_check demo_settings demo_db [] 1 2 demo_hr 6 (demo_move DRAFT APPLIED)
             demo_application (open_session demo_db (tenant_ctx 1 2))).
    + apply (bool_decide_unpack _). by vm_compute.
    + by vm_compute.
  - apply (@step_staff_write demo_settings demo_db [] [] p 11 7). done.
Qed.

Lemma funnel_counts_decrease_witness :
  ∃ stages w',
    @get_recruitment_funnel demo_settings demo_hr (Some 5%N) (open_session demo_db_applied (tenant_ctx 1 2))
      = (inr stages, w') ∧
    stage_count <$> stages = [1; 0; 0; 0; 0; 0; 0]%nat ∧
    (stage <$> stages = FUNNEL_STAGES ∧
     ∀ i x y, stages !! i = Some x → stages !! S i = Some y → (stage_count y ≤ stage_count x)%nat).
Proof.
  eexists _, _. split; [by vm_compute|]. split; [by vm_compute|].
  apply (@funnel_counts_decrease demo_settings demo_db (mkBoard demo_db_applied []) 1 2 demo_hr (Some 5%N)
           _ (open_session demo_db_applied (tenant_ctx 1 2))).
  - apply demo_fresh.
  - apply demo_applied_reachable.
  - by vm_compute.
Defined.

Lemma trend_is_zero_filled_witness :
  let w := open_session demo_db (tenant_ctx 1 2) in
  ∃ series,
    @get_applications_trend demo_settings (days 2) demo_hr 3 None w = (inr series, w) ∧
    day_count <$> series = [1; 0; 0]%nat ∧
    (day <$> series = (λ i, day_of (days 2) - (3 - 1) + Z.of_nat i) <$> seq 0 (Z.to_nat 3) ∧
     last (day <$> series) = Some (day_of (days 2)) ∧
     sum_list (day_count <$> series) =
       length (filter (λ a : Application,
         day_of (days 2) - (3 - 1) ≤ day_of (app_created_at a) ≤ day_of (days 2) ∧
         application_of_job None a = true) (@visible_rows demo_settings _ _ w))).
Proof.
  intros w. eexists. split; [by vm_compute|]. split; [by vm_compute|].
  apply (@trend_is_zero_filled demo_settings (days 2) demo_hr 3 None w w). by vm_compute.
Defined.
