(* ===== verification/Pagination.v ===== *)
(** Keyset pagination ([app/core/pagination.py]), shared by every list of the
    API: opaque cursors over (sort value, id) and pages fetched in either
    direction with one row more than the page size. *)
From S2P Require Import Prelude PyText Config Models Codecs Security.
From stdpp Require Import sorting.
From Stdlib Require Import QArith Qround.
Local Open Scope string_scope.
Local Open Scope Z_scope.
Local Open Scope list_scope.

Definition DEFAULT_PAGE_SIZE : Z := 20.
Definition MAX_PAGE_SIZE : Z := 100.

(** ** Cursors *)

(** [datetime] values with and without a time zone. *)
Inductive DateTime := Aware (t : instant) | Naive (t : instant).

(** The text forms a cursor goes through: [datetime.isoformat] and its
    inverse, and JSON in URL-safe base 64. [None] is the exception the
    decoders raise. *)
Class CursorText := {
  isoformat : instant → string;
  fromisoformat : string → option DateTime;
  b64_json : json → string;
  json_b64 : string → option json;
  fromisoformat_isoformat t : fromisoformat (isoformat t) = Some (Aware t);
  json_b64_b64_json j : json_b64 (b64_json j) = Some j }.

(** The type of a sort column, its values in a row, and the values a cursor
    decodes to ([VRaw]: a JSON value taken as it is). *)
Inductive SortKind := KDatetime | KInt | KUuid.
Inductive SortValue :=
  | VDatetime (t : DateTime)
  | VInt (n : Z)
  | VUuid (u : uuid)
  | VRaw (j : json).
Inductive IdValue := IdUuid (u : uuid) | IdRaw (j : json).

Record CursorParams := mkParams {
  cursor : option string;
  direction : string;
  limit : Z }.

(** [cursor_params]: FastAPI answers 422 to a bad direction or limit. *)
Definition cursor_params (c : option string) (dir : string) (lim : Z) : exn + CursorParams :=
  if negb (bool_decide (dir = "next" ∨ dir = "prev")) then inl (HTTPException 422)
  else if negb (bool_decide (1 ≤ lim ≤ MAX_PAGE_SIZE)) then inl (HTTPException 422)
  else inr (mkParams c dir lim).

Record CursorPage (Row : Type) := mkPage {
  items : list Row;
  next_cursor : option string;
  previous_cursor : option string;
  has_next : bool;
  has_previous : bool }.
Arguments mkPage {_}.
Arguments items {_}.
Arguments next_cursor {_}.
Arguments previous_cursor {_}.
Arguments has_next {_}.
Arguments has_previous {_}.

(** [int(raw)] of a JSON value. *)
Definition int_of_json (j : json) : option Z :=
  match j with
  | JInt n => Some n
  | JBool b => Some (if b then 1 else 0)
  | JFloat q => Some (if Qle_bool 0 q then Qfloor q else Qceiling q)
  | JStr s => dec_int s
  | _ => None
  end.

Section cursors.
Context `{CursorText}.

Definition _serialize_sort_value (v : SortValue) : string * json :=
  match v with
  | VDatetime (Aware t) | VDatetime (Naive t) => ("dt", JStr (isoformat t))
  | VInt n => ("int", JInt n)
  | VUuid u => ("str", JStr (uuid_str u))
  | VRaw j => ("str", j)
  end.

Definition _deserialize_sort_value (kind : json) (raw : json) : option SortValue :=
  match kind with
  | JStr "dt" => match raw with JStr s => VDatetime <$> fromisoformat s | _ => None end
  | JStr "int" => VInt <$> int_of_json raw
  | _ => Some (VRaw raw)
  end.

Definition _deserialize_id_value (raw : json) : IdValue :=
  match raw with
  | JStr s => match uuid_parse s with Some u => IdUuid u | None => IdRaw raw end
  | _ => IdRaw raw
  end.

Definition encode_cursor (sort_value : SortValue) (row_id : uuid) : string :=
  let '(kind, serialized_value) := _serialize_sort_value sort_value in
  b64_json (JObj [("v", serialized_value); ("k", JStr kind); ("id", JStr (uuid_str row_id))]).

(** [None] is [InvalidCursorError]. *)
Definition decode_cursor (cursor : string) : option (SortValue * IdValue) :=
  payload ← json_b64 cursor;
  k ← json_get "k" payload;
  v ← json_get "v" payload;
  sort_value ← _deserialize_sort_value k v;
  raw_id ← json_get "id" payload;
  Some (sort_value, _deserialize_id_value raw_id).
End cursors.

(** *** Binding a boundary to the columns *)

(** The value the database compares with a column of type [kind]; [None]: the
    driver refuses the parameter. *)
Definition bind_sort (kind : SortKind) (v : SortValue) : option Z :=
  match kind, v with
  | KDatetime, VDatetime (Aware t) => Some t
  | KInt, VInt n | KInt, VRaw (JInt n) => Some n
  | KUuid, VUuid u => Some (Z.of_N u)
  | KUuid, VRaw (JStr s) => Z.of_N <$> uuid_parse s
  | _, _ => None
  end.

Definition bind_id (v : IdValue) : option uuid :=
  match v with IdUuid u => Some u | IdRaw _ => None end.

(** ** Keys *)

Definition key : Type := Z * N.

(** SQL row comparison [(a, b) < (c, d)] *)
Definition key_lt (a b : key) : Prop := a.1 < b.1 ∨ (a.1 = b.1 ∧ (a.2 < b.2)%N).
#[global] Instance key_lt_dec a b : Decision (key_lt a b).
Proof. unfold key_lt. apply _. Defined.

(** [a] comes before [b] in a descending (resp. ascending) list. *)
Definition before (descending : bool) (a b : key) : Prop :=
  if descending then key_lt b a else key_lt a b.
#[global] Instance before_dec d a b : Decision (before d a b).
Proof. destruct d; apply _. Defined.

Section paginate.
Context `{CursorText} {Row : Type}.
Context (kind : SortKind) (sort_column : Row → SortValue) (id_column : Row → uuid).

Definition row_key (r : Row) : key := (default 0 (bind_sort kind (sort_column r)), id_column r).

(** [ORDER BY sort DESC, id DESC] (resp. ASC) *)
Definition row_le (descending : bool) (r s : Row) : Prop := ¬ before descending (row_key s) (row_key r).
#[global] Instance row_le_dec d r s : Decision (row_le d r s).
Proof. unfold row_le. apply _. Defined.
Definition order_by (descending : bool) (l : list Row) : list Row := merge_sort (row_le descending) l.

(** The cursor of a row. *)
Definition row_cursor (r : Row) : string := encode_cursor (sort_column r) (id_column r).

(** Rows beyond the boundary [b], in fetch direction [d]. *)
Definition beyond (d : bool) (b : key) (query : list Row) : list Row :=
  filter (λ r, before d b (row_key r)) query.

Definition paginate_by_cursor (query : list Row) (params : CursorParams) (descending : bool) :
    exn + CursorPage Row :=
  match
    match cursor params with
    | None => inr None
    | Some c =>
        match decode_cursor c with
        | None => inl (HTTPException 400)
        | Some (v, i) =>
            match bind_sort kind v, bind_id i with
            | Some s, Some u => inr (Some (s, u))
            | _, _ => inl (PyError "DBAPIError")
            end
        end
    end
  with
  | inl e => inl e
  | inr boundary =>
      let is_next := bool_decide (direction params = "next") in
      let fetch_descending := if is_next then descending else negb descending in
      let fetch_query := match boundary with
                         | None => query
                         | Some b => beyond fetch_descending b query
                         end in
      let fetched := take (S (Z.to_nat (limit params))) (order_by fetch_descending fetch_query) in
      let has_more_in_fetch_direction := bool_decide (limit params < Z.of_nat (length fetched)) in
      let page := take (Z.to_nat (limit params)) fetched in
      let page := if bool_decide (direction params = "prev") then reverse page else page in
      match head page, last page with
      | Some first_item, Some last_item =>
          let exists_beyond (b : key) (after : bool) : bool :=
            let go_lower := if after then descending else negb descending in
            negb (bool_decide (beyond go_lower b query = [])) in
          let '(has_next, has_previous) :=
            if is_next then
              (has_more_in_fetch_direction,
               match cursor params with
               | None => false
               | Some _ => exists_beyond (row_key first_item) false
               end)
            else (exists_beyond (row_key last_item) true, has_more_in_fetch_direction) in
          inr (mkPage page
                 (if has_next then Some (row_cursor last_item) else None)
                 (if has_previous then Some (row_cursor first_item) else None)
                 has_next has_previous)
      | _, _ => inr (mkPage [] None None false false)
      end
  end.
End paginate.

(** ** Lemmas *)

Lemma before_flip d a b : before (negb d) a b ↔ before d b a.
Proof. by destruct d. Qed.

Lemma before_irrefl d a : ¬ before d a a.
Proof. destruct d; unfold before, key_lt; lia. Qed.

Lemma before_trans d a b c : before d a b → before d b c → before d a c.
Proof. destruct d; unfold before, key_lt; lia. Qed.

Lemma before_total d a b : a ≠ b → before d a b ∨ before d b a.
Proof.
  intros Hne. assert (a.1 ≠ b.1 ∨ a.2 ≠ b.2) as H.
  { destruct a as [a1 a2], b as [b1 b2]. simpl.
    destruct (decide (a1 = b1)), (decide (a2 = b2)); subst; auto. }
  destruct d; unfold before, key_lt; lia.
Qed.

Section payload.
Context (v k i : json).
Let payload : json := JObj [("v", v); ("k", k); ("id", i)].
Lemma json_get_v : json_get "v" payload = Some v.
Proof. reflexivity. Qed.
Lemma json_get_k : json_get "k" payload = Some k.
Proof. reflexivity. Qed.
Lemma json_get_id : json_get "id" payload = Some i.
Proof. reflexivity. Qed.
End payload.

Section cursor_lemmas.
Context `{CursorText}.

(** A column value of type [kind], as rows hold it. *)
Definition column_ok (kind : SortKind) (v : SortValue) : Prop :=
  match kind, v with
  | KDatetime, VDatetime (Aware _) | KInt, VInt _ => True
  | KUuid, VUuid u => uuid_ok u
  | _, _ => False
  end.

(** A cursor decodes to a boundary at the very row it was made of. *)
Lemma decode_encode_cursor kind v id :
  column_ok kind v → uuid_ok id →
  ∃ v', decode_cursor (encode_cursor v id) = Some (v', IdUuid id) ∧ bind_sort kind v' = bind_sort kind v ∧
        is_Some (bind_sort kind v).
Proof.
  intros Hv Hid. unfold encode_cursor, decode_cursor.
  assert (∀ k raw v', _deserialize_sort_value (JStr k) raw = Some v' →
    (payload ← json_b64 (b64_json (JObj [("v", raw); ("k", JStr k); ("id", JStr (uuid_str id))]));
     k ← json_get "k" payload; v ← json_get "v" payload;
     sort_value ← _deserialize_sort_value k v; raw_id ← json_get "id" payload;
     Some (sort_value, _deserialize_id_value raw_id)) = Some (v', IdUuid id)) as Hgen.
  { intros k raw v' E. rewrite json_b64_b64_json. cbn [mbind option_bind].
    rewrite json_get_k, json_get_v. cbn [mbind option_bind]. rewrite E. cbn [mbind option_bind].
    rewrite json_get_id. cbn. by rewrite uuid_parse_str by done. }
  destruct kind, v as [[t|t]|n|u|j]; try done; cbn [_serialize_sort_value].
  - exists (VDatetime (Aware t)). split; [|by eauto].
    apply Hgen. cbn. by rewrite fromisoformat_isoformat.
  - exists (VInt n). split; [by apply Hgen|by eauto].
  - exists (VRaw (JStr (uuid_str u))). split; [by apply Hgen|].
    cbn. rewrite uuid_parse_str by done. by eauto.
Qed.
End cursor_lemmas.

(** ** Pages as slices of the sorted list *)

(** The specification: the slice of length [n] at offset [i] of the rows in
    display order, with cursors at its two ends when rows remain beyond. *)
Definition spec_page {Row} (row_cursor : Row → string) (L : list Row) (i n : nat) : CursorPage Row :=
  let page := take n (drop i L) in
  match head page, last page with
  | Some first_item, Some last_item =>
      let has_next := bool_decide (i + n < length L)%nat in
      let has_previous := bool_decide (0 < i)%nat in
      mkPage page (if has_next then Some (row_cursor last_item) else None)
        (if has_previous then Some (row_cursor first_item) else None) has_next has_previous
  | _, _ => mkPage [] None None false false
  end.

Section slices.
Context `{CursorText} {Row : Type}.
Context (kind : SortKind) (sort_column : Row → SortValue) (id_column : Row → uuid).
Context (query : list Row) (d : bool).

(** The rows of the query: ids are unique (primary key) and columns have the
    declared type. *)
Context (Hids : NoDup (id_column <$> query)).
Context (Hcols : ∀ r, r ∈ query → column_ok kind (sort_column r) ∧ uuid_ok (id_column r)).

Notation row_key := (row_key kind sort_column id_column).
Notation row_le := (row_le kind sort_column id_column).
Notation order_by := (order_by kind sort_column id_column).
Notation beyond := (beyond kind sort_column id_column).
Notation row_cursor := (row_cursor sort_column id_column).
Notation paginate := (paginate_by_cursor kind sort_column id_column).

(** The rows in display order. *)
Definition display : list Row := order_by d query.

#[local] Instance row_le_total b : Total (row_le b).
Proof.
  intros r s. unfold row_le. destruct (decide (row_key r = row_key s)) as [E|E].
  - left. rewrite E. apply before_irrefl.
  - destruct (before_total b _ _ E) as [Hb|Hb]; [left|right];
      intros Hc; eapply before_irrefl, before_trans; eauto.
Qed.

#[local] Instance row_le_trans b : Transitive (row_le b).
Proof.
  intros r s u Hrs Hsu Hur. unfold Pagination.row_le in *.
  destruct (decide (row_key s = row_key u)) as [E|E]; [rewrite E in Hrs; done|].
  destruct (before_total b _ _ E) as [Hb|Hb]; [|done].
  apply Hrs. by eapply before_trans.
Qed.

Lemma order_by_perm b l : order_by b l ≡ₚ l.
Proof. apply merge_sort_Permutation. Qed.

Lemma order_by_sorted b l : StronglySorted (row_le b) (order_by b l).
Proof. apply StronglySorted_merge_sort; apply _. Qed.

Lemma key_inj r s : r ∈ query → s ∈ query → row_key r = row_key s → r = s.
Proof.
  intros Hr Hs E. apply (f_equal snd) in E. simpl in E.
  apply list_elem_of_lookup in Hr as [i Hi], Hs as [j Hj].
  assert (i = j) as ->; [|congruence].
  eapply (NoDup_lookup (id_column <$> query)); [done|rewrite list_lookup_fmap, Hi; done|].
  rewrite list_lookup_fmap, Hj. simpl. by rewrite E.
Qed.

(** A sorted list of rows of the query is what the database returns. *)
Lemma order_by_unique b l l' :
  (∀ r, r ∈ l → r ∈ query) → l' ≡ₚ l → StronglySorted (row_le b) l' → order_by b l = l'.
Proof.
  intros Hl Hp Hs. eapply StronglySorted_unique_strong; [|apply order_by_sorted|done|].
  - intros r s Hr Hs' H1 H2.
    assert (r ∈ query) by (apply Hl; by rewrite order_by_perm in Hr).
    assert (s ∈ query) by (apply Hl; by rewrite Hp in Hs').
    apply key_inj; [done..|]. destruct (decide (row_key r = row_key s)) as [E|E]; [done|].
    unfold Pagination.row_le in *. by destruct (before_total b _ _ E).
  - by rewrite order_by_perm.
Qed.

Lemma display_elem r : r ∈ display ↔ r ∈ query.
Proof. unfold display. by rewrite order_by_perm. Qed.

Lemma display_NoDup : NoDup display.
Proof. unfold display. rewrite order_by_perm. by eapply NoDup_fmap_1. Qed.

(** Around a row of the sorted list. *)
Lemma display_split i r : display !! i = Some r → display = take i display ++ r :: drop (S i) display.
Proof. intros Hi. by rewrite take_drop_middle. Qed.

Lemma display_before i j r s :
  display !! i = Some r → display !! j = Some s → (i < j)%nat → before d (row_key r) (row_key s).
Proof.
  intros Hi Hj Hij. assert (row_le d r s) as Hle.
  { pose proof (order_by_sorted d query) as Hs. fold display in Hs.
    rewrite (display_split i r Hi) in Hs. apply StronglySorted_app_1_r in Hs.
    apply StronglySorted_cons in Hs as [Hf _]. rewrite Forall_forall in Hf. apply Hf.
    apply list_elem_of_lookup. exists (j - S i)%nat. rewrite lookup_drop. rewrite <- Hj. f_equal. lia. }
  destruct (decide (row_key r = row_key s)) as [E|E].
  - apply key_inj in E; [|apply display_elem; by eapply list_elem_of_lookup_2..]. subst.
    pose proof (NoDup_lookup _ _ _ _ display_NoDup Hi Hj). lia.
  - destruct (before_total d _ _ E); [done|]. by destruct Hle.
Qed.

Lemma before_index i j r s :
  display !! i = Some r → display !! j = Some s → before d (row_key r) (row_key s) → (i < j)%nat.
Proof.
  intros Hi Hj Hb. destruct (decide (i < j)%nat) as [|Hn]; [done|].
  destruct (decide (i = j)) as [->|]; [simplify_eq; by apply before_irrefl in Hb|].
  exfalso. eapply before_irrefl, before_trans; [exact Hb|]. eapply (display_before j i); eauto. lia.
Qed.

Lemma display_take_sorted i : StronglySorted (row_le (negb d)) (reverse (take i display)).
Proof.
  pose proof (order_by_sorted d query) as Hs. fold display in Hs.
  rewrite <- (take_drop i display) in Hs. apply StronglySorted_app_1_l in Hs.
  induction (take i display) as [|r l IH]; [constructor|].
  apply StronglySorted_cons in Hs as [Hf Hs]. rewrite reverse_cons.
  apply StronglySorted_app. split_and!; [|by apply IH|by repeat constructor].
  intros x y Hx ->%list_elem_of_singleton. rewrite elem_of_reverse in Hx.
  rewrite Forall_forall in Hf. specialize (Hf _ Hx). unfold Pagination.row_le in *.
  by rewrite before_flip.
Qed.

(** What the database returns beyond a row: the rows after it, or the rows
    before it, nearest first. *)
Lemma order_by_after i r :
  display !! i = Some r → order_by d (beyond d (row_key r) query) = drop (S i) display.
Proof.
  intros Hi. apply order_by_unique.
  - intros x Hx. by apply list_elem_of_filter in Hx as [_ ?].
  - unfold Pagination.beyond. rewrite <- (order_by_perm d query). fold display.
    rewrite (display_split i r Hi) at 2. rewrite filter_app, filter_none, filter_cons_False; simpl.
    + rewrite filter_all; [done|]. intros x Hx.
      apply list_elem_of_lookup in Hx as [j Hj]. rewrite lookup_drop in Hj.
      eapply (display_before i (S i + j)); eauto. lia.
    + apply before_irrefl.
    + intros x Hx Hb. apply list_elem_of_lookup in Hx as [j Hj].
      apply lookup_take_Some in Hj as [Hj Hji].
      pose proof (before_index _ _ _ _ Hi Hj Hb). lia.
  - pose proof (order_by_sorted d query) as Hs. fold display in Hs.
    rewrite <- (take_drop (S i) display) in Hs. by apply StronglySorted_app_1_r in Hs.
Qed.

Lemma order_by_before i r :
  display !! i = Some r →
  order_by (negb d) (beyond (negb d) (row_key r) query) = reverse (take i display).
Proof.
  intros Hi. apply order_by_unique; [|
    |apply display_take_sorted].
  - intros x Hx. by apply list_elem_of_filter in Hx as [_ ?].
  - unfold Pagination.beyond. rewrite <- (order_by_perm d query). fold display.
    rewrite reverse_Permutation.
    rewrite (display_split i r Hi) at 2. rewrite filter_app, filter_all, filter_cons_False; simpl.
    + rewrite filter_none; [by rewrite app_nil_r|]. intros x Hx Hb.
      apply list_elem_of_lookup in Hx as [j Hj]. rewrite lookup_drop in Hj.
      rewrite before_flip in Hb. pose proof (before_index _ _ _ _ Hj Hi Hb). lia.
    + rewrite before_flip. apply before_irrefl.
    + intros x Hx. apply list_elem_of_lookup in Hx as [j Hj].
      apply lookup_take_Some in Hj as [Hj Hji]. rewrite before_flip. by eapply display_before.
Qed.

Lemma order_by_nil b l : l = [] ↔ order_by b l = [].
Proof.
  split; [by intros ->|]. intros E. apply Permutation_nil. rewrite <- E. apply order_by_perm.
Qed.

(** [exists_beyond] in both directions. *)
Lemma exists_after i r :
  display !! i = Some r → negb (bool_decide (beyond d (row_key r) query = [])) = bool_decide (S i < length display)%nat.
Proof.
  intros Hi. rewrite <- bool_decide_not. apply bool_decide_ext.
  rewrite (order_by_nil d), (order_by_after i) by done. rewrite <- length_zero_iff_nil, length_drop. lia.
Qed.

Lemma exists_before i r :
  display !! i = Some r → negb (bool_decide (beyond (negb d) (row_key r) query = [])) = bool_decide (0 < i)%nat.
Proof.
  intros Hi. rewrite <- bool_decide_not. apply bool_decide_ext.
  rewrite (order_by_nil (negb d)), (order_by_before i) by done.
  rewrite <- length_zero_iff_nil, length_reverse, length_take.
  apply lookup_lt_Some in Hi. lia.
Qed.

(** ** Each fetch is a slice *)

Definition first_page (n : Z) : CursorParams := mkParams None "next" n.
Definition page_after (r : Row) (n : Z) : CursorParams := mkParams (Some (row_cursor r)) "next" n.
Definition page_before (r : Row) (n : Z) : CursorParams := mkParams (Some (row_cursor r)) "prev" n.

Lemma display_col_ok i r : display !! i = Some r → column_ok kind (sort_column r) ∧ uuid_ok (id_column r).
Proof. intros Hi. apply Hcols, display_elem. by eapply list_elem_of_lookup_2. Qed.

Lemma head_take_drop {A} (l : list A) i n : (0 < n)%nat → head (take n (drop i l)) = l !! i.
Proof.
  intros Hn. rewrite head_lookup, lookup_take_lt by lia. rewrite lookup_drop. f_equal. lia.
Qed.

Lemma last_take_drop {A} (l : list A) i n r :
  last (take n (drop i l)) = Some r → ∃ j, l !! j = Some r ∧ j = (Nat.min (i + n) (length l) - 1)%nat ∧ (i ≤ j)%nat.
Proof.
  rewrite last_lookup, length_take, length_drop. intros Hr.
  apply lookup_take_Some in Hr as [Hr Hlt]. rewrite lookup_drop in Hr.
  pose proof (lookup_lt_Some _ _ _ Hr). eexists. split; [exact Hr|]. lia.
Qed.

Lemma paginate_first n :
  1 ≤ n → paginate query (first_page n) d = inr (spec_page row_cursor display 0 (Z.to_nat n)).
Proof.
  intros Hn. unfold paginate_by_cursor, first_page, spec_page. simpl. fold display.
  rewrite take_take, Nat.min_l by lia. rewrite drop_0, length_take.
  replace (bool_decide (n < Z.of_nat (Nat.min (S (Z.to_nat n)) (length display))))
    with (bool_decide (Z.to_nat n < length display)%nat) by (apply bool_decide_ext; lia).
  destruct (head (take (Z.to_nat n) display)); [|done]. by destruct (last (take (Z.to_nat n) display)).
Qed.

(** The boundary a row's own cursor stands for. *)
Lemma cursor_boundary i r :
  display !! i = Some r →
  ∃ v s, decode_cursor (row_cursor r) = Some (v, IdUuid (id_column r)) ∧
         bind_sort kind v = Some s ∧ (s, id_column r) = row_key r.
Proof.
  intros Hi. destruct (display_col_ok _ _ Hi) as [Hc Hu].
  destruct (decode_encode_cursor kind (sort_column r) (id_column r) Hc Hu) as (v & Hd & Hb & [s Hs]).
  exists v, s. split; [exact Hd|]. split; [congruence|].
  unfold Pagination.row_key. by rewrite Hs.
Qed.

Lemma paginate_after n i r :
  1 ≤ n → display !! i = Some r →
  paginate query (page_after r n) d = inr (spec_page row_cursor display (S i) (Z.to_nat n)).
Proof.
  intros Hn Hi. destruct (cursor_boundary i r Hi) as (v & s & Hd & Hb & Hk).
  unfold paginate_by_cursor, page_after, spec_page. cbn [cursor direction limit]. rewrite Hd. cbn [bind_id].
  rewrite Hb, Hk. simpl. rewrite (order_by_after i) by done.
  rewrite take_take, Nat.min_l by lia. rewrite length_take, length_drop.
  rewrite head_take_drop by lia. destruct (display !! S i) as [x|] eqn:Hx; [|done].
  destruct (last (take (Z.to_nat n) (drop (S i) display))) as [y|]; [|done].
  rewrite (exists_before (S i)) by done.
  replace (bool_decide (n < Z.of_nat (Nat.min (S (Z.to_nat n)) (length display - S i))))
    with (bool_decide (S i + Z.to_nat n < length display)%nat) by (apply bool_decide_ext; lia).
  done.
Qed.

Lemma paginate_before n i r :
  1 ≤ n → display !! i = Some r →
  paginate query (page_before r n) d =
  inr (spec_page row_cursor display (i - Z.to_nat n) (i - (i - Z.to_nat n))).
Proof.
  intros Hn Hi. pose proof (lookup_lt_Some _ _ _ Hi) as Hlt.
  destruct (cursor_boundary i r Hi) as (v & s & Hd & Hb & Hk).
  unfold paginate_by_cursor, page_before, spec_page. cbn [cursor direction limit]. rewrite Hd. cbn [bind_id].
  rewrite Hb, Hk. simpl. rewrite (order_by_before i) by done.
  rewrite take_take, Nat.min_l by lia. rewrite length_take, length_reverse, length_take.
  rewrite take_reverse, reverse_involutive, length_take, (Nat.min_l i) by lia.
  replace (drop (i - Z.to_nat n) (take i display))
    with (take (i - (i - Z.to_nat n)) (drop (i - Z.to_nat n) display))
    by (rewrite take_drop_commute; repeat f_equal; lia).
  set (j := (i - Z.to_nat n)%nat).
  destruct (decide (i = 0%nat)) as [->|Hi0]; [done|].
  rewrite head_take_drop by lia. destruct (display !! j) as [x|] eqn:Hx; [|done].
  destruct (last (take (i - j) (drop j display))) as [y|] eqn:Hy; [|done].
  apply last_take_drop in Hy as (k & Hk' & Hkj & _).
  rewrite (exists_after k) by done.
  replace (bool_decide (S k < length display)%nat) with (bool_decide (j + (i - j) < length display)%nat)
    by (apply bool_decide_ext; lia).
  replace (bool_decide (n < Z.of_nat (Nat.min (S (Z.to_nat n)) i))) with (bool_decide (0 < j)%nat)
    by (apply bool_decide_ext; lia).
  done.
Qed.

(** A client that follows [next_cursor] from page to page. *)
Fixpoint walk (fuel : nat) (params : CursorParams) : list Row :=
  match fuel with
  | O => []
  | S fuel' =>
      match paginate query params d with
      | inl _ => []
      | inr page =>
          items page ++
          match next_cursor page with
          | Some c => walk fuel' (mkParams (Some c) "next" (limit params))
          | None => []
          end
      end
  end.

Lemma walk_from fuel params i :
  1 ≤ limit params →
  paginate query params d = inr (spec_page row_cursor display i (Z.to_nat (limit params))) →
  (length display - i < fuel)%nat → walk fuel params = drop i display.
Proof.
  revert params i. induction fuel as [|fuel IH]; intros params i Hn Hp Hf; [lia|].
  cbn [walk]. rewrite Hp. unfold spec_page. set (n := Z.to_nat (limit params)).
  rewrite head_take_drop by lia. destruct (display !! i) as [x|] eqn:Hx.
  2:{ simpl. apply lookup_ge_None in Hx. by rewrite drop_ge. }
  assert (is_Some (last (take n (drop i display)))) as [y Hy].
  { rewrite last_lookup. apply lookup_lt_is_Some. rewrite length_take, length_drop.
    apply lookup_lt_Some in Hx. lia. }
  rewrite Hy. cbn [items next_cursor]. rewrite <- (take_drop n (drop i display)) at 2. f_equal.
  rewrite drop_drop. case_bool_decide as Hmore.
  - apply last_take_drop in Hy as (j & Hj & Hji & _).
    replace (i + n)%nat with (S j) by lia.
    apply (IH (mkParams (Some (row_cursor y)) "next" (limit params))); [done| |].
    + by apply (paginate_after (limit params) j y).
    + lia.
  - by rewrite drop_ge by lia.
Qed.

Lemma display_length : length display = length query.
Proof. by rewrite (order_by_perm d query). Qed.
End slices.

(** ** Properties *)

(** C6. Every fetch is a slice: for any query whose ids are unique and any
    page size, the first page, the page after a row's cursor and the page
    before a row's cursor are exactly the slices of the sorted result at
    offset 0, just after the row, and just before it (in display order), with
    [has_next], [has_previous] and both cursors telling exactly whether rows
    remain on each side - in both sort directions, ties on the sort column
    included. *)
Theorem pages_are_slices `{CursorText} {Row : Type} (kind : SortKind) (sort_column : Row → SortValue)
    (id_column : Row → uuid) (query : list Row) (descending : bool) (n : Z) :
  NoDup (id_column <$> query) →
  (∀ r, r ∈ query → column_ok kind (sort_column r) ∧ uuid_ok (id_column r)) →
  1 ≤ n →
  let sorted := order_by kind sort_column id_column descending query in
  let cur := row_cursor sort_column id_column in
  let fetch := λ params, paginate_by_cursor kind sort_column id_column query params descending in
  fetch (mkParams None "next" n) = inr (spec_page cur sorted 0 (Z.to_nat n)) ∧
  ∀ i r, sorted !! i = Some r →
    fetch (mkParams (Some (cur r)) "next" n) = inr (spec_page cur sorted (S i) (Z.to_nat n)) ∧
    fetch (mkParams (Some (cur r)) "prev" n) =
      inr (spec_page cur sorted (i - Z.to_nat n) (i - (i - Z.to_nat n))).
Proof.
  intros Hids Hcols Hn. cbv zeta. split; [by apply paginate_first|].
  intros i r Hi. split; [by apply paginate_after|by apply paginate_before].
Qed.

(** C5. No row is lost or repeated: a client that follows [next_cursor] from
    the first page until there is none reads exactly the rows of the query,
    each once, in display order, whatever the page size. *)
Theorem walk_reads_everything_once `{CursorText} {Row : Type} (kind : SortKind) (sort_column : Row → SortValue)
    (id_column : Row → uuid) (query : list Row) (descending : bool) (n : Z) :
  NoDup (id_column <$> query) →
  (∀ r, r ∈ query → column_ok kind (sort_column r) ∧ uuid_ok (id_column r)) →
  1 ≤ n →
  walk kind sort_column id_column query descending (S (length query)) (mkParams None "next" n) =
    order_by kind sort_column id_column descending query ∧
  order_by kind sort_column id_column descending query ≡ₚ query.
Proof.
  intros Hids Hcols Hn. split; [|apply order_by_perm].
  rewrite (walk_from kind sort_column id_column query descending Hids Hcols _ _ 0); [done|done| |].
  - by apply (paginate_first kind sort_column id_column query descending).
  - rewrite display_length by done. lia.
Qed.

(** ** A concrete codec and list, for the witnesses *)

Definition text_cursors : CursorText.
Proof.
  refine {| isoformat t := text_encode t; fromisoformat s := Aware <$> text_decode s;
            b64_json j := text_encode j; json_b64 s := text_decode s |}.
  - intros t. by rewrite text_decode_encode.
  - intros j. by rewrite text_decode_encode.
Defined.

(** Three rows, two of them with the same time stamp. *)
Definition demo_rows : list (instant * uuid) := [(20, 2%N); (10, 1%N); (20, 3%N)].
Definition demo_sort (r : instant * uuid) : SortValue := VDatetime (Aware r.1).

Lemma demo_rows_ok :
  NoDup (snd <$> demo_rows) ∧ ∀ r, r ∈ demo_rows → column_ok KDatetime (demo_sort r) ∧ uuid_ok r.2.
Proof.
  split; [by apply (bool_decide_unpack _); vm_compute|]. intros r Hr.
  repeat (apply elem_of_cons in Hr as [->|Hr]; [by vm_compute|]). set_solver.
Qed.

Lemma pages_are_slices_witness :
  let sorted := order_by KDatetime demo_sort snd true demo_rows in
  let cur := @row_cursor text_cursors _ demo_sort snd in
  let fetch := λ params, @paginate_by_cursor text_cursors _ KDatetime demo_sort snd demo_rows params true in
  sorted = [(20, 3%N); (20, 2%N); (10, 1%N)] ∧
  (items <$> (match fetch (mkParams None "next" 2) with inr p => Some p | _ => None end))
    = Some [(20, 3%N); (20, 2%N)] ∧
  (fetch (mkParams None "next" 2) = inr (spec_page cur sorted 0 2) ∧
   ∀ i r, sorted !! i = Some r →
     fetch (mkParams (Some (cur r)) "next" 2) = inr (spec_page cur sorted (S i) 2) ∧
     fetch (mkParams (Some (cur r)) "prev" 2) = inr (spec_page cur sorted (i - 2) (i - (i - 2)))).
Proof.
  intros sorted cur fetch. split; [by vm_compute|]. split; [by vm_compute|].
  apply (@pages_are_slices text_cursors _ KDatetime demo_sort snd demo_rows true 2); [apply demo_rows_ok..|done].
Defined.

Lemma walk_reads_everything_once_witness :
  @walk text_cursors _ KDatetime demo_sort snd demo_rows true 4 (mkParams None "next" 2) =
    order_by KDatetime demo_sort snd true demo_rows ∧
  order_by KDatetime demo_sort snd true demo_rows ≡ₚ demo_rows.
Proof.
  apply (@walk_reads_everything_once text_cursors _ KDatetime demo_sort snd demo_rows true 2);
    [apply demo_rows_ok..|done].
Defined.
