(* ===== verification/Redis.v ===== *)
(** The Redis server as the program uses it ([app/core/redis_client.py]): an
    interface with the documented meaning of each command, and a world for
    the computations that talk to it, in which other clients act and the
    network fails between any two round trips.

    Instants are [time.time()] values ([Codecs.v]); server and clients share
    one clock. *)
From S2P Require Import Prelude PyText Codecs.
From stdpp Require Import sorting.
Local Open Scope string_scope.
Local Open Scope Z_scope.
Local Open Scope list_scope.

(** ** Abstract state *)

Inductive rvalue :=
  | RStr (s : string)
  | RHash (h : gmap string string)
  | RZset (z : gmap string Z)
  | RList (l : list string).

(** Values with their expiry instants, and for each key the number of writes
    it has seen, which is what [WATCH] observes. *)
Record Store := mkStore {
  kv : gmap string (rvalue * option time);
  writes : gmap string nat }.

Definition empty_store : Store := mkStore ∅ ∅.

(** The live entry of a key. *)
Definition entry (s : Store) (now : time) (k : string) : option (rvalue * option time) :=
  e ← kv s !! k;
  match e.2 with
  | Some d => if bool_decide (now < d) then Some e else None
  | None => Some e
  end.
Definition live (s : Store) (now : time) (k : string) : option rvalue := fst <$> entry s now k.
Definition version (s : Store) (k : string) : nat := default 0%nat (writes s !! k).

Definition live_hash (s : Store) (now : time) (k : string) : gmap string string :=
  match live s now k with Some (RHash h) => h | _ => ∅ end.
Definition live_zset (s : Store) (now : time) (k : string) : gmap string Z :=
  match live s now k with Some (RZset z) => z | _ => ∅ end.
Definition live_list (s : Store) (now : time) (k : string) : list string :=
  match live s now k with Some (RList l) => l | _ => [] end.
Definition live_str (s : Store) (now : time) (k : string) : option string :=
  match live s now k with Some (RStr v) => Some v | _ => None end.

(** Write (or, with [None], remove) the entry of a key. *)
Definition put (k : string) (e : option (rvalue * option time)) (s : Store) : Store :=
  mkStore (match e with Some e => <[k := e]> (kv s) | None => delete k (kv s) end)
          (<[k := S (version s k)]> (writes s)).

Arguments put : simpl never.

(** The value of a key changes and its time to live stays; containers that
    become empty are removed. *)
Definition update_value (now : time) (k : string) (v : option rvalue) (s : Store) : Store :=
  put k (v ← v; Some (v, entry s now k ≫= snd)) s.

(** Read commands; [None] is the [WRONGTYPE] error. *)
Definition HGETALL (now : time) (k : string) (s : Store) : option (gmap string string) :=
  match live s now k with Some (RHash h) => Some h | None => Some ∅ | _ => None end.
Definition GET (now : time) (k : string) (s : Store) : option (option string) :=
  match live s now k with Some (RStr v) => Some (Some v) | None => Some None | _ => None end.
Definition EXISTS (now : time) (k : string) (s : Store) : option bool :=
  Some (bool_decide (is_Some (live s now k))).

Definition nonempty_zset (z : gmap string Z) : option rvalue :=
  if bool_decide (z = ∅) then None else Some (RZset z).
Definition nonempty_list (l : list string) : option rvalue :=
  match l with [] => None | _ => Some (RList l) end.

(** The members of a sorted set, by score and then by name. *)
Definition zle (p q : string * Z) : Prop := p.2 < q.2 ∨ (p.2 = q.2 ∧ String.leb p.1 q.1 = true).
#[global] Instance zle_dec p q : Decision (zle p q).
Proof. unfold zle. apply _. Defined.
Definition zmembers (z : gmap string Z) : list (string * Z) := merge_sort zle (map_to_list z).

Definition ZRANGE (now : time) (k : string) (s : Store) : option (list (string * Z)) :=
  match live s now k with Some (RZset z) => Some (zmembers z) | None => Some [] | _ => None end.
Definition LRANGE (now : time) (k : string) (s : Store) : option (list string) :=
  match live s now k with Some (RList l) => Some l | None => Some [] | _ => None end.

(** ** Commands *)

Inductive Cmd :=
  | HSET (k : string) (mapping : gmap string string)
  | EXPIRE (k : string) (seconds : Z)
  | SET (k v : string) (ex : Z)
  | SETNX (k v : string) (ex : Z)              (** SET k v NX EX ex *)
  | DEL (ks : list string)
  | ZADD (k : string) (members : gmap string Z)
  | ZADDXX (k : string) (member : string) (score : Z)
  | ZREM (k : string) (members : list string)
  | ZREMRANGEBYSCORE (k : string) (max : Z)    (** from -inf to max *)
  | ZKEEPTOP (k : string) (n : nat)            (** ZREMRANGEBYRANK k 0 -(n+1) *)
  | LPUSH (k v : string)
  | LTRIM (k : string) (n : nat).              (** LTRIM k 0 (n-1) *)

(** The effect of one command at an instant. *)
Definition run_cmd (now : time) (c : Cmd) (s : Store) : Store :=
  match c with
  | HSET k m => update_value now k (Some (RHash (m ∪ live_hash s now k))) s
  | EXPIRE k n =>
      match entry s now k with
      | Some (v, _) => put k (Some (v, Some (now + secs n))) s
      | None => s
      end
  | SET k v ex => put k (Some (RStr v, Some (now + secs ex))) s
  | SETNX k v ex =>
      match live s now k with
      | Some _ => s
      | None => put k (Some (RStr v, Some (now + secs ex))) s
      end
  | DEL ks => foldr (λ k s, match entry s now k with Some _ => put k None s | None => s end) s ks
  | ZADD k m => update_value now k (Some (RZset (m ∪ live_zset s now k))) s
  | ZADDXX k x n =>
      match live_zset s now k !! x with
      | Some _ => update_value now k (Some (RZset (<[x := n]> (live_zset s now k)))) s
      | None => s
      end
  | ZREM k xs =>
      match live s now k with
      | Some _ => update_value now k (nonempty_zset (foldr delete (live_zset s now k) xs)) s
      | None => s
      end
  | ZREMRANGEBYSCORE k mx =>
      match live s now k with
      | Some _ => update_value now k (nonempty_zset (filter (λ p, ¬ p.2 ≤ mx) (live_zset s now k))) s
      | None => s
      end
  | ZKEEPTOP k n =>
      match live s now k with
      | Some _ =>
          let z := zmembers (live_zset s now k) in
          update_value now k (nonempty_zset (list_to_map (drop (length z - n) z))) s
      | None => s
      end
  | LPUSH k v => update_value now k (Some (RList (v :: live_list s now k))) s
  | LTRIM k n =>
      match live s now k with
      | Some _ => update_value now k (nonempty_list (take n (live_list s now k))) s
      | None => s
      end
  end.

Definition run_cmds (now : time) (cs : list Cmd) (s : Store) : Store :=
  fold_left (λ s c, run_cmd now c s) cs s.

(** ** The interface *)

(** A Redis server with states [St]: all it promises is that its state stands
    for a [Store] and that a (transactional) pipeline acts on it as documented. *)
Class Redis (St : Type) := {
  view : St → Store;
  pipeline : time → list Cmd → St → St;
  view_pipeline now cs st : view (pipeline now cs st) = run_cmds now cs (view st) }.

(** The model of a server by its documentation. *)
#[export] Instance store_redis : Redis Store := {
  view s := s;
  pipeline := run_cmds;
  view_pipeline now cs s := eq_refl }.

(** ** Computations *)

(** What the network does to a round trip: it works, it fails before the
    server has acted, or the reply is lost after it has. *)
Inductive Network := Fine | Lost | ReplyLost.

#[global] Instance Network_eq_dec : EqDecision Network.
Proof. solve_decision. Defined.

(** What happens around a round trip: the commands other clients execute
    before it, and its fate. *)
Record Turn := mkTurn { others : list (time * Cmd); fate : Network }.

(** For the theorems only: what others and this client make of the store. *)
Inductive Event := Others (before after : Store) | Own (before after : Store).

(** The server, the next turns (quiet ones when the list is exhausted) and, for
    the theorems, the history so far. *)
Record RWorld (St : Type) := mkRWorldAfter { redis : St; turns : list Turn; history : list Event }.
Arguments mkRWorldAfter {_}.
Arguments redis {_}.
Arguments turns {_}.
Arguments history {_}.

Definition mkRWorld {St} (st : St) (ts : list Turn) : RWorld St := mkRWorldAfter st ts [].

(** [RedisError] of the client library. *)
Definition redis_error : exn := PyError "RedisError".

Section computations.
Context `{Redis St}.

Definition run_others (cs : list (time * Cmd)) (st : St) : St :=
  foldl (λ st c, pipeline c.1 [c.2] st) st cs.

(** The turn of this client: the others act, then [body]. *)
Definition take_turn {A} (body : Network → St → (exn + A) * St) : M (RWorld St) A := λ w,
  let turn := default (mkTurn [] Fine) (head (turns w)) in
  let found := run_others (others turn) (redis w) in
  let '(r, st) := body (fate turn) found in
  (r, mkRWorldAfter st (tail (turns w)) (history w ++ [Others (view (redis w)) (view found); Own (view found) (view st)])).

(** One round trip that reads [f] and then executes [cs] atomically. *)
Definition round_trip {A} (now : time) (f : Store → option A) (cs : list Cmd) : M (RWorld St) A :=
  take_turn (λ net st,
    match net with
    | Fine => (match f (view st) with Some a => inr a | None => inl redis_error end, pipeline now cs st)
    | Lost => (inl redis_error, st)
    | ReplyLost => (inl redis_error, pipeline now cs st)
    end).

Definition query {A} (now : time) (f : Store → option A) : M (RWorld St) A := round_trip now f [].
Definition execute (now : time) (cs : list Cmd) : M (RWorld St) unit := round_trip now (λ _, Some tt) cs.

(** [MULTI .. EXEC] with a key watched since it had version [v]; [false] is
    [WatchError]. *)
Definition execute_watched (now : time) (k : string) (v : nat) (cs : list Cmd) : M (RWorld St) bool :=
  take_turn (λ net st,
    let unchanged := bool_decide (version (view st) k = v) in
    let st' := if unchanged then pipeline now cs st else st in
    match net with
    | Fine => (inr unchanged, st')
    | Lost => (inl redis_error, st)
    | ReplyLost => (inl redis_error, st')
    end).

(** [except RedisError: raise e] *)
Definition on_redis_error {A} (e : exn) (m : M (RWorld St) A) : M (RWorld St) A :=
  try_except m (λ x, raise (if bool_decide (x = redis_error) then e else x)).
End computations.
