(* ===== verification/RedisLaws.v ===== *)
(** Laws of the Redis model [Redis.v]: commands touch only their keys, the
    version of a key tells whether it was written, and what the commands the
    program batches leave at a key. *)
From S2P Require Import Prelude PyText Codecs Redis.
Local Open Scope string_scope.
Local Open Scope Z_scope.
Local Open Scope list_scope.

(** The keys a command may write. *)
Definition cmd_keys (c : Cmd) : list string :=
  match c with
  | HSET k _ | EXPIRE k _ | SET k _ _ | SETNX k _ _ | ZADD k _ | ZADDXX k _ _ | ZREM k _
  | ZREMRANGEBYSCORE k _ | ZKEEPTOP k _ | LPUSH k _ | LTRIM k _ => [k]
  | DEL ks => ks
  end.

(** ** Versions *)

(** From [s] to [s'] the key [k] was not written unless its version grew. *)
Definition guarded (k : string) (s s' : Store) : Prop :=
  (version s k ≤ version s' k)%nat ∧ (version s' k = version s k → kv s' !! k = kv s !! k).

#[global] Instance guarded_preorder k : PreOrder (guarded k).
Proof.
  split; [done|]. intros a b c [Hab Eab] [Hbc Ebc]. split; [lia|].
  intros E. rewrite Ebc, Eab by lia. done.
Qed.

Lemma put_guarded k k' e s : guarded k s (put k' e s).
Proof.
  unfold guarded, version, put. simpl. destruct (decide (k = k')) as [->|Hk].
  - rewrite lookup_insert_eq. simpl. unfold version. split; [lia|]. intros ?. lia.
  - rewrite lookup_insert_ne by done. split; [done|]. intros _.
    destruct e; by rewrite ?lookup_insert_ne, ?lookup_delete_ne by done.
Qed.

Lemma put_other k k' e s : k ≠ k' → kv (put k' e s) !! k = kv s !! k.
Proof. intros Hk. unfold put. destruct e; simpl; by rewrite ?lookup_insert_ne, ?lookup_delete_ne by done. Qed.

Lemma put_here k e s : kv (put k e s) !! k = e.
Proof. unfold put. destruct e; simpl; by rewrite ?lookup_insert_eq, ?lookup_delete_eq. Qed.

Lemma del_guarded now k ks s :
  guarded k s (foldr (λ k s, match entry s now k with Some _ => put k None s | None => s end) s ks).
Proof.
  induction ks as [|k' ks IH]; simpl; [done|]. case_match; [|done].
  etrans; [exact IH|apply put_guarded].
Qed.

Lemma run_cmd_guarded now c k s : guarded k s (run_cmd now c s).
Proof.
  destruct c; simpl; unfold update_value; repeat case_match; try done; try apply put_guarded.
  apply del_guarded.
Qed.

Lemma run_cmds_guarded now cs k s : guarded k s (run_cmds now cs s).
Proof.
  revert s. induction cs as [|c cs IH]; intros s; simpl; [done|].
  etrans; [apply run_cmd_guarded|apply IH].
Qed.

Lemma del_other now k ks s : k ∉ ks →
  kv (foldr (λ k s, match entry s now k with Some _ => put k None s | None => s end) s ks) !! k = kv s !! k.
Proof.
  induction ks as [|k' ks IH]; simpl; [done|]. intros Hk. apply not_elem_of_cons in Hk as [Hk Hks].
  case_match; [rewrite put_other by done|]; auto.
Qed.

Lemma run_cmd_other now c k s : k ∉ cmd_keys c → kv (run_cmd now c s) !! k = kv s !! k.
Proof.
  destruct c; cbn [run_cmd cmd_keys]; intros Hk; try apply not_elem_of_cons in Hk as [Hk _];
    unfold update_value; repeat case_match; try done; try (by apply put_other).
  by apply del_other.
Qed.

Lemma run_cmds_other now cs k s :
  (∀ c, c ∈ cs → k ∉ cmd_keys c) → kv (run_cmds now cs s) !! k = kv s !! k.
Proof.
  revert s. induction cs as [|c cs IH]; intros s Hk; simpl; [done|].
  rewrite IH by (intros c' Hc'; apply Hk; by right).
  apply run_cmd_other, Hk. left.
Qed.

(** Commands on keys that differ from a given one (by computation or by an
    assumption). *)
Ltac keys_apart :=
  let c := fresh in let Hc := fresh in
  intros c Hc;
  repeat (apply elem_of_cons in Hc as [->|Hc];
          [cbn [cmd_keys]; rewrite ?not_elem_of_cons; repeat split;
           first [discriminate | assumption | apply not_elem_of_nil | congruence | done]|]);
  by apply elem_of_nil in Hc.

Lemma run_cmds_app now cs cs' s : run_cmds now (cs ++ cs') s = run_cmds now cs' (run_cmds now cs s).
Proof. apply fold_left_app. Qed.

Lemma run_cmds_cons now c cs s : run_cmds now (c :: cs) s = run_cmds now cs (run_cmd now c s).
Proof. done. Qed.

(** What a key holds depends on its entry only. *)
Lemma entry_kv s s' now k : kv s !! k = kv s' !! k → entry s now k = entry s' now k.
Proof. unfold entry. by intros ->. Qed.
Lemma live_kv s s' now k : kv s !! k = kv s' !! k → live s now k = live s' now k.
Proof. intros E. unfold live. by rewrite (entry_kv s s'). Qed.
Lemma HGETALL_kv s s' now k : kv s !! k = kv s' !! k → HGETALL now k s = HGETALL now k s'.
Proof. intros E. unfold HGETALL. by rewrite (live_kv s s'). Qed.

Lemma entry_Some s now k v d :
  entry s now k = Some (v, d) ↔ kv s !! k = Some (v, d) ∧ (∀ t, d = Some t → now < t).
Proof.
  unfold entry. destruct (kv s !! k) as [[v' d']|]; simpl; [|naive_solver].
  destruct d' as [t|]; [case_bool_decide|]; naive_solver.
Qed.

Lemma live_Some s now k v :
  live s now k = Some v ↔ ∃ d, kv s !! k = Some (v, d) ∧ (∀ t, d = Some t → now < t).
Proof.
  unfold live. destruct (entry s now k) as [[v' d']|] eqn:E; simpl.
  - apply entry_Some in E as [E Ht]. split; [intros [= ->]; eauto|].
    intros (d & E' & _). rewrite E in E'. by injection E' as -> ->.
  - split; [done|]. intros (d & E' & Ht).
    assert (entry s now k = Some (v, d)) by by apply entry_Some. congruence.
Qed.

(** ** Batches *)

(** A hash written and given a time to live. *)
Lemma hset_expire now k m ttl s :
  kv (run_cmds now [HSET k m; EXPIRE k ttl] s) !! k =
    Some (RHash (m ∪ live_hash s now k), Some (now + secs ttl)).
Proof.
  simpl. set (s1 := update_value now k _ s).
  assert (kv s1 !! k = Some (RHash (m ∪ live_hash s now k), entry s now k ≫= snd)) as E1.
  { unfold s1, update_value. by rewrite put_here. }
  assert (entry s1 now k = Some (RHash (m ∪ live_hash s now k), entry s now k ≫= snd)) as E2.
  { apply entry_Some. split; [done|]. intros t Hd.
    destruct (entry s now k) as [[v d]|] eqn:E; [|done]. simpl in Hd. subst d.
    apply entry_Some in E as [_ Hlt]. auto. }
  rewrite E2, put_here. done.
Qed.

(** ** Turns *)

(** What the commands of other clients make of a store. *)
Definition interfere (cs : list (time * Cmd)) (s : Store) : Store :=
  foldl (λ s c, run_cmd c.1 c.2 s) s cs.

Lemma interfere_app cs cs' s : interfere (cs ++ cs') s = interfere cs' (interfere cs s).
Proof. apply foldl_app. Qed.

Lemma interfere_guarded k cs s : guarded k s (interfere cs s).
Proof.
  revert s. induction cs as [|[now c] cs IH]; intros s; simpl; [done|].
  etrans; [apply run_cmd_guarded|apply IH].
Qed.

(** The commands of the others before the first of these turns. *)
Definition now_others (ts : list Turn) : list (time * Cmd) := default [] (others <$> head ts).

Section turns.
Context `{Redis St}.

Lemma view_run_others cs (st : St) : view (run_others cs st) = interfere cs (view st).
Proof.
  revert st. induction cs as [|[now c] cs IH]; intros st; simpl; [done|].
  rewrite IH, view_pipeline. done.
Qed.

Lemma take_turn_inv {A} (body : Network → St → (exn + A) * St) w r w' :
  take_turn body w = (r, w') →
  ∃ net st, view st = interfere (now_others (turns w)) (view (redis w)) ∧
    turns w' = tail (turns w) ∧ body net st = (r, redis w').
Proof.
  unfold take_turn, now_others. intros E.
  set (turn := default (mkTurn [] Fine) (head (turns w))) in E.
  exists (fate turn), (run_others (others turn) (redis w)).
  destruct (body _ _) as [r1 st1] eqn:Eb. injection E as <- <-. split_and!; [|done|done].
  rewrite view_run_others. unfold turn. by destruct (turns w).
Qed.

(** A round trip that returned: it read [f] and executed [cs]. *)
Lemma round_trip_inv {A} now (f : Store → option A) cs w a w' :
  round_trip now f cs w = (inr a, w') →
  let s := interfere (now_others (turns w)) (view (redis w)) in
  f s = Some a ∧ view (redis w') = run_cmds now cs s ∧ turns w' = tail (turns w).
Proof.
  unfold round_trip. intros (net & st & Hs & Ht & E)%take_turn_inv. simpl. rewrite <- Hs.
  destruct net; [|done|done]. injection E as Ea Est. rewrite <- Est, view_pipeline.
  destruct (f (view st)); by simplify_eq.
Qed.

Lemma query_inv {A} now (f : Store → option A) w a w' :
  query now f w = (inr a, w') →
  view (redis w') = interfere (now_others (turns w)) (view (redis w)) ∧
  f (view (redis w')) = Some a ∧ turns w' = tail (turns w).
Proof.
  intros (Ha & Hv & Ht)%round_trip_inv. simpl in *. by rewrite Hv.
Qed.

Lemma execute_watched_inv now k v cs w b w' :
  execute_watched now k v cs w = (inr b, w') →
  let s := interfere (now_others (turns w)) (view (redis w)) in
  b = bool_decide (version s k = v) ∧ turns w' = tail (turns w) ∧
  view (redis w') = if b then run_cmds now cs s else s.
Proof.
  unfold execute_watched. intros (net & st & Hs & Ht & E)%take_turn_inv. simpl. rewrite <- Hs.
  destruct net; [|done|done]. injection E as <- Est. rewrite <- Est.
  case_bool_decide; by rewrite ?view_pipeline.
Qed.

Lemma on_redis_error_inv {A} e (m : M (RWorld St) A) w a w' :
  on_redis_error e m w = (inr a, w') → m w = (inr a, w').
Proof.
  unfold on_redis_error, try_except, raise. destruct (m w) as [[x|y] w1]; congruence.
Qed.

(** Without other clients and network failures. *)
Definition quiet (w : RWorld St) (s : Store) : Prop := turns w = [] ∧ view (redis w) = s.

Lemma quiet_round_trip {A} now (f : Store → option A) cs w s a :
  quiet w s → f s = Some a →
  ∃ w', round_trip now f cs w = (inr a, w') ∧ quiet w' (run_cmds now cs s).
Proof.
  intros [Ht Hv] Hf. unfold round_trip, take_turn. rewrite Ht. simpl. rewrite Hv, Hf.
  eexists. split; [done|]. split; [done|]. simpl. by rewrite view_pipeline, Hv.
Qed.

Lemma quiet_query_bind {A B} now (f : Store → option A) (k : A → M (RWorld St) B) w s a :
  quiet w s → f s = Some a → ∃ w', quiet w' s ∧ (query now f ≫= k) w = k a w'.
Proof.
  intros Hq Hf. destruct (quiet_round_trip now f [] w s a Hq Hf) as (w' & E & Hq').
  exists w'. split; [done|]. unfold query, mbind, M_bind. by rewrite E.
Qed.

Lemma quiet_execute_bind {B} now cs (k : unit → M (RWorld St) B) w s :
  quiet w s → ∃ w', quiet w' (run_cmds now cs s) ∧ (execute now cs ≫= k) w = k tt w'.
Proof.
  intros Hq. destruct (quiet_round_trip now (λ _, Some tt) cs w s tt Hq eq_refl) as (w' & E & Hq').
  exists w'. split; [done|]. unfold execute, mbind, M_bind. by rewrite E.
Qed.
End turns.

(** ** Invariants kept by computations *)

(** [I] holds of the store as long as everybody uses commands that are [ok]. *)
Section invariants.
Context `{Redis St} (I : Store → Prop) (ok : Cmd → Prop).
Context (Hok : ∀ now c s, I s → ok c → I (run_cmd now c s)).

(** The other clients play by the rules. *)
Definition rely (w : RWorld St) : Prop := ∀ t c, t ∈ turns w → c ∈ others t → ok c.2.

Definition keeps {A} (m : M (RWorld St) A) : Prop :=
  ∀ w r w', I (view (redis w)) → rely w → m w = (r, w') → I (view (redis w')) ∧ rely w'.

Lemma keeps_run_cmds now cs s : I s → (∀ c, c ∈ cs → ok c) → I (run_cmds now cs s).
Proof.
  revert s. induction cs as [|c cs IH]; intros s Hs Hc; [done|]. rewrite run_cmds_cons.
  apply IH; [|intros c' Hc'; apply Hc; by right]. apply Hok, Hc; [done|left].
Qed.

Lemma keeps_interfere cs s : I s → (∀ c, c ∈ cs → ok c.2) → I (interfere cs s).
Proof.
  revert s. induction cs as [|c cs IH]; intros s Hs Hc; simpl; [done|].
  apply IH; [|intros c' Hc'; apply Hc; by right]. apply Hok, Hc; [done|left].
Qed.

Lemma keeps_mret {A} (a : A) : keeps (mret a).
Proof. by intros w r w' HI Hr [= <- <-]. Qed.

Lemma keeps_raise {A} e : keeps (raise (A:=A) e).
Proof. by intros w r w' HI Hr [= <- <-]. Qed.

Lemma keeps_bind {A B} (m : M (RWorld St) A) (f : A → M (RWorld St) B) :
  keeps m → (∀ a, keeps (f a)) → keeps (m ≫= f).
Proof.
  intros Hm Hf w r w' HI Hr [(e & E & _)|(a & w1 & E & E')]%bind_inv.
  - by eapply Hm.
  - destruct (Hm _ _ _ HI Hr E) as [HI1 Hr1]. by eapply Hf.
Qed.

Lemma keeps_try {A} (m : M (RWorld St) A) h : keeps m → (∀ e, keeps (h e)) → keeps (try_except m h).
Proof.
  intros Hm Hh w r w' HI Hr E. unfold try_except in E.
  destruct (m w) as [[e|a] w1] eqn:Em.
  - destruct (Hm _ _ _ HI Hr Em) as [HI1 Hr1]. by eapply Hh.
  - injection E as <- <-. by eapply Hm.
Qed.

Lemma keeps_round_trip {A} now (f : Store → option A) cs : (∀ c, c ∈ cs → ok c) → keeps (round_trip now f cs).
Proof.
  intros Hc w r w' HI Hr E. unfold round_trip in E. apply take_turn_inv in E as (net & st & Hs & Ht & E).
  assert (I (view st)) as HI1.
  { rewrite Hs. apply keeps_interfere; [done|]. unfold now_others. intros c Hin.
    destruct (turns w) as [|t ts] eqn:Et; [by apply elem_of_nil in Hin|].
    apply (Hr t); [rewrite Et; left|done]. }
  split.
  - destruct net; [| |]; injection E as _ <-; rewrite ?view_pipeline; try apply keeps_run_cmds; done.
  - intros t c Hin. apply Hr. rewrite Ht in Hin. destruct (turns w); [done|by right].
Qed.
End invariants.

(** ** Guarantees *)

(** What a computation adds to the history; it guarantees [G] when each of its
    own transitions is one of [G], whatever the others do, if [P] holds of the
    store at its beginning. *)
Section guarantees.
Context `{Redis St}.

Definition guar (G : Store → Store → Prop) (P : Store → Prop) {A} (m : M (RWorld St) A) : Prop :=
  ∀ w r w', m w = (r, w') → ∃ h, history w' = history w ++ h ∧
    (P (view (redis w)) → ∀ a b, Own a b ∈ h → G a b).

(** The others cannot falsify [P]. *)
Definition unaffected (P : Store → Prop) : Prop := ∀ cs s, P s → P (interfere cs s).

Lemma guar_weaken G (P P' : Store → Prop) {A} (m : M (RWorld St) A) : (∀ s, P s → P' s) → guar G P' m → guar G P m.
Proof. intros HP Hm w r w' E. destruct (Hm _ _ _ E) as (h & Eh & Hh). exists h. split; [done|]. auto. Qed.

Lemma guar_mret G P {A} (x : A) : guar G P (mret (M:=M (RWorld St)) x).
Proof. intros w r w' [= <- <-]. exists []. rewrite app_nil_r. split; [done|]. by intros _ a b ?%elem_of_nil. Qed.

Lemma guar_raise G P {A} e : guar G P (raise (W:=RWorld St) (A:=A) e).
Proof. intros w r w' [= <- <-]. exists []. rewrite app_nil_r. split; [done|]. by intros _ a b ?%elem_of_nil. Qed.

Lemma own_app h1 h2 a b : Own a b ∈ h1 ++ h2 ↔ Own a b ∈ h1 ∨ Own a b ∈ h2.
Proof. apply elem_of_app. Qed.

Lemma guar_bind G {A B} (m : M (RWorld St) A) (f : A → M (RWorld St) B) :
  guar G (λ _, True) m → (∀ x, guar G (λ _, True) (f x)) → guar G (λ _, True) (m ≫= f).
Proof.
  intros Hm Hf w r w' [(e & E & ->)|(x & w1 & E & E')]%bind_inv.
  - destruct (Hm _ _ _ E) as (h & Eh & Hh). exists h. auto.
  - destruct (Hm _ _ _ E) as (h & Eh & Hh), (Hf x _ _ _ E') as (h' & Eh' & Hh'). exists (h ++ h').
    split; [by rewrite Eh', Eh, app_assoc|]. intros _ a b [Hab|Hab]%own_app; auto.
Qed.

Lemma guar_try G P {A} (m : M (RWorld St) A) hd : guar G P m → (∀ e, guar G (λ _, True) (hd e)) → guar G P (try_except m hd).
Proof.
  intros Hm Hh w r w' E. unfold try_except in E. destruct (m w) as [[e|x] w1] eqn:Em.
  - destruct (Hm _ _ _ Em) as (h1 & Eh & Hg), (Hh e _ _ _ E) as (h' & Eh' & Hg'). exists (h1 ++ h').
    split; [by rewrite Eh', Eh, app_assoc|]. intros HP a b [Hab|Hab]%own_app; auto.
  - injection E as <- <-. by apply (Hm w (inr x)).
Qed.

Lemma guar_on_redis_error G P {A} e (m : M (RWorld St) A) : guar G P m → guar G P (on_redis_error e m).
Proof. intros Hm. apply guar_try; [done|]. intros x. apply guar_raise. Qed.

Lemma take_turn_history {A} (body : Network → St → (exn + A) * St) w r w' :
  take_turn body w = (r, w') →
  ∃ st, view st = interfere (now_others (turns w)) (view (redis w)) ∧
    history w' = history w ++ [Others (view (redis w)) (view st); Own (view st) (view (redis w'))].
Proof.
  unfold take_turn, now_others. intros E. set (turn := default (mkTurn [] Fine) (head (turns w))) in E.
  exists (run_others (others turn) (redis w)). split; [rewrite view_run_others; unfold turn; by destruct (turns w)|].
  destruct (body _ _) as [r1 st1]. by injection E as <- <-.
Qed.

Lemma guar_turn G P {A} (body : Network → St → (exn + A) * St) :
  unaffected P → (∀ net st, P (view st) → G (view st) (view (body net st).2)) → guar G P (take_turn body).
Proof.
  intros Hu Hb w r w' E. destruct (take_turn_history _ _ _ _ E) as (st & Est & Eh).
  destruct (take_turn_inv _ _ _ _ E) as (net & st' & Est' & _ & Eb). eexists. split; [exact Eh|]. intros HP a b Hab.
  rewrite !elem_of_cons, elem_of_nil in Hab. destruct Hab as [|[[= -> ->]|[]]]; [done|].
  assert (P (view st')) as HP' by (rewrite Est'; by apply Hu). rewrite Est, <- Est'. specialize (Hb net st' HP').
  by rewrite Eb in Hb.
Qed.

Lemma guar_round_trip G P {A} now (f : Store → option A) cs :
  unaffected P → (∀ s, P s → G s s) → (∀ s, P s → G s (run_cmds now cs s)) → guar G P (round_trip now f cs).
Proof.
  intros Hu Hr Hc. apply guar_turn; [done|]. intros [| |] st HP; cbn [snd]; rewrite ?view_pipeline; auto.
Qed.

Lemma unaffected_true : unaffected (λ _, True).
Proof. by intros cs s. Qed.

Lemma guar_query G {A} now (f : Store → option A) : (∀ s, G s s) → guar G (λ _, True) (query now f).
Proof. intros Hr. apply guar_round_trip; [apply unaffected_true|auto..]. Qed.

Lemma guar_execute G now cs : (∀ s, G s s) → (∀ s, G s (run_cmds now cs s)) → guar G (λ _, True) (execute now cs).
Proof. intros Hr Hc. apply guar_round_trip; [apply unaffected_true|auto..]. Qed.

(** What was read at [s] is known afterwards. *)
Lemma guar_query_bind G P {A B} now (f : Store → option A) (k : A → M (RWorld St) B) :
  unaffected P → (∀ s, G s s) →
  (∀ s x, P s → f s = Some x → ∃ Q, Q s ∧ guar G Q (k x)) → (∀ x, guar G (λ _, False) (k x)) →
  guar G P (query now f ≫= k).
Proof.
  intros Hu Hr Hk Hk' w r w' [(e & E & ->)|(x & w1 & E & E')]%bind_inv.
  - apply (guar_round_trip G P now f [] Hu ltac:(auto) ltac:(auto) w (inl e) w' E).
  - destruct (query_inv _ _ _ _ _ E) as (V & Hf & _).
    destruct (guar_round_trip G P now f [] Hu ltac:(auto) ltac:(auto) w (inr x) w1 E) as (h & Eh & Hh).
    destruct (Hk' x _ _ _ E') as (h' & Eh' & _). exists (h ++ h'). split; [by rewrite Eh', Eh, app_assoc|].
    intros HP a b [Hab|Hab]%own_app; [auto|].
    destruct (Hk (view (redis w1)) x) as (Q & HQ & Hg); [rewrite V; by apply Hu|done|].
    destruct (Hg _ _ _ E') as (h2 & Eh2 & Hh2). rewrite Eh' in Eh2. apply app_inv_head in Eh2 as <-. by apply Hh2.
Qed.

Lemma guar_execute_watched G P now k v cs :
  unaffected P → (∀ s, P s → G s s) → (∀ s, P s → version s k = v → G s (run_cmds now cs s)) →
  guar G P (execute_watched now k v cs).
Proof.
  intros Hu Hr Hc. apply guar_turn; [done|]. intros [| |] st HP; cbn [snd]; try case_bool_decide; rewrite ?view_pipeline; auto.
Qed.

(** A computation without round trips. *)
Definition offline {A} (m : M (RWorld St) A) : Prop := ∀ w, (m w).2 = w.

Lemma guar_offline G P {A} (m : M (RWorld St) A) : offline m → guar G P m.
Proof.
  intros Hm w r w' E. specialize (Hm w). rewrite E in Hm. cbn in Hm. subst w'. exists []. rewrite app_nil_r.
  split; [done|]. by intros _ a b ?%elem_of_nil.
Qed.

Lemma guar_offline_bind G P {A B} (m : M (RWorld St) A) (f : A → M (RWorld St) B) :
  offline m → (∀ x, guar G P (f x)) → guar G P (m ≫= f).
Proof.
  intros Hm Hf w r w' [(e & E & ->)|(x & w1 & E & E')]%bind_inv.
  - by apply (guar_offline G P m Hm w (inl e)).
  - specialize (Hm w). rewrite E in Hm. cbn in Hm. subst w1. exact (Hf x w r w' E').
Qed.

(** The history grows anyway. *)
Lemma guar_extends G {A} (m : M (RWorld St) A) : guar (λ _ _, True) (λ _, True) m → guar G (λ _, False) m.
Proof. intros Hm w r w' E. destruct (Hm _ _ _ E) as (h & Eh & _). by exists h. Qed.
End guarantees.

(** ** Runs among others *)

(** A computation whose round trips all arrive, while the others change the
    store by transitions of [R]: from [P] it returns with [Q], and its own
    transitions are in [G]. *)
Section interleaved.
Context `{Redis St} (R G : Store → Store → Prop).

Definition fine (w : RWorld St) : Prop := Forall (λ t, fate t = Fine) (turns w).
Definition others_obey (h : list Event) : Prop := ∀ a b, Others a b ∈ h → R a b.
Definition own_obey (h : list Event) : Prop := ∀ a b, Own a b ∈ h → G a b.
Definition stable (P : Store → Prop) : Prop := ∀ a b, P a → R a b → P b.

Definition runs {A} (P : Store → Prop) (m : M (RWorld St) A) (Q : A → Store → Prop) : Prop :=
  ∀ w r w', m w = (r, w') → ∃ h, history w' = history w ++ h ∧
    (P (view (redis w)) → fine w → others_obey h →
     ∃ x, r = inr x ∧ Q x (view (redis w')) ∧ fine w' ∧ own_obey h).

(** The same, when [P] holds of the store its first round trip finds. *)
Definition runs_first {A} (P : Store → Prop) (m : M (RWorld St) A) (Q : A → Store → Prop) : Prop :=
  ∀ w r w', m w = (r, w') → ∃ h, history w' = history w ++ h ∧ h ≠ [] ∧
    (P (interfere (now_others (turns w)) (view (redis w))) → fine w → others_obey (tail h) →
     ∃ x, r = inr x ∧ Q x (view (redis w')) ∧ fine w' ∧ own_obey h).

Lemma others_app h1 h2 : others_obey (h1 ++ h2) ↔ others_obey h1 ∧ others_obey h2.
Proof. unfold others_obey. setoid_rewrite elem_of_app. naive_solver. Qed.
Lemma own_obey_app h1 h2 : own_obey h1 → own_obey h2 → own_obey (h1 ++ h2).
Proof. intros H1 H2 a b [Hab|Hab]%own_app; auto. Qed.

Lemma runs_mret {A} (P : Store → Prop) (x : A) (Q : A → Store → Prop) :
  (∀ s, P s → Q x s) → runs P (mret (M:=M (RWorld St)) x) Q.
Proof.
  intros HQ w r w' [= <- <-]. exists []. rewrite app_nil_r. split; [done|]. intros HP Hf _. exists x.
  split_and!; [done|auto|done|]. by intros a b ?%elem_of_nil.
Qed.

Lemma runs_bind {A B} P (m : M (RWorld St) A) Q (f : A → M (RWorld St) B) (Q' : B → Store → Prop) :
  runs P m Q → (∀ x, runs (Q x) (f x) Q') → runs P (m ≫= f) Q'.
Proof.
  intros Hm Hf w r w' [(e & E & ->)|(x & w1 & E & E')]%bind_inv.
  - destruct (Hm _ _ _ E) as (h & Eh & Hh). exists h. split; [done|]. intros HP Hfine Ho.
    destruct (Hh HP Hfine Ho) as (x & [=] & _).
  - destruct (Hm _ _ _ E) as (h & Eh & Hh), (Hf x _ _ _ E') as (h' & Eh' & Hh'). exists (h ++ h').
    split; [by rewrite Eh', Eh, app_assoc|]. intros HP Hfine [Ho Ho']%others_app.
    destruct (Hh HP Hfine Ho) as (y & [= <-] & HQ & Hf1 & Hown), (Hh' HQ Hf1 Ho') as (z & -> & HQ' & Hf2 & Hown').
    exists z. split_and!; [done..|by apply own_obey_app].
Qed.

Lemma first_bind {A B} P (m : M (RWorld St) A) Q (f : A → M (RWorld St) B) (Q' : B → Store → Prop) :
  runs_first P m Q → (∀ x, runs (Q x) (f x) Q') → runs_first P (m ≫= f) Q'.
Proof.
  intros Hm Hf w r w' [(e & E & ->)|(x & w1 & E & E')]%bind_inv.
  - destruct (Hm _ _ _ E) as (h & Eh & Hne & Hh). exists h. split; [done|]. split; [done|]. intros HP Hfine Ho.
    destruct (Hh HP Hfine Ho) as (x & [=] & _).
  - destruct (Hm _ _ _ E) as (h & Eh & Hne & Hh), (Hf x _ _ _ E') as (h' & Eh' & Hh'). exists (h ++ h').
    split; [by rewrite Eh', Eh, app_assoc|]. destruct h as [|e h]; [done|]. split; [done|]. cbn [app tail] in *.
    intros HP Hfine [Ho Ho']%others_app.
    destruct (Hh HP Hfine Ho) as (y & [= <-] & HQ & Hf1 & Hown), (Hh' HQ Hf1 Ho') as (z & -> & HQ' & Hf2 & Hown').
    exists z. split_and!; [done..|by apply (own_obey_app (e :: h))].
Qed.

Lemma runs_consequence {A} (P P' : Store → Prop) (m : M (RWorld St) A) (Q Q' : A → Store → Prop) :
  (∀ s, P' s → P s) → (∀ x s, Q x s → Q' x s) → runs P m Q → runs P' m Q'.
Proof.
  intros HP HQ Hm w r w' E. destruct (Hm _ _ _ E) as (h & Eh & Hh). exists h. split; [done|]. intros HP' Hf Ho.
  destruct (Hh (HP _ HP') Hf Ho) as (x & -> & ? & ? & ?). exists x. auto.
Qed.

Lemma runs_on_redis_error {A} P e (m : M (RWorld St) A) Q : runs P m Q → runs P (on_redis_error e m) Q.
Proof.
  intros Hm w r w' E. unfold on_redis_error, try_except in E. destruct (m w) as [[x|x] w1] eqn:Em.
  - destruct (Hm _ _ _ Em) as (h & Eh & Hh). exists h. injection E as <- <-. split; [done|]. intros HP Hf Ho.
    destruct (Hh HP Hf Ho) as (y & [=] & _).
  - injection E as <- <-. by apply Hm.
Qed.

Lemma first_on_redis_error {A} P e (m : M (RWorld St) A) Q : runs_first P m Q → runs_first P (on_redis_error e m) Q.
Proof.
  intros Hm w r w' E. unfold on_redis_error, try_except in E. destruct (m w) as [[x|x] w1] eqn:Em.
  - destruct (Hm _ _ _ Em) as (h & Eh & Hne & Hh). exists h. injection E as <- <-. split; [done|]. split; [done|].
    intros HP Hf Ho. destruct (Hh HP Hf Ho) as (y & [=] & _).
  - injection E as <- <-. by apply Hm.
Qed.

Lemma fine_turn {A} (body : Network → St → (exn + A) * St) w r w' :
  take_turn body w = (r, w') → fine w → ∃ st, view st = interfere (now_others (turns w)) (view (redis w)) ∧
    body Fine st = (r, redis w') ∧ fine w'.
Proof.
  unfold take_turn, now_others, fine. intros E Hf. set (turn := default (mkTurn [] Fine) (head (turns w))) in E.
  assert (fate turn = Fine) as Efate by (unfold turn; destruct Hf; [done|done]). rewrite Efate in E.
  exists (run_others (others turn) (redis w)). split; [rewrite view_run_others; unfold turn; by destruct (turns w)|].
  destruct (body _ _) as [r1 st1]. injection E as <- <-. split; [done|]. cbn. by destruct Hf.
Qed.

(** A round trip whose read cannot fail fails only with the network. *)
Lemma round_trip_total {A} now (f : Store → option A) cs w r w' x :
  f (interfere (now_others (turns w)) (view (redis w))) = Some x → round_trip now f cs w = (r, w') →
  r = inr x ∧ (fine w → fine w') ∨ r = inl redis_error ∧ ¬ fine w.
Proof.
  intros Hx E. unfold round_trip in E. destruct (take_turn_inv _ _ _ _ E) as (net & st & Est & _ & Eb).
  rewrite <- Est in Hx. destruct r as [e|y].
  - right. split; [destruct net; try rewrite Hx in Eb; congruence|]. intros Hf.
    destruct (fine_turn _ _ _ _ E Hf) as (st' & Est' & Eb' & _). rewrite Est', <- Est, Hx in Eb'. discriminate Eb'.
  - left. split; [destruct net; try rewrite Hx in Eb; congruence|]. intros Hf.
    by destruct (fine_turn _ _ _ _ E Hf) as (st' & _ & _ & Hf').
Qed.

(** A round trip that finds [P] and leaves [Q]. *)
Lemma first_round_trip {A} (P : Store → Prop) now (f : Store → option A) cs (Q : A → Store → Prop) :
  (∀ s, P s → ∃ x, f s = Some x ∧ Q x (run_cmds now cs s) ∧ G s (run_cmds now cs s)) → runs_first P (round_trip now f cs) Q.
Proof.
  intros HQ w r w' E. unfold round_trip in E. destruct (take_turn_history _ _ _ _ E) as (st & Est & Eh).
  exists [Others (view (redis w)) (view st); Own (view st) (view (redis w'))]. split; [exact Eh|]. split; [done|]. intros HP Hf _.
  destruct (fine_turn _ _ _ _ E Hf) as (st' & Est' & Eb & Hf'). destruct (HQ _ HP) as (x & Hx & HQx & HG).
  rewrite <- Est' in Hx, HQx, HG.
  rewrite Hx in Eb. injection Eb as <- Er. rewrite <- Er, view_pipeline.
  exists x. split_and!; [done..|].
  intros a b. rewrite !elem_of_cons, elem_of_nil. intros [|[[= -> ->]|[]]]; [done|]. by rewrite Est, <- Est'.
Qed.

Lemma runs_round_trip {A} (P : Store → Prop) now (f : Store → option A) cs (Q : A → Store → Prop) :
  stable P → (∀ s, P s → ∃ x, f s = Some x ∧ Q x (run_cmds now cs s) ∧ G s (run_cmds now cs s)) → runs P (round_trip now f cs) Q.
Proof.
  intros Hst HQ w r w' E. destruct (first_round_trip P now f cs Q HQ w r w' E) as (h & Eh & Hne & Hh). exists h.
  split; [done|]. intros HP Hf Ho. apply Hh; [|done|intros a b Hab; apply Ho; destruct h; [done|by right]].
  destruct (take_turn_history _ _ _ _ E) as (st & Est & Eh'). rewrite <- Est.
  rewrite Eh in Eh'. apply app_inv_head in Eh' as ->. apply (Hst (view (redis w))); [done|]. apply Ho. by left.
Qed.

Lemma runs_query {A} (P : Store → Prop) now (f : Store → option A) (Q : A → Store → Prop) :
  stable P → (∀ s, G s s) → (∀ s, P s → ∃ x, f s = Some x ∧ Q x s) → runs P (query now f) Q.
Proof. intros Hst Hr HQ. apply runs_round_trip; [done|]. intros s HP. destruct (HQ s HP) as (x & Hx & HQx). exists x. auto. Qed.

Lemma runs_execute (P : Store → Prop) now cs (Q : unit → Store → Prop) :
  stable P → (∀ s, P s → Q tt (run_cmds now cs s) ∧ G s (run_cmds now cs s)) → runs P (execute now cs) Q.
Proof. intros Hst HQ. apply runs_round_trip; [done|]. intros s HP. exists tt. split; [done|]. by apply HQ. Qed.

Lemma runs_offline {A} (P : Store → Prop) (m : M (RWorld St) A) (Q : A → Store → Prop) :
  offline m → (∀ s w, P s → ∃ x, (m w).1 = inr x ∧ Q x s) → runs P m Q.
Proof.
  intros Hm HQ w r w' E. specialize (Hm w). rewrite E in Hm. cbn in Hm. subst w'. exists []. rewrite app_nil_r.
  split; [done|]. intros HP Hf _. destruct (HQ _ w HP) as (x & Ex & HQx). rewrite E in Ex. cbn in Ex. subst r.
  exists x. split_and!; [done..|]. by intros a b ?%elem_of_nil.
Qed.
End interleaved.
