(* ===== verification/Sessions.v ===== *)
(** User sessions in Redis ([app/core/sessions.py]): login, rotation of
    refresh tokens, revocation, listing and the check of every request, and
    the assessment of a login (new device, suspicious journey).

    Each round trip of the code is one turn of the Redis world, so other
    requests act between any two of them; the pipelines without a transaction
    are one turn per command. User-agent parsing, the GeoIP database and the
    great-circle distance are parameters. *)
From S2P Require Import Prelude PyText Config Models Codecs Redis.
From Stdlib Require Import QArith Qminmax.
Local Open Scope string_scope.
Local Open Scope Z_scope.
Local Open Scope list_scope.

Definition SESSION_KEY_PREFIX : string := "session:".
Definition USER_SESSIONS_KEY_PREFIX : string := "user_sessions:".
Definition REVOKED_REFRESH_KEY_PREFIX : string := "revoked_refresh:".
Definition SESSION_TOUCH_KEY_PREFIX : string := "session_touch:".
Definition KNOWN_DEVICES_KEY_PREFIX : string := "user_known_devices:".
Definition LOGIN_HISTORY_KEY_PREFIX : string := "user_login_history:".

Definition KNOWN_DEVICES_TTL_SECONDS : Z := 90 * 24 * 3600.
Definition KNOWN_DEVICES_MAX : nat := 50.
Definition LOGIN_HISTORY_MAX : nat := 20.
Definition ACTIVITY_THROTTLE_SECONDS : Z := 60.
Definition REFRESH_REUSE_GRACE_SECONDS : Z := 10.
Definition _MAX_ROTATION_ATTEMPTS : nat := 3.

Definition SessionStoreUnavailable : exn := PyError "SessionStoreUnavailable".
Definition SessionInvalid (reason : string) : exn := PyError ("SessionInvalid:" +:+ reason).

Definition _session_key (session_id : string) : string := SESSION_KEY_PREFIX +:+ session_id.
Definition _user_sessions_key (user_id : string) : string := USER_SESSIONS_KEY_PREFIX +:+ user_id.
Definition _revoked_key (jti : string) : string := REVOKED_REFRESH_KEY_PREFIX +:+ jti.
Definition touch_key (session_id : string) : string := SESSION_TOUCH_KEY_PREFIX +:+ session_id.

Definition _refresh_lifetime_seconds `{Settings} : Z := REFRESH_TOKEN_EXPIRE_DAYS * 24 * 3600.

(** ** Browser and device *)

(** The result of the [user_agents] library. *)
Record ParsedUserAgent := mkUa {
  is_bot : bool; is_tablet : bool; is_mobile : bool; is_pc : bool;
  device_brand : option string; device_model : option string;
  browser_family : string; browser_version_string : string;
  os_family : string; os_version_string : string }.

Class UserAgents := { parse_ua : string → ParsedUserAgent }.

Record DeviceInfo := mkDevice {
  browser : string; browser_version : string;
  os : string; os_version : string;
  device_type : string; device : string }.

Definition fingerprint (d : DeviceInfo) : string := browser d +:+ "|" +:+ os d.

(** [x or y] *)
Definition or_else (x y : string) : string := if nonempty x then x else y.

Definition parse_user_agent `{UserAgents} (user_agent : option string) : DeviceInfo :=
  let ua := parse_ua (default "" user_agent) in
  {| browser := or_else (browser_family ua) "Other";
     browser_version := browser_version_string ua;
     os := or_else (os_family ua) "Other";
     os_version := os_version_string ua;
     device_type := if is_bot ua then "bot" else if is_tablet ua then "tablet"
                    else if is_mobile ua then "mobile" else if is_pc ua then "desktop" else "other";
     device := join " " (filter (λ s, s ≠ "") (omap id [device_brand ua; device_model ua])) |}.

(** The address of another session is shown half hidden. *)
Definition mask_ip (ip : option string) : string :=
  match ip with
  | None => ""
  | Some ip =>
      if negb (nonempty ip) then ""
      else if contains ip ":" then join ":" (take 3 (PyText.split ":" ip)) +:+ ":x"
      else let parts := PyText.split "." ip in
           if bool_decide (length parts = 4%nat) then join "." (take 3 parts ++ ["x"]) else ip
  end.

(** ** New devices and suspicious logins *)

Record GeoLocation := mkGeo {
  geo_country_code : option string; geo_country : option string; geo_city : option string;
  latitude : option Q; longitude : option Q }.

Definition has_coordinates (g : GeoLocation) : bool :=
  bool_decide (is_Some (latitude g)) && bool_decide (is_Some (longitude g)).

(** [geoip.lookup] and [geoip.haversine_km] ([app/core/geoip.py]): a database
    file and floating-point trigonometry. *)
Class GeoIp := {
  geo_lookup : string → option GeoLocation;
  haversine_km : Q → Q → Q → Q → Q }.

(** The reasons of a suspicion; the code words them in Persian. *)
Inductive Reason :=
  | UnknownCountry (label : string)
  | ImpossibleTravel (distance hours : Q).

Record LoginAssessment := mkAssessment {
  first_login : bool; new_device : bool; new_ip : bool; suspicious : bool; reasons : list Reason }.

Definition should_alert_new_device (a : LoginAssessment) : bool :=
  negb (first_login a) && negb (suspicious a) && (new_device a || new_ip a).

Definition seconds_q (t : time) : Q := t # 4194304.

(** A number of a history entry. *)
Definition json_num (j : json) : option Q :=
  match j with JInt n => Some (inject_Z n) | JFloat q => Some q | _ => None end.

Section anomaly.
Context `{Settings, GeoIp}.

Definition known_country (entry : json) : option string :=
  match json_opt "country_code" entry with Some (JStr s) => if nonempty s then Some s else None | _ => None end.

(** The most recent entry with coordinates: instant, latitude, longitude. *)
Definition entry_place (entry : json) : option (Q * Q * Q) :=
  lat ← json_opt "lat" entry ≫= json_num;
  lon ← json_opt "lon" entry ≫= json_num;
  ts ← json_opt "ts" entry ≫= json_num;
  Some (ts, lat, lon).

Definition country_reason (history : list json) (geo : GeoLocation) : list Reason :=
  let known_countries := omap known_country history in
  match geo_country_code geo with
  | Some c =>
      if nonempty c && negb (bool_decide (known_countries = [])) && negb (bool_decide (c ∈ known_countries))
      then [UnknownCountry (or_else (default "" (geo_country geo)) c)] else []
  | None => []
  end.

(** The journey from the previous login, at the speed it takes. *)
Definition travel_reason (history : list json) (geo : GeoLocation) (now : time) : list Reason :=
  match head (omap entry_place history), latitude geo, longitude geo with
  | Some (ts, lat, lon), Some lat', Some lon' =>
      let distance := haversine_km lat lon lat' lon' in
      let hours := (Qmax (seconds_q now - ts) 60 / 3600)%Q in
      if negb (Qle_bool distance SUSPICIOUS_LOGIN_DISTANCE_KM) &&
         negb (Qle_bool (distance / hours) SUSPICIOUS_LOGIN_SPEED_KMH)
      then [ImpossibleTravel distance hours] else []
  | _, _, _ => []
  end.

Definition detect_anomaly (history : list json) (geo : option GeoLocation) (now : time) : list Reason :=
  match geo with
  | None => []
  | Some geo => country_reason history geo ++ travel_reason history geo now
  end.

Definition assess_login (known_members : list string) (history : list json) (device : DeviceInfo)
    (ip : string) (geo : option GeoLocation) (now : time) : LoginAssessment :=
  let first_login := bool_decide (known_members = []) && bool_decide (history = []) in
  let reasons := if first_login then [] else detect_anomaly history geo now in
  {| first_login := first_login;
     new_device := negb (bool_decide ("ua:" +:+ fingerprint device ∈ known_members));
     new_ip := nonempty ip && negb (bool_decide ("ip:" +:+ ip ∈ known_members));
     suspicious := negb (bool_decide (reasons = []));
     reasons := reasons |}.
End anomaly.

(** ** The life of a session *)

Record CreatedSession := mkCreated {
  session_id : string; refresh_jti : string; data : gmap string string;
  assessment : LoginAssessment; created_geo : option GeoLocation }.

Record RefreshOutcome := mkOutcome { outcome_data : gmap string string; new_refresh_jti : option string }.

(** A field of a session's hash; [field] is [data[k]], a missing one raises. *)
Definition field {W} (k : string) (h : gmap string string) : M W string :=
  match h !! k with Some v => mret v | None => raise (PyError "KeyError") end.

Section lifecycle.
Context `{Settings, UserAgents, GeoIp, JsonText, FloatText, Redis St}.

(** [float(s)] *)
Definition to_time (s : string) : M (RWorld St) time :=
  match float_time s with Some t => mret t | None => raise (PyError "ValueError") end.

(** [max(int(t), 1)] for a span in ticks *)
Definition at_least_1s (t : Z) : Z := Z.max (t ÷ TICKS) 1.

Definition session_data (now : time) (user_id tenant_id ip : string) (user_agent : option string)
    (sid jti : string) (suspicious : bool) : gmap string string :=
  let device := parse_user_agent user_agent in
  let geo := geo_lookup ip in
  let geo_text (f : GeoLocation → option string) := default "" (geo ≫= f) in
  let coordinate (f : GeoLocation → option Q) :=
    match geo with
    | Some g => if has_coordinates g then default "" (str_coordinate <$> f g) else ""
    | None => ""
    end in
  list_to_map
    [("sid", sid); ("user_id", user_id); ("tenant_id", tenant_id); ("ip", ip);
     ("user_agent", py_take 512 (default "" user_agent));
     ("browser", browser device); ("browser_version", browser_version device);
     ("os", os device); ("os_version", os_version device);
     ("device_type", device_type device); ("device", Sessions.device device);
     ("country_code", geo_text geo_country_code); ("country", geo_text geo_country);
     ("city", geo_text geo_city);
     ("lat", coordinate latitude); ("lon", coordinate longitude);
     ("created_at", str_time now); ("last_active_at", str_time now);
     ("expires_at", str_time (now + secs _refresh_lifetime_seconds));
     ("refresh_jti", jti); ("previous_jti", ""); ("rotated_at", "");
     ("suspicious", if suspicious then "1" else "0")].

Definition history_entry (now : time) (ip : string) (geo : option GeoLocation) : json :=
  let country := default "" (geo ≫= geo_country_code) in
  JObj ([("ts", JFloat (seconds_q now)); ("ip", JStr ip);
         ("country_code", if nonempty country then JStr country else JNull)] ++
        match geo with
        | Some g =>
            match latitude g, longitude g with
            | Some lat, Some lon => [("lat", JFloat lat); ("lon", JFloat lon)]
            | _, _ => []
            end
        | None => []
        end).

(** The transaction that records a login. *)
Definition create_commands (now : time) (user_id ip sid : string) (device : DeviceInfo)
    (data : gmap string string) (entry : json) : list Cmd :=
  let lifetime := _refresh_lifetime_seconds in
  let known_key := KNOWN_DEVICES_KEY_PREFIX +:+ user_id in
  let history_key := LOGIN_HISTORY_KEY_PREFIX +:+ user_id in
  let known : gmap string Z := {["ua:" +:+ fingerprint device := now]} in
  let known := if nonempty ip then <["ip:" +:+ ip := now]> known else known in
  [HSET (_session_key sid) data;
   EXPIRE (_session_key sid) lifetime;
   ZADD (_user_sessions_key user_id) {[sid := now]};
   ZREMRANGEBYSCORE (_user_sessions_key user_id) (now - secs lifetime);
   EXPIRE (_user_sessions_key user_id) lifetime;
   ZADD known_key known;
   ZKEEPTOP known_key KNOWN_DEVICES_MAX;
   EXPIRE known_key KNOWN_DEVICES_TTL_SECONDS;
   LPUSH history_key (dumps entry);
   LTRIM history_key LOGIN_HISTORY_MAX;
   EXPIRE history_key KNOWN_DEVICES_TTL_SECONDS].

(** [str(uuid.uuid4())] and [uuid.uuid4().hex] are the arguments [sid], [jti]. *)
Definition create_session (now : time) (sid jti user_id : string) (tenant_id : option string)
    (ip : string) (user_agent : option string) : M (RWorld St) CreatedSession :=
  let device := parse_user_agent user_agent in
  let geo := geo_lookup ip in
  on_redis_error SessionStoreUnavailable (
    known_members ← query now (ZRANGE now (KNOWN_DEVICES_KEY_PREFIX +:+ user_id));
    raw_history ← query now (LRANGE now (LOGIN_HISTORY_KEY_PREFIX +:+ user_id));
    history ← match mapM loads raw_history with Some l => mret l | None => raise (PyError "JSONDecodeError") end;
    let assessment := assess_login known_members.*1 history device ip geo now in
    let data := session_data now user_id (default "" tenant_id) ip user_agent sid jti (suspicious assessment) in
    execute now (create_commands now user_id ip sid device data (history_entry now ip geo));;
    mret (mkCreated sid jti data assessment geo)).

(** The transaction that revokes a session. *)
Definition revoke_commands (sid user_id jti : string) (remaining : Z) : list Cmd :=
  [SET (_revoked_key jti) "revoked" remaining;
   DEL [_session_key sid; touch_key sid];
   ZREM (_user_sessions_key user_id) [sid]].

Definition revoke_session (now : time) (sid : string) (user_id : option string) : M (RWorld St) bool :=
  on_redis_error SessionStoreUnavailable (
    data ← query now (HGETALL now (_session_key sid));
    if bool_decide (data = ∅) ||
       match user_id with Some u => negb (bool_decide (data !! "user_id" = Some u)) | None => false end
    then mret false
    else
      expires_at ← to_time (or_else (default "" (data !! "expires_at")) (str_time 0));
      jti ← field "refresh_jti" data;
      owner ← field "user_id" data;
      execute now (revoke_commands sid owner jti (at_least_1s (expires_at - now)));;
      mret true).

Definition rotation_update (now : time) (jti new_jti : string) : gmap string string :=
  list_to_map
    [("refresh_jti", new_jti); ("previous_jti", jti); ("rotated_at", str_time now);
     ("last_active_at", str_time now); ("expires_at", str_time (now + secs _refresh_lifetime_seconds))].

(** The transaction that replaces the [jti] of a session. *)
Definition rotate_commands (now : time) (sid jti user_id new_jti : string) (remaining : Z) : list Cmd :=
  let lifetime := _refresh_lifetime_seconds in
  [HSET (_session_key sid) (rotation_update now jti new_jti);
   EXPIRE (_session_key sid) lifetime;
   SET (_revoked_key jti) "rotated" remaining;
   ZADD (_user_sessions_key user_id) {[sid := now]};
   EXPIRE (_user_sessions_key user_id) lifetime].

(** One attempt; [None] is [WatchError], on which the code tries again. *)
Definition rotate_attempt (now : time) (new_jti sid jti user_id : string) :
    M (RWorld St) (option RefreshOutcome) :=
  let key := _session_key sid in
  watched ← query now (λ s, Some (version s key));
  data ← query now (HGETALL now key);
  blacklisted ← query now (EXISTS now (_revoked_key jti));
  if bool_decide (data = ∅) || negb (bool_decide (data !! "user_id" = Some user_id)) then
    raise (SessionInvalid (if (blacklisted : bool) then "revoked" else "unknown_session"))
  else
  grace ← (if bool_decide (data !! "previous_jti" = Some jti) && truthy (data !! "rotated_at") then
             rotated_at ← to_time (default "" (data !! "rotated_at"));
             mret (bool_decide (now - rotated_at ≤ secs REFRESH_REUSE_GRACE_SECONDS))
           else mret false);
  if (grace : bool) then mret (Some (mkOutcome data None))
  else if negb (bool_decide (data !! "refresh_jti" = Some jti)) || blacklisted then
    revoke_session now sid None;;
    raise (SessionInvalid "refresh_token_reuse")
  else
    expires_at ← field "expires_at" data ≫= to_time;
    done ← execute_watched now key watched
             (rotate_commands now sid jti user_id new_jti (at_least_1s (expires_at - now)));
    mret (if (done : bool) then Some (mkOutcome (rotation_update now jti new_jti ∪ data) (Some new_jti))
          else None).

(** [clock i] and [fresh i] are the instant and the new [jti] of attempt [i]. *)
Fixpoint rotate_loop (attempts : nat) (clock : nat → time) (fresh : nat → string)
    (sid jti user_id : string) : M (RWorld St) RefreshOutcome :=
  match attempts with
  | 0%nat => raise (SessionInvalid "concurrent_rotation")
  | S rest =>
      let i := (_MAX_ROTATION_ATTEMPTS - attempts)%nat in
      r ← rotate_attempt (clock i) (fresh i) sid jti user_id;
      match r with
      | Some outcome => mret outcome
      | None => rotate_loop rest clock fresh sid jti user_id
      end
  end.

Definition rotate_refresh (clock : nat → time) (fresh : nat → string) (sid jti user_id : string) :
    M (RWorld St) RefreshOutcome :=
  on_redis_error SessionStoreUnavailable
    (rotate_loop _MAX_ROTATION_ATTEMPTS clock fresh sid jti user_id).

(** The rows of the sessions of an index, one [HGETALL] each. *)
Fixpoint session_rows (now : time) (indexed : list (string * Z)) :
    M (RWorld St) (list (string * Z * gmap string string)) :=
  match indexed with
  | [] => mret []
  | p :: rest =>
      row ← query now (HGETALL now (_session_key p.1));
      rows ← session_rows now rest;
      mret ((p, row) :: rows)
  end.

Definition with_last_active (last_active : Z) (row : gmap string string) : M (RWorld St) (gmap string string) :=
  stored ← to_time (or_else (default "" (row !! "last_active_at")) (str_time 0));
  mret (<["last_active_at" := str_time (Z.max last_active stored)]> row).

Definition list_sessions (now : time) (user_id : string) : M (RWorld St) (list (gmap string string)) :=
  let index_key := _user_sessions_key user_id in
  rows ← on_redis_error SessionStoreUnavailable (
    members ← query now (ZRANGE now index_key);
    rows ← session_rows now (reverse members);
    let stale := (λ p, p.1.1) <$> filter (λ p : string * Z * gmap string string, p.2 = ∅) rows in
    (if bool_decide (stale = []) then mret tt else execute now [ZREM index_key stale]);;
    mret rows);
  mapM (λ p, with_last_active p.1.2 p.2) (filter (λ p : string * Z * gmap string string, p.2 ≠ ∅) rows).

Fixpoint revoke_each (now : time) (user_id : string) (sessions : list (gmap string string)) : M (RWorld St) Z :=
  match sessions with
  | [] => mret 0
  | session :: rest =>
      sid ← field "sid" session;
      revoked ← revoke_session now sid (Some user_id);
      n ← revoke_each now user_id rest;
      mret ((if (revoked : bool) then 1 else 0) + n)
  end.

Definition revoke_all_sessions (now : time) (user_id : string) : M (RWorld St) Z :=
  sessions ← list_sessions now user_id;
  revoke_each now user_id sessions.

Definition touch_session (now : time) (sid : string) : M (RWorld St) bool :=
  on_redis_error SessionStoreUnavailable (
    data ← query now (HGETALL now (_session_key sid));
    should_write ← round_trip now (λ s, Some (bool_decide (live s now (touch_key sid) = None)))
                     [SETNX (touch_key sid) "1" ACTIVITY_THROTTLE_SECONDS];
    match data !! "user_id" with
    | None => mret false
    | Some user_id =>
        (if (should_write : bool) then execute now [ZADDXX (_user_sessions_key user_id) sid now] else mret tt);;
        mret true
    end).
End lifecycle.
