(* ===== verification/SessionLaws.v ===== *)
(** Correctness of user sessions ([Sessions.v]) while other requests act
    between any two round trips: rotation is an atomic compare-and-swap of
    the session's [jti], a refresh token is redeemed at most once, forced
    logout ends every session of a user for good. *)
From S2P Require Import Prelude PyText Config Models Codecs Redis RedisLaws Sessions.
Local Open Scope string_scope.
Local Open Scope Z_scope.
Local Open Scope list_scope.

(** ** Rotation *)

(** The commands of the others before the last of the next [n] turns. *)
Definition before (n : nat) (ts : list Turn) : list (time * Cmd) := mjoin (others <$> take n ts).

Lemma before_S n ts : before (S n) ts = now_others ts ++ before n (tail ts).
Proof. destruct ts as [|t ts]; simpl; [by destruct n|done]. Qed.

Lemma interfere_before n ts s :
  interfere (before (S n) ts) s = interfere (before n (tail ts)) (interfere (now_others ts) s).
Proof. by rewrite before_S, interfere_app. Qed.

Section rotation.
Context `{Settings, UserAgents, GeoIp, JsonText, FloatText, Redis St}.

(** The store a win of [jti] is decided on, and what it becomes. *)
Definition wins (now : time) (new_jti sid jti user_id : string) (s s' : Store)
    (outcome : gmap string string) : Prop :=
  let h := live_hash s now (_session_key sid) in
  h !! "user_id" = Some user_id ∧ h !! "refresh_jti" = Some jti ∧
  outcome = rotation_update now jti new_jti ∪ h ∧
  ∃ remaining, 1 ≤ remaining ∧ s' = run_cmds now (rotate_commands now sid jti user_id new_jti remaining) s.

Lemma HGETALL_live now k s h : HGETALL now k s = Some h → live_hash s now k = h.
Proof. unfold HGETALL, live_hash. repeat case_match; naive_solver. Qed.

Lemma to_time_inv s (w : RWorld St) t w' : to_time s w = (inr t, w') → w' = w ∧ float_time s = Some t.
Proof. unfold to_time. destruct (float_time s); intros E; by ret_step E. Qed.

Lemma field_inv {W} k h (w : W) v w' : field k h w = (inr v, w') → w' = w ∧ h !! k = Some v.
Proof. unfold field. destruct (h !! k); intros E; by ret_step E. Qed.

(** One attempt: either another write got in between and the store is what
    the others made of it, or no change is needed, or it wins. *)
Lemma rotate_attempt_inv now new_jti sid jti user_id w r w' :
  rotate_attempt now new_jti sid jti user_id w = (inr r, w') →
  let s := interfere (before 4 (turns w)) (view (redis w)) in
  (r = None ∧ view (redis w') = s ∧ turns w' = drop 4 (turns w)) ∨
  (∃ h, r = Some (mkOutcome h None)) ∨
  (∃ out, r = Some (mkOutcome out (Some new_jti)) ∧ wins now new_jti sid jti user_id s (view (redis w')) out ∧
     turns w' = drop 4 (turns w)).
Proof.
  intros E. unfold rotate_attempt in E. cbv zeta in E.
  bind_step E as e | v w1 E1; [done|]. apply query_inv in E1 as (V1 & Hv & T1). injection Hv as <-.
  bind_step E as e | h w2 E2; [done|]. apply query_inv in E2 as (V2 & Hh & T2).
  bind_step E as e | b w3 E3; [done|]. apply query_inv in E3 as (V3 & _ & T3).
  destruct (_ || _) eqn:Hown in E; [by destruct b|].
  bind_step E as e | grace w4 E4; [done|].
  assert (w4 = w3) as ->.
  { destruct (bool_decide _ && _); [|by ret_step E4].
    bind_step E4 as e | t w5 E5; [done|]. apply to_time_inv in E5 as [-> _]. by ret_step E4. }
  destruct grace; [ret_step E; eauto|]. clear E4.
  destruct (_ || b) eqn:Hjti in E.
  { bind_step E as e | x w5 E5; done. }
  bind_step E as e | t w4 E4; [done|].
  bind_step E4 as e | y w5 E5; [done|].
  apply field_inv in E5 as [-> He]. apply to_time_inv in E4 as [-> Ht].
  bind_step E as e | done w4 E5; [done|].
  apply execute_watched_inv in E5 as (Hd & T4 & V4). cbv [mret M_ret] in E. injection E as <- <-.
  assert (turns w4 = drop 4 (turns w)) as T.
  { rewrite T4, T3, T2, T1. by destruct (turns w) as [|? [|? [|? [|]]]]. }
  rewrite !interfere_before, <- V1, <- T1, <- V2, <- T2, <- V3, <- T3.
  change (interfere (before 0 ?ts) ?s) with s.
  set (s := interfere (now_others (turns w3)) (view (redis w3))) in *.
  destruct done; [|left; auto]. right. right. eexists. split; [done|].
  symmetry in Hd. apply bool_decide_eq_true in Hd. rewrite V4.
  assert (guarded (_session_key sid) (view (redis w1)) (view (redis w2))) as [G1 G1'].
  { rewrite V2. apply interfere_guarded. }
  assert (guarded (_session_key sid) (view (redis w2)) s) as [G2 G2'].
  { transitivity (view (redis w3)); [rewrite V3|]; apply interfere_guarded. }
  rewrite (HGETALL_kv _ s) in Hh by (symmetry; apply G2'; lia).
  apply HGETALL_live in Hh. unfold wins. rewrite Hh. bool_to_prop.
  split; [|done]. split_and!; [done..|]. exists (at_least_1s (t - now)). split; [unfold at_least_1s; lia|done].
Qed.


Lemma interfere_before_add n m ts s :
  interfere (before (n + m) ts) s = interfere (before m (drop n ts)) (interfere (before n ts) s).
Proof. unfold before. by rewrite <- take_take_drop, fmap_app, join_app, interfere_app. Qed.

Lemma rotate_loop_inv a clock fresh sid jti user_id w out new w' :
  (a ≤ 3)%nat →
  rotate_loop a clock fresh sid jti user_id w = (inr (mkOutcome out (Some new)), w') →
  ∃ j, (j < a)%nat ∧ new = fresh (3 - a + j)%nat ∧
    wins (clock (3 - a + j)%nat) new sid jti user_id
      (interfere (before (4 * S j) (turns w)) (view (redis w))) (view (redis w')) out ∧
    turns w' = drop (4 * S j) (turns w).
Proof.
  revert w. induction a as [|a IH]; intros w Ha E; [done|]. cbn [rotate_loop] in E.
  bind_step E as e | r w1 E1; [done|].
  apply rotate_attempt_inv in E1 as [(-> & V1 & T1)|[[h ->]|(o & -> & Hw & T)]].
  - apply IH in E as (j & Hj & -> & Hw & T); [|lia]. exists (S j).
    replace (3 - S a + S j)%nat with (3 - a + j)%nat by lia.
    rewrite V1, T1, <- interfere_before_add in Hw. rewrite T1, drop_drop in T.
    replace (4 + 4 * S j)%nat with (4 * S (S j))%nat in * by lia. auto with lia.
  - by ret_step E.
  - cbv [mret M_ret] in E. injection E as <- <- <-. exists 0%nat.
    unfold _MAX_ROTATION_ATTEMPTS. rewrite Nat.add_0_r. auto with lia.
Qed.

Lemma rotate_refresh_inv clock fresh sid jti user_id w out new w' :
  rotate_refresh clock fresh sid jti user_id w = (inr (mkOutcome out (Some new)), w') →
  ∃ i, (i < 3)%nat ∧ new = fresh i ∧
    wins (clock i) new sid jti user_id
      (interfere (before (4 * S i) (turns w)) (view (redis w))) (view (redis w')) out ∧
    turns w' = drop (4 * S i) (turns w).
Proof.
  unfold rotate_refresh. intros E%on_redis_error_inv.
  apply rotate_loop_inv in E as (i & Hi & Hw); [|done]. eauto.
Qed.

(** ** One redemption per token *)

(** The command gives the session the refresh token [jti] (again). *)
Definition issues (key jti : string) (c : Cmd) : bool :=
  match c with
  | HSET k m => bool_decide (k = key) && bool_decide (m !! "refresh_jti" = Some jti)
  | _ => false
  end.

(** The session has another refresh token than [jti]. *)
Definition spent (key jti : string) (s : Store) : Prop :=
  ∀ h d, kv s !! key = Some (RHash h, d) → h !! "refresh_jti" ≠ Some jti.

Lemma spent_live key jti s now : spent key jti s → live_hash s now key !! "refresh_jti" ≠ Some jti.
Proof.
  unfold live_hash. intros Hs. destruct (live s now key) as [[]|] eqn:E; try done.
  apply live_Some in E as (d & E & _). eauto.
Qed.

Lemma spent_put key jti k e s :
  spent key jti s →
  (k = key → ∀ h d, e = Some (RHash h, d) → h !! "refresh_jti" ≠ Some jti) →
  spent key jti (put k e s).
Proof.
  intros Hs He h d. destruct (decide (k = key)) as [->|].
  - rewrite put_here. eauto.
  - rewrite put_other by done. apply Hs.
Qed.

Lemma spent_del key jti now ks s :
  spent key jti s →
  spent key jti (foldr (λ k s, match entry s now k with Some _ => put k None s | None => s end) s ks).
Proof.
  intros Hs. induction ks as [|k ks IH]; simpl; [done|].
  case_match; [|done]. by apply spent_put.
Qed.

Lemma spent_run_cmd key jti now c s :
  issues key jti c = false → spent key jti s → spent key jti (run_cmd now c s).
Proof.
  intros Hc Hs. destruct c; cbn [run_cmd]; try by apply spent_del.
  all: unfold update_value; repeat case_match; try done; apply spent_put; try done; intros ->;
    cbn [mbind option_bind]; intros h d E; simplify_eq.
  all: try (unfold nonempty_zset, nonempty_list in E; by repeat case_match).
  - simpl in Hc. rewrite bool_decide_true in Hc by done. simpl in Hc. bool_to_prop.
    rewrite lookup_union_Some_raw. intros [?|[_ Hl]]; [done|]. by apply (spent_live _ _ s now) in Hl.
  - match goal with E : entry _ _ _ = Some _ |- _ => apply entry_Some in E as [E _] end. eauto.
Qed.

Lemma spent_interfere key jti cs s :
  (∀ c, c ∈ cs → issues key jti c.2 = false) → spent key jti s → spent key jti (interfere cs s).
Proof.
  revert s. induction cs as [|c cs IH]; intros s Hc Hs; simpl; [done|].
  apply IH; [intros c' Hc'; apply Hc; by right|]. apply spent_run_cmd; [apply Hc; left|done].
Qed.

(** Sessions, indexes and the other keys do not collide. *)
Lemma session_not_index sid u : _session_key sid ≠ _user_sessions_key u.
Proof. done. Qed.
Lemma session_not_revoked sid j : _session_key sid ≠ _revoked_key j.
Proof. done. Qed.
Lemma session_not_touch sid x : _session_key sid ≠ touch_key x.
Proof. done. Qed.
Lemma index_not_revoked u j : _user_sessions_key u ≠ _revoked_key j.
Proof. done. Qed.
Lemma index_not_touch u x : _user_sessions_key u ≠ touch_key x.
Proof. done. Qed.
Lemma session_key_inj a b : _session_key a = _session_key b → a = b.
Proof. apply (inj (String.append _)). Qed.
Lemma index_key_inj a b : _user_sessions_key a = _user_sessions_key b → a = b.
Proof. apply (inj (String.append _)). Qed.

Lemma rotated_hash now sid jti u new rem s :
  kv (run_cmds now (rotate_commands now sid jti u new rem) s) !! _session_key sid =
    Some (RHash (rotation_update now jti new ∪ live_hash s now (_session_key sid)),
          Some (now + secs _refresh_lifetime_seconds)).
Proof.
  unfold rotate_commands. cbv zeta.
  match goal with |- context [run_cmds now (?a :: ?b :: ?cs)] => change (a :: b :: cs) with ([a; b] ++ cs) end.
  rewrite run_cmds_app, run_cmds_other, hset_expire; [done|]. keys_apart.
Qed.

Lemma rotation_update_jti now jti new : rotation_update now jti new !! "refresh_jti" = Some new.
Proof. reflexivity. Qed.

Lemma wins_spent now new sid jti u s s' out :
  new ≠ jti → wins now new sid jti u s s' out → spent (_session_key sid) jti s'.
Proof.
  intros Hn (_ & _ & _ & rem & _ & ->) h d. rewrite rotated_hash. intros [= <- _].
  rewrite (lookup_union_Some_l _ _ _ new) by apply rotation_update_jti. congruence.
Qed.

(** C11. Rotation is an atomic compare-and-swap, whatever other clients and
    the network do between its round trips: when [rotate_refresh] returns a
    new token, there is one instant (that of one of its three attempts) at
    which the live session belonged to the user and had exactly the presented
    [jti]; there, and only there, the store changed by its transaction, which
    installs the new [jti] and blacklists the old one. *)
Theorem rotation_is_compare_and_swap (clock : nat → time) (fresh : nat → string)
    (sid jti user_id : string) (w w' : RWorld St) (out : gmap string string) (new : string) :
  rotate_refresh clock fresh sid jti user_id w = (inr (mkOutcome out (Some new)), w') →
  ∃ i, (i < 3)%nat ∧ new = fresh i ∧
    let s := interfere (before (4 * S i) (turns w)) (view (redis w)) in
    let h := live_hash s (clock i) (_session_key sid) in
    h !! "user_id" = Some user_id ∧ h !! "refresh_jti" = Some jti ∧
    out = rotation_update (clock i) jti new ∪ h ∧
    kv (view (redis w')) !! _session_key sid =
      Some (RHash out, Some (clock i + secs _refresh_lifetime_seconds)) ∧
    ∃ remaining, 1 ≤ remaining ∧
      view (redis w') = run_cmds (clock i) (rotate_commands (clock i) sid jti user_id new remaining) s.
Proof.
  intros (i & Hi & Hnew & (Hu & Hj & Ho & rem & Hrem & Hs) & _)%rotate_refresh_inv.
  exists i. split_and!; [done..|]. cbv zeta. rewrite Hs, rotated_hash, Ho. eauto 10.
Qed.

(** C12. A refresh token is redeemed at most once. Of two renewals with the same
    token, one commits first and ends; the other one, begun before or after,
    meets what the first has left, at the latest among the commands [p ++ q]
    that others execute between its own round trips (the first has ended after
    [p], or before the commands [between] that precede the second). Then the
    second one, whatever else happens before and meanwhile, does not return a
    new token, unless somebody gives the session that very [jti] again (they
    are random 128-bit numbers). *)
Theorem refresh_token_redeemed_once (clock clock' : nat → time) (fresh fresh' : nat → string)
    (sid jti user_id user_id' : string) (w1 w1' w2 w2' : RWorld St) (out out' : gmap string string) (new new' : string)
    (ts : list Turn) (between p q : list (time * Cmd)) :
  rotate_refresh clock fresh sid jti user_id w1 = (inr (mkOutcome out (Some new)), w1') →
  new ≠ jti →
  turns w2 = ts ++ turns w2' → mjoin (others <$> ts) = p ++ q →
  interfere p (view (redis w2)) = interfere between (view (redis w1')) →
  (∀ c, c ∈ between ++ q → issues (_session_key sid) jti c.2 = false) →
  rotate_refresh clock' fresh' sid jti user_id' w2 ≠ (inr (mkOutcome out' (Some new')), w2').
Proof.
  intros (i & _ & _ & Hw & _)%rotate_refresh_inv Hn Ht Hpq Hv Hc (j & _ & _ & (_ & Hj & _) & T)%rotate_refresh_inv.
  apply wins_spent in Hw; [|done]. apply (spent_live _ _ _ (clock' j)) in Hj; [done|].
  assert (ts ++ drop (4 * S j) (turns w2) = take (4 * S j) (turns w2) ++ drop (4 * S j) (turns w2)) as Hts
    by (rewrite take_drop, <- T; by symmetry).
  apply app_inv_tail in Hts as ->.
  unfold before. rewrite Hpq, interfere_app, Hv, <- interfere_app. by apply spent_interfere.
Qed.
End rotation.

(** ** A concrete login *)

Definition demo_agents : UserAgents :=
  {| parse_ua _ := mkUa false false false true None None "Chrome" "120" "Windows" "11" |}.
Definition demo_geoip : GeoIp := {| geo_lookup _ := None; haversine_km _ _ _ _ := QArith_base.Qmake 0 1 |}.

#[local] Existing Instances demo_agents demo_geoip default_settings text_json text_floats.

Definition demo_time : time := secs 1700000000.

(** After a login of user [u] from a desktop browser. *)
Definition demo_login : RWorld Store :=
  snd (create_session demo_time "sid" "jti0" "u" None "1.2.3.4" None (mkRWorld empty_store [])).

Definition demo_refresh (after : Z) (ts : list Turn) : (exn + RefreshOutcome) * RWorld Store :=
  rotate_refresh (λ _, demo_time + secs after) (λ _, "jti1") "sid" "jti0" "u"
    (mkRWorld (redis demo_login) ts).

(** The transaction of another tab of the same browser, a second before. *)
Definition demo_other_tab : list (time * Cmd) :=
  pair (demo_time + secs 99) <$> rotate_commands (demo_time + secs 99) "sid" "jti0" "u" "jti2" 604701.

(** The renewal that sends it. *)
Definition demo_other_refresh : (exn + RefreshOutcome) * RWorld Store :=
  rotate_refresh (λ _, demo_time + secs 99) (λ _, "jti2") "sid" "jti0" "u" (mkRWorld (redis demo_login) []).

(** The new [jti] a rotation returned, if any. *)
Definition won (r : (exn + RefreshOutcome) * RWorld Store) : option string :=
  match fst r with inr o => new_refresh_jti o | inl _ => None end.

Lemma won_inv r j : won r = Some j → ∃ out, r = (inr (mkOutcome out (Some j)), snd r).
Proof. destruct r as [[e|[out n]] w]; cbn; [done|]. intros ->. by exists out. Qed.

Lemma rotation_is_compare_and_swap_witness :
  won (demo_refresh 100 [mkTurn [] Fine; mkTurn demo_other_tab Fine]) = None ∧
  won (demo_refresh 100 []) = Some "jti1" ∧
  ∃ out d, kv (redis (snd (demo_refresh 100 []))) !! _session_key "sid" = Some (RHash out, d).
Proof.
  assert (won (demo_refresh 100 []) = Some "jti1") as Hw by (vm_compute; reflexivity).
  split_and!; [vm_compute; reflexivity|exact Hw|]. apply won_inv in Hw as [out E].
  destruct (rotation_is_compare_and_swap (St:=Store) _ _ _ _ _ _ _ _ _ E) as (i & _ & _ & _ & _ & _ & Hk & _).
  eexists _, _. exact Hk.
Defined.

(** The second tab has read the session before the first one commits. *)
Lemma refresh_token_redeemed_once_witness :
  let w2 := mkRWorld (redis demo_login) [mkTurn [] Fine; mkTurn [] Fine; mkTurn [] Fine; mkTurn demo_other_tab Fine] in
  won (demo_other_refresh) = Some "jti2" ∧
  ∀ out' new' w2', turns w2' = [] →
    rotate_refresh (λ _, demo_time + secs 100) (λ _, "jti1") "sid" "jti0" "u" w2 ≠ (inr (mkOutcome out' (Some new')), w2').
Proof.
  intros w2. assert (won demo_other_refresh = Some "jti2") as Hw by (vm_compute; reflexivity).
  split; [exact Hw|]. intros out' new' w2' Hts. apply won_inv in Hw as [out E].
  assert (interfere demo_other_tab (view (redis w2)) = interfere [] (view (redis (snd demo_other_refresh)))) as Hs
    by (vm_compute; reflexivity).
  generalize dependent (snd demo_other_refresh). intros w1' E Hs. unfold demo_other_refresh in E.
  refine (refresh_token_redeemed_once (St:=Store) _ _ _ _ _ _ _ _ _ _ _ _ _ _ _ _ (turns w2) [] demo_other_tab [] E _ _ _ Hs _).
  - discriminate.
  - rewrite Hts. symmetry. apply app_nil_r.
  - rewrite app_nil_r. cbn [turns w2 mkRWorld fmap list_fmap others mjoin list_join app]. apply app_nil_r.
  - intros c Hc. destruct (not_elem_of_nil c Hc).
Defined.

(** Two tabs of one browser that renew at the same moment can end the
    session, although the second is within the grace period: when the first
    one's transaction falls between the second one's reads of the session and
    of the blacklist, the second takes the fresh blacklist entry for a replay
    and revokes the session. Had it come a moment earlier, the second would
    have been given an access token. *)
Theorem simultaneous_renewal_ends_session :
  fst (demo_refresh 100 [mkTurn [] Fine; mkTurn [] Fine; mkTurn demo_other_tab Fine]) =
    inl (SessionInvalid "refresh_token_reuse") ∧
  fst (touch_session (demo_time + secs 101) "sid"
         (snd (demo_refresh 100 [mkTurn [] Fine; mkTurn [] Fine; mkTurn demo_other_tab Fine]))) = inr false ∧
  (∃ data, fst (demo_refresh 100 [mkTurn [] Fine; mkTurn demo_other_tab Fine]) = inr (mkOutcome data None)) ∧
  (∃ data, fst (demo_refresh 100 [mkTurn [] Fine; mkTurn [] Fine; mkTurn [] Fine; mkTurn demo_other_tab Fine]) =
             inr (mkOutcome data None)).
Proof.
  split_and!; [vm_compute; reflexivity|vm_compute; reflexivity| |]; eexists; vm_compute; reflexivity.
Qed.
