(* ===== verification/SessionIndex.v ===== *)
(** The sessions Redis holds ([app/core/sessions.py]): the invariant that the
    transactions of the program keep, as long as their instants do not go back -
    every session issued is stored as one, and its owner's index names it for
    as long as it lives.

    [sys_step] is a device of the proof, not a premise of any theorem:
    [ForcedLogout.call_ok] shows of each call of [Sessions.v] that it performs
    nothing else. *)
From S2P Require Import Prelude PyText Config Models Codecs Redis RedisLaws Sessions SessionLaws.
From stdpp Require Import sorting.
Local Open Scope string_scope.
Local Open Scope Z_scope.
Local Open Scope list_scope.
#[local] Arguments run_cmds : simpl never.
#[local] Arguments revoke_commands : simpl never.

(** The store, the clock and the session ids issued so far. *)
Record Sys := mkSys { store : Store; clock : time; created : gset string }.

(** A command on neither an index of sessions nor a session issued so far:
    the cache, the locks of [touch_session], the blacklist, the queues. *)
Definition foreign (issued : gset string) (c : Cmd) : Prop :=
  ∀ k, k ∈ cmd_keys c →
    (∀ u, k ≠ _user_sessions_key u) ∧ (∀ sid, sid ∈ issued → k ≠ _session_key sid).

Section system.
Context `{Settings, UserAgents, GeoIp, JsonText, FloatText}.

Inductive sys_step : Sys → Sys → Prop :=
  | sys_create s now sid jti u tenant ip agent susp entry :
      clock s ≤ now → sid ∉ created s → kv (store s) !! _session_key sid = None →
      sys_step s (mkSys
        (run_cmds now (create_commands now u ip sid (parse_user_agent agent)
                         (session_data now u tenant ip agent sid jti susp) entry) (store s))
        now ({[sid]} ∪ created s))
  | sys_rotate s now sid jti u new remaining :
      clock s ≤ now → sid ∈ created s →
      live_hash (store s) now (_session_key sid) !! "user_id" = Some u →
      sys_step s (mkSys (run_cmds now (rotate_commands now sid jti u new remaining) (store s)) now (created s))
  | sys_revoke s now sid u jti remaining :
      clock s ≤ now →
      sys_step s (mkSys (run_cmds now (revoke_commands sid u jti remaining) (store s)) now (created s))
  | sys_touch s now sid u :
      clock s ≤ now →
      sys_step s (mkSys (run_cmds now [ZADDXX (_user_sessions_key u) sid now] (store s)) now (created s))
  | sys_clean s now u stale :
      clock s ≤ now → (∀ sid, sid ∈ stale → live (store s) now (_session_key sid) = None) →
      sys_step s (mkSys (run_cmds now [ZREM (_user_sessions_key u) stale] (store s)) now (created s))
  | sys_other s now cs :
      clock s ≤ now → (∀ c, c ∈ cs → foreign (created s) c) →
      sys_step s (mkSys (run_cmds now cs (store s)) now (created s)).

(** ** The invariant *)

Let L : Z := secs _refresh_lifetime_seconds.

(** The session [sid], expiring at [dl], is in the index of [u], with a score
    the clean-up of old entries spares until then. *)
Definition indexed (st : Store) (u sid : string) (dl : time) : Prop :=
  ∃ z di sc, kv st !! _user_sessions_key u = Some (RZset z, Some di) ∧ dl ≤ di ∧
    z !! sid = Some sc ∧ dl - L ≤ sc.

Definition session_ok (sid u : string) (h : gmap string string) : Prop :=
  h !! "sid" = Some sid ∧ h !! "user_id" = Some u ∧ is_Some (h !! "refresh_jti") ∧
  (∃ t, h !! "expires_at" = Some (str_time t)) ∧ (∃ t, h !! "last_active_at" = Some (str_time t)).

Definition index_typed (issued : gset string) (st : Store) : Prop :=
  ∀ u v d, kv st !! _user_sessions_key u = Some (v, d) →
    ∃ z, v = RZset z ∧ ∀ sid, is_Some (z !! sid) → sid ∈ issued.

Definition sessions_ok (s : Sys) : Prop :=
  ∀ sid v d, sid ∈ created s → kv (store s) !! _session_key sid = Some (v, d) →
    ∃ h u dl, v = RHash h ∧ d = Some dl ∧ session_ok sid u h ∧ dl ≤ clock s + L ∧
      (clock s < dl → indexed (store s) u sid dl).

Record sys_ok (s : Sys) : Prop := {
  ok_sessions : sessions_ok s;
  ok_index : index_typed (created s) (store s) }.

(** *** Indexes *)

(** A command that leaves an index an index of issued sessions. *)
Definition index_command (issued : gset string) (c : Cmd) : Prop :=
  match c with
  | ZADD k m => ∀ u, k = _user_sessions_key u → ∀ sid, is_Some (m !! sid) → sid ∈ issued
  | ZADDXX _ _ _ | ZREM _ _ | ZREMRANGEBYSCORE _ _ | EXPIRE _ _ => True
  | _ => ∀ u, _user_sessions_key u ∉ cmd_keys c
  end.

Lemma live_zset_typed issued st now u sid :
  index_typed issued st → is_Some (live_zset st now (_user_sessions_key u) !! sid) → sid ∈ issued.
Proof.
  unfold live_zset. intros Ht. destruct (live st now _) as [[]|] eqn:E; try by intros [].
  apply live_Some in E as (d & E & _). apply Ht in E as (z' & [= ->] & Hz). auto.
Qed.

Lemma foldr_delete_Some (m : gmap string Z) xs k v :
  foldr delete m xs !! k = Some v ↔ m !! k = Some v ∧ k ∉ xs.
Proof.
  induction xs as [|x xs IH]; simpl; [set_solver|].
  rewrite lookup_delete_Some, IH, not_elem_of_cons. naive_solver.
Qed.

Lemma entry_typed issued st now u v d :
  index_typed issued st → entry st now (_user_sessions_key u) = Some (v, d) →
  ∃ z, v = RZset z ∧ ∀ sid, is_Some (z !! sid) → sid ∈ issued.
Proof. intros Ht [E _]%entry_Some. eauto. Qed.

Lemma index_command_typed issued st now c :
  index_typed issued st → index_command issued c → index_typed issued (run_cmd now c st).
Proof.
  intros Ht Hc u v d E. destruct (decide (_user_sessions_key u ∈ cmd_keys c)) as [Hin|Hout];
    [|rewrite run_cmd_other in E by done; eauto].
  pose proof (live_zset_typed issued st now u) as Hl.
  destruct c; cbn [index_command] in Hc; try (by destruct (Hc u));
    cbn [cmd_keys] in Hin; apply list_elem_of_singleton in Hin as <-; cbn [run_cmd] in E;
    unfold update_value, nonempty_zset in E; repeat case_match; try (by eauto);
    rewrite put_here in E; simplify_eq/=; try (by eapply entry_typed); eexists; (split; [done|]).
  - intros sid [n [Hn|[_ Hn]]%lookup_union_Some_raw]; eauto.
  - intros sid' [n [[<- <-]|[_ Hn]]%lookup_insert_Some]; eauto.
  - intros sid [n [Hn _]%foldr_delete_Some]. eauto.
  - intros sid [n [Hn _]%map_lookup_filter_Some]. eauto.
Qed.

Lemma index_commands_typed issued st now cs :
  index_typed issued st → (∀ c, c ∈ cs → index_command issued c) → index_typed issued (run_cmds now cs st).
Proof.
  revert st. induction cs as [|c cs IH]; intros st Ht Hc; simpl; [done|].
  apply IH; [|intros c' Hc'; apply Hc; by right]. apply index_command_typed, Hc; [done|left].
Qed.

(** A command that leaves a session expiring at [dl] in its index. *)
Definition keeps_member (u sid : string) (dl : time) (c : Cmd) : Prop :=
  match c with
  | ZADD k m => k = _user_sessions_key u → ∀ n, m !! sid = Some n → dl - L ≤ n
  | ZADDXX k _ n => k = _user_sessions_key u → dl - L ≤ n
  | ZREM k xs => k = _user_sessions_key u → sid ∉ xs
  | ZREMRANGEBYSCORE k mx => k = _user_sessions_key u → mx < dl - L
  | EXPIRE k ttl => k = _user_sessions_key u → ttl = _refresh_lifetime_seconds
  | _ => _user_sessions_key u ∉ cmd_keys c
  end.

Lemma keeps_member_indexed st now u sid dl c :
  now < dl → dl ≤ now + L → indexed st u sid dl → keeps_member u sid dl c →
  indexed (run_cmd now c st) u sid dl.
Proof.
  intros Hnow Hdl (z & di & sc & E & Hdi & Hz & Hsc) Hc.
  destruct (decide (_user_sessions_key u ∈ cmd_keys c)) as [Hin|Hout];
    [|exists z, di, sc; by rewrite run_cmd_other].
  assert (entry st now (_user_sessions_key u) = Some (RZset z, Some di)) as He.
  { apply entry_Some. split; [done|]. intros t [= <-]. lia. }
  destruct c; cbn [keeps_member] in Hc; try done;
    cbn [cmd_keys] in Hin; apply list_elem_of_singleton in Hin as <-; specialize (Hc eq_refl);
    unfold indexed; cbn [run_cmd]; unfold update_value, live_zset, live; rewrite ?He; cbn.
  - rewrite put_here. exists z, (now + secs seconds), sc. rewrite Hc. auto.
  - rewrite put_here. destruct (members !! sid) as [n|] eqn:Hm.
    + exists (members ∪ z), di, n. split_and!; eauto. by apply lookup_union_Some_l.
    + exists (members ∪ z), di, sc. split_and!; eauto. by rewrite lookup_union_r.
  - destruct (z !! member) eqn:Hm; [|eauto 10]. rewrite put_here.
    destruct (decide (member = sid)) as [->|].
    + exists (<[sid:=score]> z), di, score. rewrite lookup_insert_eq. auto.
    + exists (<[member:=score]> z), di, sc. rewrite lookup_insert_ne by done. auto.
  - assert (foldr delete z members !! sid = Some sc) as Hd by (apply foldr_delete_Some; auto).
    rewrite put_here. unfold nonempty_zset. rewrite bool_decide_false by (intros Hn; by rewrite Hn in Hd).
    cbn. eauto 10.
  - assert (filter (λ p, ¬ p.2 ≤ max) z !! sid = Some sc) as Hd.
    { apply map_lookup_filter_Some. split; [done|]. simpl. lia. }
    rewrite put_here. unfold nonempty_zset. rewrite bool_decide_false by (intros Hn; by rewrite Hn in Hd).
    cbn. eauto 10.
Qed.

Lemma keeps_members_indexed st now u sid dl cs :
  now < dl → dl ≤ now + L → indexed st u sid dl → (∀ c, c ∈ cs → keeps_member u sid dl c) →
  indexed (run_cmds now cs st) u sid dl.
Proof.
  intros Hnow Hdl. revert st. induction cs as [|c cs IH]; intros st Hi Hc; simpl; [done|].
  apply IH; [|intros c' Hc'; apply Hc; by right]. apply keeps_member_indexed; try done. apply Hc. left.
Qed.

(** The session [sid] is in the index of [u] with score [n], right now. *)
Definition member (st : Store) (now : time) (u sid : string) (n : Z) : Prop :=
  ∃ z d, entry st now (_user_sessions_key u) = Some (RZset z, d) ∧ z !! sid = Some n.

Lemma update_value_entry now k v st :
  entry (update_value now k (Some v) st) now k = Some (v, entry st now k ≫= snd).
Proof.
  apply entry_Some. unfold update_value. rewrite put_here. split; [done|].
  intros t Ht. destruct (entry st now k) as [[v' d']|] eqn:E; [|done]. simpl in Ht. subst.
  apply entry_Some in E as [_ Hl]. auto.
Qed.

Lemma zadd_member st now u sid n :
  member (run_cmd now (ZADD (_user_sessions_key u) {[sid := n]}) st) now u sid n.
Proof.
  do 2 eexists. cbn [run_cmd]. rewrite update_value_entry. split; [done|].
  by apply lookup_union_Some_l, lookup_singleton_eq.
Qed.

Lemma trim_member st now u sid n mx :
  mx < n → member st now u sid n →
  member (run_cmd now (ZREMRANGEBYSCORE (_user_sessions_key u) mx) st) now u sid n.
Proof.
  intros Hn (z & d & E & Hz). cbn [run_cmd]. unfold live_zset, live. rewrite E. cbn.
  assert (filter (λ p, ¬ p.2 ≤ mx) z !! sid = Some n) as Hd.
  { apply map_lookup_filter_Some. split; [done|]. simpl. lia. }
  unfold nonempty_zset. rewrite bool_decide_false by (intros Hn'; by rewrite Hn' in Hd).
  do 2 eexists. rewrite update_value_entry. done.
Qed.

Lemma expire_member st now u sid n :
  member st now u sid n → n = now →
  indexed (run_cmd now (EXPIRE (_user_sessions_key u) _refresh_lifetime_seconds) st) u sid (now + L).
Proof.
  intros (z & d & E & Hz) ->. cbn [run_cmd]. rewrite E. unfold indexed. rewrite put_here.
  exists z, (now + L), now. split_and!; [done|lia|done|lia].
Qed.

(** *** Steps *)

Context (HL : 0 < _refresh_lifetime_seconds).

Lemma L_positive : 0 < L.
Proof. unfold L, secs, TICKS. lia. Qed.

Lemma session_data_ok now u tenant ip agent sid jti susp :
  session_ok sid u (session_data now u tenant ip agent sid jti susp).
Proof. unfold session_data. split_and!; try reflexivity; eexists; reflexivity. Qed.

Lemma rotation_ok now sid u jti new h : session_ok sid u h → session_ok sid u (rotation_update now jti new ∪ h).
Proof.
  intros (Hs & Hu & Hj & He & Ha).
  split_and!; [rewrite lookup_union_r by done; done|rewrite lookup_union_r by done; done| | |].
  - eexists. by apply lookup_union_Some_l.
  - eexists. by apply lookup_union_Some_l.
  - eexists. by apply lookup_union_Some_l.
Qed.

(** The sessions whose keys a batch leaves alone. *)
Lemma sessions_frame s now cs (P : string → Prop) :
  sys_ok s → clock s ≤ now → 
  (∀ sid u dl, sid ∈ created s → P sid → now < dl → dl ≤ clock s + L → ∀ c, c ∈ cs → keeps_member u sid dl c) →
  (∀ sid c, P sid → c ∈ cs → _session_key sid ∉ cmd_keys c) →
  ∀ sid v d, sid ∈ created s → P sid →
    kv (run_cmds now cs (store s)) !! _session_key sid = Some (v, d) →
    ∃ h u dl, v = RHash h ∧ d = Some dl ∧ session_ok sid u h ∧ dl ≤ now + L ∧
      (now < dl → indexed (run_cmds now cs (store s)) u sid dl).
Proof.
  intros [Hs _] Hnow Hkeep Hkeys sid v d Hin HP E. rewrite run_cmds_other in E by eauto.
  destruct (Hs _ _ _ Hin E) as (h & u & dl & -> & -> & Hok & Hdl & Hi).
  exists h, u, dl. split_and!; [done..|lia|]. intros Hl.
  apply keeps_members_indexed; [lia|lia|apply Hi; lia|]. by apply Hkeep.
Qed.

(** Case analysis on a command of a batch. *)
Ltac each_command Hc tac :=
  rewrite ?elem_of_cons, elem_of_nil in Hc; destruct_or! Hc; try done; subst; tac.

(** The transactions of a session leave the keys of the others alone. *)
Lemma create_keys now u ip sid dev data entry sid' c :
  sid' ≠ sid → c ∈ create_commands now u ip sid dev data entry → _session_key sid' ∉ cmd_keys c.
Proof.
  intros Hne Hc. unfold create_commands in Hc. cbv zeta in Hc.
  each_command Hc ltac:(cbn [cmd_keys]; intros Hk%list_elem_of_singleton; try done).
  all: by apply Hne, session_key_inj.
Qed.

Lemma rotate_keys now sid jti u new rem sid' c :
  sid' ≠ sid → c ∈ rotate_commands now sid jti u new rem → _session_key sid' ∉ cmd_keys c.
Proof.
  intros Hne Hc. unfold rotate_commands in Hc. cbv zeta in Hc.
  each_command Hc ltac:(cbn [cmd_keys]; intros Hk%list_elem_of_singleton; try done).
  all: by apply Hne, session_key_inj.
Qed.

Lemma revoke_keys sid u jti rem sid' c :
  sid' ≠ sid → c ∈ revoke_commands sid u jti rem → _session_key sid' ∉ cmd_keys c.
Proof.
  intros Hne Hc. unfold revoke_commands in Hc.
  each_command Hc ltac:(cbn [cmd_keys]; try by intros ?%list_elem_of_singleton).
  by intros [?%session_key_inj|[?|[]%elem_of_nil]%elem_of_cons]%elem_of_cons.
Qed.

Lemma index_typed_mono issued issued' st : issued ⊆ issued' → index_typed issued st → index_typed issued' st.
Proof. intros Hsub Ht u v d E. destruct (Ht _ _ _ E) as (z & -> & Hz). eauto. Qed.

Lemma create_index_commands now u ip sid dev data entry issued c :
  sid ∈ issued → c ∈ create_commands now u ip sid dev data entry → index_command issued c.
Proof.
  intros Hin Hc. unfold create_commands in Hc. cbv zeta in Hc.
  each_command Hc ltac:(cbn [index_command cmd_keys]; try done; try by intros ? ?%list_elem_of_singleton).
  - intros u' _ sid' [n [<- _]%lookup_singleton_Some]. done.
Qed.

Lemma create_keeps now u ip sid dev data entry u' sid' dl c :
  sid' ≠ sid → now < dl → c ∈ create_commands now u ip sid dev data entry → keeps_member u' sid' dl c.
Proof.
  intros Hne Hlt Hc. unfold create_commands in Hc. cbv zeta in Hc.
  each_command Hc ltac:(cbn [keeps_member cmd_keys]; try done; try by intros ?%list_elem_of_singleton).
  - intros _ n [<- _]%lookup_singleton_Some. congruence.
  - unfold L. lia.
Qed.

Lemma rotate_index_commands now sid jti u new rem issued c :
  sid ∈ issued → c ∈ rotate_commands now sid jti u new rem → index_command issued c.
Proof.
  intros Hin Hc. unfold rotate_commands in Hc. cbv zeta in Hc.
  each_command Hc ltac:(cbn [index_command cmd_keys]; try done; try by intros ? ?%list_elem_of_singleton).
  intros u' _ sid' [n [<- _]%lookup_singleton_Some]. done.
Qed.

Lemma rotate_keeps now sid jti u new rem u' sid' dl c :
  dl ≤ now + L → c ∈ rotate_commands now sid jti u new rem → keeps_member u' sid' dl c.
Proof.
  intros Hlt Hc. unfold rotate_commands in Hc. cbv zeta in Hc.
  each_command Hc ltac:(cbn [keeps_member cmd_keys]; try done; try by intros ?%list_elem_of_singleton).
  intros _ n [_ <-]%lookup_singleton_Some. lia.
Qed.

Lemma revoke_keeps sid jti u rem u' sid' dl c :
  sid' ≠ sid → c ∈ revoke_commands sid u jti rem → keeps_member u' sid' dl c.
Proof.
  intros Hne Hc. unfold revoke_commands in Hc.
  each_command Hc ltac:(cbn [keeps_member cmd_keys]; try done; try by intros ?%list_elem_of_singleton).
  - by intros [?|[?|[]%elem_of_nil]%elem_of_cons]%elem_of_cons.
  - by intros _ ?%list_elem_of_singleton.
Qed.

Lemma revoke_index_commands sid jti u rem issued c :
  c ∈ revoke_commands sid u jti rem → index_command issued c.
Proof.
  intros Hc. unfold revoke_commands in Hc.
  each_command Hc ltac:(cbn [index_command cmd_keys]; try done; try by intros ? ?%list_elem_of_singleton).
  by intros ? [?|[?|[]%elem_of_nil]%elem_of_cons]%elem_of_cons.
Qed.

(** A new session and its place in the index. *)
Lemma created_session now u ip sid dev data entry st :
  kv st !! _session_key sid = None →
  kv (run_cmds now (create_commands now u ip sid dev data entry) st) !! _session_key sid =
    Some (RHash data, Some (now + L)) ∧
  indexed (run_cmds now (create_commands now u ip sid dev data entry) st) u sid (now + L).
Proof.
  intros Hnone. pose proof L_positive as HLp. unfold create_commands. cbv zeta.
  match goal with |- context [run_cmds now (?a :: ?b :: ?c :: ?d :: ?e :: ?rest) st] =>
    change (a :: b :: c :: d :: e :: rest) with ([a; b] ++ [c; d; e] ++ rest) end.
  rewrite !run_cmds_app. split.
  - rewrite run_cmds_other by keys_apart. rewrite run_cmds_other by keys_apart.
    rewrite hset_expire. unfold live_hash, live, Redis.entry. rewrite Hnone. cbn.
    by rewrite (right_id_L ∅ (∪)).
  - apply keeps_members_indexed; [lia|lia| |].
    + rewrite !run_cmds_cons. apply expire_member with now; [|done].
      apply trim_member; [unfold L in HLp; lia|]. apply zadd_member.
    + intros c Hc.
      each_command Hc ltac:(cbn [keeps_member cmd_keys]; try done; try by intros ?%list_elem_of_singleton).
Qed.

Lemma create_step_ok s now sid jti u tenant ip agent susp entry :
  sys_ok s → clock s ≤ now → sid ∉ created s → kv (store s) !! _session_key sid = None →
  sys_ok (mkSys
    (run_cmds now (create_commands now u ip sid (parse_user_agent agent)
                     (session_data now u tenant ip agent sid jti susp) entry) (store s))
    now ({[sid]} ∪ created s)).
Proof.
  intros Hok Hnow Hin Hnone. split; cbn [store clock created].
  - intros sid' v d Hsid'. cbn [store clock created] in *. destruct (decide (sid' = sid)) as [->|Hne].
    + intros E. destruct (created_session now u ip sid (parse_user_agent agent)
        (session_data now u tenant ip agent sid jti susp) entry (store s) Hnone) as [Ek Hi].
      rewrite Ek in E. injection E as <- <-.
      eexists _, u, _. split_and!; [done..|apply session_data_ok|done|done].
    + apply (sessions_frame s now _ (λ x, x ≠ sid)); try done; [| |set_solver].
      * intros. by eapply create_keeps.
      * intros sid'' c. apply create_keys.
  - apply index_commands_typed; [eapply index_typed_mono, Hok; set_solver|].
    intros c Hc. eapply create_index_commands, Hc. set_solver.
Qed.

(** A batch that touches no session and keeps every member. *)
Lemma quiet_step_ok s now cs :
  sys_ok s → clock s ≤ now →
  (∀ sid u h dl c, sid ∈ created s → kv (store s) !! _session_key sid = Some (RHash h, Some dl) →
     now < dl → dl ≤ now + L → c ∈ cs → keeps_member u sid dl c) →
  (∀ sid c, sid ∈ created s → c ∈ cs → _session_key sid ∉ cmd_keys c) →
  (∀ c, c ∈ cs → index_command (created s) c) →
  sys_ok (mkSys (run_cmds now cs (store s)) now (created s)).
Proof.
  intros [Hs Ht] Hnow Hkeep Hkeys Hidx. split; cbn [store clock created].
  - intros sid v d Hin E. cbn [store clock created] in *. rewrite run_cmds_other in E by eauto.
    destruct (Hs _ _ _ Hin E) as (h & u & dl & -> & -> & Hok & Hdl & Hi).
    exists h, u, dl. split_and!; [done..|lia|]. intros Hl.
    apply keeps_members_indexed; [lia|lia|apply Hi; lia|]. intros c Hc. eapply Hkeep; eauto. lia.
  - by apply index_commands_typed.
Qed.

Lemma rotate_step_ok s now sid jti u new rem :
  sys_ok s → clock s ≤ now → sid ∈ created s →
  live_hash (store s) now (_session_key sid) !! "user_id" = Some u →
  sys_ok (mkSys (run_cmds now (rotate_commands now sid jti u new rem) (store s)) now (created s)).
Proof.
  intros Hok Hnow Hin Hu. pose proof L_positive as HLp.
  split; cbn [store clock created].
  - intros sid' v d Hsid'. cbn [store clock created] in *. destruct (decide (sid' = sid)) as [->|Hne].
    + rewrite rotated_hash. intros [= <- <-]. unfold live_hash in *.
      destruct (live (store s) now (_session_key sid)) as [[]|] eqn:El; try done.
      apply live_Some in El as (d & El & _). destruct Hok as [Hs _].
      destruct (Hs _ _ _ Hin El) as (h' & u' & dl & [= <-] & -> & Hh & Hdl & _).
      assert (u' = u) as -> by (destruct Hh as (_ & Hu' & _); congruence).
      eexists _, u, _. split_and!; [done..|by apply rotation_ok|done|]. intros _.
      unfold rotate_commands. cbv zeta.
      match goal with |- context [run_cmds now (?a :: ?b :: ?c :: ?rest)] =>
        change (a :: b :: c :: rest) with ([a; b; c] ++ rest) end.
      rewrite run_cmds_app, !run_cmds_cons. apply expire_member with now; [|done]. apply zadd_member.
    + apply (sessions_frame s now _ (λ x, x ≠ sid)); try done.
      * intros. eapply rotate_keeps; [|done]. lia.
      * intros sid'' c. apply rotate_keys.
  - apply index_commands_typed; [apply Hok|]. intros c Hc. by eapply rotate_index_commands.
Qed.

Lemma revoked_key_gone now sid u jti rem st v d :
  kv (run_cmds now (revoke_commands sid u jti rem) st) !! _session_key sid = Some (v, d) →
  kv st !! _session_key sid = Some (v, d) ∧ ∃ dl, d = Some dl ∧ dl ≤ now.
Proof.
  unfold revoke_commands. rewrite !run_cmds_cons.
  rewrite run_cmds_other by by intros c ?%elem_of_nil.
  rewrite (run_cmd_other _ (ZREM _ _)) by by intros ?%list_elem_of_singleton.
  set (s1 := run_cmd now (SET _ _ _) st). cbn [run_cmd foldr].
  set (s2 := match entry s1 now (touch_key sid) with Some _ => _ | None => s1 end).
  assert (kv s2 !! _session_key sid = kv st !! _session_key sid) as E2.
  { transitivity (kv s1 !! _session_key sid).
    - unfold s2. case_match; [by rewrite put_other|done].
    - unfold s1. by rewrite run_cmd_other by by intros ?%list_elem_of_singleton. }
  destruct (entry s2 now (_session_key sid)) as [[v' d']|] eqn:E; [by rewrite put_here|].
  rewrite E2. intros Ek. split; [done|].
  unfold entry in E. rewrite E2, Ek in E. simpl in E.
  destruct d as [dl|]; [|done]. case_bool_decide; [done|]. exists dl. split; [done|lia].
Qed.

Lemma revoke_step_ok s now sid u jti rem :
  sys_ok s → clock s ≤ now →
  sys_ok (mkSys (run_cmds now (revoke_commands sid u jti rem) (store s)) now (created s)).
Proof.
  intros Hok Hnow. split; cbn [store clock created].
  - intros sid' v d Hsid'. cbn [store clock created] in *. destruct (decide (sid' = sid)) as [->|Hne].
    + intros (E & dl & -> & Hdl)%revoked_key_gone. destruct Hok as [Hs _].
      destruct (Hs _ _ _ Hsid' E) as (h & u' & dl' & -> & [= <-] & Hh & _ & _).
      exists h, u', dl. pose proof L_positive. split_and!; [done..|lia|lia].
    + apply (sessions_frame s now _ (λ x, x ≠ sid)); try done.
      * intros. by eapply revoke_keeps.
      * intros sid'' c. apply revoke_keys.
  - apply index_commands_typed; [apply Hok|]. intros c Hc. by eapply revoke_index_commands.
Qed.

Lemma foreign_keeps issued c u sid dl : foreign issued c → keeps_member u sid dl c.
Proof.
  intros Hf. assert (∀ u, _user_sessions_key u ∉ cmd_keys c) as Hn.
  { intros u' [Hu _]%Hf. by eapply Hu. }
  destruct c; cbn [keeps_member cmd_keys] in *; try apply Hn.
  all: intros ->; destruct (Hn u); left.
Qed.

Lemma foreign_index issued c : foreign issued c → index_command issued c.
Proof.
  intros Hf. assert (∀ u, _user_sessions_key u ∉ cmd_keys c) as Hn.
  { intros u' [Hu _]%Hf. by eapply Hu. }
  destruct c; cbn [index_command cmd_keys] in *; try done.
  intros u ->. destruct (Hn u). left.
Qed.

Lemma sys_step_ok s s' : sys_step s s' → sys_ok s → sys_ok s'.
Proof.
  destruct 1 as [| | |s now sid u Hnow|s now u stale Hnow Hst|s now cs Hnow Hf]; intros Hok.
  - by apply create_step_ok.
  - by apply rotate_step_ok.
  - by apply revoke_step_ok.
  - apply quiet_step_ok; [done..|intros sid' u' h dl c _ _ _ Hdl Hc|intros sid' c _ Hc|intros c Hc].
    + each_command Hc ltac:(cbn [keeps_member]; lia).
    + each_command Hc ltac:(by intros ?%list_elem_of_singleton).
    + each_command Hc ltac:(done).
  - apply quiet_step_ok; [done..|intros sid u' h dl c Hin Ek Hlt Hdl Hc|intros sid c _ Hc|intros c Hc].
    + each_command Hc ltac:(cbn [keeps_member]). intros _ Hin'.
      apply Hst in Hin'.
      assert (live (store s) now (_session_key sid) = Some (RHash h)) as Hl; [|congruence].
      apply live_Some. eexists. split; [done|]. by intros t [= <-].
    + each_command Hc ltac:(by intros ?%list_elem_of_singleton).
    + each_command Hc ltac:(done).
  - apply quiet_step_ok; [done..|intros sid u h dl c _ _ _ _ Hc|intros sid c Hin Hc|intros c Hc].
    + by eapply foreign_keeps, Hf.
    + intros Hk. by eapply (Hf c).
    + by apply foreign_index, Hf.
Qed.

(** ** What the invariant tells a reader *)

Section reads.
Context `{Redis St}.

Lemma live_session_ok s now sid u :
  sys_ok s → sid ∈ created s → live_hash (store s) now (_session_key sid) !! "user_id" = Some u →
  session_ok sid u (live_hash (store s) now (_session_key sid)) ∧
  (clock s ≤ now → now < now + L → ∃ dl, now < dl ∧ indexed (store s) u sid dl).
Proof.
  intros [Hs _] Hin Hu. unfold live_hash in *.
  destruct (live (store s) now (_session_key sid)) as [[]|] eqn:E; try done.
  apply live_Some in E as (d & E & Hd).
  destruct (Hs _ _ _ Hin E) as (h' & u' & dl & [= <-] & -> & Hok & _ & Hi).
  assert (u' = u) as -> by (destruct Hok as (_ & Hu' & _); congruence).
  split; [done|]. intros Hc _. specialize (Hd dl eq_refl). exists dl. split; [done|]. apply Hi. lia.
Qed.

Lemma with_last_active_ok n sid u h (w : RWorld St) :
  session_ok sid u h → ∃ row, with_last_active n h w = (inr row, w) ∧ row !! "sid" = Some sid.
Proof.
  intros (Hs & _ & _ & _ & t & Ht). unfold with_last_active, to_time, or_else. rewrite Ht.
  cbn [default]. unfold id, nonempty. rewrite bool_decide_false by apply str_time_nonempty.
  cbn [negb]. cbv iota. rewrite float_str_time. eexists. split; [done|]. by rewrite lookup_insert_ne.
Qed.

Lemma with_last_active_run (rows : list (string * Z * gmap string string)) w :
  (∀ p, p ∈ rows → ∃ u, session_ok p.1.1 u p.2) →
  ∃ out, mapM (M:=M (RWorld St)) (λ p, with_last_active p.1.2 p.2) rows w = (inr out, w) ∧
    Forall2 (λ row sid, row !! "sid" = Some sid) out (rows.*1.*1).
Proof.
  induction rows as [|p rows IH]; intros Hok; [by exists []|].
  destruct (Hok p) as (u & Hp); [left|].
  destruct (with_last_active_ok p.1.2 p.1.1 u p.2 w Hp) as (row & Er & Hr).
  destruct IH as (out & E & Hout); [intros q Hq; apply Hok; by right|].
  exists (row :: out). split; [|constructor; [exact Hr|exact Hout]].
  cbn [mapM]. cbv [mbind M_bind mret M_ret] in E |- *. cbv beta. by rewrite Er, E.
Qed.

(** The index of [u], as [list_sessions] reads it. *)
Definition index_members (now : time) (u : string) (st : Store) : list (string * Z) :=
  zmembers (live_zset st now (_user_sessions_key u)).

Lemma ZRANGE_index s now u :
  sys_ok s → ZRANGE now (_user_sessions_key u) (store s) = Some (index_members now u (store s)).
Proof.
  intros [_ Ht]. unfold ZRANGE, index_members, live_zset.
  destruct (live (store s) now (_user_sessions_key u)) as [v|] eqn:E; [|done].
  apply live_Some in E as (d & E & _). by destruct (Ht _ _ _ E) as (z & -> & _).
Qed.

Lemma elem_of_zmembers z p : p ∈ zmembers z ↔ z !! p.1 = Some p.2.
Proof.
  unfold zmembers. rewrite merge_sort_Permutation. destruct p. by rewrite elem_of_map_to_list.
Qed.
End reads.
End system.
