(* ===== verification/ForcedLogout.v ===== *)
(** Forced logout while other requests act ([app/core/sessions.py]): what each
    call of the program can make of a session, whatever else happens between
    its round trips; and the run of [revoke_all_sessions] among such calls,
    after which the sessions of the user are gone for good. *)
From S2P Require Import Prelude PyText Config Models Codecs Redis RedisLaws Sessions SessionLaws SessionIndex.
From stdpp Require Import sorting.
Local Open Scope string_scope.
Local Open Scope Z_scope.
Local Open Scope list_scope.
#[local] Arguments run_cmds : simpl never.
#[local] Arguments revoke_commands : simpl never.

(** ** The calls of the program *)

(** The calls of [app/core/sessions.py] that write, with their arguments and
    instants. *)
Inductive Call :=
  | CreateSession (now : time) (sid jti user_id : string) (tenant_id : option string) (ip : string) (user_agent : option string)
  | RotateRefresh (clock : nat → time) (fresh : nat → string) (sid jti user_id : string)
  | RevokeSession (now : time) (sid : string) (user_id : option string)
  | RevokeAllSessions (now : time) (user_id : string)
  | ListSessions (now : time) (user_id : string)
  | TouchSession (now : time) (sid : string).

(** The session a call creates. *)
Definition creates (c : Call) : gset string := match c with CreateSession _ sid _ _ _ _ _ => {[sid]} | _ => ∅ end.

Section calls.
Context `{Settings, UserAgents, GeoIp, JsonText, FloatText, Redis St}.

Definition run_call (c : Call) : M (RWorld St) unit :=
  match c with
  | CreateSession now sid jti u tenant ip agent => create_session now sid jti u tenant ip agent;; mret tt
  | RotateRefresh clock fresh sid jti u => rotate_refresh clock fresh sid jti u;; mret tt
  | RevokeSession now sid u => revoke_session now sid u;; mret tt
  | RevokeAllSessions now u => revoke_all_sessions now u;; mret tt
  | ListSessions now u => list_sessions now u;; mret tt
  | TouchSession now sid => touch_session now sid;; mret tt
  end.

Let L : Z := secs _refresh_lifetime_seconds.

(** The renewals of a call happen less than the life of a session before
    [now], or later. *)
Definition timely (now : time) (c : Call) : Prop :=
  match c with RotateRefresh clock _ _ _ _ => ∀ i, now < clock i + L | _ => True end.

(** A transition of the other clients: one that some call of the program makes
    of the store, whatever others did before and between its round trips; or a
    command on neither a session in [old] nor an index. New sessions have new
    names. *)
Definition step (old : gset string) (now : time) (a b : Store) : Prop :=
  (∃ c (w w' : RWorld St) r, creates c ## old ∧ timely now c ∧ history w = [] ∧ run_call c w = (r, w') ∧ Own a b ∈ history w') ∨
  (∃ t c, foreign old c ∧ b = run_cmd t c a).

(** ** What a call makes of a session *)

(** The session stays, goes, or has been renewed while it was there. *)
Definition evolves (old : gset string) (now : time) (a b : Store) : Prop :=
  ∀ sid, sid ∈ old → let k := _session_key sid in
  kv b !! k = kv a !! k ∨ kv b !! k = None ∨
  ∃ t h d jti new, now < t + L ∧ kv a !! k = Some (RHash h, d) ∧
    kv b !! k = Some (RHash (rotation_update t jti new ∪ h), Some (t + L)).

Section evolution.
Context (old : gset string) (now : time).
#[local] Abbreviation G := (evolves old now).

Lemma evolves_refl a : G a a.
Proof. intros sid _. by left. Qed.

Lemma evolves_other a t cs :
  (∀ sid c, sid ∈ old → c ∈ cs → _session_key sid ∉ cmd_keys c) → G a (run_cmds t cs a).
Proof. intros Hk sid Hin. left. apply run_cmds_other. intros c Hc. by apply Hk. Qed.

Lemma evolves_revoked a t sid u jti rem : G a (run_cmds t (revoke_commands sid u jti rem) a).
Proof.
  intros sid' _. cbv zeta. destruct (decide (sid' = sid)) as [->|Hne].
  - destruct (kv (run_cmds t _ a) !! _session_key sid) as [[v d]|] eqn:E; [|by right; left].
    apply revoked_key_gone in E as [E _]. by left.
  - left. apply run_cmds_other. intros c. by apply revoke_keys.
Qed.

Lemma evolves_rotated a t sid jti u new rem :
  now < t + L → is_Some (live_hash a t (_session_key sid) !! "user_id") →
  G a (run_cmds t (rotate_commands t sid jti u new rem) a).
Proof.
  intros Ht Hu sid' _. cbv zeta. destruct (decide (sid' = sid)) as [->|Hne].
  - right. right. rewrite rotated_hash. unfold live_hash in *.
    destruct (live a t (_session_key sid)) as [[| h | |]|] eqn:El; try by (rewrite lookup_empty in Hu; destruct Hu).
    apply live_Some in El as (d & Ek & _). by exists t, h, d, jti, new.
  - left. apply run_cmds_other. intros c. by apply rotate_keys.
Qed.

Lemma guar_revoke_session t sid u : guar G (λ _, True) (revoke_session (St:=St) t sid u).
Proof.
  apply guar_on_redis_error, guar_bind; [apply guar_query, evolves_refl|]. intros data.
  destruct (_ || _); [apply guar_mret|]. apply guar_bind.
  { unfold to_time. destruct (float_time _); [apply guar_mret|apply guar_raise]. }
  intros expires. apply guar_bind; [unfold field; destruct (_ !! _); [apply guar_mret|apply guar_raise]|]. intros jti.
  apply guar_bind; [unfold field; destruct (_ !! _); [apply guar_mret|apply guar_raise]|]. intros owner.
  apply guar_bind; [|intros []; apply guar_mret].
  apply guar_execute; [apply evolves_refl|]. intros a. apply evolves_revoked.
Qed.

Lemma guar_session_rows t l : guar G (λ _, True) (session_rows (St:=St) t l).
Proof.
  induction l as [|p l IH]; [apply guar_mret|]. cbn [session_rows].
  apply guar_bind; [apply guar_query, evolves_refl|]. intros row. apply guar_bind; [exact IH|]. intros rows. apply guar_mret.
Qed.

Lemma guar_mapM {A B} (f : A → M (RWorld St) B) l : (∀ x, guar G (λ _, True) (f x)) → guar G (λ _, True) (mapM f l).
Proof.
  intros Hf. induction l as [|x l IH]; [apply guar_mret|]. cbn [mapM].
  apply guar_bind; [apply Hf|]. intros y. apply guar_bind; [exact IH|]. intros ys. apply guar_mret.
Qed.

Lemma guar_list_sessions t u : guar G (λ _, True) (list_sessions (St:=St) t u).
Proof.
  apply guar_bind.
  - apply guar_on_redis_error, guar_bind; [apply guar_query, evolves_refl|]. intros members.
    apply guar_bind; [apply guar_session_rows|]. intros rows. cbv zeta. apply guar_bind; [|intros []; apply guar_mret].
    case_bool_decide; [apply guar_mret|]. apply guar_execute; [apply evolves_refl|]. intros a.
    apply evolves_other. intros sid c _ ->%list_elem_of_singleton. by intros ?%list_elem_of_singleton.
  - intros rows. apply guar_mapM. intros p. apply guar_bind; [|intros; apply guar_mret].
    unfold to_time. destruct (float_time _); [apply guar_mret|apply guar_raise].
Qed.

Lemma guar_revoke_all t u : guar G (λ _, True) (revoke_all_sessions (St:=St) t u).
Proof.
  apply guar_bind; [apply guar_list_sessions|]. intros rows. induction rows as [|row rows IH]; [apply guar_mret|].
  cbn [revoke_each]. apply guar_bind; [unfold field; destruct (_ !! _); [apply guar_mret|apply guar_raise]|]. intros sid.
  apply guar_bind; [apply guar_revoke_session|]. intros b. apply guar_bind; [exact IH|]. intros n. apply guar_mret.
Qed.

Lemma guar_touch t sid : guar G (λ _, True) (touch_session (St:=St) t sid).
Proof.
  apply guar_on_redis_error, guar_bind; [apply guar_query, evolves_refl|]. intros data.
  apply guar_bind.
  - apply guar_round_trip; [apply unaffected_true|intros; apply evolves_refl|]. intros a _. apply evolves_other.
    intros x c _ ->%list_elem_of_singleton. by intros ?%list_elem_of_singleton.
  - intros b. destruct (data !! "user_id"); [|apply guar_mret]. apply guar_bind; [|intros []; apply guar_mret].
    destruct b; [|apply guar_mret]. apply guar_execute; [apply evolves_refl|]. intros a. apply evolves_other.
    intros x c _ ->%list_elem_of_singleton. by intros ?%list_elem_of_singleton.
Qed.

Lemma guar_create t sid jti u tenant ip agent : sid ∉ old → guar G (λ _, True) (create_session (St:=St) t sid jti u tenant ip agent).
Proof.
  intros Hold. apply guar_on_redis_error, guar_bind; [apply guar_query, evolves_refl|]. intros known.
  apply guar_bind; [apply guar_query, evolves_refl|]. intros raw.
  apply guar_bind; [destruct (mapM loads raw); [apply guar_mret|apply guar_raise]|]. intros hist. cbv zeta.
  apply guar_bind; [|intros []; apply guar_mret]. apply guar_execute; [apply evolves_refl|]. intros a. apply evolves_other.
  intros x c Hx. apply create_keys. by intros ->.
Qed.
Lemma offline_to_time x : offline (to_time (St:=St) x).
Proof. intros w. unfold to_time. by destruct (float_time x). Qed.
Lemma offline_field k h : offline (field (W:=RWorld St) k h).
Proof. intros w. unfold field. by destruct (h !! k). Qed.
Lemma offline_bind {A B} (m : M (RWorld St) A) (f : A → M (RWorld St) B) : offline m → (∀ x, offline (f x)) → offline (m ≫= f).
Proof.
  intros Hm Hf w. unfold mbind, M_bind. specialize (Hm w). destruct (m w) as [[e|x] w1]; cbn in *; [done|]. subst. apply Hf.
Qed.

(** What follows the three reads of an attempt at a renewal, which saw [data]
    while the session had version [watched]. *)
Definition rotate_decision (t : time) (new sid jti u : string) (watched : nat) (data : gmap string string) (blacklisted : bool) :
    M (RWorld St) (option RefreshOutcome) :=
  if bool_decide (data = ∅) || negb (bool_decide (data !! "user_id" = Some u)) then
    raise (SessionInvalid (if (blacklisted : bool) then "revoked" else "unknown_session"))
  else
  grace ← (if bool_decide (data !! "previous_jti" = Some jti) && truthy (data !! "rotated_at") then
             rotated_at ← to_time (default "" (data !! "rotated_at"));
             mret (bool_decide (t - rotated_at ≤ secs REFRESH_REUSE_GRACE_SECONDS))
           else mret false);
  if (grace : bool) then mret (Some (mkOutcome data None))
  else if negb (bool_decide (data !! "refresh_jti" = Some jti)) || blacklisted then
    revoke_session t sid None;;
    raise (SessionInvalid "refresh_token_reuse")
  else
    expires_at ← field "expires_at" data ≫= to_time;
    done ← execute_watched t (_session_key sid) watched
             (rotate_commands t sid jti u new (at_least_1s (expires_at - t)));
    mret (if (done : bool) then Some (mkOutcome (rotation_update t jti new ∪ data) (Some new))
          else None).

Lemma guar_decision (R : Store → Store → Prop) P t new sid jti u watched data blacklisted :
  unaffected P → (∀ s, P s → R s s) → guar R (λ _, True) (revoke_session (St:=St) t sid None) →
  (∀ s rem, P s → version s (_session_key sid) = watched → data !! "user_id" = Some u →
     R s (run_cmds t (rotate_commands t sid jti u new rem) s)) →
  guar R P (rotate_decision t new sid jti u watched data blacklisted).
Proof.
  intros Hu Hr Hrevoke Hc. unfold rotate_decision. destruct (_ || _) eqn:Eu; [apply guar_raise|].
  apply orb_false_iff in Eu as [_ Eu]. apply negb_false_iff, bool_decide_eq_true in Eu.
  apply guar_offline_bind.
  { destruct (_ && _); [|by intros w]. apply offline_bind; [apply offline_to_time|by intros x w]. }
  intros grace. destruct grace; [apply guar_mret|]. destruct (_ || _).
  - apply (guar_weaken _ _ (λ _, True)); [done|]. apply guar_bind; [exact Hrevoke|]. intros b. apply guar_raise.
  - apply guar_offline_bind; [apply offline_bind; [apply offline_field|apply offline_to_time]|]. intros expires.
    intros w r w' [(e & E & ->)|(x & w1 & E & E')]%bind_inv.
    + eapply guar_execute_watched in E; [exact E|done|done|]. intros s HP Hv. by apply Hc.
    + eapply guar_execute_watched in E; [|done|done|intros s HP Hv; by apply Hc].
      assert (w' = w1) as -> by (unfold mret, M_ret in E'; by injection E'). exact E.
Qed.

(** A renewal is only committed while the session is as it was read. *)
Lemma guar_rotate_attempt t new sid jti u : now < t + L → guar G (λ _, True) (rotate_attempt (St:=St) t new sid jti u).
Proof.
  intros Ht. set (key := _session_key sid).
  assert (∀ (s : Store) (P : Store → Prop), unaffected P → unaffected (λ s', guarded key s s' ∧ P s')) as Hg.
  { intros s P HP cs s' [Hs HPs]. split; [etrans; [exact Hs|apply interfere_guarded]|by apply HP]. }
  assert (∀ watched data blacklisted, guar G (λ _, False) (rotate_decision t new sid jti u watched data blacklisted)) as Hex.
  { intros watched data b. apply guar_extends. apply guar_decision; try done. intros w r w' E.
    destruct (guar_revoke_session t sid None w r w' E) as (h & Eh & _). by exists h. }
  assert (∀ watched data, guar G (λ _, False) (query t (EXISTS t (_revoked_key jti)) ≫= rotate_decision t new sid jti u watched data)) as Hex2.
  { intros watched data. apply guar_extends, guar_bind; [by apply guar_query|]. intros b w r w' E.
    destruct (Hex watched data b w r w' E) as (h & Eh & _). by exists h. }
  change (guar G (λ _, True) (query t (λ s, Some (version s key)) ≫= λ watched, query t (HGETALL t key) ≫= λ data,
    query t (EXISTS t (_revoked_key jti)) ≫= rotate_decision t new sid jti u watched data)).
  apply guar_query_bind; [apply unaffected_true|apply evolves_refl| |].
  - intros s1 watched _ [= <-]. exists (λ s, guarded key s1 s ∧ True). split; [done|].
    apply guar_query_bind; [by apply Hg, unaffected_true|apply evolves_refl| |apply Hex2].
    intros s2 data [H12 _] Hd. exists (λ s, guarded key s2 s ∧ True). split; [done|].
    apply guar_query_bind; [by apply Hg, unaffected_true|apply evolves_refl| |apply Hex].
    intros s3 b [H23 _] _. exists (λ s, guarded key s3 s ∧ True). split; [done|].
    apply guar_decision; [by apply Hg, unaffected_true|intros; apply evolves_refl|apply guar_revoke_session|].
    intros s rem [H34 _] Hv Hu. apply evolves_rotated; [done|]. fold key in Hv |- *.
    assert (guarded key s2 s) as [G2 G2'] by (etrans; [exact H23|exact H34]). destruct H12 as [G1 _].
    rewrite (HGETALL_kv s2 s) in Hd by (symmetry; apply G2'; lia). apply HGETALL_live in Hd. rewrite Hd, Hu. eauto.
  - intros watched. apply guar_extends, guar_bind; [by apply guar_query|]. intros data w r w' E.
    destruct (Hex2 watched data w r w' E) as (h & Eh & _). by exists h.
Qed.

Lemma guar_rotate_refresh clock fresh sid jti u :
  (∀ i, now < clock i + L) → guar G (λ _, True) (rotate_refresh (St:=St) clock fresh sid jti u).
Proof.
  intros Hc. apply guar_on_redis_error. generalize _MAX_ROTATION_ATTEMPTS at 1. intros n. induction n as [|n IH]; [apply guar_raise|].
  cbn [rotate_loop]. apply guar_bind; [by apply guar_rotate_attempt|]. intros [o|]; [apply guar_mret|exact IH].
Qed.

(** Whatever the others do, a call keeps the sessions as [evolves] says. *)
Lemma call_evolves c : creates c ## old → timely now c → guar G (λ _, True) (run_call c).
Proof.
  destruct c; cbn [creates timely run_call]; intros Hc Ht; (apply guar_bind; [|intros; apply guar_mret]).
  - apply guar_create. set_solver.
  - by apply guar_rotate_refresh.
  - apply guar_revoke_session.
  - apply guar_revoke_all.
  - apply guar_list_sessions.
  - apply guar_touch.
Qed.

Lemma step_evolves a b : step old now a b → G a b.
Proof.
  intros [(c & w & w' & r & Hc & Ht & Hh & E & Hab)|(t & c & Hf & ->)].
  - destruct (call_evolves c Hc Ht w r w' E) as (h & Eh & Hg). apply Hg; [done|]. by rewrite Eh, Hh in Hab.
  - apply (evolves_other a t [c]). intros sid c' Hin ->%list_elem_of_singleton Hk. by destruct (Hf _ Hk) as [_ Hs]; apply (Hs sid).
Qed.

(** A session that is gone stays so. *)
Lemma evolves_gone a b sid : G a b → sid ∈ old → kv a !! _session_key sid = None → kv b !! _session_key sid = None.
Proof. intros Hg Hin Ha. destruct (Hg sid Hin) as [E|[E|(t & h & d & jti & new & _ & E & _)]]; congruence. Qed.

Lemma HGETALL_gone t sid s : kv s !! _session_key sid = None → HGETALL t (_session_key sid) s = Some ∅.
Proof. intros E. unfold HGETALL, live, entry. by rewrite E. Qed.

Lemma steps_gone a b sid : rtc (step old now) a b → sid ∈ old → kv a !! _session_key sid = None → kv b !! _session_key sid = None.
Proof. induction 1 as [|a b c Hab _ IH]; [done|]. intros Hin Ha. apply IH; [done|]. eapply evolves_gone; [by apply step_evolves|done|done]. Qed.
End evolution.

(** ** Forced logout among other requests *)

Section logout.
Context (HL : 0 < _refresh_lifetime_seconds).
Context (s0 : Sys) (Hok : sys_ok s0) (now : time) (Hnow : clock s0 ≤ now) (u : string).
#[local] Abbreviation old := (created s0).
#[local] Abbreviation R := (rtc (step old now)).

(** The owner of a session when the logout begins. *)
Definition owned (sid x : string) : Prop := ∃ h d, kv (store s0) !! _session_key sid = Some (RHash h, d) ∧ h !! "user_id" = Some x.

(** A session that is still there is one of then, with its owner, and, when it
    was alive then, it still is. *)
Definition sessions_kept (st : Store) : Prop :=
  ∀ sid v d, sid ∈ old → kv st !! _session_key sid = Some (v, d) →
    ∃ h x dl, v = RHash h ∧ d = Some dl ∧ session_ok sid x h ∧ owned sid x ∧
      (is_Some (live (store s0) now (_session_key sid)) → now < dl).

Definition mine (sid : string) : Prop :=
  sid ∈ old ∧ live_hash (store s0) now (_session_key sid) !! "user_id" = Some u.

Definition gone (sid : string) (st : Store) : Prop := kv st !! _session_key sid = None.

(** The sessions of other users are left alone. *)
Definition leaves_others (a b : Store) : Prop :=
  ∀ sid x, sid ∈ old → owned sid x → x ≠ u → kv b !! _session_key sid = kv a !! _session_key sid.

Lemma sessions_kept_first : sessions_kept (store s0).
Proof.
  intros sid v d Hin E. destruct (ok_sessions s0 Hok _ _ _ Hin E) as (h & x & dl & -> & -> & Hs & _ & _).
  exists h, x, dl. split_and!; [done..| |].
  - exists h, (Some dl). split; [done|]. by destruct Hs as (_ & ? & _).
  - intros [v (d & E' & Hd)%live_Some]. rewrite E in E'. injection E' as <- <-. by apply Hd.
Qed.

Lemma sessions_kept_evolves a b : sessions_kept a → evolves old now a b → sessions_kept b.
Proof.
  intros Ha Hg sid v d Hin E. destruct (Hg sid Hin) as [E'|[E'|(t & h & d' & jti & new & Ht & Ea & Eb)]];
    [rewrite E' in E; by apply (Ha sid)|congruence|].
  rewrite Eb in E. injection E as <- <-. destruct (Ha _ _ _ Hin Ea) as (h' & x & dl & [= <-] & -> & Hs & Ho & _).
  exists (rotation_update t jti new ∪ h), x, (t + secs _refresh_lifetime_seconds).
  split_and!; [done..|by apply rotation_ok|done|done].
Qed.

(** A predicate of stores that calls keep. *)
Definition lasting (P : Store → Prop) : Prop := ∀ a b, P a → evolves old now a b → P b.

Lemma lasting_stable P : lasting P → stable R P.
Proof. intros HP a b Ha Hab. induction Hab as [|a b c Hab _ IH]; [done|]. apply IH. eapply HP; [exact Ha|by apply step_evolves]. Qed.

Lemma lasting_kept : lasting sessions_kept.
Proof. intros a b. apply sessions_kept_evolves. Qed.
Lemma lasting_gone sid : sid ∈ old → lasting (gone sid).
Proof. intros Hin a b Ha Hg. by eapply evolves_gone. Qed.
Lemma lasting_and P Q : lasting P → lasting Q → lasting (λ s, P s ∧ Q s).
Proof. intros HP HQ a b [Ha Ha'] Hg. split; [by eapply HP|by eapply HQ]. Qed.
Lemma lasting_impl (X : Prop) P : lasting P → lasting (λ s, X → P s).
Proof. intros HP a b Ha Hg HX. eapply HP; [by apply Ha|done]. Qed.
Lemma lasting_pure (X : Prop) : lasting (λ _, X).
Proof. by intros a b Ha _. Qed.
Lemma lasting_all {A} (P : A → Store → Prop) : (∀ x, lasting (P x)) → lasting (λ s, ∀ x, P x s).
Proof. intros HP a b Ha Hg x. eapply HP; [by apply Ha|done]. Qed.
Lemma lasting_mine_gone sid : lasting (λ s, mine sid → gone sid s).
Proof. intros a b Ha Hg Hm. eapply (lasting_gone sid); [apply Hm|by apply Ha|done]. Qed.

Lemma mine_owned sid : mine sid → is_Some (live (store s0) now (_session_key sid)) ∧ ∀ x, owned sid x → x = u.
Proof.
  intros [Hin Hu]. unfold live_hash in Hu. destruct (live (store s0) now (_session_key sid)) as [[| h | |]|] eqn:E; try done.
  split; [eauto|]. intros x (h' & d & Ek & Hx). apply live_Some in E as (d' & E & _). congruence.
Qed.

(** What a read of a session tells. *)
Definition read_of (sid : string) (data : gmap string string) (st : Store) : Prop :=
  (data ≠ ∅ → ∃ x, session_ok sid x data ∧ owned sid x) ∧
  (mine sid → gone sid st ∨ data !! "user_id" = Some u).

Lemma read_session sid st :
  sid ∈ old → sessions_kept st → ∃ data, HGETALL now (_session_key sid) st = Some data ∧ read_of sid data st.
Proof.
  intros Hin Hk. unfold HGETALL. destruct (live st now (_session_key sid)) as [v|] eqn:El.
  - apply live_Some in El as (d & E & Hd). destruct (Hk _ _ _ Hin E) as (h & x & dl & -> & -> & Hs & Ho & _).
    exists h. split; [done|]. split; [eauto|]. intros Hm. right. rewrite <- (proj2 (mine_owned sid Hm) x Ho).
    by destruct Hs as (_ & ? & _).
  - exists ∅. split; [done|]. split; [done|]. intros Hm. left. unfold gone.
    destruct (kv st !! _session_key sid) as [[v d]|] eqn:E; [|done].
    destruct (Hk _ _ _ Hin E) as (h & x & dl & -> & -> & _ & _ & Hl). specialize (Hl (proj1 (mine_owned sid Hm))).
    assert (live st now (_session_key sid) = Some (RHash h)) as Hl'; [|congruence].
    apply live_Some. exists (Some dl). split; [done|]. by intros t [= <-].
Qed.

Lemma lasting_read sid data : lasting (read_of sid data).
Proof.
  intros a b [H1' H2'] Hg. split; [done|]. intros Hm. destruct (H2' Hm) as [Hgone|?]; [left|by right].
  eapply (lasting_gone sid); [apply Hm|done|done].
Qed.

Lemma leaves_refl a : leaves_others a a.
Proof. by intros sid x _ _ _. Qed.

Lemma runs_revoke_session sid (P : Store → Prop) :
  lasting P → (∀ s, P s → sid ∈ old ∧ sessions_kept s) →
  runs R leaves_others P (revoke_session (St:=St) now sid (Some u)) (λ _ s, P s ∧ (mine sid → gone sid s)).
Proof.
  intros HP Hkept. apply runs_on_redis_error. eapply (runs_bind _ _ _ _ (λ data s, P s ∧ read_of sid data s)).
  { apply runs_query; [by apply lasting_stable|apply leaves_refl|]. intros s Hs.
    destruct (Hkept s Hs) as [Hin Hk]. destruct (read_session sid s Hin Hk) as (data & E & Hr). eauto. }
  intros data. cbv beta. destruct (_ || _) eqn:Ed.
  { apply runs_mret. intros s (Hs & Hne & Hr). split; [done|]. intros Hm. destruct (Hr Hm) as [?|Hu]; [done|].
    rewrite (bool_decide_false (data = ∅)) in Ed by (intros ->; done). by rewrite bool_decide_true in Ed. }
  apply orb_false_iff in Ed as [Hne Hu]. apply bool_decide_eq_false in Hne. apply negb_false_iff, bool_decide_eq_true in Hu.
  eapply (runs_bind _ _ _ _ (λ _ s, P s ∧ read_of sid data s)).
  { apply runs_offline; [apply offline_to_time|]. intros s w (Hs & Hr). destruct (proj1 Hr Hne) as (x & (_ & _ & _ & [t Ht] & _) & _).
    exists t. unfold to_time, or_else. rewrite Ht. cbn [default]. unfold id, nonempty.
    rewrite bool_decide_false by apply str_time_nonempty. cbn [negb]. by rewrite float_str_time. }
  intros expires. eapply (runs_bind _ _ _ _ (λ _ s, P s ∧ read_of sid data s)).
  { apply runs_offline; [apply offline_field|]. intros s w (Hs & Hr). destruct (proj1 Hr Hne) as (x & (_ & _ & [j Hj] & _) & _).
    exists j. unfold field. by rewrite Hj. }
  intros jti. eapply (runs_bind _ _ _ _ (λ _ s, P s ∧ read_of sid data s)).
  { apply runs_offline; [apply offline_field|]. intros s w Hs. exists u. unfold field. by rewrite Hu. }
  intros owner. eapply (runs_bind _ _ _ _ (λ _ s, P s ∧ (mine sid → gone sid s))); [|intros []; by apply runs_mret].
  apply runs_execute; [apply lasting_stable, lasting_and; [done|apply lasting_read]|]. intros s (Hs & Hr).
  split; [split; [by eapply HP, evolves_revoked|]|].
  - intros Hm. unfold gone. destruct (kv _ !! _session_key sid) as [[v d]|] eqn:E; [|done].
    apply revoked_key_gone in E as (E & dl & -> & Hdl). destruct (Hkept s Hs) as [Hin Hk].
    destruct (Hk _ _ _ Hin E) as (h & x & dl' & _ & [= <-] & _ & _ & Hl).
    specialize (Hl (proj1 (mine_owned sid Hm))). lia.
  - intros sid' x Hin' Hx Hxu. destruct (decide (sid' = sid)) as [->|Hne'].
    + destruct (proj1 Hr Hne) as (y & (_ & Hy & _) & Hy'). destruct Hx as (h1 & d1 & E1 & Hx), Hy' as (h2 & d2 & E2 & Hy').
      congruence.
    + apply run_cmds_other. intros c. by apply revoke_keys.
Qed.

Lemma lasting_rows (rows : list (string * Z * gmap string string)) :
  lasting (λ s, Forall (λ p, p.1.1 ∈ old ∧ read_of p.1.1 p.2 s) rows).
Proof.
  intros a b Ha Hg. eapply Forall_impl; [exact Ha|]. intros p [Hin Hp]. split; [done|]. by eapply lasting_read.
Qed.

Lemma runs_session_rows (members : list (string * Z)) : ∀ P : Store → Prop,
  lasting P → (∀ s, P s → sessions_kept s ∧ ∀ p, p ∈ members → p.1 ∈ old) →
  runs R leaves_others P (session_rows (St:=St) now members)
    (λ rows s, P s ∧ rows.*1 = members ∧ Forall (λ p, p.1.1 ∈ old ∧ read_of p.1.1 p.2 s) rows).
Proof.
  induction members as [|p members IH]; intros P HP Hkept; [by apply runs_mret|]. cbn [session_rows].
  eapply (runs_bind _ _ _ _ (λ row s, P s ∧ read_of p.1 row s)).
  { apply runs_query; [by apply lasting_stable|apply leaves_refl|]. intros s Hs. destruct (Hkept s Hs) as [Hk Hin].
    destruct (read_session p.1 s (Hin p ltac:(left)) Hk) as (row & E & Hr). eauto. }
  intros row. eapply runs_bind.
  { apply (IH (λ s, P s ∧ read_of p.1 row s)); [by apply lasting_and, lasting_read|]. intros s [Hs _].
    destruct (Hkept s Hs) as [Hk Hin]. split; [done|]. intros q Hq. apply Hin. by right. }
  intros rows. apply runs_mret. intros s ([Hs Hr] & <- & Hrows). split; [done|]. split; [done|].
  constructor; [|done]. split; [|done]. apply (proj2 (Hkept s Hs)). left.
Qed.

(** The rows that are still to be revoked. *)
Definition pending (rows : list (gmap string string)) (s : Store) : Prop :=
  sessions_kept s ∧ Forall (λ row, ∃ sid, row !! "sid" = Some sid ∧ sid ∈ old) rows ∧
  ∀ sid, mine sid → gone sid s ∨ ∃ row, row ∈ rows ∧ row !! "sid" = Some sid.

Lemma lasting_pending rows : lasting (pending rows).
Proof.
  intros a b (Hk & Hin & Hm) Hg. split_and!; [by eapply lasting_kept|done|]. intros sid Hs.
  destruct (Hm sid Hs) as [?|?]; [left|by right]. eapply (lasting_gone sid); [apply Hs|done|done].
Qed.

Lemma runs_revoke_each rows :
  runs R leaves_others (pending rows) (revoke_each (St:=St) now u rows) (λ _ s, ∀ sid, mine sid → gone sid s).
Proof.
  induction rows as [|row rows IH].
  { apply runs_mret. intros s (_ & _ & Hm) sid Hs. destruct (Hm sid Hs) as [?|(row & Hr%elem_of_nil & _)]; done. }
  cbn [revoke_each]. eapply (runs_bind _ _ _ _ (λ sid s, pending (row :: rows) s ∧ row !! "sid" = Some sid)).
  { apply runs_offline; [apply offline_field|]. intros s w Hs. pose proof Hs as (_ & ((sid & Hsid & _) & _)%Forall_cons & _).
    exists sid. unfold field. by rewrite Hsid. }
  intros sid. eapply (runs_bind _ _ _ _ (λ _ s, pending rows s)).
  - eapply runs_consequence; [intros s Hs; exact Hs| |apply runs_revoke_session].
    + intros b s [((Hk & [_ Hin]%Forall_cons & Hm) & Hrow) Hgone]. split_and!; [done|done|]. intros x Hx.
      destruct (Hm x Hx) as [?|(r & [->|Hr]%elem_of_cons & Hxr)]; [by left| |right; eauto].
      left. assert (x = sid) as -> by congruence. by apply Hgone.
    + apply lasting_and; [apply lasting_pending|apply lasting_pure].
    + intros s [(Hk & [(x & Hx & Hin) _]%Forall_cons & _) Hrow]. split; [congruence|done].
  - intros b. eapply runs_bind; [exact IH|]. intros n. by apply runs_mret.
Qed.

Lemma mine_indexed sid : mine sid → ∃ p, p ∈ reverse (index_members now u (store s0)) ∧ p.1 = sid.
Proof.
  intros [Hin Hu]. pose proof (L_positive HL).
  destruct (live_session_ok s0 now sid u Hok Hin Hu) as [_ (dl & Hdl & z & di & sc & Ez & Hdi & Hz & _)]; [done|lia|].
  exists (sid, sc). split; [|done]. apply elem_of_reverse, elem_of_zmembers. unfold index_members, live_zset.
  assert (live (store s0) now (_user_sessions_key u) = Some (RZset z)) as ->; [|done].
  apply live_Some. exists (Some di). split; [done|]. intros t [= <-]. lia.
Qed.

Lemma row_facts s rows : 
  Forall (λ p : string * Z * gmap string string, p.1.1 ∈ old ∧ read_of p.1.1 p.2 s) rows →
  ∀ p, p ∈ filter (λ p : string * Z * gmap string string, p.2 ≠ ∅) rows → ∃ x, session_ok p.1.1 x p.2.
Proof.
  intros Hrows p [Hne Hp]%list_elem_of_filter. rewrite Forall_forall in Hrows.
  destruct (Hrows p Hp) as [_ [Hr _]]. destruct (Hr Hne) as (x & Hx & _). eauto.
Qed.

Lemma offline_mapM {A B} (f : A → M (RWorld St) B) l : (∀ x, offline (f x)) → offline (mapM f l).
Proof.
  intros Hf. induction l as [|x l IH]; [by intros w|]. cbn [mapM].
  apply offline_bind; [apply Hf|]. intros y. apply offline_bind; [exact IH|]. by intros ys w.
Qed.

(** What [list_sessions] has read, before it returns the rows. *)
Definition rows_read (rows : list (string * Z * gmap string string)) (s : Store) : Prop :=
  sessions_kept s ∧ Forall (λ p, p.1.1 ∈ old ∧ read_of p.1.1 p.2 s) rows ∧
  ∀ sid, mine sid → sid ∈ rows.*1.*1.

Lemma lasting_rows_read rows : lasting (rows_read rows).
Proof. apply lasting_and, lasting_and; [apply lasting_kept|apply lasting_rows|apply lasting_pure]. Qed.

Lemma rows_pending rows out s :
  rows_read rows s → Forall2 (λ (row : gmap string string) sid, row !! "sid" = Some sid) out
    ((filter (λ p : string * Z * gmap string string, p.2 ≠ ∅) rows).*1.*1) → pending out s.
Proof.
  intros (Hk & Hrows & Hm) Hout. rewrite Forall_forall in Hrows. split_and!; [done| |].
  - apply Forall_forall. intros row [i Hi]%list_elem_of_lookup_1. destruct (Forall2_lookup_l _ _ _ _ _ Hout Hi) as (sid & Hs & Hrow).
    exists sid. split; [done|]. apply list_elem_of_lookup_2 in Hs.
    apply list_elem_of_fmap in Hs as (q & -> & (p & -> & [_ Hp]%list_elem_of_filter)%list_elem_of_fmap). by apply (Hrows p).
  - intros sid Hs. pose proof (Hm sid Hs) as (q & -> & (p & -> & Hp)%list_elem_of_fmap)%list_elem_of_fmap.
    destruct (Hrows p Hp) as [_ [_ Hr]]. destruct (Hr Hs) as [?|Hu]; [by left|right].
    assert (p.1.1 ∈ (filter (λ p : string * Z * gmap string string, p.2 ≠ ∅) rows).*1.*1) as [i Hi]%list_elem_of_lookup_1.
    { do 2 apply list_elem_of_fmap_2. apply list_elem_of_filter. split; [|done]. intros E. by rewrite E in Hu. }
    destruct (Forall2_lookup_r _ _ _ _ _ Hout Hi) as (row & Hrow & E). exists row. split; [by eapply list_elem_of_lookup_2|done].
Qed.

Lemma first_list_sessions :
  runs_first R leaves_others (λ s, s = store s0) (list_sessions (St:=St) now u) pending.
Proof.
  eapply (first_bind _ _ _ _ rows_read).
  - apply first_on_redis_error. eapply (first_bind _ _ _ _ (λ members s, sessions_kept s ∧
      (∀ p, p ∈ reverse members → p.1 ∈ old) ∧ ∀ sid, mine sid → ∃ p, p ∈ reverse members ∧ p.1 = sid)).
    { apply first_round_trip. intros s ->. eexists. split; [by apply ZRANGE_index|]. split; [|apply leaves_refl].
      split; [apply sessions_kept_first|]. split; [|apply mine_indexed]. intros p Hp. apply elem_of_reverse, elem_of_zmembers in Hp.
      eapply live_zset_typed; [apply Hok|by eexists]. }
    intros members. eapply runs_bind.
    { apply (runs_session_rows _ (λ s, sessions_kept s ∧ (∀ p, p ∈ reverse members → p.1 ∈ old) ∧
        ∀ sid, mine sid → ∃ p, p ∈ reverse members ∧ p.1 = sid)); [apply lasting_and, lasting_pure; apply lasting_kept|].
      intros s (Hk & Hin & _). done. }
    intros rows. cbv zeta. apply (runs_consequence _ _ (rows_read rows) _ _ rows_read); [|done|].
    { intros s ((Hk & _ & Hm) & E & Hrows). split_and!; [done|done|]. intros sid Hs. destruct (Hm sid Hs) as (p & Hp & <-).
      rewrite E. by apply list_elem_of_fmap_2. }
    eapply (runs_bind _ _ _ _ (λ _, rows_read rows)); [|intros []; by apply runs_mret].
    case_bool_decide; [by apply runs_mret|]. apply runs_execute; [apply lasting_stable, lasting_rows_read|]. intros s Hs.
    assert (∀ sid c, c ∈ [ZREM (_user_sessions_key u) ((λ p, p.1.1) <$> filter (λ p : string * Z * gmap string string, p.2 = ∅) rows)] →
      _session_key sid ∉ cmd_keys c) as Hkeys by (intros sid c ->%list_elem_of_singleton; by intros ?%list_elem_of_singleton).
    split; [eapply lasting_rows_read, evolves_other; [exact Hs|by intros sid c _; apply Hkeys]|].
    intros sid x _ _ _. apply run_cmds_other. intros c. apply Hkeys.
  - intros rows. apply runs_offline.
    { apply offline_mapM. intros p. apply offline_bind; [apply offline_to_time|by intros x w]. }
    intros s w Hs. destruct (with_last_active_run (filter (λ p : string * Z * gmap string string, p.2 ≠ ∅) rows) w) as (out & E & Hout).
    { by apply (row_facts s), Hs. }
    exists out. split; [by rewrite E|]. by eapply rows_pending.
Qed.

Lemma first_revoke_all :
  runs_first R leaves_others (λ s, s = store s0) (revoke_all_sessions (St:=St) now u) (λ _ s, ∀ sid, mine sid → gone sid s).
Proof. eapply first_bind; [apply first_list_sessions|]. intros rows. apply runs_revoke_each. Qed.
End logout.

(** ** The states calls reach one after another *)

(** Nobody else acts, though round trips may fail. *)
Definition alone (w : RWorld St) (st : Store) : Prop := Forall (λ t, others t = []) (turns w) ∧ view (redis w) = st.

(** A call whose every step is at [now]. *)
Definition at_once (now : time) (c : Call) : Prop :=
  match c with
  | CreateSession t _ _ _ _ _ _ | RevokeSession t _ _ | RevokeAllSessions t _ | ListSessions t _ | TouchSession t _ => t = now
  | RotateRefresh clock _ _ _ _ => ∀ i, clock i = now
  end.

(** The session a renewal is about; its token, which the service has signed,
    names one that has been issued. *)
Definition renews (c : Call) : gset string := match c with RotateRefresh _ _ sid _ _ => {[sid]} | _ => ∅ end.

(** A whole call, its new session under a fresh name; or a command on neither
    a session nor an index. *)
Inductive serial_step : Sys → Sys → Prop :=
  | serial_call s now c w :
      clock s ≤ now → at_once now c → alone w (store s) →
      (∀ sid, sid ∈ creates c → sid ∉ created s ∧ kv (store s) !! _session_key sid = None) →
      renews c ⊆ created s →
      serial_step s (mkSys (view (redis (run_call c w).2)) now (creates c ∪ created s))
  | serial_other s now c :
      clock s ≤ now → foreign (created s) c →
      serial_step s (mkSys (run_cmd now c (store s)) now (created s)).

(** The states of the service so far. *)
Definition in_service : Sys → Prop := rtc serial_step (mkSys empty_store 0 ∅).

Section serial.
Context (HL : 0 < _refresh_lifetime_seconds) (now : time).

(** [m], run alone from [s], ends as [Q] says. *)
Definition moves {A} (s : Sys) (m : M (RWorld St) A) (Q : exn + A → Sys → Prop) : Prop :=
  ∀ w, alone w (store s) → ∃ s', alone (m w).2 (store s') ∧ Q (m w).1 s'.

Lemma moves_mret {A} s (x : A) (Q : exn + A → Sys → Prop) : Q (inr x) s → moves s (mret (M:=M (RWorld St)) x) Q.
Proof. intros HQ w Hw. by exists s. Qed.

Lemma moves_raise {A} s e (Q : exn + A → Sys → Prop) : Q (inl e) s → moves s (raise (W:=RWorld St) e) Q.
Proof. intros HQ w Hw. by exists s. Qed.

Lemma moves_bind {A B} s (m : M (RWorld St) A) (f : A → M (RWorld St) B) Q (Q' : exn + B → Sys → Prop) :
  moves s m Q → (∀ e s', Q (inl e) s' → Q' (inl e) s') → (∀ x s', Q (inr x) s' → moves s' (f x) Q') → moves s (m ≫= f) Q'.
Proof.
  intros Hm He Hf w Hw. destruct (Hm w Hw) as (s1 & Hw1 & HQ). unfold mbind, M_bind.
  destruct (m w) as [[e|x] w1]; [exists s1; split; [done|by apply He]|]. by apply (Hf x s1).
Qed.

Lemma moves_on_redis_error {A} s e (m : M (RWorld St) A) (Q : exn + A → Sys → Prop) :
  moves s m Q → (∀ x x' s', Q (inl x) s' → Q (inl x') s') → moves s (on_redis_error e m) Q.
Proof.
  intros Hm He w Hw. destruct (Hm w Hw) as (s1 & Hw1 & HQ). unfold on_redis_error, try_except, raise.
  destruct (m w) as [[x|x] w1]; exists s1; eauto.
Qed.

(** Offline computations. *)
Lemma moves_offline {A} s (m : M (RWorld St) A) : offline m → moves s m (λ _ s', s' = s).
Proof. intros Hm w Hw. exists s. by rewrite Hm. Qed.

Lemma alone_turn {A} s (body : Network → St → (exn + A) * St) w :
  alone w (store s) → ∃ net st, view st = store s ∧ (take_turn body w).1 = (body net st).1 ∧
    ∀ st', view (body net st).2 = st' → alone (take_turn body w).2 st'.
Proof.
  intros [Ht Hv]. unfold take_turn. set (turn := default (mkTurn [] Fine) (head (turns w))).
  assert (others turn = []) as -> by (unfold turn; by destruct Ht). exists (fate turn), (redis w). split; [done|].
  cbn [run_others foldl]. destruct (body _ _) as [r1 st1]. split; [done|]. intros st' <-. split; [|done]. cbn. by destruct Ht.
Qed.

(** A round trip returns what it reads; its commands take effect, or not. *)
Lemma moves_round_trip {A} s t (f : Store → option A) cs cr (Q : exn + A → Sys → Prop) :
  (∀ e, Q (inl e) s) → (∀ r, (∀ x, r = inr x → f (store s) = Some x) → Q r (mkSys (run_cmds t cs (store s)) t cr)) →
  moves s (round_trip t f cs) Q.
Proof.
  intros Hlost Hdone w Hw. unfold round_trip.
  destruct (alone_turn s (λ net st, match net with
    | Fine => (match f (view st) with Some a => inr a | None => inl redis_error end, pipeline t cs st)
    | Lost => (inl redis_error, st)
    | ReplyLost => (inl redis_error, pipeline t cs st)
    end) w Hw) as ([| |] & st & Hst & Er & Hw'); cbn [fst snd] in *; rewrite ?view_pipeline, Hst in Hw'; rewrite Er.
  - exists (mkSys (run_cmds t cs (store s)) t cr). split; [by apply Hw'|]. apply Hdone. intros x. rewrite Hst.
    destruct (f (store s)); congruence.
  - exists s. split; [by apply Hw'|apply Hlost].
  - exists (mkSys (run_cmds t cs (store s)) t cr). split; [by apply Hw'|]. by apply Hdone.
Qed.

Lemma moves_query {A} s t (f : Store → option A) :
  moves s (query t f) (λ r s', s' = s ∧ ∀ x, r = inr x → f (store s) = Some x).
Proof.
  intros w Hw. destruct (moves_round_trip s t f [] (created s) (λ r s', store s' = store s ∧ ∀ x, r = inr x → f (store s) = Some x)
    ltac:(done) ltac:(done) w Hw) as (s' & Hw' & E & Hr). exists s. by rewrite E in Hw'.
Qed.

Definition fits (cr : gset string) (s : Sys) : Prop := sys_ok s ∧ clock s ≤ now ∧ created s = cr.

Lemma fits_step s cs cr : fits cr s → sys_step s (mkSys (run_cmds now cs (store s)) now cr) → fits cr (mkSys (run_cmds now cs (store s)) now cr).
Proof. intros (Hok & _) Hs. split; [by eapply sys_step_ok|]. done. Qed.

Section batches.
Context (cr : gset string).

Lemma fits_revoke s sid u jti rem :
  fits cr s → moves s (execute now (revoke_commands sid u jti rem)) (λ _, fits cr).
Proof.
  intros Hs. apply (moves_round_trip s now _ _ cr); [done|]. intros r _. apply fits_step; [done|].
  pose proof Hs as (_ & Hc & <-). by apply sys_revoke.
Qed.

Lemma fits_query {A B} s t (f : Store → option A) (k : A → M (RWorld St) B) :
  fits cr s → (∀ x, f (store s) = Some x → moves s (k x) (λ _, fits cr)) → moves s (query t f ≫= k) (λ _, fits cr).
Proof.
  intros Hs Hk. eapply moves_bind; [apply moves_query|by intros e s' [-> _]|]. intros x s' [-> Hx]. by apply Hk, Hx.
Qed.

Lemma fits_bind {A B} s (m : M (RWorld St) A) (k : A → M (RWorld St) B) :
  moves s m (λ _, fits cr) → (∀ x s', fits cr s' → moves s' (k x) (λ _, fits cr)) → moves s (m ≫= k) (λ _, fits cr).
Proof. intros Hm Hk. eapply moves_bind; [exact Hm|done|]. intros x s'. apply Hk. Qed.

Lemma fits_offline {A} s (m : M (RWorld St) A) : fits cr s → offline m → moves s m (λ _, fits cr).
Proof. intros Hs Hm w Hw. destruct (moves_offline s m Hm w Hw) as (s' & Hw' & ->). by exists s. Qed.

Lemma fits_revoke_session s sid u : fits cr s → moves s (revoke_session (St:=St) now sid u) (λ _, fits cr).
Proof.
  intros Hs. apply moves_on_redis_error; [|done]. apply fits_query; [done|]. intros data _.
  destruct (_ || _); [by apply moves_mret|]. apply fits_bind; [apply fits_offline, offline_to_time; done|].
  intros expires s1 Hs1. apply fits_bind; [apply fits_offline, offline_field; done|]. intros jti s2 Hs2.
  apply fits_bind; [apply fits_offline, offline_field; done|]. intros owner s3 Hs3.
  apply fits_bind; [by apply fits_revoke|]. intros [] s4 Hs4. by apply moves_mret.
Qed.

Lemma fits_touch s sid : fits cr s → moves s (touch_session (St:=St) now sid) (λ _, fits cr).
Proof.
  intros Hs. apply moves_on_redis_error; [|done]. apply fits_query; [done|]. intros data _. apply fits_bind.
  { apply (moves_round_trip s now _ _ cr); [done|]. intros r _. apply fits_step; [done|]. pose proof Hs as (_ & Hc & <-).
    apply sys_other; [done|]. intros c ->%list_elem_of_singleton k ->%list_elem_of_singleton. done. }
  intros b s1 Hs1. destruct (data !! "user_id") as [x|]; [|by apply moves_mret].
  apply fits_bind; [|intros [] s2 Hs2; by apply moves_mret]. destruct b; [|by apply moves_mret].
  apply (moves_round_trip s1 now _ _ cr); [done|]. intros r _. apply fits_step; [done|]. pose proof Hs1 as (_ & Hc & <-).
  by apply sys_touch.
Qed.

Lemma fits_rotate_attempt s new sid jti u : sid ∈ cr → fits cr s → moves s (rotate_attempt (St:=St) now new sid jti u) (λ _, fits cr).
Proof.
  intros Hin Hs. apply fits_query; [done|]. intros watched _. apply fits_query; [done|]. intros data Hd.
  apply fits_query; [done|]. intros b _. destruct (_ || _) eqn:Eu; [by apply moves_raise|].
  apply orb_false_iff in Eu as [_ Eu]. apply negb_false_iff, bool_decide_eq_true in Eu.
  eapply moves_bind; [apply moves_offline|by intros e s' ->|].
  { destruct (_ && _); [|by intros w]. apply offline_bind; [apply offline_to_time|by intros x w]. }
  intros grace s' ->. destruct grace; [by apply moves_mret|]. destruct (_ || _).
  { apply fits_bind; [by apply fits_revoke_session|]. intros x s1 Hs1. by apply moves_raise. }
  eapply moves_bind; [apply moves_offline, offline_bind; [apply offline_field|intros; apply offline_to_time]|by intros e s' ->|].
  intros expires s' ->. apply fits_bind; [|intros x s1 Hs1; by apply moves_mret].
  apply HGETALL_live in Hd. rewrite <- Hd in Eu. clear Hd.
  intros w Hw. unfold execute_watched. match goal with |- context [take_turn ?f w] => destruct (alone_turn s f w Hw)
    as ([| |] & st & Hst & Er & Hw') end; cbn [fst snd] in *; try case_bool_decide; rewrite ?view_pipeline, ?Hst in Hw';
    try (exists s; split; [by apply Hw'|done]).
  all: exists (mkSys (run_cmds now (rotate_commands now sid jti u new (at_least_1s (expires - now))) (store s)) now cr);
    (split; [by apply Hw'|]); apply fits_step; [done|].
  all: pose proof Hs as (Hok & Hc & <-); by apply sys_rotate.
Qed.

Lemma fits_rotate_refresh s clk fresh sid jti u :
  sid ∈ cr → (∀ i, clk i = now) → fits cr s → moves s (rotate_refresh (St:=St) clk fresh sid jti u) (λ _, fits cr).
Proof.
  intros Hin Hclk Hs. apply moves_on_redis_error; [|done]. generalize _MAX_ROTATION_ATTEMPTS at 1. intros n.
  revert s Hs. induction n as [|n IH]; intros s Hs; [by apply moves_raise|]. cbn [rotate_loop].
  apply fits_bind; [rewrite Hclk; by apply fits_rotate_attempt|]. intros [o|] s1 Hs1; [by apply moves_mret|by apply IH].
Qed.

(** The rows of an index are read from one store. *)
Lemma moves_session_rows s members :
  moves s (session_rows (St:=St) now members) (λ r s', s' = s ∧ ∀ rows, r = inr rows → rows.*1 = members ∧
    ∀ p, p ∈ rows → HGETALL now (_session_key p.1.1) (store s) = Some p.2).
Proof.
  induction members as [|p members IH].
  { apply moves_mret. split; [done|]. intros rows [= <-]. split; [done|]. by intros p ?%elem_of_nil. }
  cbn [session_rows]. eapply moves_bind; [apply moves_query|by intros e s' [-> _]|]. intros row s' [-> Hrow].
  eapply moves_bind; [exact IH|by intros e s' [-> _]|]. intros rows s' [-> Hrows].
  destruct (Hrows rows eq_refl) as [<- Hr]. apply moves_mret. split; [done|]. intros rows' [= <-]. split; [done|].
  intros q [->|Hq]%elem_of_cons; [by apply Hrow|by apply Hr].
Qed.

Lemma fits_list_sessions s u : fits cr s → moves s (list_sessions (St:=St) now u) (λ _, fits cr).
Proof.
  intros Hs. apply fits_bind.
  - apply moves_on_redis_error; [|done]. apply fits_query; [done|]. intros members Hm.
    eapply moves_bind; [apply moves_session_rows|by intros e s' [-> _]|]. intros rows s' [-> Hrows].
    destruct (Hrows rows eq_refl) as [Hmem Hr]. cbv zeta. apply fits_bind; [|intros [] s1 Hs1; by apply moves_mret].
    case_bool_decide; [by apply moves_mret|]. apply (moves_round_trip s now _ _ cr); [done|]. intros r _. apply fits_step; [done|].
    pose proof Hs as (Hok & Hc & <-). apply sys_clean; [done|].
    intros sid (p & -> & [He Hp]%list_elem_of_filter)%list_elem_of_fmap. specialize (Hr p Hp). rewrite He in Hr.
    apply HGETALL_live in Hr. destruct (live (store s) now (_session_key p.1.1)) as [v|] eqn:E; [|done].
    assert (p.1.1 ∈ created s) as Hin.
    { apply (list_elem_of_fmap_2 fst) in Hp. rewrite Hmem, elem_of_reverse in Hp.
      rewrite ZRANGE_index in Hm by done. injection Hm as <-. apply elem_of_zmembers in Hp.
      eapply live_zset_typed; [apply Hok|by eexists]. }
    unfold live_hash in Hr. rewrite E in Hr. apply live_Some in E as (d & E & _).
    destruct (ok_sessions s Hok _ _ _ Hin E) as (h & x & dl & -> & _ & (Hsid & _) & _). by rewrite Hr in Hsid.
  - intros rows s1 Hs1. apply fits_offline; [done|]. apply offline_mapM. intros p. apply offline_bind; [apply offline_to_time|by intros x w].
Qed.

Lemma fits_revoke_all s u : fits cr s → moves s (revoke_all_sessions (St:=St) now u) (λ _, fits cr).
Proof.
  intros Hs. apply fits_bind; [by apply fits_list_sessions|]. intros rows s1 Hs1. revert s1 Hs1.
  induction rows as [|row rows IH]; intros s1 Hs1; [by apply moves_mret|]. cbn [revoke_each].
  apply fits_bind; [apply fits_offline, offline_field; done|]. intros sid s2 Hs2.
  apply fits_bind; [by apply fits_revoke_session|]. intros b s3 Hs3. apply fits_bind; [by apply IH|]. intros n s4 Hs4.
  by apply moves_mret.
Qed.
End batches.

(** A login stores its session, or nothing. *)
Lemma moves_create s sid jti u tenant ip agent :
  sys_ok s → clock s ≤ now → sid ∉ created s → kv (store s) !! _session_key sid = None →
  moves s (create_session (St:=St) now sid jti u tenant ip agent) (λ _ s', s' = s ∨ fits ({[sid]} ∪ created s) s').
Proof.
  intros Hok Hc Hin Hn. apply moves_on_redis_error; [|done].
  eapply moves_bind; [apply moves_query|intros e s' [-> _]; by left|]. intros known s' [-> _].
  eapply moves_bind; [apply moves_query|intros e s' [-> _]; by left|]. intros raw s' [-> _].
  eapply moves_bind; [apply moves_offline|intros e s' ->; by left|].
  { intros w. by destruct (mapM loads raw). }
  intros hist s' ->. cbv zeta. eapply moves_bind.
  { apply (moves_round_trip s now _ _ ({[sid]} ∪ created s)) with (Q := λ _ s', s' = s ∨ fits ({[sid]} ∪ created s) s'); [by left|].
    intros r _. right. split; [|done]. by apply create_step_ok. }
  { done. }
  intros [] s' Hs'. by apply moves_mret.
Qed.

Lemma widen_ok s cr : sys_ok s → clock s ≤ now → created s ⊆ cr →
  (∀ sid, sid ∈ cr → sid ∈ created s ∨ kv (store s) !! _session_key sid = None) → sys_ok (mkSys (store s) now cr).
Proof.
  intros Hok Hc Hsub Hcr. split.
  - intros sid v d Hin E. cbn [store created clock] in *. destruct (Hcr sid Hin) as [Hin'|?]; [|congruence].
    destruct (ok_sessions s Hok _ _ _ Hin' E) as (h & x & dl & ? & ? & ? & ? & Hi). exists h, x, dl.
    split_and!; [done..|lia|]. intros Hlt. apply Hi. lia.
  - apply (index_typed_mono (created s)); [done|apply Hok].
Qed.

Lemma call_ok s c w :
  sys_ok s → clock s ≤ now → at_once now c → alone w (store s) →
  (∀ sid, sid ∈ creates c → sid ∉ created s ∧ kv (store s) !! _session_key sid = None) → renews c ⊆ created s →
  sys_ok (mkSys (view (redis (run_call c w).2)) now (creates c ∪ created s)).
Proof.
  intros Hok Hc Hat Hw Hnew Hren.
  assert (∀ s', creates c = ∅ → alone (run_call c w).2 (store s') → fits (created s) s' →
    sys_ok (mkSys (view (redis (run_call c w).2)) now (creates c ∪ created s))) as Hfit.
  { intros s' -> [_ ->] (Hok' & Hc' & E). rewrite (left_id_L ∅ (∪)). rewrite <- E. apply widen_ok; [done..|by left]. }
  assert (∀ (m : M (RWorld St) unit), m = run_call c → creates c = ∅ → moves s m (λ _, fits (created s)) →
    sys_ok (mkSys (view (redis (run_call c w).2)) now (creates c ∪ created s))) as Hrun.
  { intros m -> Hcr Hm. destruct (Hm w Hw) as (s' & Hw' & Hs'). by apply (Hfit s'). }
  assert (fits (created s) s) as Hs by done.
  destruct c; cbn [at_once renews] in *; try subst now0;
    try (refine (Hrun _ eq_refl eq_refl _); apply fits_bind; [|intros; by apply moves_mret]).
  - clear Hfit Hrun. destruct (Hnew sid) as [Hin Hn]; [cbn; set_solver|].
    pose proof (moves_create s sid jti user_id tenant_id ip user_agent Hok Hc Hin Hn) as Hm.
    assert (moves s (create_session (St:=St) now sid jti user_id tenant_id ip user_agent;; mret tt)
      (λ _ s', s' = s ∨ fits ({[sid]} ∪ created s) s')) as Hm'.
    { eapply moves_bind; [exact Hm|done|]. intros x s' E. by apply moves_mret. }
    destruct (Hm' w Hw) as (s' & [_ E] & Hs').
    cbn [run_call creates]. rewrite E. destruct Hs' as [->|(Hok' & Hc' & E')].
    + apply widen_ok; [done..|set_solver|]. intros x [->%elem_of_singleton|Hx]%elem_of_union; [by right|by left].
    + rewrite <- E'. by apply widen_ok; [..|left].
  - apply fits_rotate_refresh; [set_solver|done|done].
  - by apply fits_revoke_session.
  - by apply fits_revoke_all.
  - by apply fits_list_sessions.
  - by apply fits_touch.
Qed.
End serial.

Lemma in_service_ok s : 0 < _refresh_lifetime_seconds → in_service s → sys_ok s.
Proof.
  intros HL Hs. assert (sys_ok (mkSys empty_store 0 ∅)) as H0' by (split; intros ?; done).
  revert H0'. induction Hs as [|a b c Hab _ IH]; [done|]. intros Ha. apply IH. destruct Hab as [s now c' w Hc Hat Hw Hnew Hren|s now c' Hc Hf].
  - by apply call_ok.
  - apply (sys_step_ok HL s); [|done]. apply (sys_other s now [c']); [done|]. by intros x ->%list_elem_of_singleton.
Qed.
End calls.

(** What a run of forced logout leaves, as far as the others let it. *)
Lemma revoked_all_gone `{Settings, UserAgents, GeoIp, JsonText, FloatText, Redis St}
    (HL : 0 < _refresh_lifetime_seconds) s (Hs : in_service (St:=St) s) now (Hnow : clock s ≤ now) u (w : RWorld St) r w' :
  interfere (now_others (turns w)) (view (redis w)) = store s → history w = [] → fine w →
  revoke_all_sessions now u w = (r, w') → others_obey (rtc (step (St:=St) (created s) now)) (tail (history w')) →
  (∀ sid st, mine s now u sid → rtc (step (St:=St) (created s) now) (view (redis w')) st → gone sid st) ∧
  (∃ n, r = inr n) ∧ own_obey (leaves_others s u) (history w').
Proof.
  intros Hfirst Hh Hf E Ho. pose proof (in_service_ok s HL Hs) as Hok.
  destruct (first_revoke_all HL s Hok now Hnow u w r w' E) as (h & Eh & _ & Hrun). rewrite Hh in Eh. cbn [app] in Eh.
  rewrite Eh in Ho |- *. destruct (Hrun Hfirst Hf Ho) as (n & -> & Hgone & _ & Hown). split_and!; [|by exists n|done].
  intros sid st Hm Hsteps. eapply steps_gone; [exact Hsteps|apply Hm|by apply Hgone].
Qed.

(** C10. Forced logout is complete and final, however the other clients
    interleave. In a state that whole calls of the service have reached one
    after another from the empty store, let [revoke_all_sessions] run for a
    user while, between any two of its round trips, transactions of other
    calls commit - logins, renewals, logouts, forced logouts, listings and
    touches, each with whatever others did between its own reads and its
    transaction - and commands on other keys. Provided that its own round trips
    arrive, and that the renewals in flight read their clock less than the life
    of a session earlier, it returns; every session the user had when it began
    is gone, and stays so through all such transactions afterwards; and it has
    changed no session of another user. (Sessions the user opens meanwhile are
    not among them.) *)
Theorem forced_logout_is_final `{Settings, UserAgents, GeoIp, JsonText, FloatText, Redis St}
    (s : Sys) (now : time) (u : string) (w : RWorld St) :
  0 < _refresh_lifetime_seconds → in_service (St:=St) s → clock s ≤ now →
  interfere (now_others (turns w)) (view (redis w)) = store s → history w = [] → fine w →
  ∃ r w', revoke_all_sessions now u w = (r, w') ∧
    (others_obey (rtc (step (St:=St) (created s) now)) (tail (history w')) →
      (∃ n, r = inr n) ∧
      (∀ sid st, mine s now u sid → rtc (step (St:=St) (created s) now) (view (redis w')) st → gone sid st) ∧
      own_obey (leaves_others s u) (history w')).
Proof.
  intros HL Hs Hnow Hfirst Hh Hf. destruct (revoke_all_sessions now u w) as [r w'] eqn:E. exists r, w'. split; [done|].
  intros Ho. by destruct (revoked_all_gone HL s Hs now Hnow u w r w' Hfirst Hh Hf E Ho) as (Hgone & Hr & Hown).
Qed.

(** ** A concrete service *)

#[local] Existing Instances demo_agents demo_geoip default_settings text_json text_floats.

#[global] Instance rvalue_eq_dec : EqDecision rvalue.
Proof. solve_decision. Defined.
#[global] Instance Store_eq_dec : EqDecision Store.
Proof. solve_decision. Defined.

(** A login of user [u], and the service after it. *)
Definition demo_login : Call := CreateSession demo_time "sid" "jti0" "u" None "1.2.3.4" None.
Definition demo_service : Sys :=
  mkSys (view (redis (run_call (St:=Store) demo_login (mkRWorld empty_store [])).2)) demo_time (creates demo_login ∪ ∅).

Lemma demo_in_service : in_service (St:=Store) demo_service.
Proof.
  apply rtc_once, (serial_call (St:=Store) (mkSys empty_store 0 ∅) demo_time demo_login (mkRWorld empty_store []));
    [discriminate|done|done| |set_solver].
  intros sid _. split; [apply not_elem_of_empty|done].
Qed.

(** A step of nothing. *)
Lemma step_refl `{Settings, UserAgents, GeoIp, JsonText, FloatText, Redis St} old now a : step (St:=St) old now a a.
Proof. right. exists now, (DEL []). split; [|done]. by intros k ?%elem_of_nil. Qed.

Definition idle (h : list Event) : bool :=
  forallb (λ e, match e with Others a b => bool_decide (a = b) | Own _ _ => true end) h.

Lemma idle_obey (R : Store → Store → Prop) h : (∀ a, R a a) → idle h = true → others_obey R h.
Proof.
  intros HR Hh a b Hab. unfold idle in Hh. rewrite forallb_forall in Hh. apply list_elem_of_In, Hh in Hab.
  by apply bool_decide_eq_true in Hab as ->.
Qed.

Definition demo_logout : (exn + Z) * RWorld Store := revoke_all_sessions (demo_time + secs 5) "u" (mkRWorld (store demo_service) []).

Lemma demo_logout_idle : idle (history demo_logout.2) = true.
Proof. vm_compute. reflexivity. Qed.
Lemma demo_mine : mine demo_service (demo_time + secs 5) "u" "sid".
Proof. split; [unfold demo_service; cbn; set_solver|vm_compute; reflexivity]. Qed.

Lemma forced_logout_is_final_witness :
  in_service (St:=Store) demo_service ∧
  ∃ n w', demo_logout = (inr n, w') ∧
    ∀ st, rtc (step (St:=Store) (created demo_service) (demo_time + secs 5)) (redis w') st → gone "sid" st.
Proof.
  split; [apply demo_in_service|].
  destruct (forced_logout_is_final demo_service (demo_time + secs 5) "u" (mkRWorld (store demo_service) []))
    as (r & w' & E & Hf);
    [reflexivity|apply demo_in_service|unfold secs, TICKS; cbn; lia|reflexivity|reflexivity|apply Forall_nil; exact I|].
  destruct Hf as ([n ->] & Hgone & _).
  { intros a b Hab. assert (others_obey (rtc (step (St:=Store) (created demo_service) (demo_time + secs 5))) (history demo_logout.2)) as Ho.
    { apply idle_obey; [intros x; apply rtc_refl|apply demo_logout_idle]. }
    apply Ho. unfold demo_logout. rewrite E. cbn [snd]. destruct (history w') as [|e h]; [exact Hab|right; exact Hab]. }
  exists n, w'. split; [exact E|]. intros st Hst. apply (Hgone "sid" st); [apply demo_mine|exact Hst].
Defined.
