(* ===== verification/Cache.v ===== *)
(** The JSON cache in Redis ([app/core/cache.py]) and the world of a request
    that uses both the database and Redis. Failures of the cache are logged
    and swallowed: a cache is never a dependency. *)
From S2P Require Import Prelude PyText Config Models Codecs Tenancy Orm Redis RedisLaws.
Local Open Scope string_scope.
Local Open Scope Z_scope.
Local Open Scope list_scope.

Section cache.
Context `{JsonText, Redis St}.

Definition get_cached_json (now : time) (key : string) : M (RWorld St) (option json) :=
  try_except
    (raw_value ← query now (GET now key);
     mret (raw_value ≫= loads))
    (λ _, mret None).

Definition set_cached_json (now : time) (key : string) (value : json) (ttl_seconds : Z) : M (RWorld St) unit :=
  try_except (execute now [SET key (dumps value) ttl_seconds]) (λ _, mret tt).

Definition delete_cached (now : time) (key : string) : M (RWorld St) unit :=
  try_except (execute now [DEL [key]]) (λ _, mret tt).

(** They never raise. *)
Lemma try_mret_total {W A} (m : M W A) (a : A) w : ∃ o w', try_except m (λ _, mret a) w = (inr o, w').
Proof. unfold try_except. destruct (m w) as [[e|o] w']; eexists _, _; reflexivity. Qed.

Lemma get_cached_json_total now key w : ∃ o w', get_cached_json now key w = (inr o, w').
Proof. apply try_mret_total. Qed.
Lemma set_cached_json_total now key v ttl w : ∃ o w', set_cached_json now key v ttl w = (inr o, w').
Proof. apply try_mret_total. Qed.
Lemma delete_cached_total now key w : ∃ o w', delete_cached now key w = (inr o, w').
Proof. apply try_mret_total. Qed.
End cache.

(** ** Requests that use the database and Redis *)

Record AppWorld (St : Type) := mkApp { app_db : World; app_redis : RWorld St }.
Arguments mkApp {_}.
Arguments app_db {_}.
Arguments app_redis {_}.

Definition on_db {St A} (m : M World A) : M (AppWorld St) A := λ w,
  let '(r, d) := m (app_db w) in (r, mkApp d (app_redis w)).

Definition on_redis {St A} (m : M (RWorld St) A) : M (AppWorld St) A := λ w,
  let '(r, d) := m (app_redis w) in (r, mkApp (app_db w) d).

Lemma on_db_inv {St A} (m : M World A) (w : AppWorld St) r w' :
  on_db m w = (r, w') → m (app_db w) = (r, app_db w') ∧ app_redis w' = app_redis w.
Proof. unfold on_db. destruct (m (app_db w)). by intros [= <- <-]. Qed.

Lemma on_redis_inv {St A} (m : M (RWorld St) A) (w : AppWorld St) r w' :
  on_redis m w = (r, w') → m (app_redis w) = (r, app_redis w') ∧ app_db w' = app_db w.
Proof. unfold on_redis. destruct (m (app_redis w)). by intros [= <- <-]. Qed.
