(* ===== verification/Auth.v ===== *)
(** Authentication ([app/routers/auth.py], [app/schemas/auth.py],
    [app/core/deps.py], [app/core/tenant_provisioning.py]): registration and
    the creation of organisations, login, renewal, logout, the list of
    devices, the recovery of passwords, and [get_current_user], which every
    protected route runs first.

    [now] is the instant of the request for the database and the tokens,
    [clk] the same instant as [time.time()] gives it. Rate limits, the wording
    of e-mails and responses, and e-mail address syntax are parameters or left
    out. *)
From S2P Require Import Prelude PyText Sanitize Config Models Codecs Security Tenancy Orm Roles Redis RedisLaws Sessions Cache.
Local Open Scope string_scope.
Local Open Scope Z_scope.
Local Open Scope list_scope.

(** ** Requests *)

Inductive UserRole := ADMIN | HR_MANAGER | INTERVIEWER | CANDIDATE.
#[global] Instance UserRole_eq_dec : EqDecision UserRole.
Proof. solve_decision. Defined.

Definition role_value (r : UserRole) : string :=
  match r with
  | ADMIN => "Admin" | HR_MANAGER => "HR_Manager" | INTERVIEWER => "Interviewer" | CANDIDATE => "Candidate"
  end.

(** [EmailStr]: the normalised address, or [None] for a bad one. *)
Class EmailSyntax := { validate_email : string → option string }.

Record RegisterRequest := mkRegister {
  reg_email : string; reg_password : string; reg_role : UserRole;
  reg_company_name : option string; reg_data_consent : bool }.

Definition length_between (lo hi : nat) (s : string) : bool := bool_decide (lo ≤ py_len s ≤ hi)%nat.

Section schemas.
Context `{EmailSyntax}.

Definition sanitize_email (value : string) : option string := validate_email (strip_html_tags value).

(** [strip_html_tags(value).strip()] *)
Definition sanitize_company_name (value : option string) : option string :=
  (λ v, strip (strip_html_tags v)) <$> value.

Definition check_tenant_onboarding (r : RegisterRequest) : bool :=
  negb (bool_decide (reg_role r = HR_MANAGER ∨ reg_role r = INTERVIEWER)) &&
  negb (bool_decide (reg_role r = ADMIN) && negb (truthy (reg_company_name r))) &&
  negb (bool_decide (reg_role r = CANDIDATE) && truthy (reg_company_name r)) &&
  negb (bool_decide (reg_role r = CANDIDATE) && negb (reg_data_consent r)).

(** The validated body of [POST /register]; [None] is 422. *)
Definition register_request (email password : string) (role : UserRole) (company_name : option string)
    (data_consent : bool) : option RegisterRequest :=
  email ← sanitize_email email;
  let company_name := sanitize_company_name company_name in
  if negb (length_between 8 128 password) then None
  else if match company_name with Some c => negb (length_between 2 255 c) | None => false end then None
  else
    let r := mkRegister email password role company_name data_consent in
    if check_tenant_onboarding r then Some r else None.

(** The body of [POST /reset-password]: address, code and new password. *)
Definition reset_request (email otp_code new_password : string) : option (string * string * string) :=
  email ← sanitize_email email;
  let otp_code := strip_html_tags otp_code in
  if bool_decide (py_len otp_code = 6%nat) && length_between 8 128 new_password
  then Some (email, otp_code, new_password) else None.
End schemas.

(** ** Responses *)

Inductive CookieAction := SetRefreshCookie (value : string) (max_age : Z) | ClearRefreshCookie.

Record LoginResponse := mkLogin {
  login_access_token : string; login_refresh_token : string; login_expires_in : Z;
  login_cookie : CookieAction }.

(** [refresh_access_token] answers 401 with a cleared cookie by returning. *)
Inductive RefreshAnswer :=
  | RefreshRejected (cookie : CookieAction)
  | Refreshed (access_token : string) (refresh_token : option string) (expires_in : Z)
      (cookie : option CookieAction).

Record SessionResponse := mkSessionResponse {
  sr_id : string; sr_browser : string; sr_browser_version : string; sr_os : string; sr_os_version : string;
  sr_device_type : string; sr_device : string; sr_user_agent : string; sr_ip : string;
  sr_location : option (option string * string * option string);
  sr_created_at : time; sr_last_active_at : time; sr_expires_at : time;
  sr_is_current : bool; sr_suspicious : bool }.

(** The texts of the alert e-mails: the instant in Iran's time and the
    wording of a reason. *)
Class AlertText := { signed_in_text : time → string; reason_text : Reason → string }.

Definition USER_SESSION_CACHE_TTL_SECONDS : Z := 300.
Definition _OTP_TTL_SECONDS : Z := 600.
Definition _OTP_CACHE_KEY_PREFIX : string := "password_reset_otp:".
Definition PRIVACY_NOTICE_VERSION : string := "2026-10".

Definition _session_cache_key (user : uuid) : string := "session:user:" +:+ uuid_str user.

(** [x or None] *)
Definition or_none (o : option string) : option string := if truthy o then o else None.

Section auth.
Context `{Settings, JwtLib, PasswordLib, UserAgents, GeoIp, JsonText, FloatText, AlertText, Redis St}.

(** [except SessionStoreUnavailable: raise 503] *)
Definition or_503 {A} (m : M (RWorld St) A) : M (AppWorld St) A :=
  try_except (on_redis m)
    (λ e, if bool_decide (e = SessionStoreUnavailable) then http_error 503 else raise e).

(** ** The user of a request *)

(** The JSON [get_current_user] caches, and the user it makes of it. *)
Definition cached_user_json (u : User) : json :=
  JObj [("id", JStr (uuid_str (user_id u))); ("email", JStr (user_email u)); ("role", JStr (user_role u));
        ("is_active", JBool (user_is_active u));
        ("tenant_id", match user_tenant_id u with Some t => JStr (uuid_str t) | None => JNull end)].

Definition cached_tenant (j : json) : option (option uuid) :=
  match json_opt "tenant_id" j with
  | Some (JStr t) => if nonempty t then Some <$> uuid_parse t else Some None
  | Some _ => None
  | None => Some None
  end.

Definition user_of_cache (j : json) : option User :=
  id_text ← json_get_str "id" j;
  id ← uuid_parse id_text;
  email ← json_get_str "email" j;
  role ← json_get_str "role" j;
  active_json ← json_get "is_active" j;
  active ← json_bool active_json;
  tenant ← cached_tenant j;
  Some (mkUser id email "" role active 0 tenant None None None).

Definition _ensure_token_tenant_matches (user : User) (token_tenant : option string) : M (AppWorld St) unit :=
  let expected := uuid_str <$> user_tenant_id user in
  if bool_decide (user_role user = CANDIDATE_ROLE) then
    reject_if (bool_decide (token_tenant ≠ None)) 401
  else reject_if (bool_decide (expected = None) || negb (bool_decide (token_tenant = expected))) 401.

Definition get_current_user (now : instant) (clk : time) (credentials : option string) : M (AppWorld St) User :=
  token ← or_raise credentials 401;
  payload ← or_raise (decode_token now token) 401;
  reject_if (negb (bool_decide (claim payload !! "type" = Some "access"))) 401;;
  sub ← or_raise (claim payload !! "sub") 401;
  user_uuid ← or_raise (uuid_parse sub) 401;
  let token_tenant := claim payload !! "tid" in
  session_id ← or_raise (or_none (claim payload !! "sid")) 401;
  alive ← or_503 (touch_session clk session_id);
  reject_if (negb alive) 401;;
  let cache_key := _session_cache_key user_uuid in
  cached_user ← on_redis (get_cached_json clk cache_key);
  user ← match cached_user with
         | Some j =>
             if bool_decide (is_Some (json_get "tenant_id" j)) then
               match user_of_cache j with Some u => mret u | None => raise (PyError "KeyError") end
             else
               o ← on_db (select_by_id user_uuid);
               user ← or_raise o 401;
               on_redis (set_cached_json clk cache_key (cached_user_json user) USER_SESSION_CACHE_TTL_SECONDS);;
               mret user
         | None =>
             o ← on_db (select_by_id user_uuid);
             user ← or_raise o 401;
             on_redis (set_cached_json clk cache_key (cached_user_json user) USER_SESSION_CACHE_TTL_SECONDS);;
             mret user
         end;
  _ensure_token_tenant_matches user token_tenant;;
  mret user.

(** [decode_token(credentials.credentials)["sid"]], after [get_current_user]. *)
Definition get_current_session_id (now : instant) (credentials : option string) : M (AppWorld St) string :=
  match credentials ≫= decode_token now with
  | Some payload => match claim payload !! "sid" with Some s => mret s | None => raise (PyError "KeyError") end
  | None => raise (PyError "JWTError")
  end.

(** ** Registration *)

(** [provision_tenant]: the organisation, its owner, and the owner's
    membership. [company] is the id of the new organisation. *)
Definition provision_tenant (now : instant) (company : uuid) (name : string) (owner : User) : M World unit :=
  insert_row owner;;
  insert_row (mkCompany company name None None (user_id owner));;
  update_row now (user_id owner) (λ u, mkUser (user_id u) (user_email u) (user_password_hash u) (user_role u)
    (user_is_active u) (user_created_at u) (Some company) (user_data_consent_at u)
    (user_data_consent_version u) (user_anonymized_at u)).

Definition register_user (now : instant) (salt : string) (fresh company : uuid) (payload : RegisterRequest) :
    M World User :=
  l ← select_where (λ u, bool_decide (user_email u = reg_email payload));
  existing ← scalar_one_or_none l;
  reject_if (bool_decide (is_Some existing)) 400;;
  let consent := reg_data_consent payload in
  let new_user := mkUser fresh (reg_email payload) (hash_password salt (reg_password payload))
    (role_value (reg_role payload)) true now None
    (if consent then Some now else None) (if consent then Some PRIVACY_NOTICE_VERSION else None) None in
  (match reg_company_name payload with
   | Some name =>
       if nonempty name then system_scope (provision_tenant now company name new_user;; commit)
       else insert_row new_user;; commit
   | None => insert_row new_user;; commit
   end);;
  user ← refresh fresh;
  emit (Enqueue "send_welcome_email_task" [Some (user_email user); None]);;
  mret user.

(** ** Login *)

Definition geo_label (g : GeoLocation) : string :=
  let parts := omap or_none [geo_city g; geo_country g] in
  if bool_decide (parts = []) then "نامشخص" else join "، " parts.

Definition _enqueue_login_alerts (email : string) (created : CreatedSession) : M (AppWorld St) unit :=
  let a := assessment created in
  let get k := default "" (data created !! k) in
  if negb (suspicious a || should_alert_new_device a) then mret tt else
  signed_in_at ← on_redis (to_time (get "created_at"));
  let details :=
    [Some email; Some (signed_in_text signed_in_at +:+ " (Tehran)");
     Some (strip (get "browser" +:+ " " +:+ get "browser_version"));
     Some (strip (get "os" +:+ " " +:+ get "os_version")); Some (get "ip");
     Some (match created_geo created with Some g => geo_label g | None => "نامشخص" end);
     Some (rstrip_if (λ c, bool_decide (c = "/"%char)) FRONTEND_ORIGIN +:+ "/?view=sessions")] in
  if suspicious a
  then on_db (emit (Enqueue "send_suspicious_login_email_task"
                      (details ++ ((λ r, Some (reason_text r)) <$> reasons a))))
  else on_db (emit (Enqueue "send_new_signin_email_task" details)).

(** [sid] and [jti] are the fresh ids of the session and its refresh token. *)
Definition login_user (now : instant) (clk : time) (sid jti email password ip : string)
    (user_agent : option string) : M (AppWorld St) LoginResponse :=
  l ← on_db (select_where (λ u, bool_decide (user_email u = email)));
  user ← scalar_one_or_none l;
  reject_if (negb (verify_login_password_async password (user_password_hash <$> user))) 401;;
  user ← or_raise user 401;
  created ← or_503 (create_session clk sid jti (uuid_str (user_id user))
                      (uuid_str <$> user_tenant_id user) ip user_agent);
  let '(access_token, expires_in) :=
    create_access_token now (uuid_str (user_id user)) (user_tenant_id user) (Some (session_id created)) in
  let '(refresh_token, refresh_max_age) :=
    create_refresh_token now (uuid_str (user_id user)) (Some (session_id created)) (Some (refresh_jti created)) in
  _enqueue_login_alerts (user_email user) created;;
  mret (mkLogin access_token refresh_token expires_in (SetRefreshCookie refresh_token refresh_max_age)).

(** ** Renewal *)

Definition refresh_access_token (now : instant) (clock : nat → time) (fresh : nat → string)
    (body_token cookie_token : option string) : M (AppWorld St) RefreshAnswer :=
  let rejected := RefreshRejected ClearRefreshCookie in
  let token := if truthy body_token then body_token else cookie_token in
  match or_none token ≫= decode_token now with
  | None => mret rejected
  | Some claims =>
      let c k := claim claims !! k in
      match or_none (c "sid"), or_none (c "jti"), or_none (c "sub") with
      | Some sid, Some jti, Some sub =>
          if negb (bool_decide (c "type" = Some "refresh")) then mret rejected else
          outcome ← try_except (o ← or_503 (rotate_refresh clock fresh sid jti sub); mret (Some o))
            (λ e, match e with
                  | PyError name => if startswith name "SessionInvalid:" then mret None else raise e
                  | _ => raise e
                  end);
          match outcome with
          | None => mret rejected
          | Some outcome =>
              match uuid_parse sub with
              | None => raise (PyError "ValueError")
              | Some user_uuid =>
                  o ← on_db (select_by_id (R:=User) user_uuid);
                  match o with
                  | None => on_redis (revoke_session (clock 0%nat) sid None);; mret rejected
                  | Some user =>
                      let '(access_token, expires_in) :=
                        create_access_token now (uuid_str (user_id user)) (user_tenant_id user) (Some sid) in
                      match or_none (new_refresh_jti outcome) with
                      | Some j =>
                          let '(refresh_token, max_age) :=
                            create_refresh_token now (uuid_str (user_id user)) (Some sid) (Some j) in
                          mret (Refreshed access_token (Some refresh_token) expires_in
                                  (Some (SetRefreshCookie refresh_token max_age)))
                      | None => mret (Refreshed access_token None expires_in None)
                      end
                  end
              end
          end
      | _, _, _ => mret rejected
      end
  end.

(** ** Sessions of the current user *)

Definition logout (now : instant) (clk : time) (credentials : option string) : M (AppWorld St) CookieAction :=
  current_user ← get_current_user now clk credentials;
  session_id ← get_current_session_id now credentials;
  or_503 (revoke_session clk session_id (Some (uuid_str (user_id current_user))));;
  mret ClearRefreshCookie.

(** [SessionResponse.from_store] *)
Definition from_store (data : gmap string string) (current_session_id : option string)
    (mask : option string → string) : M (RWorld St) SessionResponse :=
  sid ← field "sid" data;
  let get k := default "" (data !! k) in
  let is_current := bool_decide (current_session_id = Some sid) in
  created_at ← field "created_at" data ≫= to_time;
  last_active_at ← field "last_active_at" data ≫= to_time;
  expires_at ← field "expires_at" data ≫= to_time;
  mret {|
    sr_id := sid;
    sr_browser := get "browser"; sr_browser_version := get "browser_version";
    sr_os := get "os"; sr_os_version := get "os_version";
    sr_device_type := get "device_type"; sr_device := get "device"; sr_user_agent := get "user_agent";
    sr_ip := if is_current then get "ip" else mask (data !! "ip");
    sr_location := if truthy (data !! "country_code")
                   then Some (or_none (data !! "country"), get "country_code", or_none (data !! "city"))
                   else None;
    sr_created_at := created_at; sr_last_active_at := last_active_at; sr_expires_at := expires_at;
    sr_is_current := is_current;
    sr_suspicious := bool_decide (data !! "suspicious" = Some "1") |}.

Definition get_my_sessions (now : instant) (clk : time) (credentials : option string) :
    M (AppWorld St) (list SessionResponse) :=
  current_user ← get_current_user now clk credentials;
  session_id ← get_current_session_id now credentials;
  sessions ← or_503 (list_sessions clk (uuid_str (user_id current_user)));
  on_redis (mapM (λ row, from_store row (Some session_id) mask_ip) sessions).

Definition revoke_my_session (now : instant) (clk : time) (credentials : option string) (session_id : string) :
    M (AppWorld St) unit :=
  current_user ← get_current_user now clk credentials;
  revoked ← or_503 (revoke_session clk session_id (Some (uuid_str (user_id current_user))));
  reject_if (negb revoked) 404.

Definition get_me (now : instant) (clk : time) (credentials : option string) :
    M (AppWorld St) (uuid * string * string * option uuid) :=
  current_user ← get_current_user now clk credentials;
  mret (user_id current_user, user_email current_user, user_role current_user, user_tenant_id current_user).

(** ** Recovery of passwords *)

Definition decimal_digit (n : N) : ascii := ascii_of_N (48 + n).

(** [f"{n:06d}"] *)
Definition _generate_otp_code (n : N) : string :=
  let d k := decimal_digit ((n / k) mod 10) in
  String (d 100000%N) (String (d 10000%N) (String (d 1000%N) (String (d 100%N) (String (d 10%N) (String (d 1%N) ""))))).

(** Background task; [n] is [secrets.randbelow(1_000_000)]. *)
Definition _issue_and_send_password_reset_otp (clk : time) (n : N) (email : string) : M (AppWorld St) unit :=
  let otp_code := _generate_otp_code n in
  on_redis (set_cached_json clk (_OTP_CACHE_KEY_PREFIX +:+ email) (JObj [("otp", JStr otp_code)]) _OTP_TTL_SECONDS);;
  on_db (emit (Enqueue "send_otp_email_task" [Some email; Some otp_code; Some "10"])).

(** The answer is the same whether the address is known or not. *)
Definition forgot_password (email : string) : M (AppWorld St) unit :=
  l ← on_db (select_where (λ u, bool_decide (user_email u = email)));
  user ← scalar_one_or_none l;
  match user with
  | Some user => on_db (emit (PasswordResetOtp (user_email user)))
  | None => mret tt
  end.

Definition set_password (hash : string) (u : User) : User :=
  mkUser (user_id u) (user_email u) hash (user_role u) (user_is_active u) (user_created_at u)
    (user_tenant_id u) (user_data_consent_at u) (user_data_consent_version u) (user_anonymized_at u).

Definition reset_password (now : instant) (clk : time) (salt email otp_code new_password : string) :
    M (AppWorld St) unit :=
  let cache_key := _OTP_CACHE_KEY_PREFIX +:+ email in
  cached_otp ← on_redis (get_cached_json clk cache_key);
  reject_if (match cached_otp with
             | None => true
             | Some j => negb (bool_decide (json_get "otp" j = Some (JStr otp_code)))
             end) 400;;
  l ← on_db (select_where (λ u, bool_decide (user_email u = email)));
  user ← scalar_one_or_none l;
  user ← or_raise user 400;
  on_db (update_row now (user_id user) (set_password (hash_password salt new_password)));;
  on_db commit;;
  on_redis (delete_cached clk cache_key).
End auth.
