(* ===== verification/AuthLaws.v ===== *)
(** Correctness of authentication ([Auth.v]): the user of a request and its
    tenant context agree, a forced logout locks every token of the user out,
    failed logins say nothing, registration makes exactly the organisation it
    should, and recovery codes work once. *)
From S2P Require Import Prelude PyText Sanitize Config Models Codecs Security Tenancy Orm.
From S2P Require Import OrmLaws Roles Redis RedisLaws Sessions SessionLaws SessionIndex ForcedLogout Cache Auth.
Local Open Scope string_scope.
Local Open Scope Z_scope.
Local Open Scope list_scope.
#[local] Arguments run_cmds : simpl never.
#[local] Arguments create_commands : simpl never.
#[local] Arguments session_data : simpl never.

(** ** The cache of users *)

Section cache.
Context `{JsonText}.

(** A user the program can have cached under [id]. *)
Definition cacheable (id : uuid) (u : User) : Prop :=
  user_id u = id ∧ uuid_ok id ∧ ∀ t, user_tenant_id u = Some t → uuid_ok t.

Definition cache_ok (s : Store) : Prop :=
  ∀ id v d, kv s !! _session_cache_key id = Some (v, d) →
    ∃ u, cacheable id u ∧ v = RStr (dumps (cached_user_json u)).

(** Commands that keep it: those of [get_current_user], and any command on
    other keys. *)
Definition cache_command (c : Cmd) : Prop :=
  match c with
  | SET k v _ => ∀ id, k = _session_cache_key id → ∃ u, cacheable id u ∧ v = dumps (cached_user_json u)
  | DEL _ => True
  | _ => ∀ id, _session_cache_key id ∉ cmd_keys c
  end.

Lemma del_lookup now k ks s e :
  kv (foldr (λ k s, match entry s now k with Some _ => put k None s | None => s end) s ks) !! k = Some e →
  kv s !! k = Some e.
Proof.
  induction ks as [|k' ks IH]; simpl; [done|]. case_match; [|done].
  destruct (decide (k = k')) as [->|Hk]; [by rewrite put_here|]. rewrite put_other by done. done.
Qed.

Lemma cache_command_ok now c s : cache_ok s → cache_command c → cache_ok (run_cmd now c s).
Proof.
  intros Hs Hc id v d E. destruct (decide (_session_cache_key id ∈ cmd_keys c)) as [Hin|Hout];
    [|rewrite run_cmd_other in E by done; eauto].
  destruct c; cbn [cache_command] in Hc; try (by destruct (Hc id)).
  - cbn [cmd_keys] in Hin. apply list_elem_of_singleton in Hin as <-. cbn [run_cmd] in E.
    rewrite put_here in E. injection E as <- <-. destruct (Hc id eq_refl) as (u & Hu & ->). eauto.
  - apply del_lookup in E. eauto.
Qed.

Lemma cache_interfere cs s : cache_ok s → (∀ c, c ∈ cs → cache_command c.2) → cache_ok (interfere cs s).
Proof.
  revert s. induction cs as [|c cs IH]; intros s Hs Hc; simpl; [done|].
  apply IH; [|intros c' Hc'; apply Hc; by right]. apply cache_command_ok, Hc; [done|left].
Qed.

(** What comes back of a cached user. *)
Lemma user_of_cache_json id u :
  cacheable id u →
  ∃ u', user_of_cache (cached_user_json u) = Some u' ∧ user_id u' = id ∧
    user_role u' = user_role u ∧ user_tenant_id u' = user_tenant_id u.
Proof.
  intros (Hid & Hok & Ht). unfold user_of_cache.
  change (json_get_str "id" (cached_user_json u)) with (Some (uuid_str (user_id u))).
  change (json_get_str "email" (cached_user_json u)) with (Some (user_email u)).
  change (json_get_str "role" (cached_user_json u)) with (Some (user_role u)).
  change (json_get "is_active" (cached_user_json u)) with (Some (JBool (user_is_active u))).
  assert (cached_tenant (cached_user_json u) = Some (user_tenant_id u)) as ->.
  { unfold cached_tenant. destruct (user_tenant_id u) as [t|] eqn:Et.
    - assert (json_opt "tenant_id" (cached_user_json u) = Some (JStr (uuid_str t))) as ->.
      { unfold cached_user_json. rewrite Et. reflexivity. }
      unfold nonempty. rewrite bool_decide_false by apply uuid_str_nonempty. cbn [negb].
      by rewrite uuid_parse_str by auto.
    - assert (json_opt "tenant_id" (cached_user_json u) = None) as ->; [|done].
      unfold cached_user_json. rewrite Et. reflexivity. }
  rewrite Hid. cbn [mbind option_bind json_bool]. rewrite uuid_parse_str by done.
  eexists. split; [reflexivity|]. done.
Qed.
End cache.

(** ** The user of a request and its tenant context *)

Section context.
Context `{Settings, JwtLib, PasswordLib, UserAgents, GeoIp, JsonText, FloatText, AlertText, Redis St}.

(** The context a user's requests must run in. *)
Definition own_context (u : User) (c : TenantContext) : Prop :=
  (user_role u = CANDIDATE_ROLE ∧ c = candidate_ctx (user_id u)) ∨
  (user_role u ≠ CANDIDATE_ROLE ∧ ∃ t, user_tenant_id u = Some t ∧ c = tenant_ctx t (user_id u)).

Lemma or_503_inv {A} (m : M (RWorld St) A) w a w' :
  or_503 m w = (inr a, w') → m (app_redis w) = (inr a, app_redis w') ∧ app_db w' = app_db w.
Proof.
  unfold or_503, try_except. destruct (on_redis m w) as [[e|x] w1] eqn:E.
  - case_bool_decide; done.
  - intros [= -> ->]. by apply on_redis_inv in E.
Qed.

(** The tenant check decides between the two kinds of users. *)
Lemma ensure_inv (u : User) tid (w : AppWorld St) r w' :
  _ensure_token_tenant_matches u tid w = (inr r, w') →
  w' = w ∧ ((user_role u = CANDIDATE_ROLE ∧ tid = None) ∨
            (user_role u ≠ CANDIDATE_ROLE ∧ ∃ t, user_tenant_id u = Some t ∧ tid = Some (uuid_str t))).
Proof.
  unfold _ensure_token_tenant_matches. case_bool_decide as Hr; intros [-> Hc]%reject_if_inv; (split; [done|]).
  - left. split; [done|]. destruct Hc as [[_ ?]|[Hc _]]; [done|].
    apply bool_decide_eq_false in Hc. destruct tid; [by destruct Hc|done].
  - right. split; [done|]. destruct Hc as [[_ ?]|[Hc _]]; [done|]. bool_to_prop.
    destruct (user_tenant_id u) as [t|]; [|done]. eauto.
Qed.

Lemma token_context now token payload id tid :
  token ≠ "" → decode_token now token = Some payload →
  claim payload !! "type" = Some "access" → claim payload !! "sub" = Some id → claim payload !! "tid" = tid →
  context_from_token now (Some token) =
    match uuid_parse id with
    | None => PUBLIC_CONTEXT
    | Some user =>
        if truthy tid then
          match uuid_parse (default "None" tid) with
          | None => PUBLIC_CONTEXT
          | Some t => tenant_ctx t user
          end
        else candidate_ctx user
    end.
Proof.
  intros Hne Hd Hty Hs <-. unfold context_from_token, truthy at 1. rewrite bool_decide_false by done. cbn [negb].
  rewrite Hd, Hty, Hs. rewrite bool_decide_true by done. cbn [negb default]. done.
Qed.

Lemma touch_session_keeps clk sid : keeps cache_ok cache_command (touch_session clk sid).
Proof.
  pose proof cache_command_ok as Hc. unfold touch_session, on_redis_error.
  apply keeps_try; [|intros e; apply keeps_raise].
  apply keeps_bind; [apply keeps_round_trip; [done|by intros c ?%elem_of_nil]|]. intros data.
  apply keeps_bind; [apply keeps_round_trip; [done|]|].
  { intros c ->%list_elem_of_singleton id. cbn. by intros ?%list_elem_of_singleton. }
  intros b. destruct (data !! "user_id"); [|apply keeps_mret].
  apply keeps_bind; [|intros _; apply keeps_mret]. destruct b; [|apply keeps_mret].
  apply keeps_round_trip; [done|]. intros c ->%list_elem_of_singleton id. cbn. by intros ?%list_elem_of_singleton.
Qed.

(** A user read from the cache or the database for the id of the token. *)
Lemma cached_read clk key (w : RWorld St) o w' :
  get_cached_json clk key w = (inr o, w') → rely cache_command w → cache_ok (view (redis w)) →
  ∀ id j, key = _session_cache_key id → o = Some j → ∃ u, cacheable id u ∧ j = cached_user_json u.
Proof.
  intros E Hr Hok id j -> ->. unfold get_cached_json in E.
  apply try_except_inv in E as [(x & Eq & Ex)|(e & w1 & _ & E)]; [|by ret_step E].
  injection Ex as <-. bind_step Eq as e | raw w2 Eq1; [done|]. apply query_inv in Eq1 as (Hv & Hf & _).
  cbv [mret M_ret] in Eq. injection Eq as Eq <-.
  assert (cache_ok (view (redis w2))) as Hok2.
  { rewrite Hv. apply (cache_interfere _ _ Hok). unfold now_others. intros c Hin.
    destruct (turns w) as [|t ts] eqn:Et; [by apply elem_of_nil in Hin|]. apply (Hr t); [rewrite Et; left|done]. }
  unfold GET in Hf. destruct (live (view (redis w2)) clk (_session_cache_key id)) as [[]|] eqn:El;
    simplify_eq/=.
  apply live_Some in El as (d & El & _). apply Hok2 in El as (u & Hu & [= ->]).
  rewrite loads_dumps in Eq. simplify_eq. eauto.
Qed.

(** Users of the database, as its key constraints leave them. *)
Definition users_ok (db : Db) : Prop :=
  ∀ id u, users db !! id = Some u → user_id u = id ∧ uuid_ok id ∧ ∀ t, user_tenant_id u = Some t → uuid_ok t.

Lemma fetch_user clk id (w : AppWorld St) u w' :
  users_ok (session (app_db w)) →
  (o ← on_db (select_by_id id); user ← or_raise o 401;
   on_redis (set_cached_json clk (_session_cache_key id) (cached_user_json user) USER_SESSION_CACHE_TTL_SECONDS);;
   mret user) w = (inr u, w') →
  cacheable id u.
Proof.
  intros Hu E. bind_step E as e | o w1 E1; [done|]. apply on_db_inv in E1 as [E1 _].
  guard_step E; [done|]. subst o. apply select_by_id_inv in E1 as (_ & Hl & _).
  bind_step E as e | y w2 E2; [done|]. ret_step E. by apply Hu in Hl.
Qed.

(** What [get_current_user] has established when it returns. *)
Lemma get_current_user_inv now clk token (w : AppWorld St) user w' :
  cache_ok (view (redis (app_redis w))) → rely cache_command (app_redis w) →
  users_ok (session (app_db w)) →
  get_current_user now clk (Some token) w = (inr user, w') →
  ∃ payload sub sid id w1,
    decode_token now token = Some payload ∧ claim payload !! "type" = Some "access" ∧
    claim payload !! "sub" = Some sub ∧ uuid_parse sub = Some id ∧ claim payload !! "sid" = Some sid ∧
    touch_session clk sid (app_redis w) = (inr true, w1) ∧
    user_id user = id ∧ uuid_ok id ∧ (∀ t, user_tenant_id user = Some t → uuid_ok t) ∧
    ((user_role user = CANDIDATE_ROLE ∧ claim payload !! "tid" = None) ∨
     (user_role user ≠ CANDIDATE_ROLE ∧
      ∃ t, user_tenant_id user = Some t ∧ claim payload !! "tid" = Some (uuid_str t))).
Proof.
  intros Hc Hr Hu E. unfold get_current_user in E.
  apply or_raise_bind_inv in E as [(? & ? & ?)|(tok & Htok & E)]; [done|]. injection Htok as <-.
  apply or_raise_bind_inv in E as [(? & ? & ?)|(payload & Hd & E)]; [done|].
  guard_step E; [done|].
  apply or_raise_bind_inv in E as [(? & ? & ?)|(sub & Hsub & E)]; [done|].
  apply or_raise_bind_inv in E as [(? & ? & ?)|(id & Hid' & E)]; [done|]. cbv zeta in E.
  apply or_raise_bind_inv in E as [(? & ? & ?)|(sid & Hsid & E)]; [done|].
  bind_step E as e | alive w1 E1; [done|]. apply or_503_inv in E1 as [E1 Hdb].
  guard_step E; [done|]. bool_to_prop. subst alive.
  destruct (touch_session_keeps clk sid _ _ _ Hc Hr E1) as [Hc1 Hr1].
  bind_step E as e | cached w2 E2; [done|]. apply on_redis_inv in E2 as [E2 Hdb2].
  bind_step E as e | u w3 E3; [done|].
  bind_step E as e | x w4 E4; [done|]. apply ensure_inv in E4 as [-> Htid]. ret_step E.
  assert (∃ v, cacheable id v ∧ user_id user = id ∧ user_tenant_id user = user_tenant_id v) as (v & Hv & Hid & Ht).
  { destruct cached as [j|].
    - destruct (cached_read _ _ _ _ _ E2 Hr1 Hc1 id j eq_refl eq_refl) as (v & Hv & ->).
      destruct (bool_decide _); [|].
      + destruct (user_of_cache_json id v Hv) as (u' & Ej & Hi & _ & Htt). rewrite Ej in E3.
        ret_step E3. eauto.
      + apply fetch_user in E3; [|by rewrite Hdb2, Hdb]. exists user. split_and!; [done|apply E3|done].
    - apply fetch_user in E3; [|by rewrite Hdb2, Hdb]. exists user. split_and!; [done|apply E3|done]. }
  destruct Hv as (Hvi & Hvo & Hvt).
  exists payload, sub, sid, id, (app_redis w1). split_and!; try done.
  - unfold or_none in *. by destruct (truthy _).
  - intros t Et. apply Hvt. congruence.
Qed.

(** A request with a token of a session that is gone when it looks: whatever
    happens after that, the touch finds no session or fails. *)
Lemma touch_dead clk sid (w w' : RWorld St) r :
  gone sid (interfere (now_others (turns w)) (view (redis w))) → touch_session clk sid w = (r, w') →
  r = inr false ∨ r = inl SessionStoreUnavailable ∧ ¬ fine w.
Proof.
  intros Hk E. unfold touch_session, on_redis_error, try_except in E.
  destruct (query clk (HGETALL clk (_session_key sid)) w) as [r1 w1] eqn:E1.
  destruct (round_trip_total _ _ _ _ _ _ (∅ : gmap string string) ltac:(by apply HGETALL_gone) E1) as [[-> Hf1]|[-> Hf]].
  - rewrite (bind_ok _ _ _ _ _ E1) in E. destruct (round_trip clk (λ s, Some (bool_decide (live s clk (touch_key sid) = None)))
      [SETNX (touch_key sid) "1" ACTIVITY_THROTTLE_SECONDS] w1) as [r2 w2] eqn:E2.
    destruct (round_trip_total _ _ _ _ _ _ _ eq_refl E2) as [[-> Hf2]|[-> Hf]].
    + rewrite (bind_ok _ _ _ _ _ E2), lookup_empty in E. injection E as <- _. by left.
    + unfold mbind, M_bind in E. rewrite E2 in E. injection E as <- _. right. split; [done|]. auto.
  - unfold mbind, M_bind in E. rewrite E1 in E. injection E as <- _. by right.
Qed.

Lemma get_current_user_dead now clk token sid (w : AppWorld St) :
  gone sid (interfere (now_others (turns (app_redis w))) (view (redis (app_redis w)))) →
  (∀ payload, decode_token now token = Some payload → claim payload !! "sid" = Some sid) →
  let r := fst (get_current_user now clk (Some token) w) in
  r = inl (HTTPException 401) ∨ r = inl (HTTPException 503) ∧ ¬ fine (app_redis w).
Proof.
  intros Hk Hsid. unfold get_current_user.
  destruct (decode_token now token) as [payload|] eqn:Ed;
    [|left; by cbv [or_raise mbind M_bind mret M_ret http_error raise]; rewrite Ed].
  cbn [or_raise]. rewrite (bind_ok _ _ w token w) by done. rewrite Ed. cbn [or_raise].
  rewrite (bind_ok _ _ w payload w) by done. rewrite (Hsid payload eq_refl).
  destruct (bool_decide _); [|by left]. rewrite (bind_ok _ _ w tt w) by done.
  destruct (claim payload !! "sub") as [sub|]; [|by left]. rewrite (bind_ok _ _ w sub w) by done.
  destruct (uuid_parse sub) as [id|]; [|by left]. rewrite (bind_ok _ _ w id w) by done.
  unfold or_none. destruct (truthy (Some sid)); [|by left]. rewrite (bind_ok _ _ w sid w) by done.
  destruct (touch_session clk sid (app_redis w)) as [r w1] eqn:E1.
  destruct (touch_dead clk sid (app_redis w) w1 r Hk E1) as [->|[-> Hf]].
  - left. rewrite (bind_ok (or_503 _) _ w false (mkApp (app_db w) w1)); [done|].
    unfold or_503, try_except, on_redis. by rewrite E1.
  - right. split; [|done]. unfold mbind, M_bind, or_503, try_except, on_redis. by rewrite E1.
Qed.
End context.

(** C14. The user of a request and the tenant it acts for agree: whenever
    [get_current_user] accepts a token - reading the user from the cache or
    the database, with other requests using Redis meanwhile - the context the
    middleware has derived from the same token is that very user's: a
    candidate acts as this candidate, with no organisation; anybody else acts
    for the organisation the user belongs to, and belongs to one. *)
Theorem user_and_tenant_agree `{Settings, JwtLib, PasswordLib, UserAgents, GeoIp, JsonText, FloatText,
    AlertText, Redis St} (now : instant) (clk : time) (token : string) (w w' : AppWorld St) (user : User) :
  token ≠ "" →
  cache_ok (view (redis (app_redis w))) → rely cache_command (app_redis w) →
  users_ok (session (app_db w)) →
  get_current_user now clk (Some token) w = (inr user, w') →
  own_context user (context_from_token now (Some token)).
Proof.
  intros Hne Hc Hr Hu E.
  destruct (get_current_user_inv _ _ _ _ _ _ Hc Hr Hu E)
    as (p & sub & sid & id & w1 & Hd & Hty & Hsub & Hid & _ & _ & <- & _ & Ht & Htid).
  rewrite (token_context now token p sub _ Hne Hd Hty Hsub eq_refl), Hid.
  destruct Htid as [[Hrole ->]|(Hrole & t & Htt & ->)].
  - by left.
  - right. split; [done|]. exists t. split; [done|]. unfold truthy.
    rewrite bool_decide_false by apply uuid_str_nonempty. cbn [negb default]. unfold id.
    by rewrite uuid_parse_str by auto.
Qed.

(** C13. Forced logout locks every device out: after [revoke_all_sessions] has
    run for a user among other requests (as in C10), and whatever transactions
    of other calls commit from then on, no request whose token names a session
    the user had at the logout is accepted: it is answered 401 - before the
    database or the cache is consulted -, or 503 when Redis fails it. Clients
    may write to Redis during the request too. *)
Theorem forced_logout_locks_out `{Settings, JwtLib, PasswordLib, UserAgents, GeoIp, JsonText, FloatText,
    AlertText, Redis St} (s : Sys) (clk clk' : time) (now' : instant) (u sid token : string)
    (w w1 : RWorld St) (n : Z) (app : AppWorld St) :
  0 < _refresh_lifetime_seconds → in_service (St:=St) s → clock s ≤ clk →
  interfere (now_others (turns w)) (view (redis w)) = store s → history w = [] → fine w →
  revoke_all_sessions clk u w = (inr n, w1) →
  others_obey (rtc (step (St:=St) (created s) clk)) (tail (history w1)) →
  sid ∈ created s → live_hash (store s) clk (_session_key sid) !! "user_id" = Some u →
  rtc (step (St:=St) (created s) clk) (view (redis w1)) (interfere (now_others (turns (app_redis app))) (view (redis (app_redis app)))) →
  (∀ payload, decode_token now' token = Some payload → claim payload !! "sid" = Some sid) →
  let r := fst (get_current_user now' clk' (Some token) app) in
  r = inl (HTTPException 401) ∨ r = inl (HTTPException 503) ∧ ¬ fine (app_redis app).
Proof.
  intros HL Hs Hclk Hfirst Hh Hf E Ho Hin Hu Hsteps Hsid. apply (get_current_user_dead _ _ _ sid); [|done].
  destruct (revoked_all_gone HL s Hs clk Hclk u w (inr n) w1 Hfirst Hh Hf E Ho) as [Hgone _].
  by apply Hgone.
Qed.

(** ** Login *)

Lemma at_most_one {A} (l : list A) : NoDup l → (∀ x y, x ∈ l → y ∈ l → x = y) → l = [] ∨ ∃ x, l = [x].
Proof.
  intros Hn Heq. destruct l as [|x [|y l]]; [by left|right; eauto|].
  apply NoDup_cons in Hn as [Hx _]. destruct Hx. rewrite (Heq x y); [left|left|right; left].
Qed.

(** E-mail addresses are unique, as the index of the table has it. *)
Definition emails_unique (db : Db) : Prop :=
  ∀ i j u v, users db !! i = Some u → users db !! j = Some v → user_email u = user_email v → i = j.

Section login.
Context `{Settings, JwtLib, PasswordLib, UserAgents, GeoIp, JsonText, FloatText, AlertText, Redis St}.

Definition with_email (email : string) (w : World) : list User :=
  filter (λ u, bool_decide (user_email u = email) = true) (visible_rows w).

Lemma elem_of_with_email email w u :
  u ∈ with_email email w ↔ user_email u = email ∧ ∃ id, users (session w) !! id = Some u.
Proof.
  unfold with_email, visible_rows. rewrite list_elem_of_filter, bool_decide_eq_true, list_elem_of_filter.
  rewrite list_elem_of_fmap. split.
  - intros (He & _ & [id u'] & -> & Hin). apply elem_of_map_to_list in Hin. eauto.
  - intros (He & id & Hin). split; [done|]. split.
    + unfold row_visible, orm_criteria. destruct (negb _); done.
    + exists (id, u). by rewrite elem_of_map_to_list.
Qed.

Lemma with_email_one email w :
  emails_unique (session w) → with_email email w = [] ∨ ∃ u, with_email email w = [u].
Proof.
  intros Hu. apply at_most_one.
  - unfold with_email, visible_rows. do 2 apply NoDup_filter.
    apply NoDup_fmap_2_strong; [|apply NoDup_map_to_list].
    intros [i x] [j y] Hi%elem_of_map_to_list Hj%elem_of_map_to_list Exy. cbn in Exy. subst y.
    by rewrite (Hu i j x x Hi Hj).
  - intros x y (Hx & i & Hi)%elem_of_with_email (Hy & j & Hj)%elem_of_with_email.
    assert (i = j) as -> by (eapply Hu; eauto; congruence). congruence.
Qed.

(** The user a login looks up. *)
Lemma find_by_email email (w : AppWorld St) {B} (f : option User → M (AppWorld St) B) :
  emails_unique (session (app_db w)) →
  (l ← on_db (select_where (λ u, bool_decide (user_email u = email))); o ← scalar_one_or_none l; f o) w =
    f (head (with_email email (app_db w))) w.
Proof.
  intros Hu. assert (on_db (select_where (λ u, bool_decide (user_email u = email))) w =
    (inr (with_email email (app_db w)), w)) as E by by destruct w.
  rewrite (bind_ok _ _ _ _ _ E). destruct (with_email_one email (app_db w) Hu) as [->|[u ->]]; done.
Qed.

Lemma head_with_email email w u :
  head (with_email email w) = Some u → user_email u = email ∧ ∃ id, users (session w) !! id = Some u.
Proof. intros Hh. apply elem_of_with_email. destruct (with_email email w); simplify_eq/=. left. Qed.

(** The transaction of a login on a quiet server. *)
Lemma create_session_inv clk sid jti uid tid ip agent (w : RWorld St) created w' st :
  quiet w st → create_session clk sid jti uid tid ip agent w = (inr created, w') →
  session_id created = sid ∧ refresh_jti created = jti ∧
  ∃ data entry, quiet w' (run_cmds clk (create_commands clk uid ip sid (parse_user_agent agent) data entry) st) ∧
    data !! "user_id" = Some uid.
Proof.
  intros [Ht Hv] E. unfold create_session in E. apply on_redis_error_inv in E.
  bind_step E as e | known w1 E1; [done|]. apply query_inv in E1 as (V1 & _ & T1). rewrite Ht in *.
  bind_step E as e | raw w2 E2; [done|]. apply query_inv in E2 as (V2 & _ & T2). rewrite T1 in *.
  bind_step E as e | hist w3 E3; [done|].
  assert (w3 = w2) as -> by (destruct (mapM loads raw); by ret_step E3).
  bind_step E as e | x w4 E4; [done|]. unfold execute in E4. apply round_trip_inv in E4 as (_ & V4 & T4).
  cbv [mret M_ret] in E. injection E as <- <-. cbn [session_id refresh_jti].
  rewrite T2 in *. split_and!; [done|done|]. eexists _, _. split; [split; [exact T4|]|].
  - rewrite V4, V2, V1, Hv. reflexivity.
  - reflexivity.
Qed.

(** A request with a token of a live session. *)
Lemma touch_live clk sid (w : RWorld St) st h u :
  quiet w st → live st clk (_session_key sid) = Some (RHash h) → h !! "user_id" = Some u →
  ∃ w' st', touch_session clk sid w = (inr true, w') ∧ quiet w' st' ∧
    ∀ id, kv st' !! _session_cache_key id = kv st !! _session_cache_key id.
Proof.
  intros Hw Hl Hu. unfold touch_session, on_redis_error, try_except.
  edestruct (quiet_query_bind (B:=bool) clk (HGETALL clk (_session_key sid))) as (w1 & Hw1 & ->);
    [exact Hw|unfold HGETALL; by rewrite Hl|].
  edestruct (quiet_round_trip clk (λ s, Some (bool_decide (live s clk (touch_key sid) = None)))
    [SETNX (touch_key sid) "1" ACTIVITY_THROTTLE_SECONDS] w1) as (w2 & E2 & Hw2); [exact Hw1|done|].
  rewrite (bind_ok _ _ _ _ _ E2), Hu. destruct (bool_decide _).
  - edestruct (quiet_execute_bind clk [ZADDXX (_user_sessions_key u) sid clk] (λ _, mret true) w2)
      as (w3 & Hw3 & E3); [exact Hw2|].
    eexists w3, _. rewrite E3. split_and!; [done|exact Hw3|]. intros id.
    rewrite run_cmds_other by keys_apart. apply run_cmds_other. keys_apart.
  - eexists w2, _. split_and!; [done|exact Hw2|]. intros id. apply run_cmds_other. keys_apart.
Qed.

Lemma get_cached_miss clk key (w : RWorld St) st :
  quiet w st → live st clk key = None → ∃ w', get_cached_json clk key w = (inr None, w').
Proof.
  intros Hw Hl. unfold get_cached_json, try_except.
  edestruct (quiet_query_bind (B:=option json) clk (GET clk key)) as (w1 & _ & ->);
    [exact Hw|unfold GET; by rewrite Hl|]. by exists w1.
Qed.

(** A well-formed user: employees belong to an organisation, candidates to
    none. *)
Definition user_ok (u : User) : Prop :=
  uuid_ok (user_id u) ∧ (user_role u = CANDIDATE_ROLE ↔ user_tenant_id u = None).

Lemma ensure_own (u : User) (w : AppWorld St) :
  user_ok u → _ensure_token_tenant_matches u (uuid_str <$> user_tenant_id u) w = (inr tt, w).
Proof.
  intros [_ Hr]. unfold _ensure_token_tenant_matches. case_bool_decide as Hc.
  - apply Hr in Hc as ->. done.
  - destruct (user_tenant_id u) as [t|]; [|by destruct Hc; apply Hr]. cbn.
    by rewrite bool_decide_true by done.
Qed.

Lemma get_current_user_live now clk token payload sid user (w : AppWorld St) st h u :
  decode_token now token = Some payload → claim payload !! "type" = Some "access" →
  claim payload !! "sub" = Some (uuid_str (user_id user)) →
  claim payload !! "tid" = uuid_str <$> user_tenant_id user →
  claim payload !! "sid" = Some sid → sid ≠ "" → user_ok user →
  quiet (app_redis w) st → live st clk (_session_key sid) = Some (RHash h) → h !! "user_id" = Some u →
  live st clk (_session_cache_key (user_id user)) = None →
  users (session (app_db w)) !! user_id user = Some user →
  fst (get_current_user now clk (Some token) w) = inr user.
Proof.
  intros Hd Hty Hsub Htid Hsid Hne Huser Hw Hl Hu Hmiss Hdb. unfold get_current_user.
  rewrite (bind_ok _ _ w token w) by done. rewrite Hd, (bind_ok _ _ w payload w) by done.
  rewrite Hty, bool_decide_true by done. rewrite (bind_ok _ _ w tt w) by done.
  rewrite Hsub, (bind_ok _ _ w (uuid_str (user_id user)) w) by done.
  rewrite uuid_parse_str by apply Huser. rewrite (bind_ok _ _ w (user_id user) w) by done.
  rewrite Hsid. unfold or_none, truthy. rewrite bool_decide_false by done. cbn [negb].
  rewrite (bind_ok _ _ w sid w) by done.
  destruct (touch_live clk sid (app_redis w) st h u Hw Hl Hu) as (w1 & st1 & E1 & Hw1 & Hk).
  rewrite (bind_ok (or_503 _) _ w true (mkApp (app_db w) w1));
    [|unfold or_503, try_except, on_redis; by rewrite E1].
  rewrite (bind_ok (reject_if _ _) _ (mkApp (app_db w) w1) tt (mkApp (app_db w) w1)) by done.
  destruct (get_cached_miss clk (_session_cache_key (user_id user)) w1 st1 Hw1) as (w2 & E2);
    [by rewrite (live_kv _ st)|].
  rewrite (bind_ok (on_redis _) _ _ None (mkApp (app_db w) w2)) by (unfold on_redis; cbn; by rewrite E2).
  cbv beta iota. destruct (set_cached_json_total clk (_session_cache_key (user_id user))
    (cached_user_json user) USER_SESSION_CACHE_TTL_SECONDS w2) as ([] & w3 & E3).
  rewrite (bind_ok _ _ (mkApp (app_db w) w2) user (mkApp (app_db w) w3)).
  - by rewrite Htid, (bind_ok _ _ _ _ _ (ensure_own user _ Huser)).
  - rewrite (bind_ok (on_db _) _ _ (Some user) (mkApp (app_db w) w2)).
    + rewrite (bind_ok _ _ _ user (mkApp (app_db w) w2)) by done.
      rewrite (bind_ok (on_redis _) _ _ tt (mkApp (app_db w) w3)); [done|]. unfold on_redis. cbn. by rewrite E3.
    + unfold on_db, select_by_id, reads. cbn [app_db app_redis]. cbn [rows User_table]. rewrite Hdb.
      cbn [mbind option_bind]. unfold row_visible, orm_criteria. by destruct (negb _).
Qed.
End login.


(** C18. Failed logins are alike: with an unknown address and with a wrong
    password a login ends in the same 401 and leaves database, Redis and job
    queue exactly as they were, so the answer does not tell which addresses
    have accounts. *)
Theorem failed_logins_are_alike `{Settings, JwtLib, PasswordLib, UserAgents, GeoIp, JsonText, FloatText,
    AlertText, Redis St} (now : instant) (clk : time) (sid jti email password ip : string)
    (agent : option string) (w : AppWorld St) :
  emails_unique (session (app_db w)) →
  (∀ i u, users (session (app_db w)) !! i = Some u → user_email u = email →
     pwd_verify password (user_password_hash u) = false) →
  login_user now clk sid jti email password ip agent w = (inl (HTTPException 401), w).
Proof.
  intros Heu Hpw. unfold login_user. rewrite find_by_email by done.
  destruct (head (with_email email (app_db w))) as [user|] eqn:Eu; [|done].
  apply head_with_email in Eu as (Hem & id & Hid). cbn [fmap option_fmap option_map verify_login_password_async].
  unfold verify_password. by rewrite (Hpw id user Hid Hem).
Qed.

(** ** A concrete organisation *)

#[local] Existing Instances demo_agents demo_geoip default_settings text_json text_floats text_jwt text_passwords.
Definition demo_alert_text : AlertText := {| signed_in_text _ := "2026-01-01 10:00"; reason_text _ := "reason" |}.
#[local] Existing Instance demo_alert_text.

Definition demo_recruiter : User :=
  mkUser 2 "hr@acme.ir" (hash_password "salt" "secret-pw") "HR_Manager" true 0 (Some 1%N) None None None.
Definition demo_users : Db :=
  mkDb {[2%N := demo_recruiter]} ∅ ∅ ∅ ∅ ∅ ∅ ∅ ∅ ∅ ∅ ∅.
Definition demo_app (st : Store) : AppWorld Store :=
  mkApp (mkWorld demo_users demo_users PUBLIC_CONTEXT []) (mkRWorld st []).
Definition demo_now : instant := 1700000000 * microseconds.

(** A store that this process alone uses. *)
Lemma quiet_store (s : Store) : quiet (app_redis (demo_app s)) s.
Proof. by split. Qed.

Lemma demo_users_lookup i u : users demo_users !! i = Some u → i = 2%N ∧ u = demo_recruiter.
Proof. cbn. by intros [<- <-]%lookup_singleton_Some. Qed.

Lemma demo_users_ok :
  users_ok demo_users ∧ emails_unique demo_users ∧ (∀ i u, users demo_users !! i = Some u → user_ok u).
Proof.
  split_and!.
  - intros i u [-> ->]%demo_users_lookup. split_and!; [done|done|]. intros t [= <-]. done.
  - intros i j u v [-> _]%demo_users_lookup [-> _]%demo_users_lookup. done.
  - intros i u [-> ->]%demo_users_lookup. split; [done|]. split; discriminate.
Qed.

(** A session of the recruiter, and its access token. *)
Definition demo_store : Store :=
  run_cmds demo_time (create_commands demo_time (uuid_str 2) "1.2.3.4" "sid" (parse_user_agent None)
    (session_data demo_time (uuid_str 2) "" "1.2.3.4" None "sid" "jti0" false) JNull) empty_store.
Definition demo_token : string := (create_access_token demo_now (uuid_str 2) (Some 1%N) (Some "sid")).1.

Lemma demo_cache_ok : cache_ok demo_store.
Proof.
  apply (keeps_run_cmds cache_ok cache_command cache_command_ok); [intros id v d; done|].
  intros c Hc. unfold create_commands in Hc. cbv zeta in Hc.
  rewrite ?elem_of_cons, elem_of_nil in Hc.
  destruct_or! Hc; subst; try done; cbn [cache_command cmd_keys]; intros id Hk%list_elem_of_singleton; try done.
Qed.

Definition accepted_id (r : (exn + User) * AppWorld Store) : option uuid :=
  match fst r with inr u => Some (user_id u) | inl _ => None end.

Lemma user_and_tenant_agree_witness :
  ∃ user w', get_current_user (demo_now + 1) (demo_time + secs 1) (Some demo_token) (demo_app demo_store) =
      (inr user, w') ∧
    own_context user (context_from_token (demo_now + 1) (Some demo_token)).
Proof.
  assert (accepted_id (get_current_user (demo_now + 1) (demo_time + secs 1) (Some demo_token)
    (demo_app demo_store)) = Some 2%N) as Ha by (vm_compute; reflexivity).
  destruct (get_current_user _ _ (Some demo_token) (demo_app demo_store)) as [[e|user] w'] eqn:E; [discriminate|].
  exists user, w'. split; [reflexivity|].
  eapply (user_and_tenant_agree _ (demo_time + secs 1) _ (demo_app demo_store));
    [|apply demo_cache_ok|intros t c []%elem_of_nil|apply demo_users_ok|exact E].
  assert (bool_decide (demo_token = "") = false) as Hb by (vm_compute; reflexivity).
  by apply bool_decide_eq_false in Hb.
Defined.

(** The service after one login of the recruiter, and their forced logout. *)
Definition demo_session_login : Call := CreateSession demo_time "sid" "jti0" (uuid_str 2) None "1.2.3.4" None.
Definition demo_sessions : Sys :=
  mkSys (view (redis (run_call (St:=Store) demo_session_login (mkRWorld empty_store [])).2)) demo_time
    (creates demo_session_login ∪ ∅).

Lemma demo_sessions_in_service : in_service (St:=Store) demo_sessions.
Proof.
  apply rtc_once, (serial_call (St:=Store) (mkSys empty_store 0 ∅) demo_time demo_session_login (mkRWorld empty_store []));
    [discriminate|done|done| |set_solver].
  intros sid _. split; [apply not_elem_of_empty|done].
Qed.

Definition demo_revoked : (exn + Z) * RWorld Store :=
  revoke_all_sessions (demo_time + secs 5) (uuid_str 2) (mkRWorld (store demo_sessions) []).

Lemma demo_revoked_idle : idle (tail (history demo_revoked.2)) = true.
Proof. vm_compute. reflexivity. Qed.

Lemma forced_logout_locks_out_witness :
  in_service (St:=Store) demo_sessions ∧ fst demo_revoked = inr 1 ∧
  (fst (get_current_user (demo_now + 1) (demo_time + secs 6) (Some demo_token)
         (demo_app (redis (snd demo_revoked)))) = inl (HTTPException 401) ∨
   fst (get_current_user (demo_now + 1) (demo_time + secs 6) (Some demo_token)
         (demo_app (redis (snd demo_revoked)))) = inl (HTTPException 503) ∧
     ¬ fine (app_redis (demo_app (redis (snd demo_revoked))))).
Proof.
  assert (fst demo_revoked = inr 1) as Hr by (vm_compute; reflexivity).
  split; [apply demo_sessions_in_service|]. split; [exact Hr|].
  apply (forced_logout_locks_out demo_sessions (demo_time + secs 5) (demo_time + secs 6) (demo_now + 1)
    (uuid_str 2) "sid" demo_token (mkRWorld (store demo_sessions) []) (snd demo_revoked) 1).
  - reflexivity.
  - apply demo_sessions_in_service.
  - unfold secs, TICKS; cbn; lia.
  - reflexivity.
  - reflexivity.
  - apply Forall_nil. exact I.
  - rewrite <- Hr. unfold demo_revoked at 1 2. apply surjective_pairing.
  - apply idle_obey; [intros x; apply rtc_refl|apply demo_revoked_idle].
  - unfold demo_sessions; cbn; set_solver.
  - vm_compute; reflexivity.
  - apply rtc_refl.
  - intros payload Hp.
    assert ((decode_token (demo_now + 1) demo_token ≫= λ p, claim p !! "sid") = Some "sid") as Hs
      by (vm_compute; reflexivity).
    rewrite Hp in Hs. exact Hs.
Defined.

Lemma failed_logins_are_alike_witness :
  login_user demo_now demo_time "s" "j" "hr@acme.ir" "wrong" "1.2.3.4" None (demo_app demo_store) =
    (inl (HTTPException 401), demo_app demo_store) ∧
  login_user demo_now demo_time "s" "j" "nobody@acme.ir" "wrong" "1.2.3.4" None (demo_app demo_store) =
    (inl (HTTPException 401), demo_app demo_store).
Proof.
  split; (apply failed_logins_are_alike; [apply demo_users_ok|]);
    intros i u [-> ->]%demo_users_lookup Hem; [vm_compute; reflexivity|discriminate].
Defined.

(** A store none of whose keys is the key of a cached user. *)
Definition no_cached_user (s : Store) : bool :=
  forallb (λ e : string * _, negb (startswith (fst e) "session:user:")) (map_to_list (kv s)).

Lemma no_cached_user_live s clk id : no_cached_user s = true → live s clk (_session_cache_key id) = None.
Proof.
  intros Hn. unfold live, entry. destruct (kv s !! _session_cache_key id) as [x|] eqn:E; [|done].
  apply elem_of_map_to_list in E. unfold no_cached_user in Hn. rewrite forallb_forall in Hn.
  apply list_elem_of_In, Hn in E. by cbn in E.
Qed.

Definition demo_login_run : (exn + LoginResponse) * AppWorld Store :=
  login_user demo_now demo_time "sid2" "jti2" "hr@acme.ir" "secret-pw" "1.2.3.4" None (demo_app demo_store).

Lemma demo_login_run_ok :
  match fst demo_login_run with inr _ => true | _ => false end = true ∧
  no_cached_user (redis (app_redis (snd demo_login_run))) = true.
Proof. split; vm_compute; reflexivity. Qed.

