(* ===== verification/AccountLaws.v ===== *)
(** Registration and the recovery of passwords ([Auth.v]): which organisation
    a registration makes, and recovery codes that expire and work once. *)
From S2P Require Import Prelude PyText Sanitize Config Models Codecs Security Tenancy Orm.
From S2P Require Import OrmLaws Roles Redis RedisLaws Sessions SessionLaws SessionIndex ForcedLogout Cache Auth AuthLaws.
Local Open Scope string_scope.
Local Open Scope Z_scope.
Local Open Scope list_scope.
#[local] Arguments run_cmds : simpl never.

(** ** Registration *)

(** Who can register: the founder of an organisation, or a candidate who has
    agreed to the processing of their data. *)
Lemma register_request_inv `{EmailSyntax} email pw role company consent r :
  register_request email pw role company consent = Some r →
  reg_role r = role ∧ reg_password r = pw ∧
  ((role = ADMIN ∧ ∃ name, reg_company_name r = Some name ∧ nonempty name = true) ∨
   (role = CANDIDATE ∧ truthy (reg_company_name r) = false ∧ reg_data_consent r = true)).
Proof.
  unfold register_request. destruct (sanitize_email email) as [e|]; [|done]. cbn [mbind option_bind].
  destruct (negb (length_between 8 128 pw)); [done|].
  destruct (match sanitize_company_name company with Some c => _ | None => _ end); [done|].
  destruct (check_tenant_onboarding _) eqn:Hc; [|done]. intros [= <-].
  cbn [reg_role reg_password reg_company_name reg_data_consent]. split_and!; [done|done|].
  unfold check_tenant_onboarding in Hc. cbn [reg_role reg_company_name reg_data_consent] in Hc.
  apply andb_true_iff in Hc as [[[H1 H2]%andb_true_iff H3]%andb_true_iff H4].
  apply negb_true_iff, bool_decide_eq_false in H1. apply negb_true_iff in H2, H3, H4.
  destruct role; [left|destruct H1; by left|destruct H1; by right|right]; (split; [done|]).
  - rewrite bool_decide_true in H2 by done. apply negb_false_iff in H2.
    destruct (sanitize_company_name company) as [name|]; [by exists name|done].
  - rewrite bool_decide_true in H3, H4 by done. by apply negb_false_iff in H4.
Qed.

Section registration.
Context `{Settings, PasswordLib}.

Lemma insert_user_inv u w x w' :
  insert_row (R:=User) u w = (inr x, w') →
  users (session w) !! user_id u = None ∧ unique_col (users (session w)) user_id user_email u = true ∧
  w' = upd_session (λ db, with_rows (<[user_id u := u]> (users db)) db) w.
Proof.
  intros (u' & Hs & _ & Hn & Hc & ->)%insert_row_inv.
  assert (u' = u) as ->. { unfold _stamp_tenant_on_new_rows in Hs. destruct (negb _); by injection Hs. }
  cbn in Hc. by apply andb_true_iff in Hc as [? _].
Qed.

(** The database after the registration of a founder. *)
Definition founded (db : Db) (u : User) (company : uuid) (name : string) : Db :=
  let db := with_rows (R:=User) (<[user_id u := u]> (users db)) db in
  with_rows (R:=Company) (<[company := mkCompany company name None None (user_id u)]> (companies db)) db.

Lemma provision_tenant_inv now company name owner w x w' :
  provision_tenant now company name owner w = (inr x, w') →
  ∃ u, u = mkUser (user_id owner) (user_email owner) (user_password_hash owner) (user_role owner)
         (user_is_active owner) (user_created_at owner) (Some company) (user_data_consent_at owner)
         (user_data_consent_version owner) (user_anonymized_at owner) ∧
    companies (session w) !! company = None ∧ users (session w) !! user_id owner = None ∧
    w' = upd_session (λ db, founded db u company name) w.
Proof.
  intros E. unfold provision_tenant in E.
  bind_step E as e | a w1 E1; [done|]. apply insert_user_inv in E1 as (Hn & _ & ->).
  bind_step E as e | b w2 E2; [done|]. apply insert_row_inv in E2 as (c & Hs & _ & Hnc & _ & ->).
  assert (c = mkCompany company name None None (user_id owner)) as ->.
  { unfold _stamp_tenant_on_new_rows in Hs. destruct (negb _); by injection Hs. }
  apply update_row_inv in E as (old & Hold & _ & _ & _ & _ & ->).
  cbn [upd_session session rows with_rows User_table Company_table users companies pk company_id] in *.
  rewrite lookup_insert_eq in Hold. injection Hold as <-.
  eexists. split; [reflexivity|]. split_and!; [done|done|].
  unfold upd_session, founded. cbn. f_equal. by rewrite insert_insert_eq.
Qed.

(** The address of a new user is free. *)
Lemma no_user_with_email email w {B} (f : option User → M World B) r w' :
  (l ← select_where (λ u, bool_decide (user_email u = email)); o ← scalar_one_or_none l; f o) w = (inr r, w') →
  (∃ o, f o w = (inr r, w') ∧ (o = None → ∀ i u, users (session w) !! i = Some u → user_email u ≠ email)).
Proof.
  rewrite select_where_bind. fold (with_email email w). intros E.
  destruct (with_email email w) as [|u [|v l]] eqn:El; [exists None|exists (Some u)|done]; (split; [done|]).
  - intros _ i u Hu Hem. apply (not_elem_of_nil u). rewrite <- El. apply elem_of_with_email. eauto.
  - done.
Qed.

Lemma refresh_user_inv id w u w' :
  refresh (R:=User) id w = (inr u, w') → w' = w ∧ users (session w) !! id = Some u.
Proof.
  unfold refresh, mbind, M_bind, reads. cbn. destruct (users (session w) !! id); [|done]. by intros [= -> ->].
Qed.

(** What [register_user] writes. *)
Lemma register_insert now company name u w x w' :
  (match name with
   | Some name => if nonempty name then system_scope (provision_tenant now company name u;; commit)
                  else insert_row u;; commit
   | None => insert_row u;; commit
   end) w = (inr x, w') →
  users (session w) !! user_id u = None ∧ committed w' = session w' ∧ ctx w' = ctx w ∧
  (truthy name = false ∧ session w' = with_rows (R:=User) (<[user_id u := u]> (users (session w))) (session w) ∨
   ∃ n u', name = Some n ∧ truthy name = true ∧ companies (session w) !! company = None ∧
     u' = mkUser (user_id u) (user_email u) (user_password_hash u) (user_role u)
         (user_is_active u) (user_created_at u) (Some company) (user_data_consent_at u)
         (user_data_consent_version u) (user_anonymized_at u) ∧
     session w' = founded (session w) u' company n).
Proof.
  assert (truthy name = false → (insert_row u;; commit) w = (inr x, w') →
    users (session w) !! user_id u = None ∧ committed w' = session w' ∧ ctx w' = ctx w ∧
    session w' = with_rows (R:=User) (<[user_id u := u]> (users (session w))) (session w)) as Hplain.
  { intros _ E. bind_step E as e | y w1 E1; [done|]. cbv [commit modify] in E. injection E as _ <-.
    by apply insert_user_inv in E1 as (Hn & _ & ->). }
  destruct name as [n|]; [|intros (?&?&?&?)%Hplain; [|done]; split_and!; auto].
  cbn [truthy]. fold (nonempty n). destruct (nonempty n) eqn:Hn.
  - unfold system_scope. destruct ((provision_tenant _ _ _ _;; commit) _) as [r w1] eqn:E1. intros [= -> <-].
    bind_step E1 as e | z w2 E2; [done|]. cbv [commit modify] in E1. injection E1 as _ <-.
    apply provision_tenant_inv in E2 as (u' & Hu' & Hc & Hf & ->).
    split_and!; [done|done|done|]. right. exists n, u'. done.
  - intros (?&?&?&?)%Hplain; [|done]. split_and!; auto.
Qed.
End registration.

(** C16. Registration founds an organisation exactly when an administrator
    registers: after a validated registration the database has one new user -
    whose address was free and whose password verifies - and nothing else
    changed, except that an Admin owns, and belongs to, one new organisation;
    the result is committed and the request's tenant context is as before. *)
Theorem registration_founds_organisation `{EmailSyntax, Settings, PasswordLib} (now : instant)
    (salt email pw : string) (fresh company : uuid) (role : UserRole) (company_name : option string)
    (consent : bool) (r : RegisterRequest) (w w' : World) (user : User) :
  register_request email pw role company_name consent = Some r →
  register_user now salt fresh company r w = (inr user, w') →
  user_id user = fresh ∧ user_email user = reg_email r ∧ user_role user = role_value role ∧
  pwd_verify pw (user_password_hash user) = true ∧
  users (session w) !! fresh = None ∧
  (∀ i u, users (session w) !! i = Some u → user_email u ≠ reg_email r) ∧
  committed w' = session w' ∧ ctx w' = ctx w ∧
  match role with
  | ADMIN => ∃ name, reg_company_name r = Some name ∧ user_tenant_id user = Some company ∧
      companies (session w) !! company = None ∧ session w' = founded (session w) user company name
  | _ => role = CANDIDATE ∧ user_tenant_id user = None ∧
      session w' = with_rows (R:=User) (<[fresh := user]> (users (session w))) (session w)
  end.
Proof.
  intros (<- & <- & Hrole)%register_request_inv E. unfold register_user in E.
  apply no_user_with_email in E as (existing & E & Hfree).
  apply reject_bind_inv in E as [(_ & ? & _)|[Hex E]]; [done|].
  destruct existing; [by bool_to_prop; destruct Hex|]. cbv zeta in E.
  bind_step E as e | x w2 E2; [done|]. apply register_insert in E2 as (Hf & Hcm & Hctx & Hs).
  bind_step E as e | u w3 E3; [done|]. apply refresh_user_inv in E3 as [-> Hu].
  rewrite emit_bind in E. cbv [mret M_ret] in E. injection E as <- <-. cbn [session committed ctx].
  destruct Hs as [[Ht Hs]|(n & u' & Hn & Ht & Hc & -> & Hs)]; rewrite Hs in Hu; cbn in Hu;
    rewrite lookup_insert_eq in Hu; injection Hu as <-.
  all: split_and!; try done; try (by apply pwd_verify_hash); try (by apply Hfree).
  all: destruct Hrole as [(Hr & name & Hn' & Hne)|(Hr & Hn' & _)]; rewrite Hr in *.
  - rewrite Hn' in Ht. unfold truthy in Ht. unfold nonempty in Hne. congruence.
  - done.
  - exists n. done.
  - congruence.
Qed.

(** ** Recovery codes *)

Section recovery.
Context `{Settings, JwtLib, PasswordLib, UserAgents, GeoIp, JsonText, FloatText, AlertText, Redis St}.

Definition otp_key (email : string) : string := _OTP_CACHE_KEY_PREFIX +:+ email.
Definition otp_json (code : string) : json := JObj [("otp", JStr code)].

(** A read of the cache of which no other client knows. *)
Lemma get_cached_quiet clk key (w : RWorld St) st o :
  quiet w st → GET clk key st = Some o →
  ∃ w', get_cached_json clk key w = (inr (o ≫= loads), w') ∧ quiet w' st.
Proof.
  intros Hw Ho. unfold get_cached_json, try_except.
  edestruct (quiet_query_bind (B:=option json) clk (GET clk key)) as (w1 & Hw1 & ->); [done..|].
  by exists w1.
Qed.

Lemma on_redis_bind {A B} (m : M (RWorld St) A) (f : A → M (AppWorld St) B) (w : AppWorld St) a w' :
  m (app_redis w) = (inr a, w') → (on_redis m ≫= f) w = f a (mkApp (app_db w) w').
Proof. intros E. apply bind_ok. unfold on_redis. by rewrite E. Qed.

Lemma set_cached_quiet clk key v ttl (w : RWorld St) st :
  quiet w st →
  ∃ w', set_cached_json clk key v ttl w = (inr tt, w') ∧ quiet w' (run_cmds clk [SET key (dumps v) ttl] st).
Proof.
  intros Hw. edestruct (quiet_round_trip clk (λ _, Some tt) [SET key (dumps v) ttl] w st) as (w' & E & Hw');
    [done|done|]. exists w'. split; [|done]. unfold set_cached_json, execute, try_except. by rewrite E.
Qed.

Lemma delete_cached_quiet clk key (w : RWorld St) st :
  quiet w st → ∃ w', delete_cached clk key w = (inr tt, w') ∧ quiet w' (run_cmds clk [DEL [key]] st).
Proof.
  intros Hw. edestruct (quiet_round_trip clk (λ _, Some tt) [DEL [key]] w st) as (w' & E & Hw');
    [done|done|]. exists w'. split; [|done]. unfold delete_cached, execute, try_except. by rewrite E.
Qed.

(** The code an address can be recovered with, if any. *)
Definition valid_code (st : Store) (clk : time) (email : string) : option string :=
  match live st clk (otp_key email) with
  | Some (RStr s) => j ← loads s; json_get_str "otp" j
  | _ => None
  end.

(** The store holds codes under the keys of codes. *)
Definition codes_ok (st : Store) : Prop :=
  ∀ email v d, kv st !! otp_key email = Some (v, d) → ∃ code, v = RStr (dumps (otp_json code)).

Lemma codes_ok_live st clk email :
  codes_ok st → GET clk (otp_key email) st = Some ((λ c, dumps (otp_json c)) <$> valid_code st clk email).
Proof.
  intros Hc. unfold GET, valid_code. destruct (live st clk (otp_key email)) as [v|] eqn:E; [|done].
  apply live_Some in E as (d & E & _). destruct (Hc _ _ _ E) as (code & ->).
  cbn. by rewrite loads_dumps.
Qed.

(** Issuing a code: the address gets it for ten minutes, replacing the last
    one; no other address is affected. *)
Lemma issue_run clk n email (w : AppWorld St) st :
  quiet (app_redis w) st → codes_ok st →
  ∃ w' st', _issue_and_send_password_reset_otp clk n email w = (inr tt, w') ∧
    quiet (app_redis w') st' ∧ codes_ok st' ∧
    session (app_db w') = session (app_db w) ∧ ctx (app_db w') = ctx (app_db w) ∧
    ∀ t e, valid_code st' t e =
      if bool_decide (e = email)
      then if bool_decide (t < clk + secs _OTP_TTL_SECONDS) then Some (_generate_otp_code n) else None
      else valid_code st t e.
Proof.
  intros Hw Hc. unfold _issue_and_send_password_reset_otp.
  edestruct (set_cached_quiet clk (otp_key email) (otp_json (_generate_otp_code n)) _OTP_TTL_SECONDS)
    as (w1 & E1 & Hw1); [exact Hw|]. unfold otp_key, otp_json in E1.
  rewrite (on_redis_bind _ _ _ _ _ E1).
  eexists _, _. split; [reflexivity|]. cbn [app_redis app_db]. split; [exact Hw1|].
  assert (∀ e, kv (run_cmds clk [SET (otp_key email) (dumps (otp_json (_generate_otp_code n))) _OTP_TTL_SECONDS] st)
    !! otp_key e = if bool_decide (e = email)
      then Some (RStr (dumps (otp_json (_generate_otp_code n))), Some (clk + secs _OTP_TTL_SECONDS))
      else kv st !! otp_key e) as Hk.
  { intros e. unfold run_cmds. cbn [fold_left run_cmd]. case_bool_decide as He.
    - subst e. apply put_here.
    - apply put_other. intros Heq. symmetry in Heq. unfold otp_key in Heq. by apply (inj (String.append _)) in Heq. }
  split_and!; [|done|done|].
  - intros e v d. rewrite Hk. case_bool_decide; [intros [= <- _]; eauto|apply Hc].
  - intros t e. unfold valid_code, live, entry. rewrite Hk. case_bool_decide; [|done].
    cbn [mbind option_bind snd]. case_bool_decide; [|done]. cbn. by rewrite loads_dumps.
Qed.

(** Rows stand under their keys and satisfy the constraints of the table. *)
Definition users_wf (db : Db) : Prop :=
  ∀ i u, users db !! i = Some u → user_id u = i ∧ constraints db u = true.

Lemma users_wf_unique db : users_wf db → emails_unique db.
Proof.
  intros Hwf i j u v Hu Hv He. destruct (Hwf _ _ Hu) as [<- Hc], (Hwf _ _ Hv) as [<- _].
  cbn in Hc. apply andb_true_iff in Hc as [Hc _]. unfold unique_col in Hc. rewrite forallb_forall in Hc.
  assert (v ∈ (map_to_list (users db)).*2) as Hin.
  { apply list_elem_of_fmap. eexists (_, v). split; [done|]. by apply elem_of_map_to_list. }
  apply list_elem_of_In, Hc, orb_true_iff in Hin as [Hin|Hin]; bool_to_prop; congruence.
Qed.

(** What [reset_password] does without the valid code of a known address:
    400, and nothing changes. *)
Lemma reset_rejected now clk salt email code pw (w : AppWorld St) st :
  quiet (app_redis w) st → codes_ok st → emails_unique (session (app_db w)) →
  (valid_code st clk email = Some code → with_email email (app_db w) = []) →
  ∃ w', quiet (app_redis w') st ∧ app_db w' = app_db w ∧
    reset_password now clk salt email code pw w = (inl (HTTPException 400), w').
Proof.
  intros Hw Hc Hu Hbad. unfold reset_password.
  destruct (get_cached_quiet clk (otp_key email) (app_redis w) st _ Hw (codes_ok_live st clk email Hc))
    as (w1 & E1 & Hw1). unfold otp_key in E1. rewrite (on_redis_bind _ _ _ _ _ E1).
  destruct (valid_code st clk email) as [c|] eqn:Ev; cbn [fmap option_fmap option_map mbind option_bind];
    [|exists (mkApp (app_db w) w1); by split_and!].
  rewrite loads_dumps. unfold otp_json.
  change (json_get "otp" (JObj [("otp", JStr c)])) with (Some (JStr c)).
  destruct (decide (c = code)) as [->|Hne]; [rewrite bool_decide_true by done|rewrite bool_decide_false by congruence];
    [|exists (mkApp (app_db w) w1); by split_and!].
  cbn [negb reject_if]. rewrite (bind_ok _ _ _ tt _) by done.
  rewrite find_by_email by done. cbn [app_db]. rewrite Hbad by done. exists (mkApp (app_db w) w1). by split_and!.
Qed.

Lemma update_password_run now hash u w :
  users (session w) !! user_id u = Some u → constraints (session w) u = true →
  update_row now (user_id u) (set_password hash) w =
    (inr tt, upd_session (λ db, with_rows (R:=User) (<[user_id u := set_password hash u]> (users db)) db) w).
Proof. intros Hu Hc. exact (update_row_ok (R:=User) now (user_id u) (set_password hash) w u Hu eq_refl eq_refl eq_refl eq_refl Hc). Qed.

(** With it, the password changes and the code is used up. *)
Lemma reset_accepted now clk salt email code pw (w : AppWorld St) st u :
  quiet (app_redis w) st → codes_ok st → users_wf (session (app_db w)) →
  valid_code st clk email = Some code → users (session (app_db w)) !! user_id u = Some u →
  user_email u = email →
  ∃ w' st', reset_password now clk salt email code pw w = (inr tt, w') ∧
    quiet (app_redis w') st' ∧ codes_ok st' ∧
    session (app_db w') = with_rows (R:=User) (<[user_id u := set_password (hash_password salt pw) u]>
      (users (session (app_db w)))) (session (app_db w)) ∧
    committed (app_db w') = session (app_db w') ∧
    ∀ t e, valid_code st' t e = if bool_decide (e = email) then None else valid_code st t e.
Proof.
  intros Hw Hc Hwf Hv Hu He. unfold reset_password.
  destruct (get_cached_quiet clk (otp_key email) (app_redis w) st _ Hw (codes_ok_live st clk email Hc))
    as (w1 & E1 & Hw1). unfold otp_key in E1. rewrite (on_redis_bind _ _ _ _ _ E1), Hv.
  cbn [fmap option_fmap option_map mbind option_bind]. rewrite loads_dumps.
  change (json_get "otp" (otp_json code)) with (Some (JStr code)). rewrite bool_decide_true by done. cbn [negb reject_if]. rewrite (bind_ok _ _ _ tt _) by done.
  pose proof (users_wf_unique _ Hwf) as Hun.
  rewrite find_by_email by done. cbn [app_db].
  assert (head (with_email email (app_db w)) = Some u) as ->.
  { destruct (with_email_one email (app_db w) Hun) as [E|[v E]]; rewrite E; cbn.
    - destruct (not_elem_of_nil u). rewrite <- E. apply elem_of_with_email. eauto.
    - assert (u ∈ [v]) as ->%list_elem_of_singleton; [|done]. rewrite <- E. apply elem_of_with_email. eauto. }
  rewrite (bind_ok (or_raise _ _) _ _ u _) by done.
  destruct (delete_cached_quiet clk (otp_key email) w1 st Hw1) as (w2 & E2 & Hw2). unfold otp_key in E2.
  assert (update_row now (user_id u) (set_password (hash_password salt pw)) (app_db w) =
    (inr tt, upd_session (λ db, with_rows (R:=User) (<[user_id u := set_password (hash_password salt pw) u]>
      (users db)) db) (app_db w))) as E3.
  { apply update_password_run; [done|]. by apply Hwf in Hu as [_ ?]. }
  rewrite (bind_ok (on_db _) _ _ tt (mkApp (upd_session (λ db, with_rows (R:=User)
    (<[user_id u := set_password (hash_password salt pw) u]> (users db)) db) (app_db w)) w1))
    by (unfold on_db; cbn [app_db]; by rewrite E3).
  eexists _, _. split.
  { rewrite (bind_ok (on_db _) _ _ tt (mkApp (snd (commit (upd_session (λ db, with_rows (R:=User)
      (<[user_id u := set_password (hash_password salt pw) u]> (users db)) db) (app_db w)))) w1)) by done.
    unfold on_redis. cbn [app_redis app_db]. rewrite E2. reflexivity. }
  cbn [app_redis app_db]. split; [exact Hw2|].
  assert (∀ e, kv (run_cmds clk [DEL [otp_key email]] st) !! otp_key e =
    if bool_decide (e = email) then None else kv st !! otp_key e) as Hk.
  { intros e. unfold run_cmds. cbn [fold_left run_cmd foldr]. unfold valid_code, live in Hv.
    destruct (entry st clk (otp_key email)); [|done]. case_bool_decide; [subst e; apply put_here|].
    apply put_other. intros Heq. unfold otp_key in Heq. by apply (inj (String.append _)) in Heq. }
  split_and!; [|done|done|].
  - intros e v d. rewrite Hk. case_bool_decide; [done|apply Hc].
  - intros t e. unfold valid_code, live, entry. rewrite Hk. by case_bool_decide.
Qed.
End recovery.

(** A recovery code is six digits, which the sanitizing of the reset form
    leaves alone. *)
Lemma decimal_digit_lower d : (d < 10)%N → is_hex_lower (decimal_digit d) = true.
Proof.
  intros Hd. unfold is_hex_lower, decimal_digit. rewrite code_of_N by lia.
  apply bool_decide_eq_true. lia.
Qed.

Lemma otp_code_hex n : all_chars is_hex_lower (_generate_otp_code n) = true.
Proof.
  unfold _generate_otp_code. cbn [all_chars].
  rewrite !decimal_digit_lower by (apply N.mod_lt; lia). done.
Qed.

Lemma otp_code_digits n : py_len (_generate_otp_code n) = 6%nat.
Proof. by rewrite (py_len_hex _ (otp_code_hex n)). Qed.

Lemma hex_char_plain c : is_hex_lower c = true → not_gt c = true ∧ negb (is_space c) = true.
Proof. destruct c as [[] [] [] [] [] [] [] []]; vm_compute; auto. Qed.

Lemma otp_code_plain n : strip_html_tags (_generate_otp_code n) = _generate_otp_code n.
Proof.
  pose proof (otp_code_hex n) as Hh. unfold strip_html_tags.
  rewrite (proj1 (sub_tags_id _ (all_not_gt_tag_free _
    (all_chars_impl _ _ _ (λ c Hc, proj1 (hex_char_plain c Hc)) Hh)))).
  apply strip_if_id. exact (all_chars_impl _ _ _ (λ c Hc, proj2 (hex_char_plain c Hc)) Hh).
Qed.


(** ** A concrete account *)

#[local] Existing Instances demo_agents demo_geoip default_settings text_json text_floats text_jwt text_passwords
  demo_alert_text.
Definition demo_email_syntax : EmailSyntax := {| validate_email s := Some s |}.
#[local] Existing Instance demo_email_syntax.

(** A user without an organisation, so that no other row is needed. *)
Definition demo_candidate : User :=
  mkUser 5 "ali@mail.ir" (hash_password "salt" "old-secret") "Candidate" true 0 None (Some 0) None None.
Definition demo_candidates : Db := mkDb {[5%N := demo_candidate]} ∅ ∅ ∅ ∅ ∅ ∅ ∅ ∅ ∅ ∅ ∅.
Definition demo_candidate_app : AppWorld Store :=
  mkApp (mkWorld demo_candidates demo_candidates PUBLIC_CONTEXT []) (mkRWorld empty_store []).

Lemma demo_candidates_wf : users_wf demo_candidates.
Proof. intros i u. cbn. intros [<- <-]%lookup_singleton_Some. split; vm_compute; reflexivity. Qed.


Definition demo_founder : option RegisterRequest :=
  register_request "boss@acme.ir" "long-secret" ADMIN (Some " <b>Acme</b> ") false.

Lemma registration_founds_organisation_witness :
  ∃ r user w', demo_founder = Some r ∧
    register_user 7 "salt" 3 9 r (mkWorld demo_candidates demo_candidates PUBLIC_CONTEXT []) = (inr user, w') ∧
    user_tenant_id user = Some 9%N.
Proof.
  assert (match demo_founder ≫= λ r, match fst (register_user 7 "salt" 3 9 r
      (mkWorld demo_candidates demo_candidates PUBLIC_CONTEXT [])) with inr u => Some (user_id u) | _ => None end
    with Some i => true | None => false end = true) as Hok by (vm_compute; reflexivity).
  destruct demo_founder as [r|] eqn:Er; [|discriminate]. cbn [mbind option_bind] in Hok.
  destruct (register_user _ _ _ _ r _) as [[e|user] w'] eqn:E; [discriminate|].
  exists r, user, w'. split; [reflexivity|]. split; [exact E|].
  destruct (registration_founds_organisation 7 "salt" "boss@acme.ir" "long-secret" 3 9 ADMIN (Some " <b>Acme</b> ") false
      _ _ _ _ Er E)
    as (_ & _ & _ & _ & _ & _ & _ & _ & name & _ & Ht & _). exact Ht.
Defined.
