(* ===== verification/Staff.v ===== *)
(** The rest of the API of an organisation's staff: job postings
    ([app/routers/jobs.py], [app/schemas/jobs.py]), the organisation and its
    accounts ([app/routers/tenants.py], [app/schemas/tenants.py]), the sessions
    of colleagues ([app/routers/admin.py]) and the inbox of notifications
    ([app/routers/notifications.py]). *)
From S2P Require Import Prelude PyText Sanitize Config Models Codecs Security Tenancy Orm Roles OrmLaws Redis RedisLaws Sessions Cache Auth Pagination.
Local Open Scope string_scope.
Local Open Scope Z_scope.
Local Open Scope list_scope.

(** ** Job postings *)

Module Jobs.
Definition JOB_MANAGER_ROLES : list string := ["Admin"; "HR_Manager"].

Record JobCreateRequest := mkJobCreate {
  title : string; department : option string; description : option string; skills_required : list string;
  salary_range : option string; required_seniority : option string; required_education : option string;
  location : option string }.

(** The validators take the tags out before the lengths are checked. *)
Definition clean (limit : nat) (field : option string) : option (option string) :=
  match field with
  | None => Some None
  | Some v => let v := strip_html_tags v in if (py_len v <=? limit)%nat then Some (Some v) else None
  end.

(** The validated body; [None] is a 422. *)
Definition job_request (p : JobCreateRequest) : option JobCreateRequest :=
  let title := strip_html_tags (title p) in
  if negb (length_between 2 255 title) then None else
  department ← clean 100 (department p);
  salary_range ← clean 50 (salary_range p);
  required_seniority ← clean 50 (required_seniority p);
  required_education ← clean 50 (required_education p);
  location ← clean 100 (location p);
  Some (mkJobCreate title department (strip_html_tags <$> description p) (strip_html_tags <$> skills_required p)
          salary_range required_seniority required_education location).

Definition job_set_status (s : string) (j : Job) : Job :=
  mkJob (job_id j) (job_tenant_id j) (job_company_id j) (job_created_by j) (job_title j) (job_department j)
    (job_description j) (job_skills_required j) (job_salary_range j) s (job_required_seniority j)
    (job_required_education j) (job_location j) (job_created_at j).

Section handlers.
Context `{Settings}.

Definition create_job (now : instant) (fresh : uuid) (current_user : User) (payload : JobCreateRequest) : M World Job :=
  require_roles JOB_MANAGER_ROLES current_user;;
  insert_row (mkJob fresh None None (user_id current_user) (title payload) (department payload) (description payload)
    (Some (skills_required payload)) (salary_range payload) "Active" (required_seniority payload)
    (required_education payload) (location payload) now);;
  commit;;
  refresh fresh.

(** The rows [list_jobs] pages through ([Pagination.v]), newest first. *)
Definition list_jobs (status_filter department : option string) : M World (list Job) :=
  select_where (λ j : Job,
    match status_filter with Some s => bool_decide (job_status j = s) | None => true end &&
    match department with Some d => bool_decide (job_department j = Some d) | None => true end).

Definition close_job (now : instant) (current_user : User) (id : uuid) : M World (uuid * string) :=
  require_roles JOB_MANAGER_ROLES current_user;;
  o ← select_by_id (R:=Job) id;
  job ← or_raise o 404;
  update_row now id (job_set_status "Closed");;
  commit;;
  mret (job_id job, "Closed").
End handlers.
End Jobs.

(** ** The organisation *)

Module Organisation.
Definition TENANT_MEMBER_ROLES : list string := ["Admin"; "HR_Manager"; "Interviewer"].

Inductive StaffRole := HR_MANAGER | INTERVIEWER.
Definition role_value (r : StaffRole) : string :=
  match r with HR_MANAGER => "HR_Manager" | INTERVIEWER => "Interviewer" end.

Record StaffCreateRequest := mkStaffCreate { staff_email : string; staff_password : string; staff_role : StaffRole }.

Definition staff_request `{EmailSyntax} (email password : string) (role : StaffRole) : option StaffCreateRequest :=
  email ← sanitize_email email;
  if length_between 8 128 password then Some (mkStaffCreate email password role) else None.

Section handlers.
Context `{Settings, PasswordLib}.

Definition get_my_tenant (current_user : User) : M World Company :=
  require_roles TENANT_MEMBER_ROLES current_user;;
  l ← select_where (λ c, bool_decide (Some (company_id c) = user_tenant_id current_user));
  o ← scalar_one_or_none l;
  or_raise o 404.

(** Oldest account first. A user without an organisation would compare with
    [IS NULL]. *)
Definition list_tenant_staff (current_user : User) : M World (list User) :=
  require_roles ["Admin"] current_user;;
  l ← select_where (λ u, bool_decide (user_tenant_id u = user_tenant_id current_user));
  mret (order_by KDatetime (λ u, VDatetime (Aware (user_created_at u))) user_id false l).

Definition create_tenant_staff (now : instant) (fresh : uuid) (salt : string) (current_user : User)
    (payload : StaffCreateRequest) : M World User :=
  require_roles ["Admin"] current_user;;
  l ← select_where (λ u, bool_decide (user_email u = staff_email payload));
  existing ← scalar_one_or_none l;
  reject_if (bool_decide (is_Some existing)) 400;;
  insert_row (mkUser fresh (staff_email payload) (hash_password salt (staff_password payload))
    (role_value (staff_role payload)) true now (user_tenant_id current_user) None None None);;
  commit;;
  refresh fresh.
End handlers.
End Organisation.

(** ** The administrator *)

Module Admin.
Section handlers.
Context `{Settings, JsonText, FloatText, Redis St}.

(** [current_tenant_id()] is the organisation of the context. *)
Definition get_admin_stats (current_user : User) : M World (nat * nat * nat) :=
  require_roles ["Admin"] current_user;;
  w ← get;
  users ← select_where (λ u, bool_decide (user_tenant_id u = tenant_id (ctx w)));
  companies ← select_where (λ _ : Company, true);
  jobs ← select_where (λ _ : Job, true);
  mret (length users, length companies, length jobs).

Definition _tenant_member (id : uuid) : M World User :=
  w ← get;
  l ← select_where (λ u, bool_decide (user_id u = id) && bool_decide (user_tenant_id u = tenant_id (ctx w)));
  o ← scalar_one_or_none l;
  or_raise o 404.

Definition list_member_sessions (clk : time) (current_user : User) (id : uuid) : M (AppWorld St) (list SessionResponse) :=
  on_db (require_roles ["Admin"] current_user);;
  member ← on_db (_tenant_member id);
  sessions ← or_503 (list_sessions clk (uuid_str (user_id member)));
  on_redis (mapM (λ row, from_store row None (λ ip, default "" ip)) sessions).

Definition revoke_member_session (clk : time) (current_user : User) (id : uuid) (session_id : string) :
    M (AppWorld St) unit :=
  on_db (require_roles ["Admin"] current_user);;
  member ← on_db (_tenant_member id);
  revoked ← or_503 (revoke_session clk session_id (Some (uuid_str (user_id member))));
  reject_if (negb revoked) 404.

Definition revoke_all_member_sessions (clk : time) (current_user : User) (id : uuid) : M (AppWorld St) Z :=
  on_db (require_roles ["Admin"] current_user);;
  member ← on_db (_tenant_member id);
  or_503 (revoke_all_sessions clk (uuid_str (user_id member))).
End handlers.
End Admin.

(** ** Notifications *)

Module Inbox.
Definition ntf_read (n : Notification) : Notification :=
  mkNotification (ntf_id n) (ntf_user_id n) (ntf_title n) (ntf_content n) true (ntf_category n) (ntf_created_at n).

Section handlers.
Context `{Settings}.

(** The rows [list_my_notifications] pages through, and the count of unread
    ones. *)
Definition list_my_notifications (current_user : User) : M World (list Notification * nat) :=
  rows ← select_where (λ n, bool_decide (ntf_user_id n = user_id current_user));
  unread ← select_where (λ n, bool_decide (ntf_user_id n = user_id current_user) && negb (ntf_is_read n));
  mret (rows, length unread).

Definition mark_all_notifications_read (now : instant) (current_user : User) : M World nat :=
  n ← update_where now (λ n, bool_decide (ntf_user_id n = user_id current_user) && negb (ntf_is_read n)) ntf_read;
  commit;;
  mret n.

Definition mark_notification_read (now : instant) (current_user : User) (id : uuid) : M World Notification :=
  l ← select_where (λ n, bool_decide (ntf_id n = id) && bool_decide (ntf_user_id n = user_id current_user));
  o ← scalar_one_or_none l;
  notification ← or_raise o 404;
  update_row now (ntf_id notification) ntf_read;;
  commit;;
  refresh (ntf_id notification).
End handlers.
End Inbox.
