(* ===== verification/Experience.v ===== *)
(** Net work experience ([app/core/experience_analyzer.py]): the years of a
    resume's jobs, without the years that overlap and without entries that are
    unreadable, contradictory or exaggerated. *)
From S2P Require Import Prelude PyText Unicode.
From stdpp Require Import sorting.
Local Open Scope string_scope.
Local Open Scope Z_scope.
Local Open Scope list_scope.

Definition _CURRENT_MARKERS : list string := ["تاکنون"; "اکنون"; "حال حاضر"; "present"; "current"].
Definition _SHAMSI_YEAR_THRESHOLD : Z := 1500.
Definition _MAX_REASONABLE_SINGLE_JOB_YEARS : Z := 40.
Definition _SHAMSI_TO_GREGORIAN_OFFSET : Z := 621.

(** The entries of [app/schemas/resume_parsing.py]. *)
Record WorkExperienceEntry := mkWork {
  work_company : option string; work_job_title : option string; work_duration : option string }.

(** Why an entry does not count; the code words it in Persian. *)
Inductive Flag := Unreadable | Reversed | InFuture | TooLong (years : Z).

Record AnalyzedEntry := mkAnalyzed {
  an_entry : WorkExperienceEntry;
  an_start_year : option Z; an_end_year : option Z;
  an_flag_reason : option Flag }.

Definition is_valid (a : AnalyzedEntry) : bool := bool_decide (an_flag_reason a = None).

#[global] Instance Flag_eq_dec : EqDecision Flag.
Proof. solve_decision. Defined.

Section analyzer.
Context `{Unicode}.
(** [datetime.date.today().year] *)
Context (today_year : Z).

Definition _current_year_for_calendar (is_shamsi : bool) : Z :=
  if is_shamsi then today_year - _SHAMSI_TO_GREGORIAN_OFFSET else today_year.

(** [re.split(r"[-–—]", duration, maxsplit=1)] *)
Fixpoint split_dash (l : list string) : option (list string * list string) :=
  match l with
  | [] => None
  | c :: r =>
      if bool_decide (c ∈ ["-"; "–"; "—"]) then Some ([], r)
      else p ← split_dash r; Some (c :: p.1, p.2)
  end.

Definition _parse_duration (duration : option string) : option (Z * Z) :=
  match duration with
  | None => None
  | Some d =>
      if bool_decide (d = "") then None else
      parts ← split_dash (chars d);
      let start_part := strip (text_of parts.1) in
      let end_part := strip (text_of parts.2) in
      start_year ← search_year (chars start_part);
      let is_shamsi := start_year <? _SHAMSI_YEAR_THRESHOLD in
      let lowered_end_part := lower end_part in
      if existsb (λ marker, contains end_part marker || contains lowered_end_part marker) _CURRENT_MARKERS
      then Some (start_year, _current_year_for_calendar is_shamsi)
      else end_year ← search_year (chars end_part); Some (start_year, end_year)
  end.

Definition _validate_entry (start_year end_year : Z) (is_shamsi : bool) : option Flag :=
  let current_year := _current_year_for_calendar is_shamsi in
  if end_year <? start_year then Some Reversed
  else if (current_year <? start_year) || (current_year <? end_year) then Some InFuture
  else if _MAX_REASONABLE_SINGLE_JOB_YEARS <? end_year - start_year then Some (TooLong (end_year - start_year))
  else None.

(** The loop over the sorted intervals, with the last merged one. *)
Fixpoint merge_into (last_merged : Z * Z) (sorted_intervals : list (Z * Z)) : list (Z * Z) :=
  match sorted_intervals with
  | [] => [last_merged]
  | (start_year, end_year) :: rest =>
      if start_year <=? last_merged.2
      then merge_into (last_merged.1, Z.max last_merged.2 end_year) rest
      else last_merged :: merge_into (start_year, end_year) rest
  end.

Definition starts_before (p q : Z * Z) : Prop := p.1 <= q.1.
#[global] Instance starts_before_dec : RelDecision starts_before := λ p q, decide (p.1 <= q.1).

Definition sum_years (l : list (Z * Z)) : Z := foldr (λ p n, p.2 - p.1 + n) 0 l.

Definition _merge_intervals_and_sum_years (intervals : list (Z * Z)) : Z :=
  match merge_sort starts_before intervals with
  | [] => 0
  | first :: rest => sum_years (merge_into first rest)
  end.

Definition analyze_entry (entry : WorkExperienceEntry) : AnalyzedEntry :=
  match _parse_duration (work_duration entry) with
  | None => mkAnalyzed entry None None (Some Unreadable)
  | Some (start_year, end_year) =>
      mkAnalyzed entry (Some start_year) (Some end_year)
        (_validate_entry start_year end_year (start_year <? _SHAMSI_YEAR_THRESHOLD))
  end.

Definition interval_of (a : AnalyzedEntry) : option (Z * Z) :=
  if is_valid a then s ← an_start_year a; e ← an_end_year a; Some (s, e) else None.

(** The result: [total_experience_years] and the [entries]. *)
Definition analyze_work_experience (work_experience : list WorkExperienceEntry) : Z * list AnalyzedEntry :=
  let analyzed_entries := analyze_entry <$> work_experience in
  let valid_intervals := omap interval_of analyzed_entries in
  (_merge_intervals_and_sum_years valid_intervals, analyzed_entries).
End analyzer.

(** ** The reference: a set of years *)

(** An interval [s - e] counts the years [s .. e-1]. *)
Definition years_of (p : Z * Z) : gset Z := list_to_set (seqZ p.1 (p.2 - p.1)).
Definition years (l : list (Z * Z)) : gset Z := ⋃ (years_of <$> l).

Lemma elem_of_years_of y p : y ∈ years_of p ↔ p.1 <= y < p.2.
Proof. unfold years_of. rewrite elem_of_list_to_set, elem_of_seqZ. lia. Qed.

Lemma elem_of_years y l : y ∈ years l ↔ ∃ p, p ∈ l ∧ p.1 <= y < p.2.
Proof.
  unfold years. rewrite elem_of_union_list. setoid_rewrite list_elem_of_fmap. split.
  - intros (X & (p & -> & Hp) & Hy). rewrite elem_of_years_of in Hy. eauto.
  - intros (p & Hp & Hy). exists (years_of p). rewrite elem_of_years_of. eauto.
Qed.

Lemma size_years_of p : p.1 <= p.2 → Z.of_nat (size (years_of p)) = p.2 - p.1.
Proof.
  intros Hp. unfold years_of. rewrite size_list_to_set by apply NoDup_seqZ. rewrite length_seqZ. lia.
Qed.

Lemma years_cons p l : years (p :: l) = years_of p ∪ years l.
Proof. done. Qed.

Lemma years_perm l l' : l ≡ₚ l' → years l = years l'.
Proof.
  intros Hp. apply set_eq. intros y. rewrite !elem_of_years. by setoid_rewrite Hp.
Qed.

Lemma merge_into_sum last l :
  last.1 <= last.2 → (∀ p, p ∈ l → last.1 <= p.1 <= p.2) → StronglySorted starts_before l →
  sum_years (merge_into last l) = Z.of_nat (size (years (last :: l))).
Proof.
  revert last. induction l as [|[s e] l IH]; intros [a b] Hab Hl Hs; cbn [fst snd] in *.
  - cbn [merge_into sum_years foldr fst snd]. rewrite years_cons. unfold years. cbn [fmap list_fmap union_list foldr].
    rewrite (right_id_L ∅ (∪)), size_years_of by done. cbn. lia.
  - apply StronglySorted_inv in Hs as [Hs Hse]. rewrite Forall_forall in Hse.
    pose proof (Hl (s, e) ltac:(left)) as Hse'. cbn in Hse'.
    cbn [merge_into fst snd]. destruct (Z.leb_spec s b) as [Hsb|Hsb].
    + rewrite IH; [|cbn; lia| |done].
      * do 2 f_equal. apply set_eq. intros y. rewrite !elem_of_years. setoid_rewrite elem_of_cons.
        split.
        -- intros (p & [->|Hp] & Hy); [|exists p; split; [right; by right|done]]. cbn in Hy.
           destruct (decide (y < b)); [exists (a, b)|exists (s, e)]; cbn; (split; [|lia]); [by left|right; left].
        -- intros (p & [->|[->|Hp]%elem_of_cons] & Hy); cbn in Hy;
             [exists (a, Z.max b e)|exists (a, Z.max b e)|exists p]; cbn; (split; [auto|lia]).
      * intros p Hp. cbn. apply Hl. by right.
    + cbn [sum_years foldr]. fold (sum_years (merge_into (s, e) l)).
      rewrite IH; [|cbn; lia| |done].
      * rewrite (years_cons (a, b)), size_union, Nat2Z.inj_add, size_years_of; cbn [fst snd]; [lia|lia|].
        intros y Hy Hy'. rewrite elem_of_years_of in Hy. cbn in Hy.
        apply elem_of_years in Hy' as (p & [->|Hp]%elem_of_cons & Hy'); cbn in Hy'; [lia|].
        specialize (Hse p Hp). unfold starts_before in Hse. cbn in Hse. lia.
      * intros p Hp. cbn. specialize (Hse p Hp). unfold starts_before in Hse. cbn in Hse.
        split; [done|]. apply Hl. by right.
Qed.

#[global] Instance starts_before_trans : Transitive starts_before.
Proof. unfold starts_before. intros ???. lia. Qed.
#[global] Instance starts_before_total : Total starts_before.
Proof. unfold starts_before. intros ??. lia. Qed.

(** Merging is counting the covered years. *)
Lemma merge_is_union intervals :
  (∀ p, p ∈ intervals → p.1 <= p.2) →
  _merge_intervals_and_sum_years intervals = Z.of_nat (size (years intervals)).
Proof.
  intros Hi. unfold _merge_intervals_and_sum_years.
  pose proof (merge_sort_Permutation starts_before intervals) as Hp.
  pose proof (StronglySorted_merge_sort starts_before intervals) as Hs.
  rewrite (years_perm intervals (merge_sort starts_before intervals)) by done.
  assert (∀ p, p ∈ merge_sort starts_before intervals → p.1 <= p.2) as Hi'.
  { intros p Hin. apply Hi. by rewrite <- Hp. }
  destruct (merge_sort starts_before intervals) as [|p l]; [done|].
  apply StronglySorted_inv in Hs as [Hs Hle]. rewrite Forall_forall in Hle.
  apply merge_into_sum; [apply Hi'; left| |done]. intros q Hq. split; [by apply Hle|]. apply Hi'. by right.
Qed.

Lemma interval_of_valid `{Unicode} today e p :
  interval_of (analyze_entry today e) = Some p →
  p.1 <= p.2 <= _current_year_for_calendar today (p.1 <? _SHAMSI_YEAR_THRESHOLD) ∧
  p.2 - p.1 <= _MAX_REASONABLE_SINGLE_JOB_YEARS ∧ _parse_duration today (work_duration e) = Some p.
Proof.
  unfold interval_of, is_valid, analyze_entry.
  destruct (_parse_duration today (work_duration e)) as [[s t]|]; [|done]. cbn [an_flag_reason an_start_year an_end_year].
  case_bool_decide as Hf; [|done]. intros [= <-]. cbn [fst snd].
  unfold _validate_entry in Hf. cbv zeta in Hf.
  destruct (Z.ltb_spec t s); [done|]. destruct (_ || _) eqn:Ho; [done|]. apply orb_false_iff in Ho as [H1 H2].
  destruct (Z.ltb_spec _MAX_REASONABLE_SINGLE_JOB_YEARS (t - s)); [done|].
  apply Z.ltb_ge in H1, H2. split_and!; [lia|lia|lia|done].
Qed.

(** The Gregorian year a year number stands for. *)
Definition calendar_year (y : Z) : Z := if y <? 1500 then y + 621 else y.

(** The Persian years of a set whose Gregorian number is in it, too. *)
Definition written_twice (Y : gset Z) : gset Z :=
  filter (λ y, y < 1500 ∧ 1500 ≤ calendar_year y ∧ calendar_year y ∈ Y) Y.

Lemma calendar_years_counted (Y : gset Z) :
  size Y = (size (set_map (C:=gset Z) (D:=gset Z) calendar_year Y) + size (written_twice Y))%nat.
Proof.
  set (rest := filter (λ y, ¬ (y < 1500 ∧ 1500 ≤ calendar_year y ∧ calendar_year y ∈ Y)) Y).
  assert (set_map (C:=gset Z) (D:=gset Z) calendar_year Y = set_map (C:=gset Z) (D:=gset Z) calendar_year rest) as ->.
  { apply set_eq. intros g. rewrite !elem_of_map. unfold rest. setoid_rewrite elem_of_filter. split; [|set_solver].
    intros (y & -> & Hy). destruct (decide (y < 1500 ∧ 1500 ≤ calendar_year y ∧ calendar_year y ∈ Y))
      as [(H1 & H2 & H3)|Hn]; [|eauto].
    exists (calendar_year y). split; [unfold calendar_year at 2; destruct (Z.ltb_spec (calendar_year y) 1500); lia|].
    split; [|done]. intros (? & _). lia. }
  assert (size (set_map (C:=gset Z) (D:=gset Z) calendar_year rest) = size rest) as ->.
  - unfold set_map. rewrite size_list_to_set; [by rewrite length_fmap|].
    apply NoDup_fmap_2_strong; [|apply NoDup_elements]. intros x y Hx%elem_of_elements Hy%elem_of_elements.
    unfold rest in Hx, Hy. rewrite elem_of_filter in Hx, Hy. destruct Hx as [Hx HxY], Hy as [Hy HyY].
    unfold calendar_year in *.
    destruct (Z.ltb_spec x 1500), (Z.ltb_spec y 1500); intros E; try lia.
    + destruct Hx. subst y. auto.
    + destruct Hy. subst x. auto.
  - rewrite (union_difference_L (written_twice Y) Y) at 1 by (unfold written_twice; set_solver).
    rewrite size_union by set_solver. rewrite Nat.add_comm. f_equal. f_equal. apply set_eq. intros y.
    unfold rest, written_twice. rewrite elem_of_difference, !elem_of_filter. tauto.
Qed.


Example net_experience_demo :
  let entry d := mkWork None None (Some d) in
  fst (@analyze_work_experience text_unicode 2026
    [entry "1398 - 1401"; entry "۱۴۰۰ – ۱۴۰۲"; entry "1403-Present"; entry "1405 - 1404"; entry "soon"]) = 6.
Proof. vm_compute. reflexivity. Qed.
