(* ===== verification/SkillGraph.v ===== *)
(** The skill graph ([app/core/skill_graph.py]) and the skill engine
    ([app/core/skill_engine.py]): which skills a text mentions, and which
    these imply. Texts are scanned byte by byte: the boundaries of a keyword
    are ASCII letters and digits only. *)
From S2P Require Import Prelude PyText Unicode Experience.
From stdpp Require Import sorting.
Local Open Scope string_scope.
Local Open Scope list_scope.

Definition SKILL_ONTOLOGY : list (string * list string) :=
  [("Python", ["FastAPI"; "Django"; "Flask"; "Pandas"; "NumPy"; "PyTest"; "SQLAlchemy"]);
   ("JavaScript", ["TypeScript"; "React"; "React.js"; "Vue.js"; "Angular"; "Node.js"; "Express.js"; "Next.js"]);
   ("Java", ["Spring"; "Spring Boot"; "Hibernate"]);
   ("C#", ["ASP.NET"; ".NET Core"]);
   ("SQL", ["PostgreSQL"; "MySQL"; "SQL Server"; "SQLite"; "Oracle Database"]);
   ("NoSQL", ["MongoDB"; "Redis"; "Cassandra"; "Elasticsearch"]);
   ("DevOps", ["Docker"; "Kubernetes"; "Jenkins"; "Terraform"; "Ansible"; "CI/CD"]);
   ("Cloud Computing", ["AWS"; "Azure"; "GCP"; "Google Cloud"]);
   ("Machine Learning", ["Deep Learning"; "PyTorch"; "TensorFlow"; "Scikit-learn"; "Keras"]);
   ("Project Management", ["Scrum"; "Agile"; "Kanban"; "Jira"]);
   ("UI/UX Design", ["Figma"; "Adobe XD"; "Sketch"])].

(** A [dict] in insertion order: [d[k] = v] and [d.get(k)]. *)
Fixpoint dict_set {A} (k : string) (v : A) (d : list (string * A)) : list (string * A) :=
  match d with
  | [] => [(k, v)]
  | (k', v') :: r => if bool_decide (k' = k) then (k, v) :: r else (k', v') :: dict_set k v r
  end.

Fixpoint dict_get {A} (k : string) (d : list (string * A)) : option A :=
  match d with
  | [] => None
  | (k', v) :: r => if bool_decide (k' = k) then Some v else dict_get k r
  end.

(** Lower-case keyword, display name, core skill. *)
Definition _build_lookup_table : list (string * (string * string)) :=
  foldl (λ lookup '(core_skill, sub_skills),
    foldl (λ lookup sub_skill, dict_set (lower sub_skill) (sub_skill, core_skill) lookup)
      (dict_set (lower core_skill) (core_skill, core_skill) lookup) sub_skills)
    [] SKILL_ONTOLOGY.

Definition _SKILL_LOOKUP_TABLE : list (string * (string * string)) := Eval vm_compute in _build_lookup_table.

(** [(?<![a-zA-Z0-9])] and [(?![a-zA-Z0-9])] *)
Definition ascii_alnum (c : ascii) : bool :=
  is_digit c || bool_decide (65 ≤ code c ≤ 90)%N || bool_decide (97 ≤ code c ≤ 122)%N.

Definition ends_here (s : string) : bool :=
  match s with EmptyString => true | String c _ => negb (ascii_alnum c) end.

(** [keyword] stands at the head of [s], between boundaries; [free] tells
    that no letter or digit precedes. *)
Definition matches_here (keyword : string) (free : bool) (s : string) : bool :=
  free && match removeprefix keyword s with Some rest => ends_here rest | None => false end.

(** [re.search(pattern, s)] *)
Fixpoint occurs (keyword : string) (free : bool) (s : string) : bool :=
  matches_here keyword free s ||
  match s with EmptyString => false | String c r => occurs keyword (negb (ascii_alnum c)) r end.

(** [len(re.findall(pattern, s))]: the scan resumes after a match. *)
Fixpoint occurrences (keyword : string) (free : bool) (skip : nat) (s : string) : nat :=
  match s with
  | EmptyString => 0
  | String c r =>
      match skip with
      | S k => occurrences keyword (negb (ascii_alnum c)) k r
      | O => if matches_here keyword free s
             then S (occurrences keyword (negb (ascii_alnum c)) (String.length keyword - 1) r)
             else occurrences keyword (negb (ascii_alnum c)) 0 r
      end
  end.

Definition text_le (a b : string) : Prop := String.leb a b = true.
#[global] Instance text_le_dec : RelDecision text_le := λ a b, decide (String.leb a b = true).

(** [sorted(set(l))] *)
Definition sorted_set (l : list string) : list string := merge_sort text_le (remove_dups l).

Definition match_skills (text : string) : list string :=
  let lowered_text := lower text in
  sorted_set (foldr (λ '(keyword, (display_name, core_skill)) detected,
    if occurs keyword true lowered_text then display_name :: core_skill :: detected else detected)
    [] _SKILL_LOOKUP_TABLE).

Definition count_skill_mentions (text : string) : list (string * (string * nat)) :=
  let lowered_text := lower text in
  foldl (λ mentions '(keyword, (display_name, core_skill)),
    let count := occurrences keyword true 0 lowered_text in
    if bool_decide (count = 0) then mentions else
    let previous := match dict_get display_name mentions with Some (_, n) => n | None => 0 end in
    dict_set display_name (core_skill, previous + count) mentions)
    [] _SKILL_LOOKUP_TABLE.

Definition get_core_skill (skill_name : string) : string :=
  match dict_get (lower (strip skill_name)) _SKILL_LOOKUP_TABLE with
  | Some (_, core_skill) => core_skill
  | None => skill_name
  end.

(** [run_skill_engine]: skills, net years, analysed entries. *)
Record SkillAnalysis := mkSkillAnalysis {
  sa_skills : list string; sa_total_experience_years : Z; sa_experience_entries : list AnalyzedEntry }.

Definition run_skill_engine `{Unicode} (today_year : Z) (raw_text : string)
    (work_experience : list WorkExperienceEntry) : SkillAnalysis :=
  let '(years, entries) := analyze_work_experience today_year work_experience in
  mkSkillAnalysis (match_skills raw_text) years entries.

(** ** Lemmas *)

Lemma lookup_table_built : _SKILL_LOOKUP_TABLE = _build_lookup_table.
Proof. vm_compute. reflexivity. Qed.

Lemma leb_total a b : String.leb a b = true ∨ String.leb b a = true.
Proof. unfold String.leb. rewrite (String.compare_antisym a b). destruct (String.compare b a); auto. Qed.

#[global] Instance text_le_total : Total text_le.
Proof. intros a b. apply leb_total. Qed.

Lemma elem_of_sorted_set x l : x ∈ sorted_set l ↔ x ∈ l.
Proof. unfold sorted_set. by rewrite merge_sort_Permutation, elem_of_remove_dups. Qed.

Lemma sorted_set_NoDup l : NoDup (sorted_set l).
Proof. unfold sorted_set. rewrite merge_sort_Permutation. apply NoDup_remove_dups. Qed.

Lemma elem_of_match_skills s text :
  s ∈ match_skills text ↔ ∃ keyword display_name core_skill,
    (keyword, (display_name, core_skill)) ∈ _SKILL_LOOKUP_TABLE ∧
    occurs keyword true (lower text) = true ∧ (s = display_name ∨ s = core_skill).
Proof.
  unfold match_skills. cbv zeta. rewrite elem_of_sorted_set.
  induction _SKILL_LOOKUP_TABLE as [|[k [d c]] t IH]; cbn [foldr].
  - rewrite elem_of_nil. split; [done|]. intros (?&?&?&?%elem_of_nil&_). done.
  - setoid_rewrite elem_of_cons. destruct (occurs k true (lower text)) eqn:E; rewrite ?elem_of_cons, IH; split.
    + intros [->|[->|(k' & d' & c' & Hin & Ho & Hs)]]; [exists k, d, c|exists k, d, c|exists k', d', c']; auto.
    + intros (k' & d' & c' & [[= -> -> ->]|Hin] & Ho & Hs); [destruct Hs; auto|right; right; eauto 6].
    + intros (k' & d' & c' & Hin & Ho & Hs). eauto 7.
    + intros (k' & d' & c' & [[= -> -> ->]|Hin] & Ho & Hs); [congruence|eauto 6].
Qed.

(** Facts of the table, by computation. *)
Definition table_ok : bool :=
  forallb (λ '(k, (d, c)), bool_decide (k = lower d) && bool_decide (get_core_skill d = c) &&
    bool_decide (get_core_skill c = c) && bool_decide (dict_get k _SKILL_LOOKUP_TABLE = Some (d, c)) &&
    occurs k true k) _SKILL_LOOKUP_TABLE.
Lemma table_is_ok : table_ok = true.
Proof. vm_compute. reflexivity. Qed.

Lemma table_entry k d c : (k, (d, c)) ∈ _SKILL_LOOKUP_TABLE →
  k = lower d ∧ get_core_skill d = c ∧ get_core_skill c = c ∧ dict_get k _SKILL_LOOKUP_TABLE = Some (d, c) ∧
  occurs k true k = true.
Proof.
  intros Hin. pose proof table_is_ok as Hok. unfold table_ok in Hok. rewrite forallb_forall in Hok.
  apply list_elem_of_In, Hok in Hin. bool_to_prop.
  repeat match goal with H : bool_decide _ = true |- _ => apply bool_decide_eq_true in H end. done.
Qed.

Lemma dict_get_elem {A} k (v : A) d : dict_get k d = Some v → (k, v) ∈ d.
Proof.
  induction d as [|[k' v'] d IH]; [done|]. cbn. case_bool_decide as Hk.
  - intros [= ->]. subst. left.
  - intros ?%IH. by right.
Qed.

Lemma dict_get_set {A} k k' (v : A) d :
  dict_get k (dict_set k' v d) = if bool_decide (k' = k) then Some v else dict_get k d.
Proof.
  induction d as [|[k0 v0] d IH]; [done|]. cbn. destruct (decide (k0 = k')) as [->|Hne].
  - rewrite (bool_decide_true (k' = k')) by done. cbn. by case_bool_decide.
  - rewrite (bool_decide_false (k0 = k')) by done. cbn. rewrite IH. repeat case_bool_decide; congruence.
Qed.

(** A keyword is counted exactly when it occurs. *)
Lemma occurs_counted k s free : k ≠ "" → occurs k free s = negb (bool_decide (occurrences k free 0 s = 0)).
Proof.
  intros Hk. revert free. induction s as [|c s IH]; intros free; cbn [occurs occurrences].
  - unfold matches_here. destruct k; [done|]. cbn. by rewrite andb_false_r.
  - destruct (matches_here k free (String c s)); [done|]. cbn. apply IH.
Qed.

Lemma keyword_nonempty k d c : (k, (d, c)) ∈ _SKILL_LOOKUP_TABLE → k ≠ "".
Proof.
  intros Hin. assert (forallb (λ e, negb (bool_decide (e.1 = ""))) _SKILL_LOOKUP_TABLE = true) as Hok
    by (vm_compute; reflexivity).
  rewrite forallb_forall in Hok. apply list_elem_of_In, Hok in Hin. by bool_to_prop.
Qed.

Lemma mentioned_iff x text :
  is_Some (dict_get x (count_skill_mentions text)) ↔
  ∃ k c, (k, (x, c)) ∈ _SKILL_LOOKUP_TABLE ∧ occurs k true (lower text) = true.
Proof.
  unfold count_skill_mentions. cbv zeta.
  assert (∀ k d c, (k, (d, c)) ∈ _SKILL_LOOKUP_TABLE → k ≠ "") as Hne by apply keyword_nonempty.
  revert Hne. generalize _SKILL_LOOKUP_TABLE at 1 2 3. intros t.
  assert (∀ acc, (∀ k d c, (k, (d, c)) ∈ t → k ≠ "") →
    is_Some (dict_get x (foldl (λ mentions '(keyword, (display_name, core_skill)),
      if bool_decide (occurrences keyword true 0 (lower text) = 0) then mentions else
      dict_set display_name (core_skill, (match dict_get display_name mentions with Some (_, n) => n | None => 0 end) +
        occurrences keyword true 0 (lower text)) mentions) acc t)) ↔
    is_Some (dict_get x acc) ∨ ∃ k c, (k, (x, c)) ∈ t ∧ occurs k true (lower text) = true) as H.
  { induction t as [|[k [d c]] t IH]; intros acc Hne; cbn [foldl].
    - split; [auto|]. intros [?|(k & c & ?%elem_of_nil & _)]; done.
    - rewrite IH by (intros; eapply Hne; right; done).
      setoid_rewrite elem_of_cons. pose proof (occurs_counted k (lower text) true ltac:(eapply Hne; left)) as Ho.
      destruct (bool_decide (occurrences k true 0 (lower text) = 0)); cbn in Ho.
      + split; [intros [?|(k' & c' & ? & ?)]; eauto 6|].
        intros [?|(k' & c' & [[= -> -> ->]|?] & ?)]; [auto|congruence|eauto 6].
      + rewrite dict_get_set. case_bool_decide as Hx.
        * subst d. split; [|auto]. intros _. right. exists k, c. auto.
        * split; [intros [?|(k' & c' & ? & ?)]; eauto 6|].
          intros [?|(k' & c' & [[= -> -> ->]|?] & ?)]; [auto|congruence|eauto 6]. }
  intros Hne. rewrite (H [] Hne). cbn. split; [intros [[? [=]]|?]; done|auto].
Qed.

(** The skills of a text are closed in the graph: they come sorted and
    without repetition; they are the skills the text itself names (those that
    are counted) and the core skills of these, no others; and with a skill its
    core skill is always among them. *)
Theorem skills_are_closed (text : string) :
  NoDup (match_skills text) ∧ Sorted text_le (match_skills text) ∧
  (∀ s, s ∈ match_skills text → get_core_skill s ∈ match_skills text) ∧
  (∀ s, s ∈ match_skills text ↔
     ∃ named, is_Some (dict_get named (count_skill_mentions text)) ∧ (s = named ∨ s = get_core_skill named)).
Proof.
  split; [apply sorted_set_NoDup|]. split; [apply (Sorted_merge_sort _)|]. split.
  - intros s (k & d & c & Hin & Ho & Hs)%elem_of_match_skills. apply elem_of_match_skills.
    apply table_entry in Hin as Ht. destruct Ht as (_ & Hd & Hc & _).
    exists k, d, c. split_and!; [done|done|]. right. destruct Hs; congruence.
  - intros s. rewrite elem_of_match_skills. setoid_rewrite mentioned_iff. split.
    + intros (k & d & c & Hin & Ho & Hs). exists d. split; [eauto|].
      apply table_entry in Hin as (_ & -> & _). done.
    + intros (d & (k & c & Hin & Ho) & Hs). exists k, d, c. split_and!; [done|done|].
      apply table_entry in Hin as (_ & <- & _). done.
Qed.

Example match_skills_demo :
  match_skills "Built APIs with FastAPI and node.js; JavaScript, not java" =
    ["FastAPI"; "Java"; "JavaScript"; "Node.js"; "Python"].
Proof. vm_compute. reflexivity. Qed.
