(* ===== verification/Parser.v ===== *)
(** From a resume file to structured data: the text of a document
    ([app/core/text_extraction.py]) and what it says of a person, of jobs and
    of studies ([app/core/resume_parser.py], [app/schemas/resume_parsing.py]).
    PyMuPDF, python-docx, Tesseract and spaCy are parameters. *)
From S2P Require Import Prelude PyText Unicode Regex Texts Models Codecs Experience SkillGraph.
From Stdlib Require Import QArith.
Local Open Scope string_scope.
Local Open Scope nat_scope.
Local Open Scope list_scope.

(** ** Extraction *)

(** What the libraries answer: a page has a text layer and a text its picture
    is read as; reading can raise. *)
Record PdfPage := mkPage { get_text : exn + text; image_to_string : exn + text }.
Record PdfDocument := mkPdf { needs_pass : bool; pdf_pages : list PdfPage }.
Record DocxDocument := mkDocx { docx_paragraphs : list text; docx_cells : list text }.

Class DocumentReaders := {
  fitz_open : string → option PdfDocument;
  docx_open : string → option DocxDocument }.

Definition _MIN_TEXT_LAYER_CHARS : nat := 40.
Definition UnreadableResumeFileError : exn := PyError "UnreadableResumeFileError".

Definition newline : text := [LF].

Definition _normalize_text (t : text) : text :=
  let normalized_lines := (λ line, join_texts [" "] (split_words line)) <$> splitlines t in
  let non_empty_lines := filter (λ line, empty_text line = false) normalized_lines in
  strip_text (join_texts newline non_empty_lines).

(** A list comprehension whose body can raise. *)
Fixpoint collect {A} (l : list (exn + A)) : exn + list A :=
  match l with
  | [] => inr []
  | inl e :: _ => inl e
  | inr x :: r => match collect r with inl e => inl e | inr xs => inr (x :: xs) end
  end.

(** The texts of the pages, stripped; those that are not empty. *)
Definition page_texts (l : list (exn + text)) : exn + text :=
  match collect l with
  | inl e => inl e
  | inr ts => inr (join_texts newline (filter (λ t, empty_text t = false) (strip_text <$> ts)))
  end.

Section extraction.
Context `{DocumentReaders}.

Definition _extract_from_pdf (file_bytes : string) : exn + text :=
  match fitz_open file_bytes with
  | None => inl UnreadableResumeFileError
  | Some document =>
      if needs_pass document then inl UnreadableResumeFileError else
      match page_texts (get_text <$> pdf_pages document) with
      | inl e => inl e
      | inr direct_text =>
          if (_MIN_TEXT_LAYER_CHARS <=? length direct_text) then inr (_normalize_text direct_text) else
          match page_texts (image_to_string <$> pdf_pages document) with
          | inl e => inl e
          | inr ocr_text =>
              if empty_text (strip_text ocr_text) then inl UnreadableResumeFileError
              else inr (_normalize_text ocr_text)
          end
      end
  end.

Definition _extract_from_docx (file_bytes : string) : exn + text :=
  match docx_open file_bytes with
  | None => inl UnreadableResumeFileError
  | Some document =>
      let combined_text := join_texts newline (filter (λ t, empty_text (strip_text t) = false)
                             (docx_paragraphs document ++ docx_cells document)) in
      if empty_text (strip_text combined_text) then inl UnreadableResumeFileError
      else inr (_normalize_text combined_text)
  end.

Definition ends_text (s x : text) : bool := starts_text (rev x) (rev s).

Definition extract_raw_text (file_bytes filename : string) : exn + text :=
  let lowered_filename := chars (lower filename) in
  if ends_text lowered_filename (chars ".pdf") then _extract_from_pdf file_bytes
  else if ends_text lowered_filename (chars ".docx") then _extract_from_docx file_bytes
  else inl UnreadableResumeFileError.
End extraction.

(** ** Structured data *)

Record PersonalInfo := mkPersonal { pi_name : option text; pi_email : option text; pi_phone : option text }.
Record WorkEntry := mkWorkEntry { we_company : option text; we_job_title : option text; we_duration : option text }.
Record EducationEntry := mkEducation { ed_degree : option string; ed_university : option text; ed_gpa : option Q }.
Record ParsedResumeData := mkParsed {
  personal_info : PersonalInfo; education : list EducationEntry; work_experience : list WorkEntry }.

(** spaCy's entities of a text, label and words; [None]: it raises. The class
    says whether the model is installed. *)
Class Ner := { spacy_model : option (text → option (list (string * text))) }.

Definition _EXPERIENCE_SECTION_HEADERS : list text := chars <$>
  ["تجربه کاری"; "تجربیات شغلی"; "سوابق شغلی"; "سوابق کاری"; "سابقه کار"; "work experience"; "employment history";
   "professional experience"; "experience"].
Definition _EDUCATION_SECTION_HEADERS : list text := chars <$>
  ["سوابق تحصیلی"; "تحصیلات دانشگاهی"; "تحصیلات"; "education"; "academic background"; "academic qualifications"].
Definition _MAX_SECTION_HEADER_LINE_LENGTH : nat := 40.

Definition _JOB_TITLE_KEYWORDS : list text := chars <$>
  ["توسعه‌دهنده"; "برنامه‌نویس"; "مهندس"; "کارشناس"; "مدیر"; "طراح"; "تحلیلگر"; "developer"; "engineer"; "manager";
   "designer"; "analyst"; "specialist"; "consultant"; "administrator"; "lead"; "architect"].
Definition _DEGREE_KEYWORDS : list string :=
  ["دکتری"; "کارشناسی ارشد"; "کارشناسی"; "کاردانی"; "دیپلم"; "phd"; "ph.d"; "master"; "bachelor"; "associate"; "mba";
   "b.sc"; "m.sc"].

(** *** Patterns *)

Definition space : re := Chr is_wide_space.
Definition wide_blank : re := Star space.
Definition ascii_alnum_or (extra : list string) (c : string) : bool :=
  match c with String a EmptyString => ascii_alnum a | _ => false end || bool_decide (c ∈ extra).
Definition ascii_digit (c : string) : bool := bool_decide (c ∈ latin_digits).

Definition _BLANK_LINE : re := Seq (OneOf [LF]) (Seq wide_blank (OneOf [LF])).

Definition _EMAIL_PATTERN : re :=
  Seq (Plus (Chr (ascii_alnum_or ["_"; "."; "+"; "-"]))) (Seq (Exact "@")
    (Seq (Plus (Chr (ascii_alnum_or ["-"]))) (Seq (Exact ".") (Plus (Chr (ascii_alnum_or ["-"; "."])))))).

Definition organization : re := Rep (Chr (λ c, negb (bool_decide (c ∈ [LF; ","; "،"; "."])))) 2 58.
Definition company_keyword : re := Seq (Alts [Exact "شرکت"; Exact "سازمان"]) (Plus space).
Definition university_keyword : re := Seq (Exact "دانشگاه") (Plus space).

Definition gpa_keyword : re :=
  Seq (Alts [Lit "معدل"; Lit "GPA"]) (Seq wide_blank (Seq (Opt (OneOf [":"; "ـ"])) wide_blank)).
Definition gpa_number : re := Seq (Plus (Chr ascii_digit)) (Opt (Seq (OneOf ["."; ","]) (Plus (Chr ascii_digit)))).

Section parser.
Context `{Unicode}.

Definition any_digit : re := Chr (λ c, bool_decide (is_Some (decimal c))).

Definition _PHONE_PATTERN : re :=
  Seq (Opt (Alts [Exact "+98"; Exact "0"])) (Seq (Exact "9") (Seq (Rep any_digit 9 0) (Boundary word_char))).

Definition year_pattern : re :=
  Alt (Seq (Exact "1") (Seq (OneOf ["3"; "4"; "9"]) (Rep any_digit 2 0))) (Seq (Exact "20") (Rep any_digit 2 0)).
Definition range_dash : re :=
  Seq wide_blank (Seq (Alts [Plus (OneOf ["-"; "–"; "—"]); Lit "تا"; Lit "to"]) wide_blank).
Definition range_end : re :=
  Alt year_pattern (Alts [Lit "تاکنون"; Lit "اکنون"; Lit "حال حاضر"; Lit "present"; Lit "current"]).

(** The two groups of [_DATE_RANGE_PATTERN]. *)
Definition date_range (prev : option string) (s : text) : option (text * text) :=
  match_re year_pattern prev s (λ prev s1, match_re range_dash prev s1 (λ prev s2,
    match_re range_end prev s2 (λ _ s3, Some (between s s1, between s2 s3)))).

(** *** Sections and blocks *)

Inductive SectionName := Header | Experience_ | Education_.
#[global] Instance SectionName_eq_dec : EqDecision SectionName.
Proof. solve_decision. Defined.

(** What a line does to the current section: a heading opens one, any other
    line belongs to it. *)
Definition heading (line : text) : option SectionName :=
  let normalized_line := lower_text (strip_text line) in
  if length normalized_line <? _MAX_SECTION_HEADER_LINE_LENGTH then
    if existsb (contains_text normalized_line) _EXPERIENCE_SECTION_HEADERS then Some Experience_
    else if existsb (contains_text normalized_line) _EDUCATION_SECTION_HEADERS then Some Education_
    else None
  else None.

(** The lines of the section [name]. *)
Fixpoint section_lines (name current_section : SectionName) (lines : list text) : list text :=
  match lines with
  | [] => []
  | line :: rest =>
      match heading line with
      | Some opened => section_lines name opened rest
      | None =>
          if bool_decide (current_section = name) then line :: section_lines name current_section rest
          else section_lines name current_section rest
      end
  end.

Definition _split_into_sections (t : text) (name : SectionName) : text :=
  join_texts newline (section_lines name Header (splitlines t)).

Definition _split_into_blocks (section_text : text) : list text :=
  filter (λ block, empty_text block = false) (strip_text <$> re_split _BLANK_LINE (strip_text section_text)).

(** *** Fields *)

Definition _find_duration (block : text) : option text :=
  '(start, stop) ← search_with date_range None block;
  Some (start ++ chars " - " ++ stop).

Definition _find_keyword_line (block : text) (keywords : list text) : option text :=
  strip_text <$> head (filter (λ line, existsb (contains_text (lower_text line)) keywords = true) (splitlines block)).

Definition _find_degree (block : text) : option string :=
  head (filter (λ keyword, contains_text (lower_text block) (chars keyword) = true) _DEGREE_KEYWORDS).

(** [float(group.replace(",", "."))] of digits with at most one point: digits
    and the number of decimals read so far. *)
Fixpoint read_decimal (s : text) (n : Z) (decimals : option nat) : option Q :=
  match s with
  | [] => Some (Qmake n (Pos.of_nat (10 ^ default 0 decimals)))
  | c :: r =>
      match position c latin_digits 0 with
      | Some d => read_decimal r (10 * n + d)%Z (S <$> decimals)
      | None => if bool_decide (c ∈ ["."; ","]) && negb (bool_decide (is_Some decimals)) then read_decimal r n (Some 0) else None
      end
  end.

Definition _find_gpa (block : text) : option Q :=
  number ← group1 gpa_keyword gpa_number Eps block;
  read_decimal number 0 None.

Context `{Ner}.

(** The first entity with the label, stripped; the outer [None] is the
    exception of the model. *)
Definition first_entity (label : string) (t : text) : option (option text) :=
  match spacy_model with
  | None => Some None
  | Some nlp => (λ ents, head (strip_text <$> (filter (λ e, e.1 = label) ents).*2)) <$> nlp t
  end.

Definition _guess_name (header_text : text) : option (option text) :=
  person ← first_entity "PERSON" (take 500 header_text);
  match person with
  | Some name => Some (Some name)
  | None =>
      Some (head (filter (λ line, empty_text line = false ∧ group0 _EMAIL_PATTERN line = None ∧
                                  group0 _PHONE_PATTERN line = None) (strip_text <$> splitlines header_text)))
  end.

Definition _find_organization (block : text) (keyword : re) : option (option text) :=
  match group1 keyword organization Eps block with
  | Some name => Some (Some (strip_text name))
  | None => first_entity "ORG" block
  end.

Definition _extract_personal_info (header_text full_text : text) : option PersonalInfo :=
  name ← _guess_name header_text;
  Some (mkPersonal name (group0 _EMAIL_PATTERN full_text) (group0 _PHONE_PATTERN full_text)).

(** An empty text is as good as none. *)
Definition says (o : option text) : bool := match o with Some t => negb (empty_text t) | None => false end.

Definition work_entry (block : text) : option WorkEntry :=
  company ← _find_organization block company_keyword;
  Some (mkWorkEntry company (_find_keyword_line block _JOB_TITLE_KEYWORDS) (_find_duration block)).

Definition work_counts (e : WorkEntry) : bool := says (we_duration e) || says (we_company e) || says (we_job_title e).

Definition _extract_work_experience (section_text : text) : option (list WorkEntry) :=
  if empty_text (strip_text section_text) then Some [] else
  entries ← mapM work_entry (_split_into_blocks section_text);
  Some (filter (λ e, work_counts e = true) entries).

Definition education_entry (block : text) : option EducationEntry :=
  university ← _find_organization block university_keyword;
  Some (mkEducation (_find_degree block) university (_find_gpa block)).

Definition education_counts (e : EducationEntry) : bool :=
  bool_decide (is_Some (ed_degree e)) || says (ed_university e) || bool_decide (is_Some (ed_gpa e)).

Definition _extract_education (section_text : text) : option (list EducationEntry) :=
  if empty_text (strip_text section_text) then Some [] else
  entries ← mapM education_entry (_split_into_blocks section_text);
  Some (filter (λ e, education_counts e = true) entries).

(** [None]: spaCy raised. *)
Definition parse_resume_text (raw_text : text) : option ParsedResumeData :=
  let normalized_text := normalize_digits raw_text in
  personal ← _extract_personal_info (_split_into_sections normalized_text Header) normalized_text;
  work ← _extract_work_experience (_split_into_sections normalized_text Experience_);
  studies ← _extract_education (_split_into_sections normalized_text Education_);
  Some (mkParsed personal studies work).
End parser.
