(* ===== verification/ParserLaws.v ===== *)
(** What extraction and parsing promise: a clean text, fields that stand in the
    resume - and that extraction removes the blank lines parsing separates
    entries by. *)
From S2P Require Import Prelude PyText Unicode Regex Texts Models Codecs Experience SkillGraph Parser.
Local Open Scope string_scope.
Local Open Scope nat_scope.
Local Open Scope list_scope.

(** ** Clean texts *)

(** Words without white space, one blank between words, no empty line, and a
    line feed between lines. *)
Definition is_word (w : text) : Prop := w ≠ [] ∧ Forall (λ c, is_wide_space c = false) w.
Definition is_line (l : text) : Prop := ∃ ws, ws ≠ [] ∧ Forall is_word ws ∧ l = join_texts [" "] ws.
Definition clean_lines (ls : list text) : Prop := Forall is_line ls.
Definition clean (t : text) : Prop := ∃ ls, clean_lines ls ∧ t = join_texts newline ls.

Lemma breaks_are_spaces c : breaks_line c = true → is_wide_space c = true.
Proof.
  unfold breaks_line, is_wide_space. rewrite !bool_decide_eq_true. revert c.
  assert (forallb (λ c, bool_decide (c ∈ SPACES)) LINE_BREAKS = true) as Hall by (vm_compute; reflexivity).
  intros c Hc. rewrite forallb_elem_of in Hall. by eapply bool_decide_eq_true, Hall.
Qed.

Lemma no_space_no_break c : is_wide_space c = false → breaks_line c = false.
Proof. intros Hc. destruct (breaks_line c) eqn:E; [|done]. apply breaks_are_spaces in E. congruence. Qed.

Lemma join_cons sep x (l : list text) : join_texts sep (x :: l) = x ++ match l with [] => [] | _ => sep ++ join_texts sep l end.
Proof. destruct l; cbn; [by rewrite app_nil_r|done]. Qed.

(** *** Words *)

Lemma words_from_ok s : ∀ word, Forall (λ c, is_wide_space c = false) word → Forall is_word (words_from word s).
Proof.
  induction s as [|c s IH]; intros word Hw; cbn [words_from].
  - destruct word; [constructor|]. constructor; [by split|constructor].
  - destruct (is_wide_space c) eqn:E; [|apply IH, Forall_app; by auto].
    destruct word; [by apply IH|]. constructor; [by split|by apply IH].
Qed.

Lemma words_from_word w : ∀ word s, Forall (λ c, is_wide_space c = false) w → words_from word (w ++ s) = words_from (word ++ w) s.
Proof.
  induction w as [|c w IH]; intros word s Hw; [by rewrite app_nil_r|]. inversion Hw as [|? ? Hc Hw']; subst.
  cbn [app words_from]. rewrite Hc, IH by done. by rewrite <- app_assoc.
Qed.

Lemma split_join_words ws : Forall is_word ws → split_words (join_texts [" "] ws) = ws.
Proof.
  unfold split_words. induction ws as [|w ws IH]; [done|]. intros [[Hne Hw] Hws]%Forall_cons.
  rewrite join_cons, words_from_word by done. cbn [app]. destruct ws as [|w' ws].
  - cbn. by destruct w.
  - cbn [app words_from]. change (is_wide_space " ") with true. cbn iota. destruct w; [done|]. by rewrite IH.
Qed.

Lemma words_from_nil s : ∀ word, words_from word s = [] → word = [] ∧ Forall (λ c, is_wide_space c = true) s.
Proof.
  induction s as [|c s IH]; intros word; cbn [words_from].
  - by destruct word.
  - destruct (is_wide_space c) eqn:E.
    + destruct word; [|done]. intros [_ Hs]%IH. split; [done|by constructor].
    + intros [He _]%IH. by destruct word.
Qed.

(** *** Lines *)

Lemma line_chars l : is_line l → Forall (λ c, c = " " ∨ is_wide_space c = false) l ∧ Exists (λ c, is_wide_space c = false) l.
Proof.
  intros (ws & Hne & Hws & ->). split.
  - clear Hne. induction Hws as [|w ws [Hw Hc] Hws IH]; [constructor|]. rewrite join_cons. apply Forall_app. split.
    + eapply Forall_impl; [exact Hc|auto].
    + destruct ws; [constructor|]. constructor; [by left|done].
  - destruct Hws as [|w ws [Hw Hc] Hws]; [done|]. rewrite join_cons. apply Exists_app. left.
    destruct w as [|c w]; [done|]. left. by inversion Hc.
Qed.

Lemma line_no_break l : is_line l → Forall (λ c, breaks_line c = false) l.
Proof.
  intros [Hl _]%line_chars. eapply Forall_impl; [exact Hl|]. intros c [->|Hc]; [done|by apply no_space_no_break].
Qed.

Lemma line_nonempty l : is_line l → l ≠ [].
Proof. intros [_ He]%line_chars ->. inversion He. Qed.

Lemma lines_from_line l : ∀ line s, Forall (λ c, breaks_line c = false) l → lines_from line (l ++ s) = lines_from (line ++ l) s.
Proof.
  induction l as [|c l IH]; intros line s Hl; [by rewrite app_nil_r|]. inversion Hl as [|? ? Hc Hl']; subst.
  cbn [app lines_from]. rewrite Hc, IH by done. by rewrite <- app_assoc.
Qed.

Lemma splitlines_join ls : clean_lines ls → splitlines (join_texts newline ls) = ls.
Proof.
  unfold splitlines. induction 1 as [|l ls Hl Hls IH]; [done|].
  rewrite join_cons, lines_from_line by (by apply line_no_break). cbn [app]. destruct ls as [|l' ls].
  - cbn. pose proof (line_nonempty l Hl). by destruct l.
  - cbn [newline app lines_from]. change (breaks_line LF) with true. cbn iota. f_equal.
    destruct (join_texts newline (l' :: ls)) as [|c r] eqn:E.
    + rewrite join_cons in E. apply app_eq_nil in E as [E _]. inversion Hls. by apply line_nonempty in E.
    + rewrite (bool_decide_false (LF = CR)) by done. exact IH.
Qed.

(** *** Stripping *)

Lemma lstrip_id c s : is_wide_space c = false → lstrip_text (c :: s) = c :: s.
Proof. intros Hc. cbn. by rewrite Hc. Qed.

Lemma rstrip_id s c : is_wide_space c = false → rstrip_text (s ++ [c]) = s ++ [c].
Proof.
  intros Hc. induction s as [|d s IH]; cbn; [by rewrite Hc|]. rewrite IH. by destruct (s ++ [c]) eqn:E; [destruct s|].
Qed.

(** Texts with the first and the last character visible. *)
Definition framed (s : text) : Prop :=
  (∃ c r, s = c :: r ∧ is_wide_space c = false) ∧ (∃ r c, s = r ++ [c] ∧ is_wide_space c = false).

Lemma strip_framed s : framed s → strip_text s = s.
Proof.
  intros [(c & r & E & Hc) (r' & c' & E' & Hc')]. unfold strip_text. rewrite E at 1. rewrite lstrip_id by done.
  rewrite <- E, E'. by apply rstrip_id.
Qed.

Lemma framed_app a b m : framed a → framed b → framed (a ++ m ++ b).
Proof.
  intros [(c & r & -> & Hc) _] [_ (r' & c' & -> & Hc')]. split.
  - by exists c, (r ++ m ++ r' ++ [c']).
  - exists ((c :: r) ++ m ++ r'), c'. by rewrite <- !app_assoc.
Qed.

Lemma framed_join sep l : l ≠ [] → Forall framed l → framed (join_texts sep l).
Proof.
  intros Hne Hl. induction Hl as [|x l Hx Hl IH]; [done|]. rewrite join_cons. destruct l; [by rewrite app_nil_r|].
  apply framed_app; [done|by apply IH].
Qed.

Lemma word_framed w : is_word w → framed w.
Proof.
  intros [Hne Hw]. split.
  - destruct w as [|c w]; [done|]. inversion Hw. eauto.
  - destruct w as [|c w _] using rev_ind; [done|]. apply Forall_app in Hw as [_ Hc]. inversion Hc. eauto.
Qed.

Lemma line_framed l : is_line l → framed l.
Proof. intros (ws & Hne & Hws & ->). apply framed_join; [done|]. eapply Forall_impl; [exact Hws|apply word_framed]. Qed.

Lemma strip_clean ls : clean_lines ls → strip_text (join_texts newline ls) = join_texts newline ls.
Proof.
  intros Hls. destruct (decide (ls = [])) as [->|Hne]; [done|]. apply strip_framed, framed_join; [done|].
  eapply Forall_impl; [exact Hls|apply line_framed].
Qed.

(** *** Normalisation *)

Lemma normalized_lines_clean t :
  clean_lines (filter (λ line, empty_text line = false) ((λ line, join_texts [" "] (split_words line)) <$> splitlines t)).
Proof.
  apply Forall_forall. intros l [He (line & -> & _)%list_elem_of_fmap]%list_elem_of_filter.
  exists (split_words line). split; [by intros E; rewrite E in He|]. split; [|done]. by apply words_from_ok.
Qed.

Lemma normalize_clean t : clean (_normalize_text t).
Proof.
  eexists. split; [apply (normalized_lines_clean t)|]. unfold _normalize_text. apply strip_clean, normalized_lines_clean.
Qed.

Lemma normalize_fixpoint t : clean t → _normalize_text t = t.
Proof.
  intros (ls & Hls & ->). unfold _normalize_text. rewrite splitlines_join by done.
  assert (filter (λ line, empty_text line = false) ((λ line, join_texts [" "] (split_words line)) <$> ls) = ls) as ->.
  2:{ by apply strip_clean. }
  induction Hls as [|l ls Hl Hls IH]; [done|]. cbn [fmap list_fmap]. pose proof (line_nonempty l Hl) as Hne.
  destruct Hl as (ws & Hw & Hws & ->). rewrite split_join_words by done.
  rewrite filter_cons_True by (by destruct (join_texts [" "] ws)). by rewrite IH.
Qed.

(** A text with a visible character has something left. *)
Definition visible (t : text) : Prop := Exists (λ c, is_wide_space c = false) t.

Lemma strip_visible t : empty_text (strip_text t) = false → visible t.
Proof.
  intros He. destruct (decide (Exists (λ c, is_wide_space c = false) t)) as [|Hn]; [done|].
  assert (Forall (λ c, is_wide_space c = true) t) as Ha.
  { apply Forall_forall. intros c Hc. destruct (is_wide_space c) eqn:E; [done|]. exfalso. apply Hn, Exists_exists. eauto. }
  exfalso. assert (lstrip_text t = []) as E by (clear -Ha; induction Ha as [|c t Hc _ IH]; cbn; [done|by rewrite Hc, IH]).
  unfold strip_text in He. by rewrite E in He.
Qed.

Lemma visible_framed t : framed t → visible t.
Proof. intros [(c & r & -> & Hc) _]. by left. Qed.

Lemma visible_line t : ∀ line, visible (line ++ t) → ∃ l, l ∈ lines_from line t ∧ visible l.
Proof.
  assert (∀ n t line, (length t ≤ n)%nat → visible (line ++ t) → ∃ l, l ∈ lines_from line t ∧ visible l) as Hall.
  2:{ intros line. by apply (Hall (length t)). }
  clear. induction n as [|n IH]; intros [|c r] line Hn Hv; cbn [length] in Hn; try lia; cbn [lines_from].
  1,2: rewrite app_nil_r in Hv; destruct line; [inversion Hv|]; eexists; split; [by left|done].
  destruct (breaks_line c) eqn:Ec.
  - apply Exists_app in Hv as [Hv|Hv]; [eexists; split; [by left|done]|].
    apply breaks_are_spaces in Ec. inversion Hv as [? ? Hc|? ? Hr]; subst; [congruence|].
    destruct r as [|d r]; [inversion Hr|]. cbn in Hn. destruct (bool_decide (c = CR) && bool_decide (d = LF)) eqn:E.
    + apply andb_true_iff in E as [_ ->%bool_decide_eq_true]. inversion Hr as [? ? Hc|? ? Hr']; subst; [done|].
      destruct (IH r [] ltac:(lia) Hr') as (l & Hl & Hv'). exists l. split; [by right|done].
    + destruct (IH (d :: r) [] ltac:(cbn; lia) Hr) as (l & Hl & Hv'). exists l. split; [by right|done].
  - apply IH; [lia|]. by rewrite <- app_assoc.
Qed.

Lemma normalize_nonempty t : visible t → _normalize_text t ≠ [].
Proof.
  intros (l & Hl & Hv)%(visible_line t []). unfold _normalize_text. rewrite strip_clean by apply normalized_lines_clean.
  set (ls := filter _ _). assert (clean_lines ls) as Hls by apply normalized_lines_clean.
  assert (join_texts [" "] (split_words l) ∈ ls) as Hin.
  { apply list_elem_of_filter. split; [|by apply (list_elem_of_fmap_2 (λ line, join_texts [" "] (split_words line)))].
    destruct (split_words l) as [|w ws] eqn:E.
    - apply words_from_nil in E as [_ E]. apply Exists_exists in Hv as (c & Hc & Hv). rewrite Forall_forall in E.
      apply E in Hc. congruence.
    - assert (Forall is_word (w :: ws)) as Hw by (rewrite <- E; by apply words_from_ok).
      inversion Hw as [|? ? [Hne _] _]; subst. rewrite join_cons. by destruct w. }
  destruct ls as [|l0 ls']; [by apply elem_of_nil in Hin|]. inversion Hls as [|? ? Hl0 _]; subst.
  apply line_nonempty in Hl0. rewrite join_cons. by destruct l0.
Qed.

(** ** Extraction *)

Lemma page_texts_framed l t :
  page_texts l = inr t → ∃ ts, Forall framed ts ∧ t = join_texts newline ts.
Proof.
  unfold page_texts. destruct (collect l) as [e|ts]; [done|]. intros [= <-]. eexists. split; [|done].
  apply Forall_forall. intros x [He (y & -> & _)%list_elem_of_fmap]%list_elem_of_filter.
  apply strip_visible in He. revert He. generalize y. clear. intros y Hv.
  assert (∃ c r, lstrip_text y = c :: r ∧ is_wide_space c = false) as (c & r & El & Hc).
  { clear -Hv. induction y as [|c y IH]; [inversion Hv|]. cbn. destruct (is_wide_space c) eqn:E; [|eauto].
    apply IH. inversion Hv; [congruence|done]. }
  unfold strip_text. rewrite El. clear -Hc. split.
  - cbn. destruct (rstrip_text r); [rewrite Hc|]; eauto.
  - assert (∀ s, rstrip_text s = [] ∨ ∃ r c, rstrip_text s = r ++ [c] ∧ is_wide_space c = false) as Hall.
    { induction s as [|d s IH]; cbn; [by left|]. destruct (rstrip_text s) as [|d' s'] eqn:E.
      - destruct (is_wide_space d) eqn:Ed; [by left|]. right. by exists [], d.
      - right. destruct IH as [|(r0 & c0 & -> & H0)]; [done|]. by exists (d :: r0), c0. }
    destruct (Hall (c :: r)) as [E|]; [|done]. cbn in E. rewrite Hc in E. by destruct (rstrip_text r).
Qed.

Lemma visible_join ts : join_texts newline ts ≠ [] → Forall framed ts → visible (join_texts newline ts).
Proof.
  intros Hne Hts. destruct Hts as [|t ts Ht Hts]; [done|]. rewrite join_cons. apply Exists_app. left. by apply visible_framed.
Qed.

(** Whatever a PDF reader, a DOCX reader or character recognition answer,
    the text extraction gives the worker is not empty and in normal form:
    visible words with one blank between them, no blank line, nothing left to
    normalise. Every refusal is the error of an unreadable file, or what a
    reader raised on a page of an open PDF. *)
Theorem extracted_text_is_clean `{DocumentReaders} (file_bytes filename : string) :
  match extract_raw_text file_bytes filename with
  | inr t => t ≠ [] ∧ clean t ∧ _normalize_text t = t
  | inl e => e = UnreadableResumeFileError ∨
             ∃ document page, fitz_open file_bytes = Some document ∧ needs_pass document = false ∧
               page ∈ pdf_pages document ∧ (get_text page = inl e ∨ image_to_string page = inl e)
  end.
Proof.
  assert (∀ t, visible t → _normalize_text t ≠ [] ∧ clean (_normalize_text t) ∧
    _normalize_text (_normalize_text t) = _normalize_text t) as Hok.
  { intros t Ht. split; [by apply normalize_nonempty|]. split; [apply normalize_clean|].
    apply normalize_fixpoint, normalize_clean. }
  assert (∀ l e, page_texts l = inl e → inl e ∈ l) as Hraise.
  { intros l e. unfold page_texts. assert (∀ l : list (exn + text), collect l = inl e → inl e ∈ l) as Hc.
    { clear. induction l as [|[e'|x] l IH]; cbn; [done|intros [= ->]; left|].
      destruct (collect l); [|done]. intros [= ->]. right. by apply IH. }
    destruct (collect l) as [e'|ts] eqn:E; [|done]. intros [= ->]. by apply Hc. }
  unfold extract_raw_text. destruct (ends_text _ _); [|destruct (ends_text _ _); [|by left]].
  - unfold _extract_from_pdf. destruct (fitz_open file_bytes) as [d|]; [|by left].
    destruct (needs_pass d) eqn:Ed; [by left|].
    destruct (page_texts (get_text <$> _)) as [e|t] eqn:Ep.
    { right. apply Hraise, list_elem_of_fmap in Ep as (p & Ep & Hp). exists d, p. auto. }
    apply page_texts_framed in Ep as (ts & Hts & ->).
    destruct (_ <=? _) eqn:El.
    { apply Hok, visible_join; [|done]. intros E. rewrite E in El. done. }
    destruct (page_texts (image_to_string <$> _)) as [e|t'] eqn:Ep'.
    { right. apply Hraise, list_elem_of_fmap in Ep' as (p & Ep' & Hp). exists d, p. auto. }
    destruct (empty_text (strip_text t')) eqn:Es; [by left|]. by apply Hok, strip_visible.
  - unfold _extract_from_docx. destruct (docx_open file_bytes) as [d|]; [|by left].
    destruct (empty_text _) eqn:Es; [by left|]. by apply Hok, strip_visible.
Qed.

(** ** Parsing *)

Section parsing.
Context `{Unicode}.

(** *** Entries and blank lines *)

(** A line feed follows another with nothing visible between; [open]: the
    text before ended so. *)
Fixpoint blank_line (open : bool) (s : text) : bool :=
  match s with
  | [] => false
  | c :: r =>
      if bool_decide (c = LF) then open || blank_line true r
      else blank_line (open && is_wide_space c) r
  end.

Lemma blank_line_mono s : blank_line false s = true → blank_line true s = true.
Proof.
  induction s as [|c s IH]; cbn; [done|]. case_bool_decide; [done|]. destruct (is_wide_space c); [done|by cbn].
Qed.

Lemma blank_line_found prev s x : match_at _BLANK_LINE prev s = Some x → ∀ open, blank_line open s = true.
Proof.
  unfold match_at, _BLANK_LINE. intros Hm open. rewrite seq_match in Hm.
  apply chr_match in Hm as (c & s1 & -> & Hc & Hm). cbv beta in Hm. rewrite seq_match in Hm.
  apply star_match in Hm as (w & p' & s' & -> & Hw & Hm).
  apply chr_match in Hm as (d & s2 & -> & Hd & _).
  apply bool_decide_eq_true, list_elem_of_singleton in Hc as ->.
  apply bool_decide_eq_true, list_elem_of_singleton in Hd as ->.
  cbn. apply orb_true_iff. right. clear -Hw. induction Hw as [|c w Hc Hw IH]; [done|]. cbn.
  case_bool_decide; [done|]. by rewrite Hc.
Qed.

Lemma found_blank_line s : ∀ prev, found _BLANK_LINE prev s = true → blank_line false s = true.
Proof.
  induction s as [|c s IH]; intros prev; cbn [found]; destruct (match_at _BLANK_LINE prev _) eqn:E; try done.
  - intros _. exact (blank_line_found _ _ _ E false).
  - intros Hf%IH. cbn. case_bool_decide; [by apply blank_line_mono|done].
Qed.

Lemma blank_line_visible l : ∀ open rest,
  Forall (λ c, c = " " ∨ is_wide_space c = false) l → Exists (λ c, is_wide_space c = false) l →
  blank_line open (l ++ rest) = blank_line false rest.
Proof.
  assert (∀ rest l, Forall (λ c, c = " " ∨ is_wide_space c = false) l → blank_line false (l ++ rest) = blank_line false rest) as Hf.
  { intros rest l0. induction 1 as [|c l0 Hc Hl IH]; [done|]. cbn. case_bool_decide; [destruct Hc; by subst|done]. }
  induction l as [|c l IH]; intros open rest Hl He; [inversion He|]. inversion Hl as [|? ? Hc Hl']; subst.
  cbn. case_bool_decide; [destruct Hc; by subst|]. inversion He as [? ? Hv|? ? Hv]; subst.
  - rewrite Hv, andb_false_r. by apply Hf.
  - by apply IH.
Qed.

Lemma clean_has_no_blank_line ls : clean_lines ls → blank_line false (join_texts newline ls) = false.
Proof.
  induction 1 as [|l ls Hl Hls IH]; [done|]. rewrite join_cons. destruct (line_chars l Hl) as [Hc Hv].
  rewrite blank_line_visible by done. destruct ls as [|l' ls]; [done|].
  change (blank_line true (join_texts newline (l' :: ls)) = false). rewrite join_cons in IH |- *.
  inversion Hls as [|? ? Hl' _]; subst. destruct (line_chars l' Hl') as [Hc' Hv'].
  rewrite blank_line_visible in IH |- * by done. exact IH.
Qed.

Lemma blocks_of_clean ls : clean_lines ls → length (_split_into_blocks (join_texts newline ls)) ≤ 1.
Proof.
  intros Hls. unfold _split_into_blocks. rewrite strip_clean by done. rewrite re_split_absent.
  - etransitivity; [apply length_filter|]. done.
  - destruct (found _ _ _) eqn:E; [|done]. apply found_blank_line in E. by rewrite clean_has_no_blank_line in E.
Qed.

(** *** Sections of clean texts *)

Lemma section_lines_sublist name ls : ∀ cur, section_lines name cur ls `sublist_of` ls.
Proof.
  induction ls as [|l ls IH]; intros cur; cbn [section_lines]; [done|].
  destruct (heading l); [by apply sublist_cons|]. case_bool_decide; [by apply sublist_skip|by apply sublist_cons].
Qed.

Lemma section_lines_clean name cur ls : clean_lines ls → clean_lines (section_lines name cur ls).
Proof.
  intros Hls. apply Forall_forall. intros l Hl. unfold clean_lines in Hls. rewrite Forall_forall in Hls. apply Hls.
  eapply elem_of_submseteq; [exact Hl|]. apply sublist_submseteq, section_lines_sublist.
Qed.

(** Digits are visible, so that a clean text stays clean. *)
Lemma latin_digit_cases c : latin_digit c = c ∨ (c ∈ persian_digits ++ arabic_digits ∧ latin_digit c ∈ latin_digits).
Proof.
  assert (∀ l i n, position c l i = Some n → c ∈ l) as Hpos.
  { induction l as [|x l IH]; intros i n; cbn; [done|]. case_bool_decide; [subst; left|]. intros ?%IH. by right. }
  destruct (decide (c ∈ persian_digits ++ arabic_digits)) as [Hc|Hc].
  - right. split; [done|]. clear Hpos. revert c Hc.
    assert (forallb (λ c, bool_decide (latin_digit c ∈ latin_digits)) (persian_digits ++ arabic_digits) = true) as Hall
      by (vm_compute; reflexivity).
    intros c Hc. rewrite forallb_elem_of in Hall. by eapply bool_decide_eq_true, Hall.
  - left. rewrite elem_of_app in Hc. unfold latin_digit.
    destruct (position c persian_digits 0) eqn:E; [apply Hpos in E; tauto|].
    destruct (position c arabic_digits 0) eqn:E'; [apply Hpos in E'; tauto|done].
Qed.

Lemma latin_digit_space c : is_wide_space (latin_digit c) = is_wide_space c.
Proof.
  destruct (latin_digit_cases c) as [->|[Hc Hd]]; [done|].
  assert (forallb (λ c, negb (is_wide_space c)) (latin_digits ++ persian_digits ++ arabic_digits) = true) as Hall
    by (vm_compute; reflexivity).
  rewrite forallb_elem_of in Hall. pose proof (Hall c ltac:(apply elem_of_app; by right)) as H1'.
  pose proof (Hall _ ltac:(apply elem_of_app; left; exact Hd)) as H2'. bool_to_prop. congruence.
Qed.

Lemma normalize_digits_join sep ls :
  normalize_digits (join_texts sep ls) = join_texts (normalize_digits sep) (normalize_digits <$> ls).
Proof.
  unfold normalize_digits. induction ls as [|l ls IH]; [done|]. cbn [fmap list_fmap]. rewrite !join_cons, fmap_app. f_equal.
  destruct ls as [|l' ls]; [done|]. cbn [fmap list_fmap] in *. by rewrite fmap_app, IH.
Qed.

Lemma normalize_digits_clean ls : clean_lines ls → clean_lines (normalize_digits <$> ls).
Proof.
  intros Hls. apply Forall_fmap. eapply Forall_impl; [exact Hls|]. intros l (ws & Hne & Hws & ->). cbn.
  exists (normalize_digits <$> ws). split; [by destruct ws|]. split; [|by rewrite normalize_digits_join].
  apply Forall_fmap. eapply Forall_impl; [exact Hws|]. intros w [Hw Hv]. split; cbn; [by destruct w|].
  apply Forall_fmap. eapply Forall_impl; [exact Hv|]. intros c Hc. cbn. by rewrite latin_digit_space.
Qed.

Lemma section_of_clean t name :
  clean t → ∃ ls, clean_lines ls ∧ _split_into_sections (normalize_digits t) name = join_texts newline ls.
Proof.
  intros (ls & Hls & ->). rewrite normalize_digits_join. change (normalize_digits newline) with newline.
  pose proof (normalize_digits_clean ls Hls) as Hls'. unfold _split_into_sections. rewrite splitlines_join by done.
  eexists. split; [by apply section_lines_clean|done].
Qed.

Context `{Ner}.

Lemma filter_mapM_length {A B} (f : A → option B) (P : B → Prop) `{!∀ x, Decision (P x)} l l' :
  mapM f l = Some l' → length (filter P l') ≤ length l.
Proof. intros Hm%length_mapM. rewrite Hm. apply length_filter. Qed.

Lemma work_length section es :
  _extract_work_experience section = Some es → length es ≤ length (_split_into_blocks section).
Proof.
  unfold _extract_work_experience. destruct (empty_text _); [intros [= <-]; cbn; lia|].
  intros (l & Hm & [= <-])%bind_Some. by eapply filter_mapM_length.
Qed.

Lemma education_length section es :
  _extract_education section = Some es → length es ≤ length (_split_into_blocks section).
Proof.
  unfold _extract_education. destruct (empty_text _); [intros [= <-]; cbn; lia|].
  intros (l & Hm & [= <-])%bind_Some. by eapply filter_mapM_length.
Qed.

(** Extraction leaves no blank line, and parsing knows no other end of an
    entry: of all the jobs of a resume the worker gets at most one entry, and
    so of its studies. *)
Theorem extracted_resumes_have_one_entry `{DocumentReaders} (file_bytes filename : string) (t : text) (p : ParsedResumeData) :
  extract_raw_text file_bytes filename = inr t → parse_resume_text t = Some p →
  length (work_experience p) ≤ 1 ∧ length (education p) ≤ 1.
Proof.
  intros Ht Hp. assert (clean t) as Hc.
  { revert Ht. unfold extract_raw_text, _extract_from_pdf, _extract_from_docx.
    repeat case_match; try done; intros [= <-]; apply normalize_clean. }
  unfold parse_resume_text in Hp. apply bind_Some in Hp as (pi & _ & Hp). apply bind_Some in Hp as (ws & Hw & Hp).
  apply bind_Some in Hp as (es & He & [= <-]). cbn.
  destruct (section_of_clean t Experience_ Hc) as (l1 & Hl1 & E1). destruct (section_of_clean t Education_ Hc) as (l2 & Hl2 & E2).
  rewrite E1 in Hw. rewrite E2 in He. apply work_length in Hw. apply education_length in He.
  pose proof (blocks_of_clean l1 Hl1). pose proof (blocks_of_clean l2 Hl2). lia.
Qed.

(** *** Every field stands in the resume *)

Definition stands_in (s : text) (o : option text) : Prop := ∀ x, o = Some x → infix x s.

(** spaCy's entities are spans of the text it is given. *)
Definition entities_are_spans : Prop :=
  ∀ nlp t ents e, spacy_model = Some nlp → nlp t = Some ents → e ∈ ents → infix e.2 t.

Lemma stands_in_trans s s' o : infix s s' → stands_in s o → stands_in s' o.
Proof. intros Hi Ho x E. etrans; [by apply Ho|done]. Qed.

Lemma take_infix n (s : text) : infix (take n s) s.
Proof. exists [], (drop n s). by rewrite take_drop. Qed.

Lemma entity_stands label t o : entities_are_spans → first_entity label t = Some o → stands_in t o.
Proof.
  unfold first_entity. intros He. destruct spacy_model as [nlp|] eqn:Es; [|by intros [= <-] x].
  destruct (nlp t) as [ents|] eqn:En; [|done]. intros [= <-] x Hx. cbn in Hx.
  assert (x ∈ strip_text <$> (filter (λ e, e.1 = label) ents).*2) as Hin by (by apply head_Some_elem_of).
  apply list_elem_of_fmap in Hin as (y & -> & Hy). apply list_elem_of_fmap in Hy as (e & -> & [_ Hy]%list_elem_of_filter).
  transitivity e.2; [apply strip_infix|by eapply He].
Qed.

Lemma name_stands t o : entities_are_spans → _guess_name t = Some o → stands_in t o.
Proof.
  unfold _guess_name. intros He (person & Hp & Hn)%bind_Some. apply entity_stands in Hp; [|done].
  destruct person as [name|].
  - injection Hn as <-. intros x [= <-]. etrans; [by apply Hp|apply take_infix].
  - injection Hn as <-. intros x [_ Hx]%head_Some_elem_of%list_elem_of_filter.
    apply list_elem_of_fmap in Hx as (l & -> & Hl). etrans; [apply strip_infix|by apply splitlines_infix].
Qed.

Lemma organization_stands keyword t o : entities_are_spans → _find_organization t keyword = Some o → stands_in t o.
Proof.
  unfold _find_organization. intros He. destruct (group1 _ _ _ t) as [x|] eqn:E; [|by apply entity_stands].
  intros [= <-] y [= <-]. etrans; [apply strip_infix|by eapply group1_infix].
Qed.

Lemma keyword_line_stands t ks : stands_in t (_find_keyword_line t ks).
Proof.
  intros x Hx. unfold _find_keyword_line in Hx. apply fmap_Some in Hx as (l & Hl & ->).
  apply head_Some_elem_of, list_elem_of_filter in Hl as [_ Hl]. etrans; [apply strip_infix|by apply splitlines_infix].
Qed.

Lemma duration_stands t d : _find_duration t = Some d →
  ∃ start stop, d = start ++ chars " - " ++ stop ∧ infix start t ∧ infix stop t.
Proof.
  unfold _find_duration. intros ([start stop] & Hs & [= <-])%bind_Some. exists start, stop. split; [done|].
  apply search_with_suffix in Hs as (pr & s0 & Hd & Hs0). unfold date_range in Hd.
  apply match_re_suffix in Hd as (p1 & s1 & Hd & Hs1). apply match_re_suffix in Hd as (p2 & s2 & Hd & Hs2).
  apply match_re_suffix in Hd as (p3 & s3 & [= <- <-] & Hs3). split.
  - etrans; [apply infix_between|by apply infix_suffix].
  - etrans; [apply infix_between|]. apply infix_suffix. etrans; [done|]. by etrans.
Qed.

Lemma blocks_stand s block : block ∈ _split_into_blocks s → block ≠ [].
Proof. intros [He _]%list_elem_of_filter. by intros ->. Qed.

(** What the parser says of a job or a study, it says of one block. *)
Definition work_stands (block : text) (e : WorkEntry) : Prop :=
  stands_in block (we_company e) ∧ stands_in block (we_job_title e) ∧
  (∀ d, we_duration e = Some d → ∃ start stop, d = start ++ chars " - " ++ stop ∧ infix start block ∧ infix stop block).

Definition education_stands (block : text) (e : EducationEntry) : Prop :=
  stands_in block (ed_university e) ∧
  (∀ d, ed_degree e = Some d → d ∈ _DEGREE_KEYWORDS ∧ infix (chars d) (lower_text block)) ∧
  (∀ g, ed_gpa e = Some g → ∃ digits, infix digits block ∧ read_decimal digits 0 None = Some g).

Lemma elem_of_mapM {A B} (f : A → option B) l l' y : mapM f l = Some l' → y ∈ l' → ∃ x, x ∈ l ∧ f x = Some y.
Proof.
  intros Hm%mapM_Some Hy. apply list_elem_of_lookup in Hy as [i Hi].
  destruct (Forall2_lookup_r _ _ _ _ _ Hm Hi) as (x & Hx & Hf). exists x. split; [|done]. by eapply list_elem_of_lookup_2.
Qed.

Lemma work_entries_stand s es :
  entities_are_spans → _extract_work_experience s = Some es →
  Forall (λ e, work_counts e = true ∧ ∃ block, block ∈ _split_into_blocks s ∧ work_stands block e) es.
Proof.
  unfold _extract_work_experience. intros He. destruct (empty_text _); [intros [= <-]; constructor|].
  intros (l & Hm & [= <-])%bind_Some. apply Forall_forall. intros e [Hc Hin]%list_elem_of_filter. split; [done|].
  destruct (elem_of_mapM _ _ _ _ Hm Hin) as (b & Hb & Hw).
  exists b. split; [done|]. unfold work_entry in Hw. apply bind_Some in Hw as (c & Hcmp & [= <-]). split_and!; cbn.
  - by eapply organization_stands.
  - apply keyword_line_stands.
  - apply duration_stands.
Qed.

Lemma education_entries_stand s es :
  entities_are_spans → _extract_education s = Some es →
  Forall (λ e, education_counts e = true ∧ ∃ block, block ∈ _split_into_blocks s ∧ education_stands block e) es.
Proof.
  unfold _extract_education. intros He. destruct (empty_text _); [intros [= <-]; constructor|].
  intros (l & Hm & [= <-])%bind_Some. apply Forall_forall. intros e [Hc Hin]%list_elem_of_filter. split; [done|].
  destruct (elem_of_mapM _ _ _ _ Hm Hin) as (b & Hb & Hw).
  exists b. split; [done|]. unfold education_entry in Hw. apply bind_Some in Hw as (u & Hu & [= <-]). split_and!; cbn.
  - by eapply organization_stands.
  - intros d [Hd Hk]%head_Some_elem_of%list_elem_of_filter. split; [done|by apply contains_text_infix].
  - intros g (n & Hn & Hg)%bind_Some. exists n. split; [by eapply group1_infix|done].
Qed.

(** C38. The parser invents nothing: the name, the e-mail address and the
    telephone number it reports stand in the resume (with Latin digits); every
    job and every study it reports says something, and its company, title,
    years, university, degree and mark stand in one block of the section for
    jobs or studies, whose lines are lines of the resume in their order. *)
Theorem parsed_fields_stand_in_the_resume (t : text) (p : ParsedResumeData) :
  entities_are_spans → parse_resume_text t = Some p →
  let resume := normalize_digits t in
  let section := _split_into_sections resume in
  stands_in (section Header) (pi_name (personal_info p)) ∧
  stands_in resume (pi_email (personal_info p)) ∧ stands_in resume (pi_phone (personal_info p)) ∧
  Forall (λ e, work_counts e = true ∧ ∃ block, block ∈ _split_into_blocks (section Experience_) ∧ work_stands block e)
    (work_experience p) ∧
  Forall (λ e, education_counts e = true ∧ ∃ block, block ∈ _split_into_blocks (section Education_) ∧ education_stands block e)
    (education p) ∧
  (∀ name, ∃ lines, section name = join_texts newline lines ∧ lines `sublist_of` splitlines resume).
Proof.
  intros He Hp resume section. unfold parse_resume_text in Hp. apply bind_Some in Hp as (i & Hi & Hp).
  apply bind_Some in Hp as (ws & Hw & Hp). apply bind_Some in Hp as (es & Hs & [= <-]).
  unfold _extract_personal_info in Hi. apply bind_Some in Hi as (name & Hn & [= <-]). cbn. split_and!.
  - by apply name_stands.
  - intros x. apply group0_infix.
  - intros x. apply group0_infix.
  - by apply work_entries_stand.
  - by apply education_entries_stand.
  - intros name'. eexists. split; [done|apply section_lines_sublist].
Qed.
End parsing.

(** *** A resume *)

Section demo.
#[local] Existing Instance text_unicode.
#[local] Instance no_ner : Ner := {| spacy_model := None |}.

Definition demo_resume_lines : list string :=
  ["Ali Rezaei"; "ali.rezaei@example.com"; "۰۹۱۲۱۲۳۴۵۶۷"; ""; "تجربه کاری"; "شرکت نوآوران"; "developer"; "1397 - 1401"; "";
   "شرکت دوم"; "manager"; "1392 تا 1397"; ""; "تحصیلات"; "کارشناسی مهندسی"; "دانشگاه تهران"; "معدل: 17.5"].
Definition demo_resume : text := join_texts newline (chars <$> demo_resume_lines).

(** [None]: no model. *)
Lemma no_ner_spans : entities_are_spans.
Proof. done. Qed.

Definition demo_jobs (o : option ParsedResumeData) : list (option string) :=
  match o with Some p => (λ e, text_of <$> we_company e) <$> work_experience p | None => [] end.

(** Two jobs; one of them is left of the same resume once its text is
    normalised. *)
Example normalisation_loses_jobs :
  demo_jobs (parse_resume_text demo_resume) = [Some "نوآوران"; Some "دوم"] ∧
  demo_jobs (parse_resume_text (_normalize_text demo_resume)) = [Some "نوآوران"].
Proof. vm_compute. split; reflexivity. Qed.

Lemma parsed_fields_stand_in_the_resume_witness :
  match parse_resume_text demo_resume with
  | Some p => stands_in (normalize_digits demo_resume) (pi_phone (personal_info p)) ∧
              text_of <$> pi_phone (personal_info p) = Some "09121234567"
  | None => False
  end.
Proof.
  destruct (parse_resume_text demo_resume) as [p|] eqn:E.
  - split; [apply (parsed_fields_stand_in_the_resume demo_resume p no_ner_spans E)|].
    assert ((λ p, text_of <$> pi_phone (personal_info p)) <$> parse_resume_text demo_resume = Some (Some "09121234567")) as Ep
      by (vm_compute; reflexivity).
    rewrite E in Ep. injection Ep as Ep. exact Ep.
  - assert (is_Some (parse_resume_text demo_resume)) as [p Hp] by (vm_compute; eauto). congruence.
Defined.

(** The reader finds one page with the text. *)
#[local] Instance demo_readers : DocumentReaders := {|
  fitz_open _ := Some (mkPdf false [mkPage (inr demo_resume) (inr [])]); docx_open _ := None |}.

Lemma demo_extracted : extract_raw_text "%PDF" "cv.PDF" = inr (_normalize_text demo_resume).
Proof. vm_compute. reflexivity. Qed.

Lemma demo_parses : is_Some (parse_resume_text (_normalize_text demo_resume)).
Proof. vm_compute. eauto. Qed.

Lemma extracted_resumes_have_one_entry_witness :
  ∃ t p, extract_raw_text "%PDF" "cv.PDF" = inr t ∧ parse_resume_text t = Some p ∧
    length (work_experience p) ≤ 1 ∧ demo_jobs (Some p) = [Some "نوآوران"].
Proof.
  destruct demo_parses as [p Ep]. exists (_normalize_text demo_resume), p. split; [apply demo_extracted|]. split; [exact Ep|].
  split; [apply (extracted_resumes_have_one_entry "%PDF" "cv.PDF" _ p demo_extracted Ep)|].
  rewrite <- Ep. apply normalisation_loses_jobs.
Defined.
End demo.
