(* ===== verification/Matching.v ===== *)
(** The matching score of a candidate for a job
    ([app/core/matching_engine.py]): six weighted parts that add up to a
    number between 0 and 100. Numbers are exact rationals (see [Rounding.v]). *)
From S2P Require Import Prelude PyText Unicode Rounding SkillGraph.
From Stdlib Require Import QArith Lqa Qminmax.
Local Open Scope string_scope.
Local Open Scope list_scope.

Definition SKILL_MATCH_WEIGHT : Q := 50.
Definition TITLE_MATCH_WEIGHT : Q := 15.
Definition SENIORITY_MATCH_WEIGHT : Q := 15.
Definition EDUCATION_MATCH_WEIGHT : Q := 8.
Definition LOCATION_MATCH_WEIGHT : Q := 8.
Definition SECONDARY_KEYWORDS_WEIGHT : Q := 4.

(** The least number of years of a level; the upper ends are never read. *)
Definition _SENIORITY_YEAR_RANGES : list (string * (Q * option Q)) :=
  [("junior", (0, Some 2)); ("mid-level", (2, Some 5)); ("mid", (2, Some 5)); ("senior", (5, Some 10));
   ("lead", (8, None)); ("principal", (10, None))]%Q.

Definition _EDUCATION_LEVEL_RANKS : list (string * N) :=
  [("دیپلم", 1); ("diploma", 1); ("کاردانی", 2); ("associate", 2); ("کارشناسی", 3); ("bachelor", 3); ("b.sc", 3);
   ("کارشناسی ارشد", 4); ("master", 4); ("m.sc", 4); ("mba", 4); ("دکتری", 5); ("phd", 5); ("ph.d", 5)]%N.

Definition _STOPWORDS : list string :=
  ["و"; "در"; "برای"; "با"; "the"; "a"; "an"; "of"; "and"; "for"; "to"].

(** [a / b] of two sizes. *)
Definition ratio (a b : nat) : Q := inject_Z (Z.of_nat a) / inject_Z (Z.of_nat b).

Definition _calculate_skill_match_score (required_skills candidate_skills : list string) : Q * list string :=
  match required_skills with
  | [] => (SKILL_MATCH_WEIGHT, [])
  | _ =>
      let normalized_candidate_skills := lower <$> candidate_skills in
      let matched_skills := filter (λ required_skill,
        lower required_skill ∈ normalized_candidate_skills ∨
        lower (get_core_skill required_skill) ∈ normalized_candidate_skills) required_skills in
      (ratio (length matched_skills) (length required_skills) * SKILL_MATCH_WEIGHT, matched_skills)%Q
  end.

Section titles.
Context `{Unicode}.

(** [[\w\u0600-\u06FF]]: a word character, or one of the Arabic block, whose
    characters are two bytes with a lead from D8 to DB. *)
Definition title_char (c : string) : bool :=
  word_char c || match c with String b (String _ EmptyString) => bool_decide (216 ≤ code b ≤ 219)%N | _ => false end.

Definition _extract_significant_words (text : string) : list string :=
  remove_dups (filter (λ word, word ∉ _STOPWORDS ∧ (1 < py_len word)%nat) (words title_char (lower text))).

Definition overlap (a b : list string) : nat := length (filter (λ w, w ∈ b) a).

Definition title_ratio (job_title_words : list string) (candidate_title : string) : Q :=
  let candidate_title_words := _extract_significant_words candidate_title in
  match candidate_title_words with
  | [] => 0
  | _ => ratio (overlap job_title_words candidate_title_words) (length job_title_words)
  end.

(** A blank title has no words. *)
Definition _calculate_title_match_score (job_title : string) (candidate_job_titles : list string) : Q :=
  match candidate_job_titles with
  | [] => 0
  | _ =>
      let job_title_words := _extract_significant_words job_title in
      match job_title_words with
      | [] => TITLE_MATCH_WEIGHT
      | _ => foldl (λ best t, Qmax best (title_ratio job_title_words t)) 0 candidate_job_titles * TITLE_MATCH_WEIGHT
      end
  end.
End titles.

Definition _calculate_seniority_match_score (required_seniority : option string) (total_experience_years : Q) : Q :=
  if negb (truthy required_seniority) then SENIORITY_MATCH_WEIGHT else
  match dict_get (lower (strip (default "" required_seniority))) _SENIORITY_YEAR_RANGES with
  | None => SENIORITY_MATCH_WEIGHT
  | Some (min_years, _) =>
      if Qle_bool min_years 0 || Qle_bool min_years total_experience_years then SENIORITY_MATCH_WEIGHT
      else Qmax 0 (total_experience_years / min_years) * SENIORITY_MATCH_WEIGHT
  end.

(** [degree] of each education entry. *)
Definition _highest_education_rank (education_entries : list (option string)) : N :=
  foldl (λ best_rank degree,
    N.max best_rank (default 0%N (dict_get (lower (strip (default "" degree))) _EDUCATION_LEVEL_RANKS)))
    0%N education_entries.

Definition _calculate_education_match_score (required_education : option string)
    (education_entries : list (option string)) : Q :=
  if negb (truthy required_education) then EDUCATION_MATCH_WEIGHT else
  match dict_get (lower (strip (default "" required_education))) _EDUCATION_LEVEL_RANKS with
  | None => EDUCATION_MATCH_WEIGHT
  | Some required_rank =>
      let candidate_rank := _highest_education_rank education_entries in
      if bool_decide (candidate_rank = 0%N) then 0
      else if bool_decide (required_rank ≤ candidate_rank)%N then EDUCATION_MATCH_WEIGHT
      else ratio (N.to_nat candidate_rank) (N.to_nat required_rank) * EDUCATION_MATCH_WEIGHT
  end.

Definition _calculate_location_match_score (job_location candidate_location : option string) : Q :=
  if negb (truthy job_location) || negb (truthy candidate_location) then LOCATION_MATCH_WEIGHT else
  let a := lower (strip (default "" job_location)) in
  let b := lower (strip (default "" candidate_location)) in
  if bool_decide (a = b) then LOCATION_MATCH_WEIGHT
  else if contains b a || contains a b then LOCATION_MATCH_WEIGHT * (7 # 10)
  else 0.

Definition _calculate_secondary_keywords_score (job_description : option string) (candidate_skills : list string) : Q :=
  if negb (truthy job_description) then SECONDARY_KEYWORDS_WEIGHT else
  match match_skills (default "" job_description) with
  | [] => SECONDARY_KEYWORDS_WEIGHT
  | description_skills =>
      let normalized_candidate_skills := lower <$> candidate_skills in
      let matched := filter (λ skill, lower skill ∈ normalized_candidate_skills) description_skills in
      ratio (length matched) (length description_skills) * SECONDARY_KEYWORDS_WEIGHT
  end.

(** The two sides of a match. *)
Record JobSide := mkJobSide {
  job_skills : list string; job_title : string; job_seniority : option string; job_education : option string;
  job_place : option string; job_text : option string }.

Record CandidateSide := mkCandidateSide {
  cand_skills : list string; cand_titles : list string; cand_years : Q;
  cand_education : list (option string); cand_place : option string }.

Record MatchingScore := mkScore {
  final_score : Q;
  skill_match : Q; title_match : Q; seniority_match : Q; education_match : Q; location_match : Q;
  secondary_keywords_match : Q;
  matched_required_skills : list string }.

Definition calculate_matching_score `{Unicode} (job : JobSide) (c : CandidateSide) : MatchingScore :=
  let '(skill_score, matched_skills) := _calculate_skill_match_score (job_skills job) (cand_skills c) in
  let title_score := _calculate_title_match_score (job_title job) (cand_titles c) in
  let seniority_score := _calculate_seniority_match_score (job_seniority job) (cand_years c) in
  let education_score := _calculate_education_match_score (job_education job) (cand_education c) in
  let location_score := _calculate_location_match_score (job_place job) (cand_place c) in
  let secondary_score := _calculate_secondary_keywords_score (job_text job) (cand_skills c) in
  let total_score := skill_score + title_score + seniority_score + education_score + location_score + secondary_score in
  {| final_score := Qmax 0 (Qmin 100 (round2 total_score));
     skill_match := round2 skill_score; title_match := round2 title_score;
     seniority_match := round2 seniority_score; education_match := round2 education_score;
     location_match := round2 location_score; secondary_keywords_match := round2 secondary_score;
     matched_required_skills := matched_skills |}.

(** ** Lemmas *)

Lemma inject_nat_nonneg n : 0 <= inject_Z (Z.of_nat n).
Proof. change 0 with (inject_Z 0). rewrite <- Zle_Qle. lia. Qed.

Lemma ratio_nonneg a b : 0 <= ratio a b.
Proof. apply Qmult_le_0_compat; [|apply Qinv_le_0_compat]; apply inject_nat_nonneg. Qed.

Lemma ratio_mono a a' b : (a ≤ a')%nat → ratio a b <= ratio a' b.
Proof.
  intros Ha. apply Qmult_le_compat_r; [rewrite <- Zle_Qle; lia|]. apply Qinv_le_0_compat, inject_nat_nonneg.
Qed.

Lemma ratio_full b : b ≠ O → ratio b b == 1.
Proof.
  intros Hb. apply Qmult_inv_r. intros Hz. unfold Qeq in Hz. cbn in Hz. lia.
Qed.

Lemma ratio_le_1 a b : (a ≤ b)%nat → ratio a b <= 1.
Proof.
  intros Ha. destruct (decide (b = O)) as [->|Hb].
  - assert (a = O) as -> by lia. discriminate.
  - rewrite <- (ratio_full b Hb). by apply ratio_mono.
Qed.

Lemma weighted (r w : Q) : 0 <= r → r <= 1 → 0 <= w → 0 <= r * w <= w.
Proof. intros H0 H1 Hw. split; [nra|]. nra. Qed.

Ltac weights :=
  unfold SKILL_MATCH_WEIGHT, TITLE_MATCH_WEIGHT, SENIORITY_MATCH_WEIGHT, EDUCATION_MATCH_WEIGHT,
    LOCATION_MATCH_WEIGHT, SECONDARY_KEYWORDS_WEIGHT in *.

Lemma skill_bounds req cs : 0 <= fst (_calculate_skill_match_score req cs) <= 50.
Proof.
  unfold _calculate_skill_match_score. destruct req as [|r req]; weights; cbn [fst]; [lra|].
  apply weighted; [apply ratio_nonneg| |lra]. apply ratio_le_1, length_filter.
Qed.

Section titles.
Context `{Unicode}.

Lemma title_ratio_bounds jw t : 0 <= title_ratio jw t <= 1.
Proof.
  unfold title_ratio. destruct (_extract_significant_words t); [lra|].
  split; [apply ratio_nonneg|]. apply ratio_le_1, length_filter.
Qed.

Lemma best_bounds jw titles (b : Q) :
  0 <= b <= 1 → 0 <= foldl (λ best t, Qmax best (title_ratio jw t)) b titles <= 1.
Proof.
  revert b. induction titles as [|t titles IH]; intros b Hb; [done|]. cbn. apply IH.
  pose proof (title_ratio_bounds jw t). destruct (Q.max_spec b (title_ratio jw t)) as [[? ->]|[? ->]]; lra.
Qed.

Lemma title_bounds jt titles : 0 <= _calculate_title_match_score jt titles <= 15.
Proof.
  unfold _calculate_title_match_score. destruct titles as [|t titles]; [lra|].
  destruct (_extract_significant_words jt); weights; [lra|].
  pose proof (best_bounds (s :: l) (t :: titles) 0 ltac:(lra)). nra.
Qed.
End titles.

Lemma seniority_bounds s y : 0 <= _calculate_seniority_match_score s y <= 15.
Proof.
  unfold _calculate_seniority_match_score. destruct (negb _); weights; [lra|].
  destruct (dict_get _ _) as [[m x]|]; [|lra].
  destruct (Qle_bool m 0) eqn:H0; cbn; [lra|]. destruct (Qle_bool m y) eqn:H1; [lra|].
  apply not_true_iff_false in H0, H1. rewrite Qle_bool_iff in H0, H1.
  destruct (Q.max_spec 0 (y / m)) as [[? ->]|[? ->]]; [|lra].
  apply weighted; [lra| |lra]. apply Qle_shift_div_r; lra.
Qed.

Lemma education_bounds r es : 0 <= _calculate_education_match_score r es <= 8.
Proof.
  unfold _calculate_education_match_score. destruct (negb _); weights; [lra|].
  destruct (dict_get _ _) as [rank|]; [|lra]. case_bool_decide; [lra|]. case_bool_decide; [lra|].
  apply weighted; [apply ratio_nonneg| |lra]. apply ratio_le_1. lia.
Qed.

Lemma location_bounds a b : 0 <= _calculate_location_match_score a b <= 8.
Proof. unfold _calculate_location_match_score. repeat case_match; weights; lra. Qed.

Lemma secondary_bounds t cs : 0 <= _calculate_secondary_keywords_score t cs <= 4.
Proof.
  unfold _calculate_secondary_keywords_score. destruct (negb _); weights; [lra|].
  destruct (match_skills _) as [|s l]; [lra|].
  apply weighted; [apply ratio_nonneg| |lra]. apply ratio_le_1, length_filter.
Qed.

Definition total_score `{Unicode} (job : JobSide) (c : CandidateSide) : Q :=
  fst (_calculate_skill_match_score (job_skills job) (cand_skills c)) +
  _calculate_title_match_score (job_title job) (cand_titles c) +
  _calculate_seniority_match_score (job_seniority job) (cand_years c) +
  _calculate_education_match_score (job_education job) (cand_education c) +
  _calculate_location_match_score (job_place job) (cand_place c) +
  _calculate_secondary_keywords_score (job_text job) (cand_skills c).

Lemma final_score_eq `{Unicode} job c :
  final_score (calculate_matching_score job c) = Qmax 0 (Qmin 100 (round2 (total_score job c))).
Proof.
  unfold calculate_matching_score, total_score.
  by destruct (_calculate_skill_match_score (job_skills job) (cand_skills c)).
Qed.

Lemma total_score_bounds `{Unicode} job c : 0 <= total_score job c <= 100.
Proof.
  unfold total_score.
  pose proof (skill_bounds (job_skills job) (cand_skills c)).
  pose proof (title_bounds (job_title job) (cand_titles c)).
  pose proof (seniority_bounds (job_seniority job) (cand_years c)).
  pose proof (education_bounds (job_education job) (cand_education c)).
  pose proof (location_bounds (job_place job) (cand_place c)).
  pose proof (secondary_bounds (job_text job) (cand_skills c)). lra.
Qed.

(** The clamp never acts. *)
Lemma final_is_rounded `{Unicode} job c : final_score (calculate_matching_score job c) == round2 (total_score job c).
Proof.
  rewrite final_score_eq. pose proof (total_score_bounds job c) as [H0 H1].
  apply round2_mono in H0, H1. assert (round2 0 == 0) as E0 by reflexivity. rewrite E0 in H0.
  assert (round2 100 == 100) as E by reflexivity. rewrite E in H1.
  rewrite Q.max_r, Q.min_r; [reflexivity|done|]. by rewrite Q.min_r.
Qed.

(** *** Order of candidates *)

(** [c'] is at least as good as [c]: it has every skill and every past title
    of [c], as many years, as high a degree, and lives in the same place. *)
Record at_least (c c' : CandidateSide) : Prop := {
  al_skills s : s ∈ lower <$> cand_skills c → s ∈ lower <$> cand_skills c';
  al_titles t : t ∈ cand_titles c → t ∈ cand_titles c';
  al_years : cand_years c <= cand_years c';
  al_education : (_highest_education_rank (cand_education c) ≤ _highest_education_rank (cand_education c'))%N;
  al_place : cand_place c = cand_place c' }.

Lemma length_filter_impl {A} (P Q : A → Prop) `{!∀ x, Decision (P x), !∀ x, Decision (Q x)} (l : list A) :
  (∀ x, P x → Q x) → (length (filter P l) ≤ length (filter Q l))%nat.
Proof.
  intros HPQ. induction l as [|x l IH]; [done|]. rewrite !filter_cons.
  destruct (decide (P x)), (decide (Q x)); cbn; [lia|exfalso; auto|lia|lia].
Qed.

Lemma skill_mono req cs cs' :
  (∀ s, s ∈ lower <$> cs → s ∈ lower <$> cs') →
  fst (_calculate_skill_match_score req cs) <= fst (_calculate_skill_match_score req cs').
Proof.
  intros Hs. unfold _calculate_skill_match_score. destruct req as [|r req]; [lra|]. cbn [fst].
  apply Qmult_le_compat_r; [|by weights]. apply ratio_mono, length_filter_impl. naive_solver.
Qed.

Lemma secondary_mono t cs cs' :
  (∀ s, s ∈ lower <$> cs → s ∈ lower <$> cs') →
  _calculate_secondary_keywords_score t cs <= _calculate_secondary_keywords_score t cs'.
Proof.
  intros Hs. unfold _calculate_secondary_keywords_score. destruct (negb _); [lra|].
  destruct (match_skills _) as [|s l]; [lra|].
  apply Qmult_le_compat_r; [|by weights]. apply ratio_mono, length_filter_impl. naive_solver.
Qed.

Lemma best_spec `{Unicode} jw titles b :
  b <= foldl (λ best t, Qmax best (title_ratio jw t)) b titles ∧
  (∀ t, t ∈ titles → title_ratio jw t <= foldl (λ best t, Qmax best (title_ratio jw t)) b titles) ∧
  (∀ x, b <= x → (∀ t, t ∈ titles → title_ratio jw t <= x) →
     foldl (λ best t, Qmax best (title_ratio jw t)) b titles <= x).
Proof.
  revert b. induction titles as [|t titles IH]; intros b; cbn [foldl].
  - split_and!; [lra|by intros t ?%elem_of_nil|done].
  - destruct (IH (Qmax b (title_ratio jw t))) as (H1 & H2 & H3).
    pose proof (Q.le_max_l b (title_ratio jw t)). pose proof (Q.le_max_r b (title_ratio jw t)). split_and!.
    + lra.
    + intros t' [->|Ht]%elem_of_cons; [lra|by apply H2].
    + intros x Hb Hx. apply H3; [|intros; apply Hx; by right].
      apply Q.max_lub; [done|]. apply Hx. left.
Qed.

Lemma title_mono `{Unicode} jt ts ts' :
  (∀ t, t ∈ ts → t ∈ ts') → _calculate_title_match_score jt ts <= _calculate_title_match_score jt ts'.
Proof.
  intros Hts. unfold _calculate_title_match_score.
  destruct ts as [|t ts]; [destruct ts', (_extract_significant_words jt) as [|w jw]; try (weights; lra);
    apply (proj1 (weighted _ 15 (proj1 (best_bounds (w :: jw) (s :: ts') 0 ltac:(lra)))
      (proj2 (best_bounds (w :: jw) (s :: ts') 0 ltac:(lra))) ltac:(lra)))|].
  destruct ts' as [|t' ts']; [by specialize (Hts t ltac:(left)); apply elem_of_nil in Hts|].
  destruct (_extract_significant_words jt) as [|w jw]; [lra|].
  apply Qmult_le_compat_r; [|by weights].
  destruct (best_spec (w :: jw) (t :: ts) 0) as (_ & _ & H3). destruct (best_spec (w :: jw) (t' :: ts') 0) as (H1 & H2 & _).
  apply H3; auto.
Qed.

Lemma seniority_ranges_pos s m x : dict_get s _SENIORITY_YEAR_RANGES = Some (m, x) → 0 <= m.
Proof.
  intros Hd. apply dict_get_elem in Hd. unfold _SENIORITY_YEAR_RANGES in Hd.
  repeat (apply elem_of_cons in Hd as [[= -> -> ->]|Hd]; [lra|]). by apply elem_of_nil in Hd.
Qed.

Lemma seniority_mono s y y' :
  y <= y' → _calculate_seniority_match_score s y <= _calculate_seniority_match_score s y'.
Proof.
  intros Hy. pose proof (seniority_bounds s y) as Hb. revert Hb. unfold _calculate_seniority_match_score.
  destruct (negb _); [lra|]. destruct (dict_get _ _) as [[m x]|] eqn:Ed; [|lra]. apply seniority_ranges_pos in Ed.
  destruct (Qle_bool m 0) eqn:H0; cbn; [lra|].
  destruct (Qle_bool m y') eqn:H2; [weights; destruct (Qle_bool m y); intros [_ Hb]; lra|].
  destruct (Qle_bool m y) eqn:H1.
  { apply Qle_bool_iff in H1. apply not_true_iff_false in H2. rewrite Qle_bool_iff in H2. lra. }
  intros _. apply Qmult_le_compat_r; [|by weights]. apply Q.max_le_compat_l.
  apply Qmult_le_compat_r; [done|]. by apply Qinv_le_0_compat.
Qed.

Lemma education_mono r es es' :
  (_highest_education_rank es ≤ _highest_education_rank es')%N →
  _calculate_education_match_score r es <= _calculate_education_match_score r es'.
Proof.
  intros Hr. pose proof (education_bounds r es) as Hb. pose proof (education_bounds r es') as Hb'.
  revert Hr Hb Hb'. unfold _calculate_education_match_score. destruct (negb _); [lra|].
  destruct (dict_get _ _) as [rank|]; [|lra]. cbv zeta.
  generalize (_highest_education_rank es) as a, (_highest_education_rank es') as b. intros a b Hr.
  destruct (decide (a = 0%N)) as [->|Ha]; [rewrite (bool_decide_true (0 = 0)%N) by done; lra|].
  rewrite (bool_decide_false (a = 0)%N), (bool_decide_false (b = 0)%N) by lia.
  destruct (decide (rank ≤ b)%N) as [Hb|Hb].
  - rewrite (bool_decide_true (rank ≤ b)%N) by done. case_bool_decide; weights; lra.
  - rewrite (bool_decide_false (rank ≤ b)%N), (bool_decide_false (rank ≤ a)%N) by lia. intros _ _.
    apply Qmult_le_compat_r; [|by weights]. apply ratio_mono. lia.
Qed.

(** C23. The score is a percentage: each of the six parts lies between 0 and
    its weight, the final score is their sum rounded to hundredths - the clamp
    in the code never acts - and it lies between 0 and 100. *)
Theorem score_is_a_percentage `{Unicode} (job : JobSide) (c : CandidateSide) :
  let r := calculate_matching_score job c in
  0 <= final_score r <= 100 ∧
  0 <= skill_match r <= 50 ∧ 0 <= title_match r <= 15 ∧ 0 <= seniority_match r <= 15 ∧
  0 <= education_match r <= 8 ∧ 0 <= location_match r <= 8 ∧ 0 <= secondary_keywords_match r <= 4 ∧
  ∃ s t y e l k, final_score r == round2 (s + t + y + e + l + k) ∧
    skill_match r = round2 s ∧ title_match r = round2 t ∧ seniority_match r = round2 y ∧
    education_match r = round2 e ∧ location_match r = round2 l ∧ secondary_keywords_match r = round2 k.
Proof.
  intros r. pose proof (final_is_rounded job c) as Hf. fold r in Hf.
  assert (∀ x w, round2 w == w → 0 <= x <= w → 0 <= round2 x <= w) as Hr
    by (intros x w Ew [Hx Hw]; apply round2_mono in Hx, Hw; assert (round2 0 == 0) as E0 by reflexivity; split; lra).
  pose proof (skill_bounds (job_skills job) (cand_skills c)) as H1.
  pose proof (title_bounds (job_title job) (cand_titles c)) as H2.
  pose proof (seniority_bounds (job_seniority job) (cand_years c)) as H3.
  pose proof (education_bounds (job_education job) (cand_education c)) as H4.
  pose proof (location_bounds (job_place job) (cand_place c)) as H5.
  pose proof (secondary_bounds (job_text job) (cand_skills c)) as H6.
  pose proof (total_score_bounds job c) as H0. apply Hr in H0; [|reflexivity]. rewrite <- Hf in H0. unfold total_score in Hf.
  subst r. unfold calculate_matching_score in *.
  destruct (_calculate_skill_match_score (job_skills job) (cand_skills c)) as [s m].
  cbn [final_score skill_match title_match seniority_match education_match location_match
    secondary_keywords_match fst] in *.
  apply Hr in H1, H2, H3, H4, H5, H6; try reflexivity. do 7 (split; [assumption|]).
  do 6 eexists. split; [exact Hf|]. split_and!; reflexivity.
Qed.


Definition demo_job : JobSide :=
  mkJobSide ["Python"; "Docker"] "Senior Backend Developer" (Some "Senior") (Some "Bachelor") (Some "Tehran")
    (Some "PostgreSQL and Redis").
Definition demo_junior : CandidateSide :=
  mkCandidateSide ["FastAPI"; "Python"] ["Backend Engineer"] 2 [Some "Diploma"] (Some "Tehran, Iran").
Definition demo_senior : CandidateSide :=
  mkCandidateSide ["python"; "FastAPI"; "Docker"; "SQL"; "Redis"] ["Backend Engineer"; "Backend Developer"] 6
    [Some "Master"] (Some "Tehran, Iran").


(** A sub-skill meets the requirement of its core skill: when a resume
    names, for every skill a job requires, that skill or one with the same
    core skill in the graph, all requirements are matched and the skill part
    is full. *)
Theorem subskills_meet_requirements (required : list string) (text : string) :
  (∀ r, r ∈ required → ∃ named, is_Some (dict_get named (count_skill_mentions text)) ∧
     (lower named = lower r ∨ get_core_skill named = get_core_skill r)) →
  let '(score, matched) := _calculate_skill_match_score required (match_skills text) in
  score == SKILL_MATCH_WEIGHT ∧ matched = required.
Proof.
  intros Hreq. unfold _calculate_skill_match_score. destruct required as [|r0 req]; [done|].
  rewrite (filter_all _ (r0 :: req)); [split; [|done]|].
  - rewrite ratio_full by done. reflexivity.
  - intros r Hr. destruct (Hreq r Hr) as (named & (k & c & Hin & Ho)%mentioned_iff & Hn).
    assert (named ∈ match_skills text ∧ c ∈ match_skills text) as [Hm Hc]
      by (split; apply elem_of_match_skills; eauto 8).
    apply table_entry in Hin as (_ & Hcore & _). destruct Hn as [Hn|Hn]; [left|right].
    + rewrite <- Hn. by apply list_elem_of_fmap_2.
    + rewrite <- Hn, Hcore. by apply list_elem_of_fmap_2.
Qed.

Lemma subskills_meet_requirements_witness :
  fst (_calculate_skill_match_score ["Python"; "postgresql"; "SQL"]
         (match_skills "five years of django and PostgreSQL")) == 50.
Proof.
  pose proof (subskills_meet_requirements ["Python"; "postgresql"; "SQL"] "five years of django and PostgreSQL") as T.
  destruct (_calculate_skill_match_score _ _) as [score matched]. apply T.
  intros r Hr. rewrite !elem_of_cons, elem_of_nil in Hr. destruct Hr as [->|[->|[->|[]]]].
  - exists "Django". split; [vm_compute; eauto|right; vm_compute; reflexivity].
  - exists "PostgreSQL". split; [vm_compute; eauto|left; vm_compute; reflexivity].
  - exists "PostgreSQL". split; [vm_compute; eauto|right; vm_compute; reflexivity].
Defined.
