(* ===== verification/Search.v ===== *)
(** Encryption of personal data and the search of encrypted resumes
    ([app/core/crypto.py], [app/core/search_query.py]): what a column holds and
    what the program reads from it, across changes of the key; and the blind
    index, which answers a query of words over texts the database cannot
    read. Fernet and HMAC are classes with their documented behaviour. *)
From S2P Require Import Prelude PyText Unicode SkillGraph.
From stdpp Require Import sorting.
Local Open Scope string_scope.
Local Open Scope list_scope.

(** ** Encryption *)

(** [Fernet(key)]: [None] for a malformed key; tokens are authenticated, and
    their text starts with the version byte. *)
Class FernetLib := {
  fernet_key : string → bool;
  fernet_encrypt : string → string → string → string;   (** key, nonce, text *)
  fernet_decrypt : string → string → option string;
  decrypt_encrypt k n s : fernet_key k = true → fernet_decrypt k (fernet_encrypt k n s) = Some s;
  decrypt_other k k' n s : fernet_key k = true → fernet_key k' = true → k ≠ k' →
    fernet_decrypt k' (fernet_encrypt k n s) = None;
  encrypt_prefix k n s : startswith (fernet_encrypt k n s) "gAAAAA" = true }.

Definition FERNET_PREFIX : string := "gAAAAA".
Definition BLIND_INDEX_HEX_LENGTH : nat := 32.

Inductive PiiError := PiiKeyError | PiiDecryptionError.

Section encryption.
Context `{FernetLib}.

(** The keys of [PII_ENCRYPTION_KEYS]; an empty or bad list is an error. *)
Definition _fernet (PII_ENCRYPTION_KEYS : string) : PiiError + list string :=
  let raw_keys := filter (λ k, k ≠ "") (strip <$> PyText.split ","%char PII_ENCRYPTION_KEYS) in
  if bool_decide (raw_keys = []) || negb (forallb fernet_key raw_keys) then inl PiiKeyError else inr raw_keys.

Definition is_encrypted (value : option string) : bool :=
  match value with Some v => startswith v FERNET_PREFIX | None => false end.

(** [MultiFernet]: the first key encrypts, any key decrypts. *)
Definition encrypt_text (keys : list string) (nonce : string) (value : option string) : option string :=
  match value, keys with
  | Some v, k :: _ => Some (fernet_encrypt k nonce v)
  | _, _ => None
  end.

Fixpoint try_keys (keys : list string) (token : string) : option string :=
  match keys with
  | [] => None
  | k :: r => match fernet_decrypt k token with Some v => Some v | None => try_keys r token end
  end.

Definition decrypt_text (keys : list string) (value : option string) : PiiError + option string :=
  match value with
  | None => inr None
  | Some v => match try_keys keys v with Some s => inr (Some s) | None => inl PiiDecryptionError end
  end.

(** A value that an old version of the program wrote in clear is read as it is. *)
Definition _decrypt_stored (keys : list string) (value : option string) : PiiError + option string :=
  if is_encrypted value then decrypt_text keys value else inr value.

Lemma try_keys_find keys k n s :
  fernet_key k = true → (∀ k', k' ∈ keys → fernet_key k' = true) → k ∈ keys →
  try_keys keys (fernet_encrypt k n s) = Some s.
Proof.
  intros Hk. induction keys as [|k' keys IH]; intros Hall Hin; [by apply elem_of_nil in Hin|]. cbn.
  destruct (decide (k = k')) as [<-|Hne]; [by rewrite decrypt_encrypt|].
  rewrite decrypt_other by (try done; apply Hall; left). apply IH; [intros; apply Hall; by right|].
  apply elem_of_cons in Hin as [?|?]; congruence.
Qed.
End encryption.

(** C27. Encrypted columns give back what was written, also after the key has
    been changed: a value stored under one list of keys is read back under any
    valid list that still contains the key that encrypted it; what is stored
    is always recognisably encrypted, and a value an old version wrote in
    clear is read as it is. *)
Theorem stored_text_survives_key_rotation `{FernetLib} (old_keys new_keys nonce value : string)
    (key : string) (olds keys : list string) :
  _fernet old_keys = inr (key :: olds) → _fernet new_keys = inr keys → key ∈ keys →
  let stored := encrypt_text (key :: olds) nonce (Some value) in
  is_encrypted stored = true ∧ _decrypt_stored keys stored = inr (Some value) ∧
  encrypt_text (key :: olds) nonce None = None ∧ _decrypt_stored keys None = inr None ∧
  (is_encrypted (Some value) = false → _decrypt_stored keys (Some value) = inr (Some value)).
Proof.
  intros Ho Hn Hin. unfold _fernet in Ho, Hn.
  destruct (bool_decide (_ = []) || _) eqn:E in Ho; [done|]. injection Ho as Ho. rewrite Ho in E.
  destruct (bool_decide (_ = []) || _) eqn:E' in Hn; [done|]. injection Hn as Hn. rewrite Hn in E'.
  apply orb_false_iff in E as [_ E], E' as [_ E']. apply negb_false_iff in E, E'.
  apply andb_true_iff in E as [Hk _]. rewrite forallb_forall in E'. cbn zeta.
  assert (is_encrypted (Some (fernet_encrypt key nonce value)) = true) as Henc by apply encrypt_prefix.
  split_and!; [done| |done|done|].
  - unfold _decrypt_stored, encrypt_text. rewrite Henc. cbn. rewrite try_keys_find; [done|done| |done].
    intros k' Hk'. by apply E', list_elem_of_In.
  - intros Hc. unfold _decrypt_stored. by rewrite Hc.
Qed.

(** A toy cipher with the laws of the class: keys of one character, and a
    token that names its key. *)
Lemma startswith_app p s : startswith (p +:+ s) p = true.
Proof. induction p as [|c p IH]; [by destruct s|]. unfold startswith in *. change (String c p +:+ s) with (String c (p +:+ s)).
  cbn [String.prefix]. by destruct (ascii_dec c c). Qed.

Lemma removeprefix_common p q s : removeprefix (p +:+ q) (p +:+ s) = removeprefix q s.
Proof.
  induction p as [|c p IH]; [done|].
  change (String c p +:+ q) with (String c (p +:+ q)). change (String c p +:+ s) with (String c (p +:+ s)).
  cbn [removeprefix]. by rewrite bool_decide_true.
Qed.

Definition toy_fernet : FernetLib.
Proof.
  refine {| fernet_key k := Nat.eqb (String.length k) 1;
            fernet_encrypt k n s := "gAAAAA" +:+ (k +:+ s);
            fernet_decrypt k t := removeprefix ("gAAAAA" +:+ k) t |}.
  - intros [|c [|d k]] n s Hk; try discriminate. rewrite removeprefix_common.
    change (String c "" +:+ s) with (String c s). cbn [removeprefix]. by rewrite bool_decide_true.
  - intros [|c [|d k]] [|c' [|d' k']] n s Hk Hk' Hne; try discriminate. rewrite removeprefix_common.
    change (String c "" +:+ s) with (String c s). cbn [removeprefix]. rewrite bool_decide_false; congruence.
  - intros k n s. apply (startswith_app "gAAAAA").
Defined.

Lemma stored_text_survives_key_rotation_witness :
  let _ := toy_fernet in
  _decrypt_stored ["b"; "a"] (encrypt_text ["a"] "nonce" (Some "Sara")) = inr (Some "Sara").
Proof.
  intros L.
  destruct (stored_text_survives_key_rotation (H := L) "a" " b , a" "nonce" "Sara" "a" [] ["b"; "a"])
    as (_ & W & _); [reflexivity|reflexivity|right; left|apply W].
Defined.

(** ** The blind index *)

(** [hmac.new(key, word, sha256).hexdigest()[:32]] under the key of the
    process. *)
Class BlindIndex := { keyed_hash : string → string }.

Definition is_split_char (c : ascii) : bool :=
  existsb (λ d, bool_decide (c = d)) ["."; "/"; "+"; "#"; "@"; "_"; "-"]%char.

Section search.
Context `{Unicode, BlindIndex}.

Definition blind_index_token (word : string) : string := keyed_hash (lower word).

Definition resume_search_words (text : option string) : list string :=
  match text with
  | None => []
  | Some t => lower <$> words word_char (map_chars (λ c, if is_split_char c then " "%char else c) t)
  end.

Definition blind_index_tokens (text : option string) : option (list string) :=
  match text with
  | None => None
  | Some _ => Some (sorted_set (blind_index_token <$> resume_search_words text))
  end.

(** [\s+(AND|OR)\s+] at the head of [s]: the operator and what follows. *)
Definition operator_at (s : string) : option (string * string) :=
  let r := lstrip_if is_space s in
  if bool_decide (r = s) then None else
  match removeprefix "and" (lower r), removeprefix "or" (lower r) with
  | Some _, _ =>
      let rest := String.substring 3 (String.length r) r in
      let tail := lstrip_if is_space rest in
      if bool_decide (tail = rest) then None else Some ("AND", tail)
  | None, Some _ =>
      let rest := String.substring 2 (String.length r) r in
      let tail := lstrip_if is_space rest in
      if bool_decide (tail = rest) then None else Some ("OR", tail)
  | None, None => None
  end.

(** [_OPERATOR_SPLIT_PATTERN.split(s)]: segments and the operator before each
    of them; [skip] counts the characters of a match still to be passed. *)
Fixpoint split_operators (s : string) (skip : nat) (operator segment : string) : list (string * string) :=
  match s with
  | EmptyString => [(operator, segment)]
  | String c r =>
      match skip with
      | S k => split_operators r k operator segment
      | O =>
          match operator_at s with
          | Some (op, tail) =>
              (operator, segment) :: split_operators r (String.length r - String.length tail) op ""
          | None => split_operators r 0 operator (segment +:+ String c "")
          end
      end
  end.

Inductive Connective := And | Or.
#[global] Instance Connective_eq_dec : EqDecision Connective.
Proof. solve_decision. Defined.

(** The terms of a query: segments without a word are dropped. *)
Definition parse_search_query (raw_query : option string) : list (Connective * list string) :=
  match raw_query with
  | None => []
  | Some q =>
      if bool_decide (strip q = "") then [] else
      omap (λ '(operator, segment),
        let words := resume_search_words (Some segment) in
        if bool_decide (words = []) then None
        else Some (if bool_decide (operator = "OR") then Or else And, words))
        (split_operators (strip q) 0 "AND" "")
  end.

(** Left to right, without precedence; [None] when the query has no word. *)
Definition combine_step (holds : list string → bool) (combined : option bool) (term : Connective * list string) :
    option bool :=
  let '(operator, words) := term in
  Some (match combined with
        | None => holds words
        | Some b => match operator with Or => b || holds words | And => b && holds words end
        end).

Definition combine (holds : list string → bool) (terms : list (Connective * list string)) : option bool :=
  foldl (combine_step holds) None terms.

(** [search_tokens @> ARRAY[..]] for each term; NULL tokens satisfy nothing. *)
Definition resume_blind_index_condition (raw_query : option string) (search_tokens : option (list string)) :
    option bool :=
  combine (λ words, match search_tokens with
                    | Some tokens => forallb (λ t, bool_decide (t ∈ tokens)) (sorted_set (blind_index_token <$> words))
                    | None => false
                    end) (parse_search_query raw_query).

(** ** The reference: a search of the words themselves *)

Definition full_text_condition (raw_query text : option string) : option bool :=
  combine (λ words, match text with
                    | Some _ => forallb (λ w, bool_decide (w ∈ resume_search_words text)) words
                    | None => false
                    end) (parse_search_query raw_query).

Lemma combine_ext h h' terms :
  (∀ t, t ∈ terms → h t.2 = h' t.2) → combine h terms = combine h' terms.
Proof.
  unfold combine. generalize (@None bool). induction terms as [|[op ws] terms IH]; intros acc Hh; [done|].
  cbn [foldl combine_step]. specialize (Hh (op, ws) ltac:(left)) as Hw. cbn in Hw. rewrite Hw.
  apply IH. intros t Ht. apply Hh. by right.
Qed.

(** AND and OR only: a query that holds still holds when more terms do. *)
Definition no_less (acc acc' : option bool) : Prop :=
  match acc, acc' with Some b, Some b' => b = true → b' = true | None, None => True | _, _ => False end.

Lemma combine_step_mono h h' acc acc' t :
  (h t.2 = true → h' t.2 = true) → no_less acc acc' → no_less (combine_step h acc t) (combine_step h' acc' t).
Proof.
  destruct t as [op ws], acc as [b|], acc' as [b'|]; cbn; try done; intros Hw Ha.
  destruct op, b, b', (h ws), (h' ws); cbn in *; auto.
Qed.

Lemma combine_mono h h' terms :
  (∀ t, t ∈ terms → h t.2 = true → h' t.2 = true) →
  combine h terms = Some true → combine h' terms = Some true.
Proof.
  intros Hh Hc. assert (no_less (combine h terms) (combine h' terms)) as Hn.
  { unfold combine. clear Hc. assert (no_less (@None bool) None) as Ha by done. revert Ha.
    generalize (@None bool) at 1 3; generalize (@None bool).
    induction terms as [|t terms IH]; intros acc' acc Ha; [done|]. cbn [foldl].
    apply IH; [intros; apply Hh; [by right|done]|]. apply combine_step_mono; [apply Hh; left|done]. }
  rewrite Hc in Hn. cbn in Hn. destruct (combine h' terms) as [b|]; [|done]. f_equal. by apply Hn.
Qed.

(** A term on the stored tokens, against the term on the words. *)
Lemma term_complete (t : string) (ws : list string) :
  forallb (λ w, bool_decide (w ∈ resume_search_words (Some t))) ws = true →
  forallb (λ k, bool_decide (k ∈ sorted_set (blind_index_token <$> resume_search_words (Some t))))
    (sorted_set (blind_index_token <$> ws)) = true.
Proof.
  rewrite !forallb_elem_of. intros Hall tok Htok. apply bool_decide_eq_true, elem_of_sorted_set.
  apply elem_of_sorted_set, list_elem_of_fmap in Htok as (w & -> & Hw).
  apply list_elem_of_fmap_2. by eapply bool_decide_eq_true, Hall.
Qed.

Lemma lower_idem s : lower (lower s) = lower s.
Proof.
  induction s as [|c s IH]; [done|]. unfold lower in *. cbn [map_chars]. rewrite IH. f_equal.
  unfold char_lower. destruct (bool_decide (65 ≤ code c ≤ 90)%N) eqn:E; [|by rewrite E].
  apply bool_decide_eq_true in E. rewrite code_of_N by lia. by rewrite bool_decide_false by lia.
Qed.

Lemma search_word_lower w text : w ∈ resume_search_words text → lower w = w.
Proof.
  destruct text as [t|]; [|by intros ?%elem_of_nil]. intros (x & -> & _)%list_elem_of_fmap. apply lower_idem.
Qed.

Lemma term_words op ws q : (op, ws) ∈ parse_search_query q → ∀ w, w ∈ ws → lower w = w.
Proof.
  unfold parse_search_query. destruct q as [q|]; [|by intros ?%elem_of_nil].
  case_bool_decide; [by intros ?%elem_of_nil|].
  intros ([o seg] & _ & Ho)%list_elem_of_omap. case_bool_decide; [done|]. injection Ho as _ <-.
  intros w. apply (search_word_lower w (Some seg)).
Qed.
End search.

(** C28. The blind index answers as a search of the text would. Whatever the
    hash, a resume whose words satisfy the query is never missed; and as long
    as no word of the query collides with a different word of the text under
    the keyed hash, the condition on the stored tokens and the condition on
    the words themselves agree. *)
Theorem blind_index_is_full_text_search `{Unicode, BlindIndex} (raw_query text : option string) :
  (full_text_condition raw_query text = Some true →
   resume_blind_index_condition raw_query (blind_index_tokens text) = Some true) ∧
  ((∀ op ws w w', (op, ws) ∈ parse_search_query raw_query → w ∈ ws → w' ∈ resume_search_words text →
     keyed_hash w = keyed_hash w' → w = w') →
   resume_blind_index_condition raw_query (blind_index_tokens text) = full_text_condition raw_query text).
Proof.
  unfold resume_blind_index_condition, full_text_condition. split.
  - apply combine_mono. intros t _. destruct text as [t'|]; [|done]. apply term_complete.
  - intros Hinj. apply combine_ext. intros [op ws] Hterm. cbn [snd]. destruct text as [t|]; [|done].
    apply eq_true_iff_eq. split; [|apply term_complete]. cbn [blind_index_tokens]. rewrite !forallb_elem_of.
    intros Hall w Hw. specialize (Hall (blind_index_token w)).
    rewrite bool_decide_eq_true, !elem_of_sorted_set in Hall.
    destruct (proj1 (list_elem_of_fmap _ _ _) (Hall (list_elem_of_fmap_2 _ _ _ Hw))) as (w' & Heq & Hw').
    unfold blind_index_token in Heq. rewrite (term_words op ws raw_query Hterm w Hw) in Heq.
    rewrite (search_word_lower w' _ Hw') in Heq. rewrite (Hinj op ws w w' Hterm Hw Hw' Heq).
    by apply bool_decide_eq_true.
Qed.

(** The witness looks only at the first four characters of a word. *)
Definition toy_hash : BlindIndex := {| keyed_hash w := String.substring 0 4 w |}.

Lemma blind_index_is_full_text_search_witness :
  let _ := toy_hash in let _ := text_unicode in
  let text := Some "Node.js and Python" in
  full_text_condition (Some "java or NODE python") text = Some true ∧
  resume_blind_index_condition (Some "java or NODE python") (blind_index_tokens text) = Some true ∧
  resume_blind_index_condition (Some "pythagoras") (blind_index_tokens (Some "Python")) ≠
    full_text_condition (Some "pythagoras") (Some "Python").
Proof.
  intros B U text.
  pose proof (blind_index_is_full_text_search (H := U) (H0 := B) (Some "java or NODE python") text) as [W _].
  split_and!; [by vm_compute|apply W; by vm_compute|by vm_compute].
Defined.
