(* ===== verification/KeyRotation.v ===== *)
(** The change of the encryption key ([_reencrypt] of [app/core/crypto.py], the
    commands [reencrypt] and [encrypt-legacy]): a walk over the encrypted tables
    in batches ordered by id, each batch rewritten under the first key and
    committed. A table is the list of its rows in the order of their ids. *)
From S2P Require Import Prelude PyText Unicode Models Codecs SkillGraph Search.
From stdpp Require Import sorting.
Local Open Scope string_scope.
Local Open Scope Z_scope.
Local Open Scope list_scope.

(** The encrypted columns of a row, as stored, and the blind index of a
    resume; the first column of a resume is [raw_text]. *)
Record StoredRow := {
  row_id : Z; row_fields : list (option string); row_tokens : option (list string) }.

#[global] Instance StoredRow_eq_dec : EqDecision StoredRow.
Proof. solve_decision. Defined.

Definition ENCRYPTED_FIELDS : list (string * list string) :=
  [("candidates", ["first_name"; "last_name"; "phone"; "location"]); ("resumes", ["raw_text"; "parsed_data"])].

(** [column.not_like('gAAAAA%')] for one of the columns; NULL is not selected. *)
Definition legacy (r : StoredRow) : bool :=
  existsb (λ v, match v with Some s => negb (startswith s FERNET_PREFIX) | None => false end) (row_fields r).

(** The types of the columns, and what the program sees of them. *)
Inductive Column := EncryptedText | EncryptedJSON.
Inductive Plain := PlainText (value : option string) | PlainJson (value : option json).
Inductive ReadError := Pii (e : PiiError) | JSONDecodeError.

(** The type of the [i]-th encrypted column: of a resume's, [parsed_data]. *)
Definition column_of (resume : bool) (i : nat) : Column :=
  if resume && (i =? 1)%nat then EncryptedJSON else EncryptedText.

Section reencrypt.
Context `{FernetLib, JsonText, Unicode, BlindIndex}.
Variable keys : list string.
Variable nonce : Z → nat → string.

(** [process_result_value] of the two types; [None] of Python is also what
    [json.loads] gives for null. *)
Definition read_column (c : Column) (stored : option string) : ReadError + Plain :=
  match _decrypt_stored keys stored with
  | inl e => inl (Pii e)
  | inr value =>
      match c, value with
      | EncryptedText, _ => inr (PlainText value)
      | EncryptedJSON, None => inr (PlainJson None)
      | EncryptedJSON, Some t =>
          match loads t with
          | None => inl JSONDecodeError
          | Some JNull => inr (PlainJson None)
          | Some j => inr (PlainJson (Some j))
          end
      end
  end.

(** [process_bind_param] of the type of the value. *)
Definition write_column (n : string) (value : Plain) : option string :=
  match value with
  | PlainText t => encrypt_text keys n t
  | PlainJson None => None
  | PlainJson (Some j) => encrypt_text keys n (Some (dumps j))
  end.

(** Loading a row reads its columns, the [i]-th by its type. *)
Fixpoint read_fields (columns : nat → Column) (l : list (option string)) : ReadError + list Plain :=
  match l with
  | [] => inr []
  | v :: r => match read_column (columns O) v, read_fields (λ i, columns (S i)) r with
              | inr s, inr rest => inr (s :: rest)
              | inl e, _ | _, inl e => inl e
              end
  end.

Definition text_value (value : option Plain) : option string := match value with Some (PlainText t) => t | _ => None end.

Definition rewrite_row (resume : bool) (r : StoredRow) : ReadError + StoredRow :=
  match read_fields (column_of resume) (row_fields r) with
  | inl e => inl e
  | inr plain => inr {|
      row_id := row_id r;
      row_fields := imap (λ i v, write_column (nonce (row_id r) i) v) plain;
      row_tokens := if resume then blind_index_tokens (text_value (head plain)) else row_tokens r |}
  end.

Fixpoint rewrite_batch (resume : bool) (l : list StoredRow) : ReadError + list StoredRow :=
  match l with
  | [] => inr []
  | r :: rest => match rewrite_row resume r, rewrite_batch resume rest with
                 | inr r', inr rest' => inr (r' :: rest')
                 | inl e, _ | _, inl e => inl e
                 end
  end.

(** The commit of a batch: its rows replace those with their ids. *)
Definition replace_row (batch : list StoredRow) (r : StoredRow) : StoredRow :=
  default r (snd <$> list_find (λ r', row_id r' = row_id r) batch).

Definition selected (only_legacy : bool) (r : StoredRow) : bool := negb only_legacy || legacy r.

Definition after (last_id : option Z) (r : StoredRow) : bool :=
  match last_id with Some i => bool_decide (i < row_id r) | None => true end.

Definition next_batch (only_legacy : bool) (batch_size : nat) (last_id : option Z) (table : list StoredRow) :
    list StoredRow :=
  take batch_size (filter (λ r, selected only_legacy r && after last_id r = true) table).

(** The loop over one table: [None] when the fuel ends; otherwise the number
    of rows rewritten or the error that stopped it, and the table. *)
Fixpoint _reencrypt (fuel : nat) (resume only_legacy : bool) (batch_size : nat) (last_id : option Z)
    (count : nat) (table : list StoredRow) : option ((ReadError + nat) * list StoredRow) :=
  match fuel with
  | O => None
  | S fuel =>
      let rows := next_batch only_legacy batch_size last_id table in
      match last rows with
      | None => Some (inr count, table)
      | Some final =>
          match rewrite_batch resume rows with
          | inl e => Some (inl e, table)
          | inr rows' => _reencrypt fuel resume only_legacy batch_size (Some (row_id final))
                           (count + length rows) (replace_row rows' <$> table)
          end
      end
  end.

(** ** The walk visits every selected row once *)

Definition by_id (r r' : StoredRow) : Prop := row_id r < row_id r'.

Lemma rewrite_row_id resume r r' : rewrite_row resume r = inr r' → row_id r' = row_id r.
Proof. unfold rewrite_row. destruct (read_fields _); [done|]. by intros [= <-]. Qed.

Definition rewritten (resume : bool) (r : StoredRow) : StoredRow :=
  match rewrite_row resume r with inr r' => r' | inl _ => r end.

Lemma rewritten_id resume r : row_id (rewritten resume r) = row_id r.
Proof. unfold rewritten. destruct (rewrite_row resume r) eqn:E; [done|]. by eapply rewrite_row_id. Qed.

Lemma rewrite_batch_ok resume l :
  (∀ r, r ∈ l → ∃ r', rewrite_row resume r = inr r') →
  rewrite_batch resume l = inr (rewritten resume <$> l).
Proof.
  induction l as [|r l IH]; intros Hl; [done|]. cbn.
  destruct (Hl r ltac:(left)) as [r' E]. rewrite IH by (intros; apply Hl; by right).
  unfold rewritten at 2. by rewrite E.
Qed.

Lemma by_id_unique l r r' : StronglySorted by_id l → r ∈ l → r' ∈ l → row_id r = row_id r' → r = r'.
Proof.
  induction 1 as [|x l Hs IH Hx]; [by intros ?%elem_of_nil|]. rewrite Forall_forall in Hx. unfold by_id in Hx.
  intros [->|Hr]%elem_of_cons [->|Hr']%elem_of_cons Heq; [done| | |by apply IH].
  - specialize (Hx r' Hr'). lia.
  - specialize (Hx r Hr). lia.
Qed.

Lemma replace_row_spec resume table batch r :
  StronglySorted by_id table → batch ⊆ table → r ∈ table → ∀ r0, row_id r0 = row_id r →
  (r ∈ batch → replace_row (rewritten resume <$> batch) r0 = rewritten resume r) ∧
  (r ∉ batch → replace_row (rewritten resume <$> batch) r0 = r0).
Proof.
  intros Hs Hsub Hr r0 Hid. unfold replace_row.
  destruct (list_find _ _) as [[i x]|] eqn:Ef; cbn; split; intros Hin.
  - apply list_find_Some in Ef as (Hi & Hx & _). apply list_elem_of_lookup_2 in Hi.
    apply list_elem_of_fmap in Hi as (y & -> & Hy). rewrite rewritten_id in Hx.
    f_equal. apply (by_id_unique table); [done|by apply Hsub|done|congruence].
  - apply list_find_Some in Ef as (Hi & Hx & _). apply list_elem_of_lookup_2 in Hi.
    apply list_elem_of_fmap in Hi as (y & -> & Hy). rewrite rewritten_id in Hx.
    destruct Hin. by rewrite <- (by_id_unique table y r Hs (Hsub _ Hy) Hr ltac:(congruence)).
  - apply list_find_None in Ef. rewrite Forall_forall in Ef. destruct (Ef (rewritten resume r)).
    + by apply list_elem_of_fmap_2. + by rewrite rewritten_id.
  - done.
Qed.

(** One batch cuts the rest of the table at the id of its last row. *)
Notation rest_of leg last_id table := (filter (λ r, selected leg r && after last_id r = true) table).

Lemma sorted_rest (P : StoredRow → Prop) `{!∀ r, Decision (P r)} (l : list StoredRow) :
  StronglySorted by_id l → StronglySorted by_id (filter P l).
Proof.
  induction 1 as [|r l Hs IH Hr]; [constructor|]. rewrite filter_cons. case_decide; [|done].
  constructor; [done|]. rewrite Forall_forall in Hr |- *. intros x [_ Hx]%list_elem_of_filter. by apply Hr.
Qed.

Lemma batch_cut n l final :
  StronglySorted by_id l → last (take n l) = Some final →
  (∀ r, r ∈ take n l → row_id r ≤ row_id final) ∧ (∀ r, r ∈ drop n l → row_id final < row_id r).
Proof.
  intros Hs Hl. rewrite <- (take_drop n l) in Hs. apply last_Some in Hl as [l' El]. rewrite El in Hs |- *. split.
  - apply StronglySorted_app in Hs as (_ & Hs & _). apply StronglySorted_app in Hs as (Hc & _ & _).
    intros r [Hr| ->%list_elem_of_singleton]%elem_of_app; [|lia].
    pose proof (Hc r final Hr ltac:(by left)). unfold by_id in *. lia.
  - intros r Hr. apply StronglySorted_app in Hs as (Hc & _ & _).
    apply (Hc final r); [apply elem_of_app; right; left|done].
Qed.

Lemma rest_after_batch leg n last_id table final :
  StronglySorted by_id table → last (next_batch leg n last_id table) = Some final →
  rest_of leg (Some (row_id final)) table = drop n (rest_of leg last_id table).
Proof.
  intros Hs Hl. unfold next_batch in Hl.
  destruct (batch_cut n _ final (sorted_rest _ _ Hs) Hl) as [Hle Hgt].
  assert (selected leg final && after last_id final = true) as Hf.
  { by apply last_Some_elem_of, subseteq_take, list_elem_of_filter in Hl as [? _]. }
  rewrite <- (list_filter_filter_l (λ r, selected leg r && after (Some (row_id final)) r = true)
                (λ r, selected leg r && after last_id r = true)).
  2: { intros r. rewrite !andb_true_iff in *. intros [? Ha]. split; [done|]. destruct last_id as [i|]; [|done].
       cbn in *. destruct Hf as [_ Hf]. apply bool_decide_eq_true in Ha, Hf. apply bool_decide_eq_true. lia. }
  rewrite <- (take_drop n (rest_of leg last_id table)) at 1. rewrite filter_app, filter_none, filter_all; [done| |].
  - intros r Hr. pose proof (Hgt r Hr) as Hi. apply subseteq_drop, list_elem_of_filter in Hr as [Hr _].
    apply andb_true_iff in Hr as [-> _]. by apply bool_decide_eq_true.
  - intros r Hr. pose proof (Hle r Hr) as Hi. rewrite andb_true_iff. intros [_ Ha]. cbn in Ha.
    apply bool_decide_eq_true in Ha. lia.
Qed.

(** The table between two batches: the selected rows up to [last_id] are
    rewritten. *)
Definition stage (leg resume : bool) (last_id : option Z) (r : StoredRow) : StoredRow :=
  if selected leg r && negb (after last_id r) then rewritten resume r else r.

Lemma stage_id leg resume last_id r : row_id (stage leg resume last_id r) = row_id r.
Proof. unfold stage. case_match; [apply rewritten_id|done]. Qed.

Lemma after_id last_id r r' : row_id r = row_id r' → after last_id r = after last_id r'.
Proof. unfold after. by intros ->. Qed.

Lemma next_batch_stage leg resume n last_id table :
  next_batch leg n last_id (stage leg resume last_id <$> table) = next_batch leg n last_id table.
Proof.
  unfold next_batch. f_equal. induction table as [|r l IH]; [done|]. rewrite fmap_cons, !filter_cons, IH.
  destruct (after last_id r) eqn:Ha.
  - assert (stage leg resume last_id r = r) as -> by (unfold stage; by rewrite Ha, andb_false_r). by rewrite Ha.
  - rewrite !decide_False; [done| |]; rewrite andb_true_iff; intros [_ Ha']; [congruence|].
    rewrite (after_id last_id _ r (stage_id leg resume last_id r)) in Ha'. congruence.
Qed.

Lemma stage_step leg resume n last_id table final r :
  StronglySorted by_id table → last (next_batch leg n last_id table) = Some final → r ∈ table →
  replace_row (rewritten resume <$> next_batch leg n last_id table) (stage leg resume last_id r) =
  stage leg resume (Some (row_id final)) r.
Proof.
  intros Hs Hl Hr.
  destruct (replace_row_spec resume table (next_batch leg n last_id table) r Hs) with (r0 := stage leg resume last_id r)
    as [Hin Hout]; [|done|apply stage_id|].
  { intros x Hx. by apply subseteq_take, list_elem_of_filter in Hx as [_ ?]. }
  pose proof (rest_after_batch leg n last_id table final Hs Hl) as Hrest.
  destruct (batch_cut n _ final (sorted_rest _ _ Hs) Hl) as [Hle _].
  destruct (decide (r ∈ next_batch leg n last_id table)) as [Hb|Hb].
  - rewrite Hin by done. unfold stage. pose proof (Hle r Hb) as Hi.
    apply subseteq_take, list_elem_of_filter in Hb as [Hsel _]. apply andb_true_iff in Hsel as [-> _].
    cbn. by rewrite bool_decide_false by lia.
  - rewrite Hout by done. unfold stage. destruct (selected leg r) eqn:Hsel; [|done]. cbn [andb].
    destruct (after last_id r) eqn:Ha.
    + assert (r ∈ drop n (rest_of leg last_id table)) as Hd.
      { assert (r ∈ rest_of leg last_id table) as Hf by (apply list_elem_of_filter; by rewrite Hsel, Ha).
        rewrite <- (take_drop n) in Hf. by apply elem_of_app in Hf as [?|?]. }
      rewrite <- Hrest in Hd. apply list_elem_of_filter in Hd as [Hd _]. apply andb_true_iff in Hd as [_ ->]. done.
    + assert (after (Some (row_id final)) r = false) as ->; [|done].
      apply not_true_is_false. intros Ha'.
      assert (r ∈ rest_of leg (Some (row_id final)) table) as Hf by (apply list_elem_of_filter; by rewrite Hsel, Ha').
      rewrite Hrest in Hf. apply subseteq_drop, list_elem_of_filter in Hf as [Hf _].
      by rewrite Ha, andb_false_r in Hf.
Qed.

Lemma reencrypt_walk leg resume n table :
  (0 < n)%nat → StronglySorted by_id table → (∀ r, r ∈ table → ∃ r', rewrite_row resume r = inr r') →
  ∀ fuel last_id count, (length (rest_of leg last_id table) < fuel)%nat →
  _reencrypt fuel resume leg n last_id count (stage leg resume last_id <$> table) =
  Some (inr (count + length (rest_of leg last_id table))%nat,
        (λ r, if selected leg r then rewritten resume r else r) <$> table).
Proof.
  intros Hn Hs Hok. induction fuel as [|fuel IH]; intros last_id count Hf; [lia|]. cbn [_reencrypt].
  rewrite next_batch_stage. destruct (last (next_batch leg n last_id table)) as [final|] eqn:Hl.
  - rewrite rewrite_batch_ok.
    2: { intros r Hr. apply subseteq_take, list_elem_of_filter in Hr as [_ ?]. by apply Hok. }
    rewrite <- list_fmap_compose.
    rewrite (list_fmap_ext _ (stage leg resume (Some (row_id final)))).
    2: { intros i r Hr. apply stage_step; [done..|]. by eapply list_elem_of_lookup_2. }
    pose proof (rest_after_batch leg n last_id table final Hs Hl) as Hrest.
    assert (0 < length (rest_of leg last_id table))%nat as Hpos.
    { destruct (rest_of leg last_id table) eqn:E; [|cbn; lia]. unfold next_batch in Hl. rewrite E in Hl.
      by rewrite take_nil in Hl. }
    assert (length (rest_of leg (Some (row_id final)) table) = length (rest_of leg last_id table) - n)%nat as Hlen
      by (by rewrite Hrest, length_drop).
    rewrite IH by lia. rewrite Hlen. unfold next_batch. rewrite length_take.
    match goal with |- Some (inr ?a, _) = Some (inr ?b, _) => replace a with b by lia end. done.
  - apply last_None in Hl. unfold next_batch in Hl.
    assert (rest_of leg last_id table = []) as E.
    { destruct (rest_of leg last_id table); [done|]. by destruct n; [lia|]. }
    rewrite E. cbn [length]. rewrite Nat.add_0_r. do 2 f_equal. apply list_fmap_ext. intros i r Hr.
    unfold stage. destruct (selected leg r) eqn:Hsel; [|done]. destruct (after last_id r) eqn:Ha; [|done].
    exfalso. apply (filter_nil_not_elem_of _ _ r E); [by rewrite Hsel, Ha|]. by eapply list_elem_of_lookup_2.
Qed.

(** What becomes of one row. *)
Definition readable (resume : bool) (r : StoredRow) : Prop :=
  ∀ i v, row_fields r !! i = Some v → ∃ s, read_column (column_of resume i) v = inr s.

Lemma readable_all resume table :
  forallb (λ r, forallb (λ p, match read_column (column_of resume p.1) p.2 with inr _ => true | inl _ => false end)
    (imap pair (row_fields r))) table = true → ∀ r, r ∈ table → readable resume r.
Proof.
  intros Ht r Hr i v Hv. rewrite forallb_elem_of in Ht. specialize (Ht r Hr). rewrite forallb_elem_of in Ht.
  specialize (Ht (i, v)). cbn in Ht. destruct (read_column _ v) as [|s]; [|by exists s].
  enough (false = true) by done. apply Ht, elem_of_lookup_imap. eauto.
Qed.

Lemma read_fields_ok l : ∀ columns, (∀ i v, l !! i = Some v → ∃ s, read_column (columns i) v = inr s) →
  ∃ plain, read_fields columns l = inr plain ∧ length plain = length l ∧
    ∀ i v, l !! i = Some v → ∃ s, plain !! i = Some s ∧ read_column (columns i) v = inr s.
Proof.
  induction l as [|v l IH]; intros columns Hl; [by exists []|].
  destruct (Hl O v eq_refl) as [s Hs], (IH (λ i, columns (S i))) as (plain & Hp & Hlen & Hall); [intros i; apply (Hl (S i))|].
  exists (s :: plain). cbn. rewrite Hs, Hp. split_and!; [done|by rewrite Hlen|].
  intros [|i] w Hw; cbn in *; [injection Hw as <-; eauto|by apply Hall].
Qed.

(** The value that a column gives is still there, under the new key alone, and
    in code unless it is NULL. *)
Definition same_plain_text (key : string) (c : Column) (v v' : option string) : Prop :=
  ∃ s, read_column c v = inr s ∧
    match _decrypt_stored [key] v' with
    | inr (Some t) => is_encrypted v' = true ∧
        match c with EncryptedText => s = PlainText (Some t) | EncryptedJSON => ∃ j, loads t = Some j ∧ s = PlainJson (Some j) end
    | inr None => v' = None ∧ s = match c with EncryptedText => PlainText None | EncryptedJSON => PlainJson None end
    | inl _ => False
    end.

Lemma column_rewritten key olds c v s n :
  keys = key :: olds → fernet_key key = true → read_column c v = inr s → same_plain_text key c v (write_column n s).
Proof.
  intros Hk Hkey Hr. exists s. split; [done|]. assert (∀ t, is_encrypted (Some (fernet_encrypt key n t)) = true) as He
    by (intros t; apply encrypt_prefix).
  unfold read_column in Hr. destruct (_decrypt_stored keys v) as [|value]; [done|].
  assert (∀ t, _decrypt_stored [key] (encrypt_text keys n (Some t)) = inr (Some t)) as Hd.
  { intros t. rewrite Hk. cbn [encrypt_text]. unfold _decrypt_stored. rewrite He. cbn. by rewrite decrypt_encrypt. }
  assert (∀ t, is_encrypted (encrypt_text keys n (Some t)) = true) as Hp by (intros t; rewrite Hk; apply He).
  destruct c.
  - injection Hr as <-. cbn [write_column]. destruct value as [t|]; [by rewrite Hd, Hp|done].
  - destruct value as [t|]; [|by injection Hr as <-]. destruct (loads t) as [j|] eqn:Ej; [|done].
    destruct j; injection Hr as <-; [done|..]; cbn [write_column]; rewrite Hd, Hp; (split; [done|]);
      eexists; rewrite loads_dumps; done.
Qed.
End reencrypt.


