(* ===== verification/Portal.v ===== *)
(** The portal of the candidates and the recruiters' search for candidates
    ([app/routers/candidates.py], [app/schemas/candidates.py], the SQL
    functions of [alembic/versions/9c4e2a7b1d35_*.py]). The creation of the
    profile and the answer to an offer are in [Kanban.v], the deletion of an
    account in [Privacy.v]. *)
From S2P Require Import Prelude PyText Unicode Sanitize Config Models Codecs Security Tenancy Orm Roles OrmLaws StateMachine Kanban Search.
From Stdlib Require Import QArith.
Local Open Scope string_scope.
Local Open Scope Z_scope.
Local Open Scope list_scope.

(** ** The candidate's own pages *)

Record CandidateProfileResponse := mkProfile {
  pr_id : uuid; pr_email : string; pr_first_name : string; pr_last_name : string;
  pr_phone : option string; pr_location : option string; pr_skills : list string }.

(** A field that was not sent is [None], one sent as null [Some None]. *)
Record CandidateProfileUpdateRequest := mkProfileUpdate {
  new_first_name : option (option string); new_last_name : option (option string); new_phone : option (option string);
  new_location : option (option string); new_skills : option (option (list string)) }.

Definition clean_field (lo hi : nat) (field : option (option string)) : option (option (option string)) :=
  match field with
  | Some (Some v) =>
      let v := strip_html_tags v in
      if bool_decide (lo ≤ py_len v ≤ hi)%nat then Some (Some (Some v)) else None
  | f => Some f
  end.

(** The validated body; [None] is a 422. *)
Definition profile_update_request (p : CandidateProfileUpdateRequest) : option CandidateProfileUpdateRequest :=
  first ← clean_field 1 100 (new_first_name p);
  last ← clean_field 1 100 (new_last_name p);
  phone ← clean_field 0 20 (new_phone p);
  location ← clean_field 0 100 (new_location p);
  let skills := match new_skills p with Some (Some l) => Some (Some (strip_html_tags <$> l)) | s => s end in
  Some (mkProfileUpdate first last phone location skills).

(** [for field_name, value in ..: setattr(..)], of a request that does not set
    a name to null. *)
Definition cand_apply (p : CandidateProfileUpdateRequest) (c : Candidate) : Candidate :=
  mkCandidate (cand_id c) (cand_user_id c) (default (cand_first_name c) (new_first_name p ≫= id))
    (default (cand_last_name c) (new_last_name p ≫= id)) (default (cand_phone c) (new_phone p))
    (default (cand_skills c) (new_skills p)) (default (cand_location c) (new_location p)).

Definition nulls_a_name (p : CandidateProfileUpdateRequest) : bool :=
  bool_decide (new_first_name p = Some None) || bool_decide (new_last_name p = Some None).

Record ApplicationTrackerItem := mkTracker {
  tr_application_id : uuid; tr_job_id : uuid; tr_job_title : string; tr_current_status : string; tr_updated_at : instant }.

Record OfferInboxItem := mkOffer {
  of_application_id : uuid; of_job_id : uuid; of_job_title : string; of_company_name : option string; of_updated_at : instant }.

Section portal.
Context `{Settings}.

Definition profile_response (user : User) (c : Candidate) : CandidateProfileResponse :=
  mkProfile (cand_id c) (user_email user) (cand_first_name c) (cand_last_name c) (cand_phone c) (cand_location c)
    (default [] (cand_skills c)).

Definition get_my_profile (now : instant) (fresh : uuid) (current_user : User) : M World CandidateProfileResponse :=
  require_roles ["Candidate"] current_user;;
  candidate ← get_or_create_candidate_profile now fresh current_user;
  mret (profile_response current_user candidate).

Definition update_my_profile (now : instant) (fresh : uuid) (current_user : User)
    (payload : CandidateProfileUpdateRequest) : M World CandidateProfileResponse :=
  require_roles ["Candidate"] current_user;;
  candidate ← get_or_create_candidate_profile now fresh current_user;
  (if nulls_a_name payload then raise (PyError "IntegrityError") else mret tt);;
  update_row now (cand_id candidate) (cand_apply payload);;
  commit;;
  candidate ← refresh (cand_id candidate);
  mret (profile_response current_user candidate).

(** [JOIN jobs ON jobs.id = applications.job_id] *)
Fixpoint join_jobs (l : list Application) : M World (list (Application * Job)) :=
  match l with
  | [] => mret []
  | a :: rest =>
      o ← select_by_id (app_job_id a);
      rows ← join_jobs rest;
      mret (match o with Some j => (a, j) :: rows | None => rows end)
  end.

(** The rows [list_my_applications] pages through ([Pagination.v]), the
    latest change first. *)
Definition list_my_applications (now : instant) (fresh : uuid) (current_user : User) :
    M World (list ApplicationTrackerItem) :=
  require_roles ["Candidate"] current_user;;
  candidate ← get_or_create_candidate_profile now fresh current_user;
  l ← select_where (λ a, bool_decide (app_candidate_id a = cand_id candidate));
  rows ← join_jobs l;
  mret ((λ '(a, j), mkTracker (app_id a) (app_job_id a) (job_title j) (app_current_status a) (app_updated_at a)) <$> rows).

(** [LEFT JOIN companies ON companies.id = jobs.company_id] *)
Fixpoint join_companies (l : list (Application * Job)) : M World (list (Application * Job * option Company)) :=
  match l with
  | [] => mret []
  | (a, j) :: rest =>
      company ← match job_company_id j with Some c => select_by_id c | None => mret None end;
      rows ← join_companies rest;
      mret ((a, j, company) :: rows)
  end.

Definition list_my_offers (now : instant) (fresh : uuid) (current_user : User) : M World (list OfferInboxItem) :=
  require_roles ["Candidate"] current_user;;
  candidate ← get_or_create_candidate_profile now fresh current_user;
  l ← select_where (λ a, bool_decide (app_candidate_id a = cand_id candidate) &&
                         bool_decide (app_current_status a = status_value OFFER));
  rows ← join_jobs l;
  rows ← join_companies rows;
  mret ((λ '(a, j, c), mkOffer (app_id a) (app_job_id a) (job_title j) (company_name <$> c) (app_updated_at a)) <$> rows).
End portal.

(** ** The search of the recruiters *)

Definition CANDIDATE_SEARCH_ROLES : list string := ["Admin"; "HR_Manager"].

(** [jsonb_array_elements_text]: the text of an element. *)
Definition element_text (j : json) : option string :=
  match j with
  | JStr s => Some s
  | JInt n => Some (pretty n)
  | JBool b => Some (if b then "true" else "false")
  | _ => None
  end.

(** [ats_resume_skill_keys] and [ats_resume_experience_years]. *)
Definition ats_resume_skill_keys (analysis : option json) : list string :=
  match analysis ≫= json_get "skills" with
  | Some (JArr l) => lower <$> omap element_text l
  | _ => []
  end.

Definition ats_resume_experience_years (analysis : option json) : option Q :=
  match analysis ≫= json_get "total_experience_years" with
  | Some (JInt n) => Some (inject_Z n)
  | Some (JFloat q) => Some q
  | _ => None
  end.

Definition resume_has_skill_condition (analysis : option json) (skill : string) : bool :=
  bool_decide (lower skill ∈ ats_resume_skill_keys analysis).

Record CandidateQuery := mkQuery {
  q_text : option string; q_skills : list string; q_min_experience_years : option Q; q_min_ai_score : option Z }.

Record CandidateSearchItem := mkItem {
  it_candidate : Candidate; it_email : string; it_best_ai_score : option Z; it_best_experience_years : option Q }.

(** SQL [max(..)] of the values that are not NULL. *)
Definition max_by {A} (le : A → A → bool) (l : list (option A)) : option A :=
  foldr (λ x best, match x, best with
                   | Some x, Some b => if le b x then Some x else Some b
                   | Some x, None => Some x
                   | None, _ => best
                   end) None l.

Section search.
Context `{Settings, Unicode, BlindIndex}.

(** The skills of the query that count: [strip()], and not blank. *)
Definition wanted_skills (skills : list string) : list string := filter (λ s, nonempty s = true) (strip <$> skills).

(** The conditions on a candidate, given the applications and resumes the
    session sees: each is an [EXISTS] of its own. *)
Definition candidate_matches (q : CandidateQuery) (apps : list Application) (cvs : list Resume) (c : Candidate) : bool :=
  let own_apps := filter (λ a, app_candidate_id a = cand_id c) apps in
  let own_cvs := filter (λ r, res_candidate_id r = cand_id c) cvs in
  negb (bool_decide (own_apps = [])) &&
  match resume_blind_index_condition (q_text q) None with
  | None => true
  | Some _ => existsb (λ r, default false (resume_blind_index_condition (q_text q) (res_search_tokens r))) own_cvs
  end &&
  match q_min_experience_years q with
  | None => true
  | Some m => existsb (λ r, match ats_resume_experience_years (res_skill_analysis r) with
                            | Some y => Qle_bool m y
                            | None => false
                            end) own_cvs
  end &&
  match q_min_ai_score q with
  | None => true
  | Some m => existsb (λ a, match app_score_ai a with Some s => m <=? s | None => false end) own_apps
  end &&
  forallb (λ skill, existsb (λ r, resume_has_skill_condition (res_skill_analysis r) skill) own_cvs)
    (wanted_skills (q_skills q)).

Fixpoint search_items (apps : list Application) (cvs : list Resume) (l : list Candidate) : M World (list CandidateSearchItem) :=
  match l with
  | [] => mret []
  | c :: rest =>
      user ← select_by_id (R:=User) (cand_user_id c);
      items ← search_items apps cvs rest;
      mret (match user with
            | None => items
            | Some u =>
                mkItem c (user_email u)
                  (max_by Z.leb (app_score_ai <$> filter (λ a, app_candidate_id a = cand_id c) apps))
                  (max_by Qle_bool ((λ r, ats_resume_experience_years (res_skill_analysis r)) <$>
                                      filter (λ r, res_candidate_id r = cand_id c) cvs)) :: items
            end)
  end.

(** The rows [search_candidates] pages through, by id. A score outside 0..100
    or a negative number of years is a 422. *)
Definition search_candidates (current_user : User) (q : CandidateQuery) : M World (list CandidateSearchItem) :=
  reject_if (match q_min_experience_years q with Some m => negb (Qle_bool 0 m) | None => false end ||
             match q_min_ai_score q with Some m => negb ((0 <=? m) && (m <=? 100)) | None => false end ||
             match q_text q with Some t => negb (py_len t <=? 500)%nat | None => false end) 422;;
  require_roles CANDIDATE_SEARCH_ROLES current_user;;
  apps ← select_where (λ _ : Application, true);
  cvs ← select_where (λ _ : Resume, true);
  l ← select_where (candidate_matches q apps cvs);
  search_items apps cvs l.
End search.
