(* ===== verification/Queue.v ===== *)
(** The job queue ([app/core/queue.py]): the policy of each kind of job and
    the bulk enqueueing of thousands of jobs in pipelines of 500. RQ and Redis
    are an outcome per pipeline: how often it was applied - the client sends it
    again after a timeout - and whether an answer came back. *)
From S2P Require Import Prelude PyText Config.
Local Open Scope string_scope.
Local Open Scope Z_scope.
Local Open Scope list_scope.

Definition QUEUE_NOTIFICATIONS : string := "notifications".
Definition QUEUE_BULK : string := "bulk".
Definition QUEUE_RESUMES : string := "resumes".
Definition QUEUE_GENAI : string := "genai".
Definition QUEUE_DEFAULT : string := "default".
Definition ALL_QUEUES : list string := [QUEUE_NOTIFICATIONS; QUEUE_RESUMES; QUEUE_GENAI; QUEUE_BULK; QUEUE_DEFAULT].

Definition RESULT_TTL_SECONDS : Z := 600.
Definition FAILURE_TTL_SECONDS : Z := 7 * 24 * 3600.

(** [rq.Retry] *)
Record Retry := mkRetry { retry_max : nat; retry_interval : list Z }.

Record QueuePolicy := mkPolicy { policy_queue : string; policy_timeout : Z; policy_retry : Retry }.

Definition TRANSIENT_FAILURE_RETRY : Retry := mkRetry 3 [30; 120; 600].
Definition _NOTIFICATION_POLICY : QueuePolicy := mkPolicy QUEUE_NOTIFICATIONS 120 TRANSIENT_FAILURE_RETRY.
Definition _BULK_POLICY : QueuePolicy := mkPolicy QUEUE_BULK 120 TRANSIENT_FAILURE_RETRY.
Definition _RESUME_POLICY : QueuePolicy := mkPolicy QUEUE_RESUMES 300 (mkRetry 2 [60; 300]).
Definition _GENAI_POLICY : QueuePolicy := mkPolicy QUEUE_GENAI 600 (mkRetry 2 [30; 120]).
Definition _DEFAULT_POLICY : QueuePolicy := mkPolicy QUEUE_DEFAULT 180 (mkRetry 2 [30; 120]).

Definition _POLICY_BY_MODULE : list (string * QueuePolicy) :=
  [("app.tasks.notifications", _NOTIFICATION_POLICY); ("app.tasks.resume_processing", _RESUME_POLICY);
   ("app.tasks.genai", _GENAI_POLICY)].

Definition _BULK_CHUNK_SIZE : nat := 500.

(** The policy of a function, by its [__module__]. *)
Definition policy_for (module : string) : QueuePolicy :=
  match list_find (λ p : string * QueuePolicy, p.1 = module) _POLICY_BY_MODULE with
  | Some (_, p) => p.2
  | None => _DEFAULT_POLICY
  end.

(** How often RQ runs a job that always fails. *)
Definition runs (p : QueuePolicy) : nat := S (retry_max (policy_retry p)).

(** The keyword arguments of [enqueue]. *)
Record Options := mkOptions {
  opt_queue_name : option string; opt_retry : option Retry; opt_timeout : option Z;
  opt_result_ttl : option Z; opt_failure_ttl : option Z }.

Definition no_options : Options := mkOptions None None None None None.

Record QueuedJob := mkQueued {
  queued_func : string; queued_args : list string; queued_retry : Retry; queued_timeout : Z;
  queued_result_ttl : Z; queued_failure_ttl : Z }.

(** The queue and the completed options: [setdefault] keeps what the caller
    gave. *)
Definition _enqueue_options (module : string) (kwargs : Options) : string * (string → list string → QueuedJob) :=
  let policy := policy_for module in
  (default (policy_queue policy) (opt_queue_name kwargs),
   λ func args, mkQueued func args (default (policy_retry policy) (opt_retry kwargs))
                  (default (policy_timeout policy) (opt_timeout kwargs))
                  (default RESULT_TTL_SECONDS (opt_result_ttl kwargs))
                  (default FAILURE_TTL_SECONDS (opt_failure_ttl kwargs))).

(** A round trip of a pipeline, which Redis applies as a whole or not at all.
    The client has [retry_on_timeout]: when the answer to a pipeline that was
    applied is lost, the pipeline is sent and applied again. *)
Inductive RoundTrip :=
  | Answered (resent : nat)      (** applied once, and again [resent] times *)
  | Failed (applied : nat).      (** an error at the end, applied so many times *)

(** The broker: the jobs of each queue, oldest first, and how the next round
    trips go (well when the list is exhausted). *)
Record Broker := mkBroker { queues : gmap string (list QueuedJob); round_trips : list RoundTrip }.

Definition queue_of (b : Broker) (name : string) : list QueuedJob := default [] (queues b !! name).

Definition copies {A} (n : nat) (l : list A) : list A := concat (replicate n l).

Definition push (name : string) (jobs : list QueuedJob) (b : Broker) : Broker :=
  mkBroker (<[name := queue_of b name ++ jobs]> (queues b)) (tail (round_trips b)).

(** [Queue.enqueue_many]: one pipeline. *)
Definition enqueue_many (name : string) (jobs : list QueuedJob) : M Broker nat := λ b,
  match head (round_trips b) with
  | Some (Failed applied) => (inl (PyError "RedisError"), push name (copies applied jobs) b)
  | Some (Answered resent) => (inr (length jobs), push name (copies (S resent) jobs) b)
  | None => (inr (length jobs), push name jobs b)
  end.

(** [Queue.enqueue] of one job by [enqueue_task]; [None] when Redis fails. *)
Definition enqueue_task (module func job_id : string) (args : list string) (kwargs : Options) :
    M Broker (option string) :=
  let '(name, job) := _enqueue_options module kwargs in
  try_except (enqueue_many name [job func args];; mret (Some job_id)) (λ _, mret None).

(** The chunks of the loop [for start in range(0, len, 500)]; the list is
    long enough as fuel. *)
Fixpoint chunks {A} (fuel : nat) (size : nat) (l : list A) : list (list A) :=
  match fuel, l with
  | S fuel, _ :: _ => take size l :: chunks fuel size (drop size l)
  | _, _ => []
  end.

Fixpoint enqueue_chunks (name : string) (cs : list (list QueuedJob)) (total : nat) : M Broker nat :=
  match cs with
  | [] => mret total
  | chunk :: rest =>
      n ← enqueue_many name chunk;
      enqueue_chunks name rest (total + n)
  end.

Definition _enqueue_bulk_sync (module func : string) (args_list : list (list string)) (queue_name : string) :
    M Broker nat :=
  let '(name, job) := _enqueue_options module (mkOptions (Some queue_name) None None None None) in
  enqueue_chunks name (chunks (length args_list) _BULK_CHUNK_SIZE (job func <$> args_list)) 0.

Definition enqueue_bulk (module func : string) (args_list : list (list string)) (queue_name : string) : M Broker nat :=
  try_except (_enqueue_bulk_sync module func args_list queue_name) (λ _, mret 0%nat).

(** ** The chunks *)

Lemma chunks_concat {A} fuel size (l : list A) :
  (0 < size)%nat → (length l ≤ fuel)%nat → concat (chunks fuel size l) = l.
Proof.
  intros Hs. revert l. induction fuel as [|fuel IH]; intros [|x l] Hf; cbn in Hf; try done; [lia|].
  cbn [chunks concat]. rewrite IH; [apply take_drop|]. rewrite length_drop. cbn. lia.
Qed.

Lemma chunks_bound {A} fuel size (l : list A) c :
  c ∈ chunks fuel size l → (length c ≤ size)%nat.
Proof.
  revert l. induction fuel as [|fuel IH]; intros [|x l] Hc; try by apply elem_of_nil in Hc.
  apply elem_of_cons in Hc as [->|Hc]; [rewrite length_take; lia|by eapply IH].
Qed.

(** What the round trips leave of a list of pipelines in the queue, and whether
    all of them are answered. *)
Fixpoint landed {A} (trips : list RoundTrip) (pipelines : list (list A)) : list A :=
  match pipelines with
  | [] => []
  | p :: rest =>
      match trips with
      | Failed applied :: _ => copies applied p
      | Answered resent :: trips => copies (S resent) p ++ landed trips rest
      | [] => p ++ landed [] rest
      end
  end.

Fixpoint answered (trips : list RoundTrip) (n : nat) : bool :=
  match n, trips with
  | O, _ | _, [] => true
  | S _, Failed _ :: _ => false
  | S n, Answered _ :: trips => answered trips n
  end.

Lemma push_queue name jobs b : queue_of (push name jobs b) name = queue_of b name ++ jobs.
Proof. unfold queue_of, push. cbn. by rewrite lookup_insert_eq. Qed.

Lemma push_other name jobs b other : other ≠ name → queue_of (push name jobs b) other = queue_of b other.
Proof. intros Hne. unfold queue_of, push. cbn. by rewrite lookup_insert_ne. Qed.

Lemma enqueue_chunks_spec name cs : ∀ total b,
  let '(r, b') := enqueue_chunks name cs total b in
  queue_of b' name = queue_of b name ++ landed (round_trips b) cs ∧
  (∀ other, other ≠ name → queue_of b' other = queue_of b other) ∧
  r = if answered (round_trips b) (length cs) then inr (total + length (concat cs))%nat else inl (PyError "RedisError").
Proof.
  induction cs as [|c cs IH]; intros total b.
  - cbn. split_and!; [by rewrite app_nil_r|done|]. destruct (round_trips b); f_equal; lia.
  - cbn [enqueue_chunks]. unfold mbind, M_bind, enqueue_many.
    destruct (round_trips b) as [|[n|n] trips] eqn:Et; cbn [head landed answered length concat];
      [| |by rewrite push_queue; split_and!; [|intros; by apply push_other|]];
      match goal with |- context [push name ?l b] => specialize (IH (total + length c)%nat (push name l b)) end;
      destruct (enqueue_chunks name cs _ _) as [r b']; destruct IH as (IH1 & IH2 & ->);
      rewrite IH1, push_queue; unfold push; cbn [round_trips]; rewrite Et; cbn [tail];
      (split_and!; [by rewrite app_assoc|intros other Hne; rewrite IH2 by done; by apply push_other|]);
      destruct cs as [|c' cs]; rewrite length_app; repeat case_match; try done; f_equal; lia.
Qed.

(** Without a repetition the queue grows by whole pipelines from the front. *)
Definition single (t : RoundTrip) : Prop := t = Answered 0 ∨ t = Failed 0.

Lemma landed_single {A} (cs : list (list A)) : ∀ trips,
  Forall single (take (length cs) trips) → ∃ k, landed trips cs = concat (take k cs) ∧
    (answered trips (length cs) = true → k = length cs).
Proof.
  induction cs as [|c cs IH]; intros trips Hs; [by exists O|]. destruct trips as [|t trips].
  - destruct (IH []) as (k & E & Hk); [by rewrite take_nil|]. exists (S k). cbn. rewrite E. split; [done|].
    intros _. f_equal. apply Hk. by destruct cs.
  - cbn [length take] in Hs. apply Forall_cons in Hs as [[-> | ->] Hs]; cbn [landed answered length].
    + destruct (IH trips Hs) as (k & E & Hk). exists (S k). cbn. rewrite E, app_nil_r. split; [done|]. intros Ha. by rewrite Hk.
    + by exists O.
Qed.

(** Whatever is resent, an answered call has queued every job, in order. *)
Lemma landed_all {A} (cs : list (list A)) : ∀ trips,
  answered trips (length cs) = true → concat cs `sublist_of` landed trips cs.
Proof.
  induction cs as [|c cs IH]; intros trips Ha; [done|]. destruct trips as [|[n|n] trips]; cbn in *; [|  |done].
  - apply sublist_app; [done|]. apply IH. by destruct cs.
  - apply sublist_app; [|by apply IH]. unfold copies. cbn. by apply sublist_inserts_r.
Qed.


(** The answer to the second pipeline is lost, and its repetition fails. *)
Example bulk_demo :
  let '(r, b') := enqueue_bulk "app.tasks.notifications" "send_email" (replicate 1200 ["a"]) "bulk"
    (mkBroker ∅ [Answered 0; Failed 1; Answered 0]) in
  r = inr 0%nat ∧ length (queue_of b' "bulk") = 1000%nat.
Proof. vm_compute. split; reflexivity. Qed.

(** The answer to the first pipeline is lost, its repetition answered. *)
Example bulk_resent :
  let '(r, b') := enqueue_bulk "app.tasks.notifications" "send_email" (replicate 1200 ["a"]) "bulk"
    (mkBroker ∅ [Answered 1]) in
  r = inr 1200%nat ∧ length (queue_of b' "bulk") = 1700%nat.
Proof. vm_compute. split; reflexivity. Qed.
