(* ===== verification/Questions.v ===== *)
(** The plan of a generated interview ([app/genai/prompts.py]): strengths and
    gaps of a candidate against a job, computed by the program, and the rows
    of questions the language model has to fill. The texts of the prompts and
    the redaction of the resume excerpt are not modelled. *)
From S2P Require Import Prelude PyText Unicode SkillGraph Matching.
From stdpp Require Import sorting.
From Stdlib Require Import QArith Sorted.
Local Open Scope string_scope.
Local Open Scope list_scope.

Definition PROMPT_VERSION : string := "interview-questions/v1".

(** ** Strengths and gaps *)

(** [format(x, "g")] *)
Class FormatG := { format_g : Q → string }.

Record FitAnalysis := mkFit {
  strengths : list string; gaps : list string;
  matched_required_skills : list string;
  related_required_skills : list (string * string);
  missing_required_skills : list string;
  additional_skills : list string }.

(** A row of the experience of a resume; [row_is_valid] is true when the
    parser has not said otherwise. *)
Record ExperienceRow := mkExperience {
  row_job_title : option string; row_duration : option string; row_is_valid : bool; row_flag_reason : option string }.

(** [x in y] for strings, and [re.search(rf"(?<!\w){re.escape(x)}(?!\w)", y)]. *)
Fixpoint strip_chars (needle l : list string) : option (list string) :=
  match needle, l with
  | [], _ => Some l
  | x :: needle, y :: l => if bool_decide (x = y) then strip_chars needle l else None
  | _, _ => None
  end.

Section analysis.
Context `{Unicode, FormatG}.

Fixpoint search_word (needle : list string) (after_word : bool) (l : list string) : bool :=
  (negb after_word &&
   match strip_chars needle l with
   | Some (c :: _) => negb (word_char c)
   | Some [] => true
   | None => false
   end) ||
  match l with
  | [] => false
  | c :: r => search_word needle (word_char c) r
  end.

Definition _education_rank (text : option string) : N :=
  match text with
  | None => 0
  | Some t => foldr N.max 0%N (omap (λ '(keyword, rank), if contains (lower t) keyword then Some rank else None)
                                 _EDUCATION_LEVEL_RANKS)
  end.

Definition _meaningful_experience (entries : list ExperienceRow) : list ExperienceRow :=
  filter (λ e, truthy (row_job_title e) || truthy (row_duration e) = true) entries.

(** How a required skill is met: by itself, by the core skill of the graph,
    or not at all. *)
Inductive Requirement := Matched | Related (skill : string) | Missing.
#[local] Instance Requirement_eq_dec : EqDecision Requirement.
Proof. solve_decision. Defined.

Definition classify (owned : list (string * string)) (required : string) : Requirement :=
  let core := get_core_skill required in
  match dict_get (lower required) owned with
  | Some _ => Matched
  | None =>
      if negb (bool_decide (lower core = lower required)) then
        match dict_get (lower core) owned with Some s => Related s | None => Missing end
      else Missing
  end.

Definition analyze_fit (candidate_skills : list string) (total_experience_years : Q)
    (experience_entries : list ExperienceRow) (education_degrees : list (option string))
    (job_skills_required : list string) (job_required_seniority job_required_education job_description : option string) :
    FitAnalysis :=
  let owned := foldl (λ d skill, dict_set (lower skill) skill d) [] candidate_skills in
  let verdict := classify owned in
  let matched := filter (λ r, verdict r = Matched) job_skills_required in
  let related := foldl (λ d r, match verdict r with Related s => dict_set r s d | _ => d end) [] job_skills_required in
  let missing := filter (λ r, verdict r = Missing) job_skills_required in
  let description := chars (lower (default "" job_description)) in
  let required_lower := lower <$> job_skills_required in
  let additional := filter (λ s, lower s ∉ required_lower ∧ search_word (chars (lower s)) false description = true)
                      candidate_skills in
  let year_range := dict_get (lower (strip (default "" job_required_seniority))) _SENIORITY_YEAR_RANGES in
  let level := default "None" job_required_seniority in
  let years := format_g total_experience_years in
  let required_rank := _education_rank job_required_education in
  let candidate_rank := foldr N.max 0%N (_education_rank <$> education_degrees) in
  mkFit
    ((if bool_decide (matched = []) then [] else ["Has required skills: " +:+ PyText.join ", " matched]) ++
     (if bool_decide (additional = []) then []
      else ["Extra skills mentioned in the job description: " +:+ PyText.join ", " additional]) ++
     match year_range with
     | Some (minimum, _) =>
         if Qle_bool minimum total_experience_years then
           [years +:+ " years of net experience meets the " +:+ level +:+ " level" +:+
            " (minimum " +:+ format_g minimum +:+ ")"]
         else []
     | None => []
     end)
    (((λ p, "Required skill " +:+ p.1 +:+ " is not mentioned directly; only related experience in " +:+ p.2) <$> related) ++
     ((λ s, "Required skill not found in resume: " +:+ s) <$> missing) ++
     match year_range with
     | Some (minimum, _) =>
         if Qle_bool minimum total_experience_years then []
         else [years +:+ " years of net experience is below the " +:+ level +:+ " level" +:+
               " (minimum " +:+ format_g minimum +:+ " years)"]
     | None => []
     end ++
     (if negb (bool_decide (required_rank = 0%N)) && bool_decide (candidate_rank < required_rank)%N then
        ["Education below the required level (" +:+ default "None" job_required_education +:+ ")"] else []) ++
     omap (λ e, if negb (row_is_valid e) && truthy (row_flag_reason e) then
                  Some ("Unverified employment period for " +:+
                        (if truthy (row_job_title e) then default "" (row_job_title e) else "a position") +:+ ": " +:+
                        default "" (row_flag_reason e))
                else None) (_meaningful_experience experience_entries))
    matched related missing additional.
End analysis.

(** ** The plan *)

Record QuestionSlot := mkSlot { slot_category : string; slot_skill : string; slot_difficulty : string; slot_target : string }.

Definition _SENIOR_LEVELS : list string := ["senior"; "lead"; "principal"].
Definition _MID_PLUS_LEVELS : list string := _SENIOR_LEVELS ++ ["mid-level"; "mid"].
Definition _INTERVIEW_ORDER : list string :=
  ["technical"; "problem_solving"; "system_design"; "gap_probe"; "behavioral"].

(** [_INTERVIEW_ORDER.index(category)] *)
Fixpoint index_in (x : string) (l : list string) : nat :=
  match l with [] => 0%nat | y :: r => if bool_decide (y = x) then 0%nat else S (index_in x r) end.

(** [list.sort(key=..)]: insertion sort from the right is stable. *)
Fixpoint insert_by {A} (key : A → nat) (x : A) (l : list A) : list A :=
  match l with
  | [] => [x]
  | y :: r => if (key x <=? key y)%nat then x :: y :: r else y :: insert_by key x r
  end.
Definition sort_by {A} (key : A → nat) (l : list A) : list A := foldr (insert_by key) [] l.

Definition slot_order (s : QuestionSlot) : nat := index_in (slot_category s) _INTERVIEW_ORDER.

Definition gap_slots (fit : FitAnalysis) : list QuestionSlot :=
  ((λ p, mkSlot "gap_probe" p.1 "medium"
           ("Gap: " +:+ p.1 +:+ " is not in the resume; only related experience in " +:+ p.2))
     <$> related_required_skills fit) ++
  ((λ s, mkSlot "gap_probe" s "medium" ("Gap: required skill " +:+ s +:+ " was not found in the resume"))
     <$> missing_required_skills fit).

(** The two loops over skills with the set [covered]: [slot] makes the slot of
    a skill from its index in the loop. *)
Fixpoint cover (slot : nat → string → QuestionSlot) (index : nat) (skills : list string)
    (candidates : list QuestionSlot) (covered : list string) : list QuestionSlot * list string :=
  match skills with
  | [] => (candidates, covered)
  | skill :: rest =>
      if bool_decide (lower skill ∈ covered) then cover slot (S index) rest candidates covered
      else cover slot (S index) rest (candidates ++ [slot index skill]) (lower skill :: covered)
  end.

Definition problem_slot (skill : string) : QuestionSlot :=
  mkSlot "problem_solving" skill "medium" ("Applied problem solving with " +:+ skill).

(** [for skill in ..: if len(candidates) >= question_count: break] *)
Fixpoint fill_problems (question_count : nat) (skills : list string) (candidates : list QuestionSlot) :
    list QuestionSlot :=
  match skills with
  | [] => candidates
  | skill :: rest =>
      if (question_count <=? length candidates)%nat then candidates
      else fill_problems question_count rest (candidates ++ [problem_slot skill])
  end.

(** [while len(candidates) < question_count], of a list that is not empty;
    [fuel] is the number of missing slots. *)
Fixpoint pad (fuel question_count : nat) (candidates : list QuestionSlot) : list QuestionSlot :=
  match fuel with
  | O => candidates
  | S fuel =>
      if (length candidates <? question_count)%nat then
        match candidates !! (length candidates mod length candidates)%nat with
        | Some base => pad fuel question_count (candidates ++ [problem_slot (slot_skill base)])
        | None => candidates
        end
      else candidates
  end.

Definition plan_questions (fit : FitAnalysis) (job_seniority : option string) (question_count : nat)
    (difficulty : string) (focus_skills : list string) : list QuestionSlot :=
  let seniority := lower (strip (default "" job_seniority)) in
  let strong := if bool_decide (seniority ∈ _SENIOR_LEVELS) then "hard" else "medium" in
  let fixed := if bool_decide (difficulty = "mixed") then None else Some difficulty in
  let candidates := take (Nat.max 1 (question_count / 2)) (gap_slots fit) in
  let covered := (λ s, lower (slot_skill s)) <$> candidates in
  let matched := matched_required_skills fit in
  let '(candidates, covered) :=
    cover (λ _ skill, mkSlot "technical" skill strong ("Focus skill requested by HR: " +:+ skill)) 0 focus_skills
      candidates covered in
  let '(candidates, covered) :=
    cover (λ index skill, mkSlot "technical" skill (if Nat.eqb index 0 then "easy" else strong)
             ("Strength: required skill " +:+ skill +:+ " is in the resume")) 0 matched candidates covered in
  let candidates :=
    if bool_decide (seniority ∈ _MID_PLUS_LEVELS) then
      candidates ++ [mkSlot "system_design" "System Design" strong ("Seniority: the role is " +:+ seniority)]
    else candidates in
  let candidates := candidates ++ [mkSlot "behavioral" "Collaboration" "medium" "Teamwork, ownership and communication"] in
  let candidates := fill_problems question_count (additional_skills fit ++ matched) candidates in
  let candidates := match candidates with
                    | [] => [mkSlot "behavioral" "Collaboration" "medium" "General interview"]
                    | _ => candidates
                    end in
  let candidates := pad (question_count - length candidates) question_count candidates in
  let plan := sort_by slot_order (take question_count candidates) in
  match fixed with
  | Some level => (λ s, mkSlot (slot_category s) (slot_skill s) level (slot_target s)) <$> plan
  | None => plan
  end.

Example plan_demo :
  (λ s, (slot_category s, slot_skill s, slot_difficulty s)) <$>
    plan_questions (mkFit [] [] ["Python"; "SQL"] [("Kubernetes", "DevOps")] ["Go"; "Rust"; "C"] ["Redis"])
      (Some " Senior") 8 "mixed" ["Docker"; "go"] =
  [("technical", "Docker", "hard"); ("technical", "Python", "easy"); ("technical", "SQL", "hard");
   ("system_design", "System Design", "hard");
   ("gap_probe", "Kubernetes", "medium"); ("gap_probe", "Go", "medium"); ("gap_probe", "Rust", "medium");
   ("gap_probe", "C", "medium")].
Proof. vm_compute. reflexivity. Qed.

(** ** Laws of the plan *)

Section sorting.
Context {A : Type} (key : A → nat).

Lemma insert_by_perm x l : insert_by key x l ≡ₚ x :: l.
Proof.
  induction l as [|y l IH]; [done|]. cbn. destruct (key x <=? key y)%nat; [done|].
  rewrite IH. apply Permutation_swap.
Qed.

Lemma sort_by_perm l : sort_by key l ≡ₚ l.
Proof. induction l as [|x l IH]; [done|]. cbn. by rewrite insert_by_perm, IH. Qed.

Definition key_le (x y : A) : Prop := (key x ≤ key y)%nat.

Lemma insert_by_sorted x l : Sorted key_le l → Sorted key_le (insert_by key x l).
Proof.
  induction 1 as [|y l Hs IH Hd]; [by repeat constructor|]. cbn. destruct (Nat.leb_spec (key x) (key y)).
  - constructor; [by constructor|by constructor].
  - constructor; [done|]. inversion Hd as [|z l' Hz]; subst; cbn; [constructor; unfold key_le; lia|].
    destruct (key x <=? key z)%nat; constructor; unfold key_le; [lia|done].
Qed.

Lemma sort_by_sorted l : Sorted key_le (sort_by key l).
Proof. induction l as [|x l IH]; [constructor|]. by apply insert_by_sorted. Qed.

(** The sort is stable: elements with one key keep their order. *)
Lemma insert_by_filter k x l :
  filter (λ y, key y = k) (insert_by key x l) = filter (λ y, key y = k) (x :: l).
Proof.
  induction l as [|y l IH]; [done|]. cbn [insert_by]. destruct (Nat.leb_spec (key x) (key y)); [done|].
  rewrite filter_cons, IH, !filter_cons. repeat case_decide; [lia|done..].
Qed.

Lemma sort_by_stable k l : filter (λ y, key y = k) (sort_by key l) = filter (λ y, key y = k) l.
Proof. induction l as [|x l IH]; [done|]. change (sort_by key (x :: l)) with (insert_by key x (sort_by key l)). by rewrite insert_by_filter, !filter_cons, IH. Qed.
End sorting.

(** What a loop over skills adds: slots of skills that were not covered, each
    once; afterwards all of them are. *)
Lemma cover_spec slot skills : ∀ index candidates covered,
  (∀ i s, slot_skill (slot i s) = s) →
  ∃ new, cover slot index skills candidates covered =
      (candidates ++ new, reverse ((λ s, lower (slot_skill s)) <$> new) ++ covered) ∧
    Forall (λ s, ∃ i k, s = slot i k) new ∧
    NoDup ((λ s, lower (slot_skill s)) <$> new) ∧
    (∀ s, s ∈ new → lower (slot_skill s) ∉ covered) ∧
    (∀ k, k ∈ skills → lower k ∈ covered ∨ ∃ s, s ∈ new ∧ lower (slot_skill s) = lower k) ∧
    (length new ≤ length skills)%nat.
Proof.
  induction skills as [|k skills IH]; intros index candidates covered Hslot.
  - exists []. cbn. rewrite app_nil_r. split_and!; [done|constructor|constructor|set_solver|set_solver|lia].
  - cbn [cover]. case_bool_decide as Hk.
    + destruct (IH (S index) candidates covered Hslot) as (new & E & H1 & H2 & H3 & H4 & H5). exists new.
      split_and!; try done; [|cbn; lia]. intros k' [->|Hk']%elem_of_cons; [by left|by apply H4].
    + destruct (IH (S index) (candidates ++ [slot index k]) (lower k :: covered) Hslot)
        as (new & E & H1 & H2 & H3 & H4 & H5).
      exists (slot index k :: new). split_and!.
      * rewrite E. rewrite fmap_cons, reverse_cons, <- !app_assoc, Hslot. done.
      * constructor; [by eauto|done].
      * rewrite fmap_cons, Hslot. apply NoDup_cons. split; [|done].
        intros (s & Hs & Hin)%list_elem_of_fmap. apply (H3 s Hin). rewrite <- Hs. left.
      * intros s [->|Hs]%elem_of_cons; [by rewrite Hslot|]. intros Hc. apply (H3 s Hs). by right.
      * intros k' [->|Hk']%elem_of_cons.
        -- right. exists (slot index k). rewrite Hslot. split; [left|done].
        -- destruct (H4 k' Hk') as [[->|Hc]%elem_of_cons|(s & Hs & Hl)]; [|by left|].
           ++ right. exists (slot index k). rewrite Hslot. split; [left|done].
           ++ right. exists s. split; [by right|done].
      * cbn. lia.
Qed.

Definition is_problem (s : QuestionSlot) : Prop := slot_category s = "problem_solving" ∧ slot_difficulty s = "medium".

Lemma fill_problems_spec n skills c : ∃ new, fill_problems n skills c = c ++ new ∧ Forall is_problem new.
Proof.
  revert c. induction skills as [|k skills IH]; intros c; cbn.
  - exists []. by rewrite app_nil_r.
  - destruct (n <=? length c)%nat; [exists []; by rewrite app_nil_r|].
    destruct (IH (c ++ [problem_slot k])) as (new & -> & Hn). exists (problem_slot k :: new).
    rewrite <- app_assoc. split; [done|by constructor].
Qed.

(** The loop that pads the plan ends with enough slots. *)
Lemma pad_spec n fuel : ∀ c, c ≠ [] → (n ≤ length c + fuel)%nat →
  ∃ new, pad fuel n c = c ++ new ∧ Forall is_problem new ∧ (n ≤ length (c ++ new))%nat.
Proof.
  induction fuel as [|fuel IH]; intros c Hc Hn.
  - exists []. rewrite app_nil_r. split_and!; [done|done|lia].
  - cbn [pad]. destruct (Nat.ltb_spec (length c) n); [|exists []; rewrite app_nil_r; split_and!; [done|done|lia]].
    destruct c as [|b c]; [done|]. rewrite Nat.Div0.mod_same. cbn [lookup list_lookup].
    destruct (IH ((b :: c) ++ [problem_slot (slot_skill b)])) as (new & -> & Hp & Hl); [done|rewrite length_app; cbn in *; lia|].
    exists (problem_slot (slot_skill b) :: new). rewrite <- app_assoc in Hl |- *. split_and!; [done|by constructor|done].
Qed.

Definition technical_or (levels : list string) (s : QuestionSlot) : Prop :=
  slot_category s = "technical" ∧ slot_difficulty s ∈ levels.
Definition other (s : QuestionSlot) : Prop :=
  slot_category s ∈ ["problem_solving"; "system_design"; "behavioral"] ∧ slot_difficulty s ∈ ["medium"; "hard"].

Lemma gap_slots_category fit s : s ∈ gap_slots fit → slot_category s = "gap_probe" ∧ slot_difficulty s = "medium".
Proof. unfold gap_slots. rewrite elem_of_app, !list_elem_of_fmap. naive_solver. Qed.

Definition set_level (difficulty : string) (s : QuestionSlot) : QuestionSlot :=
  if bool_decide (difficulty = "mixed") then s else mkSlot (slot_category s) (slot_skill s) difficulty (slot_target s).

(** The unsorted plan: gaps, then focus skills and matched skills without
    repetition, then slots of the other categories. *)
Lemma plan_shape fit seniority n difficulty focus :
  let gs := take (Nat.max 1 (n / 2)) (gap_slots fit) in
  ∃ technical rest,
    plan_questions fit seniority n difficulty focus =
      set_level difficulty <$> sort_by slot_order (take n (gs ++ technical ++ rest)) ∧
    (n ≤ length (gs ++ technical ++ rest))%nat ∧
    Forall (technical_or ["easy"; "medium"; "hard"]) technical ∧ Forall other rest ∧
    NoDup ((λ s, lower (slot_skill s)) <$> technical) ∧
    (∀ k, k ∈ focus → ∃ s, s ∈ gs ++ take (length focus) technical ∧ lower (slot_skill s) = lower k).
Proof.
  intros gs. unfold plan_questions. fold gs.
  set (strong := if bool_decide (_ ∈ _SENIOR_LEVELS) then "hard" else "medium").
  assert (strong ∈ ["easy"; "medium"; "hard"]) as Hstrong by (unfold strong; case_bool_decide; set_solver).
  assert (strong ∈ ["medium"; "hard"]) as Hstrong' by (unfold strong; case_bool_decide; set_solver).
  set (slot1 := λ (_ : nat) (k : string), mkSlot "technical" k strong _).
  set (slot2 := λ (i : nat) (k : string), mkSlot "technical" k (if Nat.eqb i 0 then "easy" else strong) _).
  destruct (cover_spec slot1 focus 0 gs ((λ s, lower (slot_skill s)) <$> gs)) as (f & E1 & Hf1 & Hf2 & Hf3 & Hf4 & Hf5); [done|].
  rewrite E1. cbn [fst snd].
  destruct (cover_spec slot2 (matched_required_skills fit) 0 (gs ++ f)
    (reverse ((λ s, lower (slot_skill s)) <$> f) ++ ((λ s, lower (slot_skill s)) <$> gs)))
    as (m & E2 & Hm1 & Hm2 & Hm3 & _ & _); [done|]. rewrite E2.
  set (design := if bool_decide (_ ∈ _MID_PLUS_LEVELS) then _ else _).
  assert (∃ d, design = (gs ++ f) ++ m ++ d ∧ Forall other d) as (d & -> & Hd).
  { unfold design. case_bool_decide.
    - eexists. rewrite <- app_assoc. split; [reflexivity|]. constructor; [split; [set_solver|done]|constructor].
    - exists []. by rewrite app_nil_r. }
  set (behavioral := mkSlot "behavioral" _ _ _).
  destruct (fill_problems_spec n (additional_skills fit ++ matched_required_skills fit)
    (((gs ++ f) ++ m ++ d) ++ [behavioral])) as (p & -> & Hp).
  set (c := (_ ++ [behavioral]) ++ p).
  assert (c ≠ []) as Hc by (unfold c; intros E; apply app_eq_nil in E as [E _]; by apply app_eq_nil in E as [_ ?]).
  assert (match c with [] => [mkSlot "behavioral" "Collaboration" "medium" "General interview"] | _ => c end = c) as ->
    by (by destruct c).
  destruct (pad_spec n (n - length c) c Hc ltac:(lia)) as (q & -> & Hq & Hlen).
  assert (c ++ q = gs ++ (f ++ m) ++ (d ++ [behavioral] ++ p ++ q)) as Eall by (unfold c; by rewrite <- !app_assoc).
  rewrite Eall in Hlen |- *. exists (f ++ m), (d ++ [behavioral] ++ p ++ q). split_and!.
  - unfold set_level. case_bool_decide; [|done]. by rewrite list_fmap_id.
  - done.
  - apply Forall_app. split.
    + eapply Forall_impl; [exact Hf1|]. intros s (i & k & ->). split; [done|done].
    + eapply Forall_impl; [exact Hm1|]. intros s (i & k & ->). split; [done|]. cbn. case_match; [left|done].
  - assert (∀ l, Forall is_problem l → Forall other l) as Hio.
    { intros l Hl. eapply Forall_impl; [exact Hl|]. intros s [Hsc Hsd]. unfold other. rewrite Hsc, Hsd. set_solver. }
    rewrite !Forall_app. split_and!; [done| |by apply Hio|by apply Hio]. constructor; [split; cbn; set_solver|constructor].
  - rewrite fmap_app. apply NoDup_app. split_and!; [done| |done].
    intros x Hx (s & -> & Hs)%list_elem_of_fmap. apply (Hm3 s Hs). apply elem_of_app. left. by apply elem_of_reverse.
  - intros k Hk. destruct (Hf4 k Hk) as [(s & Hs & Hin)%list_elem_of_fmap|(s & Hin & Hs)].
    + exists s. split; [by apply elem_of_app; left|done].
    + exists s. split; [|done]. apply elem_of_app. right. rewrite take_app_ge by lia. apply elem_of_app. by left.
Qed.

Lemma set_level_same difficulty s :
  slot_category (set_level difficulty s) = slot_category s ∧ slot_skill (set_level difficulty s) = slot_skill s.
Proof. unfold set_level. by case_bool_decide. Qed.

Lemma slot_order_gap s : slot_order s = 3%nat ↔ slot_category s = "gap_probe".
Proof.
  unfold slot_order, _INTERVIEW_ORDER. cbn. split; [|by intros ->].
  repeat (case_bool_decide; [congruence|]). done.
Qed.

Lemma slot_order_technical s : slot_order s = 0%nat ↔ slot_category s = "technical".
Proof. unfold slot_order, _INTERVIEW_ORDER. cbn. case_bool_decide; [by subst|]. split; congruence. Qed.

Lemma filter_set_level (c : string) difficulty (l : list QuestionSlot) :
  slot_skill <$> filter (λ s, slot_category s = c) (set_level difficulty <$> l) =
  slot_skill <$> filter (λ s, slot_category s = c) l.
Proof.
  induction l as [|s l IH]; [done|]. rewrite fmap_cons, !filter_cons. destruct (set_level_same difficulty s) as [-> Hs].
  case_decide; [|done]. by rewrite !fmap_cons, IH, Hs.
Qed.

Lemma filter_sorted_category (c : string) k (l : list QuestionSlot) :
  (∀ s, slot_order s = k ↔ slot_category s = c) →
  filter (λ s, slot_category s = c) (sort_by slot_order l) = filter (λ s, slot_category s = c) l.
Proof.
  intros Hk. transitivity (filter (λ s, slot_order s = k) (sort_by slot_order l));
    [apply list_filter_iff; intros; by rewrite Hk|].
  rewrite sort_by_stable. apply list_filter_iff. intros; by rewrite Hk.
Qed.

(** C35. The plan of an interview has what it must have: exactly [n]
    questions, in the order of an interview; the first gaps - partly met
    requirements, then missing ones - in order, up to half of the questions
    (at least one); no skill twice among the technical questions; every skill
    the recruiter asked for, as long as there is room for them after the gaps;
    and one difficulty throughout, unless it is mixed. *)
Theorem plan_covers_gaps_and_focus (fit : FitAnalysis) (seniority : option string) (n : nat) (difficulty : string)
    (focus : list string) :
  (0 < n)%nat →
  let plan := plan_questions fit seniority n difficulty focus in
  let gaps := take (Nat.max 1 (n / 2)) (gap_slots fit) in
  length plan = n ∧ Sorted (key_le slot_order) plan ∧
  slot_skill <$> filter (λ s, slot_category s = "gap_probe") plan = slot_skill <$> gaps ∧
  NoDup (lower <$> (slot_skill <$> filter (λ s, slot_category s = "technical") plan)) ∧
  ((length gaps + length focus ≤ n)%nat → ∀ k, k ∈ focus → ∃ s, s ∈ plan ∧ lower (slot_skill s) = lower k) ∧
  (∀ s, s ∈ plan → if decide (difficulty = "mixed") then slot_difficulty s ∈ ["easy"; "medium"; "hard"]
                   else slot_difficulty s = difficulty).
Proof.
  intros Hn plan gaps.
  destruct (plan_shape fit seniority n difficulty focus) as (technical & rest & E & Hlen & Ht & Hr & Hnd & Hfocus).
  fold gaps in E, Hlen, Hfocus. unfold plan. rewrite E.
  set (l := take n (gaps ++ technical ++ rest)).
  assert (length gaps ≤ n)%nat as Hgn.
  { unfold gaps. rewrite length_take. pose proof (Nat.div_le_upper_bound n 2 n ltac:(lia) ltac:(lia)). lia. }
  assert (l = gaps ++ take (n - length gaps) (technical ++ rest)) as El by (unfold l; by rewrite take_app_ge).
  assert (∀ s, s ∈ technical ++ rest → slot_category s ≠ "gap_probe") as Hnogap.
  { rewrite Forall_forall in Ht, Hr. intros s [Hs|Hs]%elem_of_app Hc.
    - destruct (Ht s Hs) as [Hc' _]. congruence.
    - destruct (Hr s Hs) as [Hc' _]. rewrite Hc in Hc'. set_solver. }
  split_and!.
  - rewrite length_fmap, (sort_by_perm slot_order l). unfold l. rewrite length_take. lia.
  - pose proof (sort_by_sorted slot_order l) as Hs. induction Hs as [|s l' Hs IH Hd]; [constructor|].
    rewrite fmap_cons. constructor; [done|]. destruct Hd as [|t l'' Hd]; constructor. unfold key_le, slot_order in *.
    by rewrite !(proj1 (set_level_same _ _)).
  - rewrite filter_set_level, (filter_sorted_category _ _ _ slot_order_gap), El, filter_app, filter_all, filter_none, app_nil_r;
      [done| |].
    + intros s Hs. apply Hnogap. by apply subseteq_take in Hs.
    + intros s Hs. apply subseteq_take in Hs. by apply gap_slots_category in Hs as [? _].
  - rewrite filter_set_level, (filter_sorted_category _ _ _ slot_order_technical), El, filter_app.
    rewrite (filter_none _ gaps).
    2: { intros s Hs. apply subseteq_take, gap_slots_category in Hs as [-> _]. done. }
    rewrite <- list_fmap_compose. eapply sublist_NoDup; [exact Hnd|]. apply fmap_sublist. cbn.
    transitivity (filter (λ s, slot_category s = "technical") (technical ++ rest)).
    + rewrite <- (take_drop (n - length gaps) (technical ++ rest)) at 2. rewrite filter_app. by apply sublist_inserts_r.
    + rewrite Forall_forall in Ht, Hr. rewrite filter_app, filter_all, filter_none, app_nil_r; [done| |].
      * intros s Hs Hc. destruct (Hr s Hs) as [Hc' _]. rewrite Hc in Hc'. set_solver.
      * intros s Hs. by destruct (Ht s Hs).
  - intros Hroom k Hk. destruct (Hfocus k Hk) as (s & Hs & Hl).
    exists (set_level difficulty s). rewrite (proj2 (set_level_same _ _)). split; [|done].
    apply list_elem_of_fmap_2. rewrite (sort_by_perm slot_order l), El.
    apply elem_of_app in Hs as [Hs|Hs]; apply elem_of_app; [by left|right].
    apply elem_of_take in Hs as (i & Hi & Hlt). apply elem_of_take. exists i. split; [|lia].
    by apply lookup_app_l_Some.
  - intros s (s0 & -> & Hs)%list_elem_of_fmap. rewrite (sort_by_perm slot_order l) in Hs.
    unfold set_level. case_decide as Hd; [rewrite bool_decide_true by done|by rewrite bool_decide_false].
    rewrite El in Hs. apply elem_of_app in Hs as [Hs|Hs].
    + apply subseteq_take, gap_slots_category in Hs as [_ ->]. set_solver.
    + apply subseteq_take in Hs. rewrite Forall_forall in Ht, Hr. apply elem_of_app in Hs as [Hs|Hs].
      * by destruct (Ht s0 Hs) as [_ ?].
      * destruct (Hr s0 Hs) as [_ ?]. set_solver.
Qed.

Lemma plan_covers_gaps_and_focus_witness :
  let fit := mkFit [] [] ["Python"; "SQL"] [("Kubernetes", "DevOps")] ["Go"] ["Redis"] in
  let plan := plan_questions fit (Some "Mid") 5 "hard" ["Docker"; "go"] in
  (0 < 5)%nat ∧ length plan = 5%nat ∧ slot_skill <$> filter (λ s, slot_category s = "gap_probe") plan = ["Kubernetes"; "Go"].
Proof.
  intros fit plan.
  destruct (plan_covers_gaps_and_focus fit (Some "Mid") 5 "hard" ["Docker"; "go"]) as (Hl & _ & Hg & _); [lia|].
  split; [lia|]. split; [exact Hl|]. etrans; [exact Hg|]. vm_compute. reflexivity.
Defined.
