(* ===== verification/Profile.v ===== *)
(** The profile of a candidate a language model gets to see
    ([build_input_profile], [redact_resume_text] of [app/genai/prompts.py]),
    and the resume it is made of ([latest_processed_resume],
    [build_profile_for_application] of [app/genai/service.py]). *)
From S2P Require Import Prelude PyText Unicode Regex Texts Config Models Codecs Security Tenancy Orm OrmLaws SkillGraph Matching Questions.
From Stdlib Require Import QArith.
Local Open Scope string_scope.
Local Open Scope Z_scope.
Local Open Scope list_scope.

(** ** Redaction of the resume excerpt *)

Definition _RESUME_EXCERPT_CHARS : nat := 1500.
Definition _JOB_DESCRIPTION_CHARS : nat := 2000.

Definition _normalize_digits (text : string) : string := text_of (normalize_digits (chars text)).

Definition byte_space (c : string) : bool := match c with String a EmptyString => is_space a | _ => false end.
Definition any_digit (c : string) : bool := bool_decide (c ∈ latin_digits) || bool_decide (c ∈ persian_digits).
Definition spaces : re := Star (Chr byte_space).
Definition non_space : re := Chr (λ c, negb (byte_space c)).
Definition separator : re := Opt (OneOf [" "; "-"]).
Definition digits (min more : nat) : re := Rep (Chr any_digit) min more.

Section redaction.
Context `{Unicode}.

Definition word_or (l : list string) : re := Chr (λ c, word_char c || bool_decide (c ∈ l)).
Definition dotted : re := Plus (Seq (Lit ".") (Plus (word_or ["-"]))).

Definition _EMAIL_PATTERN : re :=
  Seq (Plus (word_or ["."; "+"; "-"])) (Seq (Lit "@") (Seq (Plus (word_or ["-"])) dotted)).

Definition _PHONE_PATTERN : re :=
  Seq (NotBehind any_digit)
    (Seq (Alts
       [Seq (Opt (Alts [Lit "+98"; Lit "0098"; Lit "0"]))
          (Seq separator (Seq (Lit "9") (Seq (digits 2 0) (Seq separator (Seq (digits 3 0) (Seq separator (digits 4 0)))))));
        Seq (Lit "0") (Seq (digits 2 1) (Seq separator (digits 7 1)));
        Seq (Lit "+") (Seq (digits 1 2)
          (Rep (Seq separator (Seq (Opt (Lit "(")) (Seq (digits 2 2) (Opt (Lit ")"))))) 2 2))])
       (NotAhead any_digit)).

Definition _URL_PATTERN : re :=
  Alt (Seq (Alts [Seq (Lit "http") (Seq (Opt (Lit "s")) (Lit "://")); Lit "www."]) (Plus non_space))
      (Seq (Boundary word_char) (Seq (Plus (word_or ["-"])) (Seq dotted (Seq (Lit "/") (Star non_space))))).

Definition _PROMPT_TAG_PATTERN : re :=
  Seq (Lit "<") (Seq (Opt (Lit "/")) (Seq spaces (Seq
    (Alts [Lit "resume_excerpt"; Lit "candidate_profile"; Lit "job_posting"; Lit "fit_analysis";
           Lit "question_plan"; Lit "system"; Seq (Lit "instruction") (Opt (Lit "s"))])
    (Seq spaces (Lit ">"))))).

Definition redact_resume_text (raw_text candidate_name : option string) (limit : nat) : string :=
  let text := _normalize_digits (default "" raw_text) in
  let text := match candidate_name with
              | Some name => if nonempty (strip name) then sub (Lit (strip name)) "[CANDIDATE]" text else text
              | None => text
              end in
  let text := sub _EMAIL_PATTERN "[EMAIL]" text in
  let text := sub _URL_PATTERN "[URL]" text in
  let text := sub _PHONE_PATTERN "[PHONE]" text in
  let text := sub _PROMPT_TAG_PATTERN "" text in
  let text := strip (sub (Plus (OneOf [" "; String "009" ""])) " " text) in
  py_take limit text.
End redaction.

(** The removal of tags makes one pass: what it takes out can leave a tag, or
    an address, that was not there before. *)
Example tags_can_be_assembled :
  let _ := text_unicode in
  redact_resume_text (Some "</resume_<system>excerpt> ali<system>@b.com") None _RESUME_EXCERPT_CHARS =
    "</resume_excerpt> ali@b.com".
Proof. vm_compute. reflexivity. Qed.

(** ** JSON of the analysis columns *)

(** [j.get(key)], [None] when [j] is no object. *)
Definition py_get (key : string) (j : json) : option json :=
  match j with JObj _ => Some (default JNull (json_get key j)) | _ => None end.

(** [j or []] where a list is expected. *)
Definition or_list (j : json) : option (list json) :=
  if json_falsy j then Some [] else match j with JArr l => Some l | _ => None end.

(** [column or {}] *)
Definition or_dict (o : option json) : json :=
  match o with Some j => if json_falsy j then JObj [] else j | None => JObj [] end.

Definition opt_str (j : json) : option (option string) :=
  match j with JNull => Some None | JStr s => Some (Some s) | _ => None end.
Definition str_opt (o : option string) : json := match o with Some s => JStr s | None => JNull end.

(** [float(x or 0.0)] *)
Definition float_or_zero (j : json) : option Q :=
  if json_falsy j then Some 0%Q else
  match j with JInt n => Some (inject_Z n) | JFloat q => Some q | JBool _ => Some 1%Q | _ => None end.

Definition experience_row (j : json) : option ExperienceRow :=
  title ← py_get "job_title" j ≫= opt_str;
  duration ← py_get "duration" j ≫= opt_str;
  valid ← json_bool (default (JBool true) (json_get "is_valid" j));
  reason ← py_get "flag_reason" j ≫= opt_str;
  Some (mkExperience title duration valid reason).

Definition degree_of (j : json) : option (option string) := py_get "degree" j ≫= opt_str.

(** [list(dict.fromkeys(l))] *)
Definition dict_fromkeys (l : list string) : list string := (foldl (λ d k, dict_set k tt d) [] l).*1.

Definition strs (l : list string) : json := JArr (JStr <$> l).

(** [FitAnalysis.to_dict] *)
Definition fit_to_dict (fit : FitAnalysis) : json :=
  JObj [("strengths", strs (strengths fit)); ("gaps", strs (gaps fit));
        ("matched_required_skills", strs (matched_required_skills fit));
        ("partially_matched_required_skills", JObj ((λ p, (p.1, JStr p.2)) <$> related_required_skills fit));
        ("missing_required_skills", strs (missing_required_skills fit));
        ("additional_relevant_skills", strs (additional_skills fit))].

(** [QuestionSlot.to_dict] *)
Definition slot_to_dict (s : QuestionSlot) : json :=
  JObj [("category", JStr (slot_category s)); ("skill", JStr (slot_skill s));
        ("difficulty", JStr (slot_difficulty s)); ("target", JStr (slot_target s))].

Section profile.
Context `{Unicode, FormatG}.

(** [None] when a column does not have the shape its writer gives it, on
    which Python raises. *)
Definition build_input_profile (skill_analysis parsed_data : option json) (raw_text : option string)
    (self_declared_skills : option (list string)) (match_score : option Z) (job : Job) : option json :=
  let skill_analysis := or_dict skill_analysis in
  let parsed_data := or_dict parsed_data in
  entries ← py_get "experience_entries" skill_analysis;
  rows ← (if json_falsy entries then py_get "work_experience" parsed_data else Some entries) ≫= or_list;
  experience ← mapM experience_row rows;
  education ← py_get "education" parsed_data ≫= or_list;
  degrees ← mapM degree_of education;
  found ← py_get "skills" skill_analysis ≫= or_list;
  found ← mapM json_str found;
  years ← py_get "total_experience_years" skill_analysis ≫= float_or_zero;
  info ← py_get "personal_info" parsed_data;
  name ← py_get "name" (or_dict (Some info)) ≫= opt_str;
  let skills := dict_fromkeys (found ++ default [] self_declared_skills) in
  let required := default [] (Models.job_skills_required job) in
  let fit := analyze_fit skills years experience degrees required (Models.job_required_seniority job)
               (Models.job_required_education job) (Models.job_description job) in
  Some (JObj
    [("job_posting", JObj
        [("title", JStr (Models.job_title job)); ("department", str_opt (Models.job_department job));
         ("seniority", str_opt (Models.job_required_seniority job));
         ("required_education", str_opt (Models.job_required_education job));
         ("required_skills", strs required); ("location", str_opt (Models.job_location job));
         ("description", JStr (py_take _JOB_DESCRIPTION_CHARS (default "" (Models.job_description job))))]);
     ("candidate_profile", JObj
        [("skills", strs skills); ("total_experience_years", JFloat years);
         ("experience", JArr ((λ e, JObj [("job_title", str_opt (row_job_title e));
                                          ("duration", str_opt (row_duration e));
                                          ("verified", JBool (row_is_valid e))])
                                <$> _meaningful_experience experience));
         ("education", JArr ((λ d, JObj [("degree", str_opt d)]) <$> filter (λ d, truthy d = true) degrees));
         ("match_score", match match_score with Some n => JInt n | None => JNull end)]);
     ("fit_analysis", fit_to_dict fit);
     ("resume_excerpt", JStr (redact_resume_text raw_text name _RESUME_EXCERPT_CHARS))]).

(** What [plan_questions] reads of a profile: the parts of the analysis it
    uses, and the seniority. *)
Definition profile_fit (profile : json) : option FitAnalysis :=
  fit ← json_get "fit_analysis" profile;
  related ← match default (JObj []) (json_get "partially_matched_required_skills" fit) with
            | JObj o => mapM (λ p, s ← json_str p.2; Some (p.1, s)) o
            | _ => None
            end;
  missing ← or_list (default (JArr []) (json_get "missing_required_skills" fit)) ≫= mapM json_str;
  matched ← or_list (default (JArr []) (json_get "matched_required_skills" fit)) ≫= mapM json_str;
  additional ← or_list (default (JArr []) (json_get "additional_relevant_skills" fit)) ≫= mapM json_str;
  Some (mkFit [] [] matched related missing additional).

Definition profile_plan (profile : json) (question_count : nat) (difficulty : string) (focus_skills : list string) :
    option (list QuestionSlot) :=
  fit ← profile_fit profile;
  posting ← json_get "job_posting" profile;
  seniority ← py_get "seniority" posting ≫= opt_str;
  Some (plan_questions fit seniority question_count difficulty focus_skills).

(** ** The resume of an application *)

Context `{Settings}.

(** [coalesce(jsonb_array_length(skill_analysis -> 'skills'), 0)]; [None]: the
    value is no array, which the database refuses. *)
Definition skill_count (r : Resume) : option nat :=
  match res_skill_analysis r ≫= json_get "skills" with
  | None => Some 0%nat
  | Some (JArr l) => Some (length l)
  | Some _ => None
  end.

(** [a] comes before [b] in [ORDER BY skill_count DESC, id]. *)
Definition ranks_before (a b : nat * Resume) : bool :=
  bool_decide (b.1 < a.1)%nat || (bool_decide (a.1 = b.1) && bool_decide (res_id a.2 < res_id b.2)%N).

Definition best_resume (l : list (nat * Resume)) : option (nat * Resume) :=
  foldr (λ a best, match best with Some b => if ranks_before a b then Some a else Some b | None => Some a end) None l.

Definition latest_processed_resume (candidate_id : uuid) (tenant : option uuid) : M World (option Resume) :=
  l ← select_where (λ r, bool_decide (res_candidate_id r = candidate_id) && sql_eq (res_tenant_id r) tenant &&
                         bool_decide (is_Some (res_skill_analysis r)));
  match mapM (λ r, n ← skill_count r; Some (n, r)) l with
  | None => raise (PyError "DBAPIError")
  | Some ranked => mret (snd <$> best_resume ranked)
  end.

Definition build_profile_for_application (application : Application) : M World json :=
  job ← select_by_id (R:=Job) (app_job_id application);
  candidate ← select_by_id (R:=Models.Candidate) (app_candidate_id application);
  resume ← latest_processed_resume (app_candidate_id application) (app_tenant_id application);
  match job with
  | None => raise (PyError "AttributeError")
  | Some job =>
      match build_input_profile (resume ≫= res_skill_analysis) (resume ≫= res_parsed_data) (resume ≫= res_raw_text)
              (candidate ≫= Models.cand_skills) (app_score_ai application) job with
      | Some profile => mret profile
      | None => raise (PyError "AttributeError")
      end
  end.
End profile.

(** ** Laws *)

Lemma mapM_json_str l : mapM json_str (JStr <$> l) = Some l.
Proof. apply mapM_fmap_Some. done. Qed.

Lemma strs_read l : or_list (strs l) ≫= mapM json_str = Some l.
Proof. destruct l as [|s l]; [done|]. change (mapM json_str (JStr <$> s :: l) = Some (s :: l)). apply mapM_json_str. Qed.

Lemma mapM_related (d : list (string * string)) :
  mapM (λ p : string * json, s ← json_str p.2; Some (p.1, s)) ((λ p, (p.1, JStr p.2)) <$> d) = Some d.
Proof. apply mapM_fmap_Some. by intros []. Qed.

Lemma some_bind {A B} (f : A → option B) a : (Some a ≫= f) = f a.
Proof. done. Qed.

(** Reading back the analysis that was written. *)
Lemma fit_roundtrip profile fit :
  json_get "fit_analysis" profile = Some (fit_to_dict fit) →
  profile_fit profile = Some (mkFit [] [] (matched_required_skills fit) (related_required_skills fit)
                                (missing_required_skills fit) (additional_skills fit)).
Proof.
  intros E. unfold profile_fit. rewrite E, some_bind.
  change (json_get "partially_matched_required_skills" (fit_to_dict fit))
    with (Some (JObj ((λ p, (p.1, JStr p.2)) <$> related_required_skills fit))).
  change (json_get "missing_required_skills" (fit_to_dict fit)) with (Some (strs (missing_required_skills fit))).
  change (json_get "matched_required_skills" (fit_to_dict fit)) with (Some (strs (matched_required_skills fit))).
  change (json_get "additional_relevant_skills" (fit_to_dict fit)) with (Some (strs (additional_skills fit))).
  cbn [default id]. by rewrite mapM_related, some_bind, !strs_read, !some_bind.
Qed.

Section laws.
Context `{Unicode, FormatG}.

Lemma build_input_profile_inv sa pd raw declared score job p :
  build_input_profile sa pd raw declared score job = Some p →
  ∃ o fit posting, p = JObj o ∧ json_get "fit_analysis" p = Some (fit_to_dict fit) ∧
    json_get "job_posting" p = Some posting ∧
    py_get "seniority" posting = Some (str_opt (job_required_seniority job)).
Proof.
  unfold build_input_profile. intros E. repeat (apply bind_Some in E as (? & ? & E)). simplify_eq.
  eexists _, _, _. split_and!; reflexivity.
Qed.

(** A profile this program builds can always be planned for. *)
Lemma profile_plans sa pd raw declared score job p n difficulty focus :
  build_input_profile sa pd raw declared score job = Some p →
  is_Some (profile_plan p n difficulty focus).
Proof.
  intros Hb. apply build_input_profile_inv in Hb as (o & fit & posting & -> & Hf & Hp & Hs).
  unfold profile_plan. rewrite (fit_roundtrip _ _ Hf), Hp. cbn -[py_get]. rewrite Hs.
  destruct (job_required_seniority job); eexists; reflexivity.
Qed.

Context `{Settings}.

(** *** The choice of the resume *)

Lemma ranks_before_true a b :
  ranks_before a b = true ↔ (b.1 < a.1)%nat ∨ (a.1 = b.1 ∧ (res_id a.2 < res_id b.2)%N).
Proof. unfold ranks_before. by rewrite orb_true_iff, andb_true_iff, !bool_decide_eq_true. Qed.

Lemma best_resume_spec l best :
  best_resume l = Some best → best ∈ l ∧ ∀ a, a ∈ l → ranks_before a best = false.
Proof.
  revert best. induction l as [|x l IH]; intros best; [done|]. cbn. fold (best_resume l).
  destruct (best_resume l) as [b|] eqn:Eb.
  - destruct (IH b eq_refl) as [Hin Hmax]. destruct (ranks_before x b) eqn:Er; intros [= <-].
    + split; [left|]. intros a [->|Ha]%elem_of_cons; apply not_true_iff_false; rewrite ranks_before_true; [lia|].
      specialize (Hmax a Ha). apply not_true_iff_false in Hmax. rewrite ranks_before_true in Hmax.
      apply ranks_before_true in Er. lia.
    + split; [by right|]. intros a [->|Ha]%elem_of_cons; [done|by apply Hmax].
  - intros [= <-]. split; [left|]. intros a [->|Ha]%elem_of_cons.
    + apply not_true_iff_false. rewrite ranks_before_true. lia.
    + destruct l; [by apply elem_of_nil in Ha|]. cbn in Eb. by repeat case_match.
Qed.

Lemma latest_resume_spec candidate_id tenant w r w' :
  latest_processed_resume candidate_id tenant w = (inr (Some r), w') →
  w' = w ∧ res_candidate_id r = candidate_id ∧ res_tenant_id r = tenant ∧ is_Some tenant ∧
  r ∈ visible_rows (R:=Resume) w ∧ ∃ n, skill_count r = Some n ∧
    ∀ s m, s ∈ visible_rows (R:=Resume) w → res_candidate_id s = candidate_id → res_tenant_id s = tenant →
      is_Some (res_skill_analysis s) → skill_count s = Some m → (m ≤ n)%nat.
Proof.
  unfold latest_processed_resume. rewrite select_where_bind.
  set (l := filter _ _). destruct (mapM _ l) as [ranked|] eqn:Em; [|done].
  intros E. mrun. destruct (best_resume ranked) as [[n best]|] eqn:Eb; [|done].
  injection E as <- <-.
  apply best_resume_spec in Eb as [Hin Hmax]. apply mapM_Some in Em.
  assert (∀ s, s ∈ l ↔ (res_candidate_id s = candidate_id ∧ sql_eq (res_tenant_id s) tenant = true ∧
            is_Some (res_skill_analysis s)) ∧ s ∈ visible_rows w) as Hl.
  { intros s. unfold l. rewrite list_elem_of_filter, !andb_true_iff, !bool_decide_eq_true. tauto. }
  apply list_elem_of_lookup in Hin as (i & Hi).
  destruct (Forall2_lookup_r _ _ _ _ _ Em Hi) as (s & Hs & E).
  apply bind_Some in E as (n' & Hn & [= -> ->]).
  assert (best ∈ l) as Hsl by (apply list_elem_of_lookup; eauto). apply Hl in Hsl as [(Hc & Ht & _) Hvb].
  apply sql_eq_true in Ht as (t & Hr & ->). do 3 (split; [done|]). split; [by eexists|]. split; [done|].
  exists n. split; [done|]. intros s' m Hv Hc' Ht' Ha Hm.
  assert (s' ∈ l) as Hin' by (apply Hl; rewrite Ht'; cbn; rewrite bool_decide_true; auto).
  apply list_elem_of_lookup in Hin' as (j & Hj).
  destruct (Forall2_lookup_l _ _ _ _ _ Em Hj) as ([m' s''] & Hj' & E').
  rewrite Hm in E'. cbn in E'. simplify_eq.
  assert (ranks_before (m', s'') (n, best) = false) as Hr' by (apply Hmax, list_elem_of_lookup; eauto).
  apply not_true_iff_false in Hr'. rewrite ranks_before_true in Hr'. cbn in Hr'. lia.
Qed.
End laws.
