(* ===== verification/ServiceAuth.v ===== *)
(** Calls between the services ([app/core/service_auth.py]): short-lived signed
    tokens, and the internal routes that take them ([app/routers/internal.py]). *)
From S2P Require Import Prelude PyText Unicode Config Models Codecs Security Tenancy Orm OrmLaws Questions Profile.
From Stdlib Require Import QArith.
Local Open Scope string_scope.
Local Open Scope Z_scope.
Local Open Scope list_scope.

(** ** Tokens *)

Definition BACKEND_AUDIENCE : string := "backend-api".
Definition ALGORITHM : string := "ES256".
Definition TOKEN_TYPE : string := "service".
Definition DEFAULT_TTL_SECONDS : Z := 60.
Definition MAX_TTL_SECONDS : Z := 300.
Definition CLOCK_SKEW_SECONDS : Z := 10.

(** The claims of a service token; the times in seconds. *)
Record ServiceToken := mkServiceToken {
  tok_iss : string; tok_sub : string; tok_aud : string; tok_iat : Z; tok_nbf : Z; tok_exp : Z; tok_jti : string;
  tok_typ : option string; tok_tid : option string }.

(** python-jose with ES256. [es256_sign key kid claims]; [unverified_header]
    gives [alg] and [kid]; [es256_decode key token audience issuer leeway now]
    is [None] when it raises [JWTError]. *)
Class ServiceJwt := {
  es256_sign : string → string → ServiceToken → string;
  unverified_header : string → option (option string * option string);
  es256_decode : string → string → string → string → Z → Z → option ServiceToken;
  key_pair : string → string → Prop;
  header_of_signed private kid c : unverified_header (es256_sign private kid c) = Some (Some "ES256", Some kid);
  decode_checks public token aud iss leeway now c :
    es256_decode public token aud iss leeway now = Some c →
    tok_aud c = aud ∧ tok_iss c = iss ∧ tok_nbf c - leeway <= now <= tok_exp c + leeway;
  decode_payload public private kid token aud iss leeway now c :
    es256_decode public (es256_sign private kid token) aud iss leeway now = Some c → c = token;
  decode_signed private public kid leeway now c :
    key_pair private public → tok_nbf c - leeway <= now <= tok_exp c + leeway →
    es256_decode public (es256_sign private kid c) (tok_aud c) (tok_iss c) leeway now = Some c }.

(** The files of the keys: the content of a file; the [.pem] files of a
    directory by their stem. *)
Class KeyFiles := {
  read_key : string → exn + string;
  pem_files : string → option (gmap string string) }.

Definition ServiceAuthError : exn := PyError "ServiceAuthError".

Record ServiceClaims := mkServiceClaims {
  sc_issuer : string; sc_audience : string; sc_token_id : string; sc_expires_at : Z; sc_tenant_id : option uuid }.

Section tokens.
Context `{Settings, ServiceJwt, KeyFiles}.

Definition _private_key : exn + string :=
  if negb (nonempty SERVICE_AUTH_PRIVATE_KEY_FILE) then inl ServiceAuthError else read_key SERVICE_AUTH_PRIVATE_KEY_FILE.

Definition _public_keys : gmap string string :=
  if negb (nonempty SERVICE_AUTH_PUBLIC_KEYS_DIR) then ∅ else default ∅ (pem_files SERVICE_AUTH_PUBLIC_KEYS_DIR).

(** [jti] is the random id of the token. *)
Definition issue_service_token (now : instant) (jti audience : string) (tenant : option uuid) (ttl_seconds : Z)
    (issuer : option string) : exn + string :=
  if negb ((0 <? ttl_seconds) && (ttl_seconds <=? MAX_TTL_SECONDS)) then inl (PyError "ValueError") else
  let issuer := match issuer with Some s => if nonempty s then s else SERVICE_NAME | None => SERVICE_NAME end in
  let now := seconds_of now in
  match _private_key with
  | inl e => inl e
  | inr key => inr (es256_sign key issuer
      (mkServiceToken issuer issuer audience now now (now + ttl_seconds) jti (Some TOKEN_TYPE) (uuid_str <$> tenant)))
  end.

Definition verify_service_token (now : instant) (token audience : string) (allowed_issuers : list string) :
    exn + ServiceClaims :=
  match unverified_header token with
  | None => inl ServiceAuthError
  | Some (alg, kid) =>
      if negb (bool_decide (alg = Some ALGORITHM)) then inl ServiceAuthError else
      match kid with
      | None => inl ServiceAuthError
      | Some issuer =>
          if negb (bool_decide (issuer ∈ allowed_issuers)) then inl ServiceAuthError else
          match _public_keys !! issuer with
          | None => inl ServiceAuthError
          | Some public_key =>
              match es256_decode public_key token audience issuer CLOCK_SKEW_SECONDS (seconds_of now) with
              | None => inl ServiceAuthError
              | Some claims =>
                  if negb (bool_decide (tok_typ claims = Some TOKEN_TYPE)) then inl ServiceAuthError
                  else if MAX_TTL_SECONDS <? tok_exp claims - tok_iat claims then inl ServiceAuthError
                  else
                    let answer t := inr (mkServiceClaims issuer audience (tok_jti claims) (tok_exp claims) t) in
                    match tok_tid claims with
                    | None => answer None
                    | Some tid =>
                        if negb (nonempty tid) then answer None else
                        match uuid_parse tid with Some t => answer (Some t) | None => inl ServiceAuthError end
                    end
              end
          end
      end
  end.

(** ** The internal routes *)

(** The headers that count. *)
Record InternalRequest := mkInternal {
  x_forwarded_for : option string; x_real_ip : option string; x_internal_auth : option string }.

(** [raw.split(" ", 1)[1] if raw.lower().startswith("bearer ") else raw] *)
Definition bearer (raw : string) : string :=
  if startswith (lower raw) "bearer " then String.substring 7 (String.length raw - 7) raw else raw.

Definition require_service_token (now : instant) (allowed_issuers : list string) (audience : option string)
    (request : InternalRequest) : M World ServiceClaims :=
  let token := bearer (default "" (x_internal_auth request)) in
  if negb (nonempty token) then http_error 401 else
  let audience := match audience with Some a => if nonempty a then a else SERVICE_NAME | None => SERVICE_NAME end in
  match verify_service_token now (strip token) audience allowed_issuers with
  | inr claims => mret claims
  | inl _ => http_error 401
  end.

Definition PROFILE_READERS : list string := ["worker"; "genai-worker"].

Definition reject_public_edge (request : InternalRequest) : M World unit :=
  reject_if (truthy (x_forwarded_for request) || truthy (x_real_ip request)) 404.

Definition whoami (now : instant) (request : InternalRequest) : M World json :=
  reject_public_edge request;;
  claims ← require_service_token now PROFILE_READERS (Some BACKEND_AUDIENCE) request;
  mret (JObj [("service", JStr (sc_issuer claims)); ("audience", JStr (sc_audience claims));
              ("tenant_id", str_opt (uuid_str <$> sc_tenant_id claims)); ("expires_at", JInt (sc_expires_at claims))]).

(** [with use_tenant_context(c): await apply_current_context(db); m] *)
Definition with_tenant_context {A} (c : TenantContext) (m : M World A) : M World A :=
  λ w, let previous := ctx w in
       let '(r, w') := m (snd (set_ctx c w)) in
       (r, snd (set_ctx previous w')).

Context `{Unicode, FormatG}.

Definition interview_profile (now : instant) (request : InternalRequest) (application_id : uuid) : M World (uuid * json) :=
  reject_public_edge request;;
  claims ← require_service_token now PROFILE_READERS (Some BACKEND_AUDIENCE) request;
  match sc_tenant_id claims with
  | None => http_error 403
  | Some t =>
      with_tenant_context (mkContext SCOPE_TENANT (Some t) None) (
        o ← select_by_id application_id;
        application ← or_raise o 404;
        profile ← build_profile_for_application application;
        mret (application_id, profile))
  end.
End tokens.

(** ** Laws *)

(** What an application of an organisation is told about: the application, its
    job and the resume are the organisation's. *)
Record profile_of `{Unicode, FormatG} (t : uuid) (db : Db) (id : uuid) (profile : json) : Prop := {
  po_application : ∃ a, applications db !! id = Some a ∧ app_tenant_id a = Some t ∧
    ∃ j, jobs db !! app_job_id a = Some j ∧ job_tenant_id j = Some t ∧
    ∃ (r : option Resume) skills, (∀ cv, r = Some cv → ∃ k, resumes db !! k = Some cv ∧
        res_tenant_id cv = Some t ∧ res_candidate_id cv = app_candidate_id a) ∧
      build_input_profile (r ≫= res_skill_analysis) (r ≫= res_parsed_data) (r ≫= res_raw_text) skills
        (app_score_ai a) j = Some profile }.

Section laws.
Context `{Settings, ServiceJwt, KeyFiles, Unicode, FormatG}.

Lemma verify_inv now token audience allowed claims :
  verify_service_token now token audience allowed = inr claims →
  sc_issuer claims ∈ allowed ∧ sc_audience claims = audience ∧
  ∃ key c, _public_keys !! sc_issuer claims = Some key ∧
    es256_decode key token audience (sc_issuer claims) CLOCK_SKEW_SECONDS (seconds_of now) = Some c ∧
    tok_typ c = Some TOKEN_TYPE ∧ tok_exp c - tok_iat c <= MAX_TTL_SECONDS ∧ sc_expires_at claims = tok_exp c ∧
    seconds_of now <= tok_exp c + CLOCK_SKEW_SECONDS.
Proof.
  unfold verify_service_token. destruct (unverified_header token) as [[alg kid]|]; [|done].
  case_bool_decide; cbn [negb]; [|done]. destruct kid as [issuer|]; [|done].
  case_bool_decide as Ha; cbn [negb]; [|done]. destruct (_public_keys !! issuer) as [key|] eqn:Ek; [|done].
  destruct (es256_decode _ _ _ _ _ _) as [c|] eqn:Ed; [|done]. case_bool_decide as Ht; cbn [negb]; [|done].
  destruct (Z.ltb_spec MAX_TTL_SECONDS (tok_exp c - tok_iat c)); [done|]. intros Hc.
  assert (∃ t, claims = mkServiceClaims issuer audience (tok_jti c) (tok_exp c) t) as [t ->].
  { cbv zeta in Hc. destruct (tok_tid c) as [tid|]; [|injection Hc as <-; eauto].
    destruct (nonempty tid); cbn [negb] in Hc; [|injection Hc as <-; eauto].
    destruct (uuid_parse tid) as [t|]; [|done]. injection Hc as <-. eauto. }
  cbn. split; [done|]. split; [done|]. exists key, c.
  destruct (decode_checks _ _ _ _ _ _ _ Ed) as (_ & _ & _ & Hexp). split_and!; try done; lia.
Qed.

(** A row the context of [t] shows is the organisation's. *)
Lemma tenant_row `{Table R} (get : R → option uuid) set (t : uuid) w (r : R) :
  mixin = TenantMixin get set → scope (ctx w) = SCOPE_TENANT → tenant_id (ctx w) = Some t →
  row_visible w r = true → get r = Some t.
Proof.
  intros Hm Hs Ht Hv. unfold row_visible, orm_criteria in Hv. rewrite Hm, Hs, Ht in Hv.
  rewrite bool_decide_true in Hv by done. cbn [negb] in Hv. apply andb_true_iff in Hv as [Hv _].
  unfold sql_eq in Hv. destruct (get r); [|done]. by apply bool_decide_eq_true in Hv as ->.
Qed.

Lemma profile_is_of_tenant (t : uuid) (w : World) (a : Application) (id : uuid) profile w' :
  scope (ctx w) = SCOPE_TENANT → tenant_id (ctx w) = Some t →
  lookup_visible id w = Some a → build_profile_for_application a w = (inr profile, w') →
  profile_of t (session w) id profile ∧ w' = w.
Proof.
  intros Hs Ht Ha Hb. apply lookup_visible_Some in Ha as [Ha Hv].
  assert (app_tenant_id a = Some t) as Hat by (by eapply (tenant_row app_tenant_id app_set_tenant)).
  unfold build_profile_for_application in Hb. rewrite !select_by_id_bind in Hb.
  apply bind_inv in Hb as [(e & _ & [=])|(o & w1 & El & Hb)].
  destruct (lookup_visible (R:=Job) (app_job_id a) w) as [j|] eqn:Ej; [|done].
  apply lookup_visible_Some in Ej as [Ej Hj].
  destruct (build_input_profile _ _ _ _ _ _) as [p|] eqn:Ep; [|done]. injection Hb as <- <-.
  assert (w1 = w ∧ ∀ cv, o = Some cv → ∃ k, resumes (session w) !! k = Some cv ∧ res_tenant_id cv = Some t ∧
    res_candidate_id cv = app_candidate_id a) as [-> Hcv].
  { destruct o as [cv|].
    - apply latest_resume_spec in El as (-> & Hc & Hr & _ & Hin & _). split; [done|]. intros ? [= <-].
      apply list_elem_of_filter in Hin as [_ Hin]. apply list_elem_of_fmap in Hin as ([k r] & -> & Hin).
      apply elem_of_map_to_list in Hin. exists k. rewrite Hr, Hat. done.
    - split; [|done]. unfold latest_processed_resume in El. rewrite select_where_bind in El.
      destruct (mapM _ _); [|done]. by injection El as _ <-. }
  split; [|done]. constructor. exists a. split; [done|]. split; [done|]. exists j. split; [done|].
  split; [by eapply (tenant_row job_tenant_id job_set_tenant)|]. eauto.
Qed.
End laws.

Section theorems.
Context `{Settings, ServiceJwt, KeyFiles}.

(** A token that a service issues is accepted, with the service, the
    organisation and the end it was issued with, by a service that has its
    public key and allows it, from ten seconds before it is issued to ten
    seconds after its end; it is accepted for no other audience and at no
    other time, and it lives at most five minutes. *)
Theorem service_token_is_accepted (private public jti audience issuer token : string) (tenant : option uuid)
    (ttl : Z) (now later : instant) (allowed : list string) :
  issue_service_token now jti audience tenant ttl (Some issuer) = inr token → nonempty issuer = true →
  _private_key = inr private → key_pair private public → _public_keys !! issuer = Some public → issuer ∈ allowed →
  match tenant with Some t => uuid_ok t | None => True end →
  let start := seconds_of now in
  (start - CLOCK_SKEW_SECONDS <= seconds_of later <= start + ttl + CLOCK_SKEW_SECONDS →
   verify_service_token later token audience allowed =
     inr (mkServiceClaims issuer audience jti (start + ttl) tenant)) ∧
  (∀ audience' allowed' claims, verify_service_token later token audience' allowed' = inr claims →
   audience' = audience ∧ issuer ∈ allowed' ∧ ttl <= MAX_TTL_SECONDS ∧
   start - CLOCK_SKEW_SECONDS <= seconds_of later <= start + ttl + CLOCK_SKEW_SECONDS).
Proof.
  intros Hi Hne Hp Hkp Hpub Hin Ht. unfold issue_service_token in Hi. rewrite Hne, Hp in Hi.
  destruct ((0 <? ttl) && (ttl <=? MAX_TTL_SECONDS)) eqn:Ettl; cbn [negb] in Hi; [|done]. injection Hi as <-.
  apply andb_true_iff in Ettl as [Hlo%Z.ltb_lt Hhi%Z.leb_le].
  set (c := mkServiceToken _ _ _ _ _ _ _ _ _). cbv zeta. split.
  - intros Hl. unfold verify_service_token. rewrite header_of_signed, !bool_decide_true by done. cbn [negb]. rewrite Hpub.
    rewrite (decode_signed private public issuer CLOCK_SKEW_SECONDS (seconds_of later) c) by done.
    cbn [tok_typ c]. rewrite bool_decide_true by done. cbn [negb tok_exp tok_iat tok_tid tok_jti c].
    destruct (Z.ltb_spec MAX_TTL_SECONDS (seconds_of now + ttl - seconds_of now)); [lia|].
    destruct tenant as [t|]; [|done]. cbn [fmap option_fmap option_map]. unfold nonempty.
    rewrite bool_decide_false by apply uuid_str_nonempty. cbn [negb]. by rewrite uuid_parse_str.
  - intros audience' allowed' claims Hv. pose proof Hv as Hv'. unfold verify_service_token in Hv'.
    rewrite header_of_signed in Hv'. apply verify_inv in Hv as (Ha & _ & key & c' & Hk & Hd & _).
    pose proof (decode_payload _ _ _ _ _ _ _ _ _ Hd) as ->. apply decode_checks in Hd as (Haud & Hiss & Hwin). cbn in *.
    split; [done|]. split; [by rewrite Hiss|]. split; [done|]. lia.
Qed.

Context `{Unicode, FormatG}.

(** C25. The internal route answers only other services, and only about the
    organisation their token names: whoever is given a profile has not come
    through the public gateway and shows a token that verifies under the public
    key of one of the two workers, for this service, that has not ended and
    lives at most five minutes; the application, its job and the resume in the profile are the
    organisation's of the token; and nothing is changed. *)
Theorem internal_profile_stays_in_tenant (now : instant) (request : InternalRequest) (id : uuid) (w w' : World)
    (answer : uuid * json) :
  interview_profile now request id w = (inr answer, w') →
  truthy (x_forwarded_for request) = false ∧ truthy (x_real_ip request) = false ∧
  ∃ claims t, verify_service_token now (strip (bearer (default "" (x_internal_auth request)))) BACKEND_AUDIENCE
      PROFILE_READERS = inr claims ∧
    sc_issuer claims ∈ PROFILE_READERS ∧ is_Some (_public_keys !! sc_issuer claims) ∧
    seconds_of now <= sc_expires_at claims + CLOCK_SKEW_SECONDS ∧
    sc_tenant_id claims = Some t ∧ profile_of t (session w) id answer.2 ∧ w' = w.
Proof.
  unfold interview_profile, reject_public_edge, require_service_token. intros Hr. guard_step Hr; [done|].
  match goal with H : _ || _ = false |- _ => apply orb_false_iff in H as [Hf Hi] end.
  split; [done|]. split; [done|]. apply bind_inv in Hr as [(e & _ & [=])|(claims & w1 & Hc & Hr)].
  destruct (nonempty (bearer _)); cbn [negb] in Hc; [|done].
  destruct (verify_service_token _ _ _ _) as [e|claims'] eqn:Hv; [done|]. injection Hc as -> <-.
  change (if nonempty BACKEND_AUDIENCE then BACKEND_AUDIENCE else SERVICE_NAME) with BACKEND_AUDIENCE in Hv.
  destruct (sc_tenant_id claims) as [t|] eqn:Et; [|done].
  unfold with_tenant_context in Hr. match type of Hr with (let '(_, _) := ?x in _) = _ => destruct x as [r w2] eqn:Em end.
  injection Hr as -> <-. cbn [snd set_ctx modify] in Em. rewrite select_by_id_bind in Em. guard_step Em; [done|].
  match goal with H : lookup_visible _ _ = Some ?a |- _ => rename a into application; rename H into Hl end.
  apply bind_inv in Em as [(e & _ & [=])|(profile & w3 & Hb & Em)].
  injection Em as <- <-. destruct (profile_is_of_tenant t (mkWorld (committed w) (session w) (mkContext SCOPE_TENANT (Some t) None) (effects w))
    application id profile w3 eq_refl eq_refl Hl Hb) as [Hp ->].
  pose proof (verify_inv _ _ _ _ _ Hv) as (Hin & _ & key & c & Hk & _ & _ & _ & Ex & Hend).
  exists claims, t. rewrite Ex. split_and!; try done. by destruct w.
Qed.
End theorems.

(** *** A worker asks about an application *)

Definition text_service_jwt : ServiceJwt.
Proof.
  refine {|
    es256_sign key kid c := text_encode (key, kid, ((tok_iss c, tok_sub c, tok_aud c),
      (tok_iat c, tok_nbf c, tok_exp c), (tok_jti c, tok_typ c, tok_tid c)));
    unverified_header s :=
      '(_, kid, _) ← text_decode (A := string * string * ((string * string * string) * (Z * Z * Z) *
        (string * option string * option string))) s; Some (Some "ES256", Some kid);
    es256_decode public s aud iss leeway now :=
      '(key, _, ((i, u, a), (t0, t1, t2), (j, y, d))) ← text_decode (A := string * string * ((string * string * string) *
        (Z * Z * Z) * (string * option string * option string))) s;
      if bool_decide (public = key +:+ ".pub" ∧ a = aud ∧ i = iss ∧ t1 - leeway <= now <= t2 + leeway)
      then Some (mkServiceToken i u a t0 t1 t2 j y d) else None;
    key_pair private public := public = private +:+ ".pub" |}.
  - intros. rewrite text_decode_encode. done.
  - intros public token aud iss leeway now c. destruct (text_decode token) as [[[key kid] [[[[i u] a] [[t0 t1] t2]] [[j y] d]]]|]; [|done].
    cbn. case_bool_decide as E; [|done]. intros [= <-]. cbn. tauto.
  - intros public private kid token aud iss leeway now c. rewrite text_decode_encode. cbn.
    case_bool_decide; [|done]. intros [= <-]. by destruct token.
  - intros private public kid leeway now c -> Hw. rewrite text_decode_encode. cbn. rewrite bool_decide_true by tauto. by destruct c.
Defined.

(** The settings of the question worker, and of the back end it asks. *)
Definition demo_settings (service : string) : Settings :=
  let '(mkSettings a b c d e f _ _ _ j k l m n o p q r s t u v w x y z a1 b1 c1 d1 e1 f1 g1 h1 i1 j1) := default_settings in
  mkSettings a b c d e f service "key.pem" "keys" j k l m n o p q r s t u v w x y z a1 b1 c1 d1 e1 f1 g1 h1 i1 j1.

Definition demo_db : Db := {|
  users := {[2%N := mkUser 2 "hr@a.com" "" "HR_Manager" true 0 (Some 1%N) None None None]};
  companies := {[1%N := mkCompany 1 "A" None None 2]};
  candidates := {[3%N := mkCandidate 3 2 "Ali" "R" None (Some ["Python"]) None]};
  jobs := {[4%N := mkJob 4 (Some 1%N) (Some 1%N) 2 "Developer" None None (Some ["Python"; "Go"]) None "Open" None None None 0]};
  applications := {[5%N := mkApplication 5 (Some 1%N) 4 3 "Screening" (Some 70) 0 0]};
  interviews := ∅;
  resumes := {[8%N := mkResume 8 (Some 1%N) 3 "f" None None None
                        (Some (JObj [("skills", JArr [JStr "Python"]); ("total_experience_years", JInt 4);
                                     ("experience_entries", JArr [])])) None]};
  skills := ∅; notifications := ∅; status_history := ∅; question_sets := ∅; questions := ∅ |}.

Definition demo_world : World := mkWorld demo_db demo_db SYSTEM_CONTEXT [].

Section demo.
#[local] Existing Instances text_service_jwt text_unicode.
#[local] Instance demo_format : FormatG := {| format_g _ := "" |}.
#[local] Instance demo_keys : KeyFiles := {|
  read_key _ := inr "k"; pem_files _ := Some {["worker" := "k.pub"]} |}.
#[local] Instance demo_env : Settings := demo_settings "worker".

(** The token of the worker for organisation 1, issued at second 1000. *)
Definition demo_token : string :=
  match issue_service_token 1000000000 "jti" BACKEND_AUDIENCE (Some 1%N) DEFAULT_TTL_SECONDS (Some "worker") with
  | inr t => t | inl _ => ""
  end.

Definition demo_request : InternalRequest := mkInternal None None (Some demo_token).

Lemma service_token_is_accepted_witness :
  issue_service_token 1000000000 "jti" BACKEND_AUDIENCE (Some 1%N) 60 (Some "worker") = inr demo_token ∧
  verify_service_token 1065000000 demo_token BACKEND_AUDIENCE PROFILE_READERS =
    inr (mkServiceClaims "worker" BACKEND_AUDIENCE "jti" 1060 (Some 1%N)).
Proof.
  split; [vm_compute; reflexivity|].
  destruct (service_token_is_accepted "k" "k.pub" "jti" BACKEND_AUDIENCE "worker" demo_token (Some 1%N) 60
    1000000000 1065000000 PROFILE_READERS) as [Hok _];
    [vm_compute; reflexivity|done|reflexivity|reflexivity|vm_compute; reflexivity|unfold PROFILE_READERS; set_solver|done|].
  apply Hok. vm_compute. split; discriminate.
Defined.

Lemma internal_profile_stays_in_tenant_witness :
  ∃ answer, interview_profile 1065000000 demo_request 5 demo_world = (inr answer, demo_world) ∧
  profile_of 1 demo_db 5 answer.2.
Proof.
  eexists. assert (interview_profile 1065000000 demo_request 5 demo_world = (inr _, demo_world)) as Hr
    by (vm_compute; reflexivity).
  split; [exact Hr|]. apply internal_profile_stays_in_tenant in Hr as (_ & _ & claims & t & Hv & _ & _ & _ & Ht & Hp & _).
  vm_compute in Hv. injection Hv as <-. injection Ht as <-. exact Hp.
Defined.
End demo.
