(* ===== verification/Agents.v ===== *)
(** The agents that read a resume side by side ([app/agents/]): claims of
    years in the text ([text_signals.py]), skills ([skill_agent.py]), the
    validation of the work history ([experience_agent.py]), soft skills and
    tone ([soft_skills_agent.py] with its lexicon). *)
From S2P Require Import Prelude PyText Unicode Regex Texts Rounding Models Codecs Experience SkillGraph Parser Questions Profile.
From stdpp Require Import sorting pretty.
From Stdlib Require Import QArith.
Local Open Scope string_scope.
Local Open Scope Z_scope.
Local Open Scope list_scope.

(** ** Claims in the text *)

Definition _MAX_EVIDENCE_LENGTH : nat := 80.
Definition _MAX_PLAUSIBLE_YEARS : Z := 50.

Definition _evidence (matched : text) : text := take _MAX_EVIDENCE_LENGTH (join_texts [" "] (split_words matched)).

Section signals.
Context `{Unicode}.

Definition one_or_two_digits : re := Rep Parser.any_digit 1 1.
Definition plus_sign : re := Seq wide_blank (Seq (Opt (Exact "+")) wide_blank).
Definition years_word : re := Alts [Seq (Lit "year") (Opt (Lit "s")); Lit "yrs"].
Definition some_space : re := Plus space.
Definition saal : re := Exact "سال".
Definition sabeghe_or_tajrobe : re := Alts [Exact "سابقه"; Exact "تجربه"].

Definition years_of_text (t : text) : Z := number (digits_here 2 t).

(** A pattern [before _YEARS after]: the years, the whole match. *)
Definition years_between (before after : re) (prev : option string) (s : text) : option ((text * text) * text) :=
  match_re before prev s (λ prev s1, match_re one_or_two_digits prev s1 (λ prev s2,
    match_re (Seq plus_sign after) prev s2 (λ _ s3, Some ((Regex.between s1 s2, Regex.between s s3), s3)))).

Definition _TOTAL_CLAIM_PATTERNS : list (re * re) :=
  [(Eps, Seq years_word (Seq some_space (Seq (Opt (Seq (Lit "of") some_space))
           (Seq (Opt (Alts [Seq (Lit "professional") some_space; Seq (Lit "industry") some_space;
                            Seq (Lit "work") some_space; Seq (Lit "hands-on") some_space]))
              (Lit "experience")))));
   (Seq (Lit "experience") (Seq some_space (Seq (Lit "of") some_space)), years_word);
   (Eps, Seq saal (Seq some_space sabeghe_or_tajrobe));
   (Seq sabeghe_or_tajrobe (Seq (Opt (Alts [Seq some_space (Exact "کاری"); Seq some_space (Exact "کار")])) some_space), saal)].

Definition better_claim (best : option (Z * text)) (m : text * text) : option (Z * text) :=
  let years := years_of_text m.1 in
  if (0 <? years) && (years <=? _MAX_PLAUSIBLE_YEARS) && match best with Some b => b.1 <? years | None => true end
  then Some (years, _evidence m.2) else best.

Definition extract_claimed_total_years (t : text) : option (Z * text) :=
  let normalized := normalize_digits t in
  foldl (λ best p, foldl better_claim best (finditer (years_between p.1 p.2) normalized)) None _TOTAL_CLAIM_PATTERNS.

(** [(?=([^,;()\n،؛]{1,40}))] *)
Definition window_char (c : string) : bool := negb (bool_decide (c ∈ [","; ";"; "("; ")"; LF; "،"; "؛"])).
Fixpoint window_here (n : nat) (s : text) : text :=
  match n, s with S n, c :: r => if window_char c then c :: window_here n r else [] | _, _ => [] end.

Definition claim_after : re :=
  Seq plus_sign (Seq (Alts [years_word; Lit "سال"]) (Seq some_space (Seq (Opt (Seq (Lit "of") some_space))
    (Seq (Opt (Alts [Seq (Lit "experience") (Seq some_space (Seq (Alts [Lit "in"; Lit "with"]) some_space));
                     Seq (Lit "تجربه") some_space; Seq (Lit "سابقه") some_space]))
         (Opt (Alts [Seq (Lit "در") some_space; Seq (Lit "با") some_space;
                     Seq (Lit "کار") (Seq some_space (Seq (Lit "با") some_space))])))))).

(** The years, the window, the match. *)
Definition _SKILL_CLAIM_AFTER (prev : option string) (s : text) : option ((text * text * text) * text) :=
  match_re one_or_two_digits prev s (λ prev s1, match_re claim_after prev s1 (λ _ s2,
    match window_here 40 s2 with [] => None | window => Some ((Regex.between s s1, window, Regex.between s s2), s2) end)).

Definition _WINDOW_SPLIT : re :=
  Alt (Seq space (Seq (Alts [Lit "and"; Lit "و"; Lit "&"]) space)) (Exact "/").

Definition ascii_letter (c : string) : bool :=
  match fold_case c with String a EmptyString => bool_decide (97 ≤ code a ≤ 122)%N | _ => false end.
Definition claim_name : re :=
  Seq (Chr ascii_letter) (Lazy (Chr (λ c, word_char c || bool_decide (c ∈ ["."; "#"; "+"; "/"; "-"; " "]))) 30).
Definition claim_mark : re := Seq wide_blank (Seq (OneOf ["("; "-"; "–"; ":"]) wide_blank).

Definition _SKILL_CLAIM_BEFORE (prev : option string) (s : text) : option ((text * text * text) * text) :=
  match_re claim_name prev s (λ prev s1, match_re claim_mark prev s1 (λ prev s2,
    match_re one_or_two_digits prev s2 (λ prev s3,
      match_re (Seq plus_sign (Alts [years_word; Lit "سال"])) prev s3 (λ _ s4,
        Some ((Regex.between s2 s3, Regex.between s s1, Regex.between s s4), s4))))).

Definition SkillClaims : Type := list (string * (Z * text)).

Definition record_claim (claims : SkillClaims) (years : Z) (window evidence : text) : SkillClaims :=
  if negb ((0 <? years) && (years <=? _MAX_PLAUSIBLE_YEARS)) then claims else
  let direct := filter (λ skill, found (Lit skill) None window = true) (match_skills (text_of window)) in
  foldl (λ claims skill,
    if match dict_get skill claims with Some c => c.1 <? years | None => true end
    then dict_set skill (years, evidence) claims else claims) claims direct.

Definition extract_skill_year_claims (t : text) : SkillClaims :=
  let normalized := normalize_digits t in
  let claims := foldl (λ claims '(years, window, matched),
    let window := default [] (head (re_split _WINDOW_SPLIT window)) in
    record_claim claims (years_of_text years) window (_evidence (matched ++ window)))
    [] (finditer _SKILL_CLAIM_AFTER normalized) in
  foldl (λ claims '(years, window, matched), record_claim claims (years_of_text years) window (_evidence matched))
    claims (finditer _SKILL_CLAIM_BEFORE normalized).

Record Signals := mkSignals { claimed_total : option (Z * text); skill_year_claims : SkillClaims }.

Definition compute_shared_signals (t : text) : Signals :=
  mkSignals (extract_claimed_total_years t) (extract_skill_year_claims t).
End signals.

(** ** The skill agent *)

Record SkillItem := mkSkillItem {
  si_name : string; si_core : string; si_category : string; si_evidence_count : nat; si_inferred : bool;
  si_confidence : Q; si_claimed_years : option Z }.

Definition _DIRECT_BASE_CONFIDENCE : Q := 6 # 10.
Definition _PER_EXTRA_MENTION : Q := 1 # 10.
Definition _INFERRED_CONFIDENCE : Q := 5 # 10.

(** [min] and [max] of floats. *)
Definition qmin (a b : Q) : Q := if Qle_bool a b then a else b.
Definition qmax (a b : Q) : Q := if Qle_bool a b then b else a.

Definition mention_confidence (count : nat) : Q :=
  match count with
  | O => _INFERRED_CONFIDENCE
  | S extra => qmin 1 (_DIRECT_BASE_CONFIDENCE + _PER_EXTRA_MENTION * inject_Z (Z.of_nat extra))
  end.

Definition skill_item (mentions : list (string * (string * nat))) (claims : SkillClaims) (name core : string) : SkillItem :=
  let count := match dict_get name mentions with Some (_, n) => n | None => O end in
  mkSkillItem name core core count (bool_decide (count = O)) (round2 (mention_confidence count))
    (fst <$> dict_get name claims).

Definition setdefault (d : list (string * string)) (k : string) : list (string * string) :=
  match dict_get k d with Some _ => d | None => dict_set k k d end.

Definition run_skill_agent `{Unicode} (raw_text : text) (signals : option Signals) : list SkillItem :=
  let mentions := count_skill_mentions (text_of raw_text) in
  let claims := match signals with Some s => skill_year_claims s | None => extract_skill_year_claims raw_text end in
  let cores := (λ p, (p.1, p.2.1)) <$> mentions in
  let cores := foldl setdefault cores cores.*2 in
  (λ name, skill_item mentions claims name (default "" (dict_get name cores))) <$> sorted_set cores.*1.

(** ** The experience agent *)

Inductive Severity := low | medium | high.
#[global] Instance Severity_eq_dec : EqDecision Severity.
Proof. solve_decision. Defined.

Record ValidationFlag := mkFlag {
  fl_code : string; fl_severity : Severity; fl_message : string; fl_evidence : option string; fl_source : string }.

Record ExperienceEntry := mkEntry {
  ee_index : nat; ee_company : option string; ee_job_title : option string; ee_duration : option string;
  ee_start_year : option Z; ee_end_year : option Z;
  ee_start_year_gregorian : option Z; ee_end_year_gregorian : option Z;
  ee_is_valid : bool; ee_flag_reason : option string }.

Record Overlap := mkOverlap { ov_entries : nat * nat; ov_years : Z }.

Record ExperienceAgentOutput := mkExperienceOutput {
  eo_entries : list ExperienceEntry; eo_total_experience_years : Z; eo_overlaps : list Overlap;
  eo_invalid_periods : list nat; eo_claimed_total_years : option Z; eo_flags : list ValidationFlag }.

Definition EXPERIENCE_AGENT : string := "experience_validation".
Definition _CLAIM_TOLERANCE_YEARS : Z := 2.
Definition _MAX_CONCURRENT_ROLES : nat := 2.

Definition _gregorian (year : option Z) : option Z :=
  (λ y, if y <? _SHAMSI_YEAR_THRESHOLD then y + _SHAMSI_TO_GREGORIAN_OFFSET else y) <$> year.

Definition _flag (code : string) (severity : Severity) (message : string) (evidence : option string) : ValidationFlag :=
  mkFlag code severity message evidence EXPERIENCE_AGENT.

(** A valid entry with its years in one calendar. *)
Definition span_of (e : ExperienceEntry) : option (Z * Z) :=
  if ee_is_valid e then s ← ee_start_year_gregorian e; t ← ee_end_year_gregorian e; Some (s, t) else None.

Definition overlap_of (a b : nat * (Z * Z)) : option Overlap :=
  let years := Z.min a.2.2 b.2.2 - Z.max a.2.1 b.2.1 in
  if 0 <? years then Some (mkOverlap (a.1, b.1) years) else None.

Fixpoint overlaps_of (valid : list (nat * (Z * Z))) : list Overlap :=
  match valid with
  | [] => []
  | first :: rest => omap (overlap_of first) rest ++ overlaps_of rest
  end.

(** How many of the spans cover a year. *)
Definition jobs_in (spans : list (Z * Z)) (year : Z) : nat :=
  length (filter (λ p, p.1 <= year < p.2) spans).

(** The peak over [range(min(starts), max(ends))]. *)
Definition peak_of (spans : list (Z * Z)) : nat :=
  match spans with
  | [] => O
  | p :: rest =>
      let first := foldr Z.min p.1 rest.*1 in
      let last_ := foldr Z.max p.2 rest.*2 in
      foldr Nat.max O (jobs_in spans <$> seqZ first (last_ - first))
  end.

Section experience.
Context `{Unicode, FormatG}.
Context (today_year : Z).

Definition g (n : Z) : string := format_g (inject_Z n).

(** The analyser's reasons in its words. *)
Definition reason_words (a : AnalyzedEntry) : option string :=
  match an_flag_reason a with
  | None => None
  | Some Unreadable => Some "بازه‌ی تاریخ در این ردیف قابل تشخیص نبود."
  | Some Reversed => Some "تاریخ پایان قبل از تاریخ شروع است (دوره‌ی زمانی متناقض)."
  | Some InFuture => Some "تاریخ در آینده است (احتمالاً نادرست)."
  | Some (TooLong years) => Some ("طول این دوره (" +:+ pretty years +:+ " سال) غیرواقعی/بزرگ‌نمایی‌شده به نظر می‌رسد.")
  end.

Definition agent_entry (index : nat) (a : AnalyzedEntry) : ExperienceEntry :=
  mkEntry index (work_company (an_entry a)) (work_job_title (an_entry a)) (work_duration (an_entry a))
    (an_start_year a) (an_end_year a) (_gregorian (an_start_year a)) (_gregorian (an_end_year a))
    (is_valid a) (reason_words a).

(** The senior titles, the years a career needs for them. *)
Definition word_in (words : list string) (title : text) : bool :=
  found (Seq (Boundary word_char) (Seq (Alts (Lit <$> words)) (Boundary word_char))) None title.
Definition any_of (parts : list string) (title : text) : bool := found (Alts (Lit <$> parts)) None title.

Definition _SENIORITY_TITLE_MIN_YEARS : list ((text → bool) * Z * string) :=
  [(λ t, word_in ["cto"; "vp"; "director"; "head of"; "principal"] t || any_of ["مدیر فنی"; "مدیرعامل"] t, 7, "مدیر ارشد/اصلی");
   (λ t, word_in ["lead"; "manager"; "architect"] t || any_of ["سرپرست"; "مدیر"; "معمار"] t, 5, "سرپرست/مدیر");
   (λ t, word_in ["senior"; "sr"; "sr."] t || any_of ["ارشد"] t, 3, "ارشد")].

Definition title_flags (total_years : Z) (e : ExperienceEntry) : list ValidationFlag :=
  let title := default "" (ee_job_title e) in
  match list_find (λ p : (text → bool) * Z * string, p.1.1 (chars title) = true) _SENIORITY_TITLE_MIN_YEARS with
  | Some (_, (_, min_years, level)) =>
      if total_years <? min_years then
        [_flag "seniority_title_vs_tenure" medium
           ("عنوان «" +:+ level +:+ "» با کل سابقه‌ی " +:+ g total_years +:+ " سال (حداقل معقول: " +:+ g min_years +:+ ").")
           (Some (py_take 80 title))]
      else []
  | None => []
  end.

Definition claim_severity (gap : Z) : Severity := if 5 <=? gap then high else medium.

Definition run_experience_agent (raw_text : text) (work_experience : list WorkExperienceEntry) (signals : option Signals) :
    ExperienceAgentOutput :=
  let analysis := (analyze_work_experience today_year work_experience).2 in
  let entries := imap agent_entry analysis in
  let valid := omap (λ e, p ← span_of e; Some (ee_index e, p)) entries in
  let total_years := _merge_intervals_and_sum_years valid.*2 in
  let invalid := filter (λ e, ee_is_valid e = false) entries in
  let claimed := match signals with Some s => claimed_total s | None => extract_claimed_total_years raw_text end in
  let skill_claims := match signals with Some s => skill_year_claims s | None => extract_skill_year_claims raw_text end in
  let exceeds (years : Z) := negb (bool_decide (valid = [])) && (total_years + _CLAIM_TOLERANCE_YEARS <? years) in
  let flags :=
    ((λ e, _flag "invalid_period" low (default "بازه‌ی تاریخ نامعتبر" (ee_flag_reason e)) (ee_duration e)) <$> invalid) ++
    match claimed with
    | Some (years, evidence) =>
        if exceeds years then
          [_flag "claimed_years_exceed_history" (claim_severity (years - total_years))
             ("ادعای " +:+ g years +:+ " سال سابقه، ولی بازه‌های معتبر فقط " +:+ g total_years +:+ " سال است.")
             (Some (text_of evidence))]
        else []
    | None => []
    end ++
    concat (title_flags total_years <$> filter (λ e, is_Some (span_of e)) entries) ++
    (if (_MAX_CONCURRENT_ROLES <? peak_of valid.*2)%nat then
       [_flag "concurrent_full_time_roles" medium
          (pretty (peak_of valid.*2) +:+ " شغل هم‌زمان در یک بازه‌ی زمانی ثبت شده است.") None]
     else []) ++
    concat ((λ p : string * (Z * text), let '(skill, (years, evidence)) := p in
      if exceeds years then
        [_flag "skill_years_exceed_career" (claim_severity (years - total_years))
           ("ادعای " +:+ g years +:+ " سال " +:+ skill +:+ "، بیشتر از کل سابقه‌ی کاری (" +:+ g total_years +:+ " سال).")
           (Some (text_of evidence))]
      else []) <$> omap (λ skill, c ← dict_get skill skill_claims; Some (skill, c)) (sorted_set skill_claims.*1))
  in
  mkExperienceOutput entries total_years (overlaps_of valid) (ee_index <$> invalid) (fst <$> claimed) flags.
End experience.

(** ** The soft skills agent *)

(** A group of phrases of [data/soft_skills_lexicon.json]. *)
Record Phrases := mkPhrases { in_english : list string; in_persian : list string }.

Definition soft_skills_lexicon : list (string * (string * Phrases)) :=
  [("communication", ("ارتباط مؤثر", mkPhrases
     ["communication"; "communicated"; "presented"; "presentation"; "stakeholder"; "stakeholders"; "documented"; "documentation"; "public speaking"; "negotiated"; "explained"]
     ["ارتباط مؤثر"; "مهارت ارتباطی"; "ارائه"; "مستندسازی"; "مذاکره"; "ذی‌نفعان"; "تعامل با مشتری"; "سخنرانی"]));
   ("leadership", ("رهبری", mkPhrases
     ["led"; "lead"; "leading"; "leadership"; "mentored"; "mentoring"; "managed a team"; "supervised"; "coached"; "head of"]
     ["رهبری"; "مدیریت تیم"; "سرپرستی"; "راهبری"; "منتورینگ"; "آموزش اعضای تیم"; "هدایت تیم"]));
   ("teamwork", ("کار تیمی", mkPhrases
     ["team"; "teamwork"; "collaborated"; "collaboration"; "cross-functional"; "together with"; "pair programming"; "cooperated"]
     ["کار تیمی"; "همکاری"; "تیمی"; "هماهنگی با"; "همکاری با"; "کار گروهی"]));
   ("ownership", ("مسئولیت‌پذیری", mkPhrases
     ["ownership"; "owned"; "responsible for"; "accountable"; "took initiative"; "initiative"; "end-to-end"; "delivered"]
     ["مسئولیت"; "مسئولیت‌پذیری"; "پیگیری"; "تحویل"; "از ابتدا تا انتها"; "ابتکار"]));
   ("learning", ("یادگیری مستمر", mkPhrases
     ["learned"; "learning"; "self-taught"; "certification"; "certified"; "course"; "courses"; "curious"; "upskilled"]
     ["یادگیری"; "یاد گرفتم"; "دوره"; "گواهینامه"; "خودآموز"; "علاقه به یادگیری"; "به‌روز"]));
   ("problem_solving", ("حل مسئله", mkPhrases
     ["solved"; "problem solving"; "problem-solving"; "troubleshooting"; "debugged"; "optimized"; "improved"; "root cause"; "resolved"]
     ["حل مسئله"; "رفع مشکل"; "عیب‌یابی"; "بهینه‌سازی"; "بهبود"; "ریشه‌یابی"; "حل کردم"]));
   ("adaptability", ("انعطاف‌پذیری", mkPhrases
     ["adapted"; "adaptable"; "flexible"; "flexibility"; "fast-paced"; "migrated"; "transitioned"; "agile"]
     ["انعطاف"; "انعطاف‌پذیری"; "سازگاری"; "تغییرات سریع"; "مهاجرت"; "چابک"]));
   ("time_management", ("مدیریت زمان", mkPhrases
     ["deadline"; "deadlines"; "on time"; "prioritized"; "time management"; "scheduled"; "ahead of schedule"]
     ["مدیریت زمان"; "ددلاین"; "مهلت"; "اولویت‌بندی"; "زمان‌بندی"; "به‌موقع"]))].

Definition tone_lexicon : list (string * Phrases) :=
  [("confident", mkPhrases
     ["achieved"; "delivered"; "built"; "launched"; "increased"; "reduced"; "designed"; "architected"; "drove"; "spearheaded"]
     ["موفق شدم"; "طراحی کردم"; "پیاده‌سازی کردم"; "افزایش دادم"; "کاهش دادم"; "راه‌اندازی کردم"; "ساختم"]);
   ("collaborative", mkPhrases
     ["we"; "our"; "team"; "together"; "collaborated"; "with the team"]
     ["ما"; "تیم"; "با همکاری"; "به همراه"; "با هم"]);
   ("individual", mkPhrases
     ["i"; "my"; "myself"; "single-handedly"; "alone"]
     ["من"; "شخصاً"; "به‌تنهایی"]);
   ("hedging", mkPhrases
     ["helped"; "assisted"; "tried"; "familiar with"; "some experience"; "basic knowledge"; "involved in"; "participated"]
     ["کمک کردم"; "آشنایی"; "آشنا به"; "سعی کردم"; "مشارکت داشتم"; "تا حدودی"])].

Definition passive_persian : list string :=
  ["انجام شد"; "انجام شده"; "پیاده‌سازی شد"; "طراحی شد"; "ایجاد شد"; "گردید"; "می‌شد"].

Definition fa_letter (c : string) : bool :=
  match c with String b (String _ EmptyString) => bool_decide (216 ≤ code b ≤ 219)%N | _ => false end.
Definition en_letter (c : string) : bool :=
  match c with String a EmptyString => is_digit a || bool_decide (97 ≤ code a ≤ 122)%N | _ => false end.

(** [sorted(set(phrases), key=len, reverse=True)] *)
Definition longer (a b : string) : Prop := (py_len b ≤ py_len a)%nat.
#[global] Instance longer_dec : RelDecision longer := λ a b, decide (py_len b ≤ py_len a)%nat.

Definition _group_pattern (phrases : list string) (persian : bool) : re :=
  let letter := if persian then fa_letter else en_letter in
  Seq (NotBehind letter) (Seq (Alts (Exact <$> merge_sort longer (remove_dups phrases))) (NotAhead letter)).

(** [pattern.findall(text)]: the matches. *)
Definition findall (r : re) (s : text) : list text :=
  finditer (λ prev s, match_re r prev s (λ _ s', Some (Regex.between s s', s'))) s.

Definition group_hits (p : Phrases) (t : text) : list text :=
  findall (_group_pattern (in_english p) false) t ++ findall (_group_pattern (in_persian p) true) t.

Record SoftSkillItem := mkSoftSkill { ss_key : string; ss_label_fa : string; ss_score : Q; ss_evidence : list string }.

Record ToneProfile := mkTone {
  tone_confident : Q; tone_collaborative : Q; tone_individual : Q; tone_hedging : Q;
  tone_passive_voice_ratio : Q; tone_dominant : string }.

Record SoftSkillsAgentOutput := mkSoftOutput {
  so_soft_skills : list SoftSkillItem; so_tone : ToneProfile; so_word_count : nat; so_confidence : Q }.

Definition _HITS_FOR_FULL_SCORE : Q := 3.
Definition _MAX_EVIDENCE : nat := 3.
Definition _WORDS_FOR_FULL_CONFIDENCE : Q := 300.

Definition q_of (n : nat) : Q := inject_Z (Z.of_nat n).

Definition soft_skill (hits : list text) (key label_fa : string) : option SoftSkillItem :=
  match hits with
  | [] => None
  | _ => Some (mkSoftSkill key label_fa (round2 (qmin 1 (q_of (length hits) / _HITS_FOR_FULL_SCORE)))
                 (take _MAX_EVIDENCE (dict_fromkeys (text_of <$> hits))))
  end.

(** The order of [key=lambda item: (-item.score, item.key)]. *)
Definition soft_before (a b : SoftSkillItem) : Prop :=
  Qle_bool (ss_score a) (ss_score b) = false ∨ Qeq_bool (ss_score a) (ss_score b) = true ∧ text_le (ss_key a) (ss_key b).
#[global] Instance soft_before_dec : RelDecision soft_before.
Proof. intros a b. unfold soft_before. apply _. Defined.

(** [max(tone_rates, key=tone_rates.get)]: the first with the largest rate. *)
Definition dominant_tone (rates : list (string * Q)) : string :=
  match rates with
  | [] => "neutral"
  | first :: rest => (foldl (λ best r, if Qle_bool r.2 best.2 then best else r) first rest).1
  end.

Definition SENTENCE_ENDS : list string := ["."; "!"; "?"; "؟"; LF].

Section soft_skills.
Context `{Unicode}.

Definition passive_english : re :=
  Seq (Boundary word_char) (Seq (Alts (Lit <$> ["was"; "were"; "been"; "being"; "is"; "are"]))
    (Seq some_space (Seq (Plus (Chr word_char)) (Seq (Alts [Lit "ed"; Lit "en"]) (Boundary word_char))))).

Definition is_passive (sentence : text) : bool :=
  found passive_english None sentence || found (_group_pattern passive_persian true) None sentence.

Definition run_soft_skills_agent (raw_text : text) : SoftSkillsAgentOutput :=
  let t := lower_text raw_text in
  let word_count := length (findall (Plus (Chr (λ c, word_char c || bool_decide (c = utf8 0x200c)))) t) in
  let found_groups := (λ e : string * (string * Phrases), (e.1, e.2.1, group_hits e.2.2 t)) <$> soft_skills_lexicon in
  let items := omap (λ '(key, label_fa, hits), soft_skill hits key label_fa) found_groups in
  let total_hits := sum_list (length <$> found_groups.*2) in
  let per_100 := if bool_decide (word_count = O) then 0%Q else (100 / q_of word_count)%Q in
  let tone_rates := (λ e : string * Phrases, (e.1, round2 (q_of (length (group_hits e.2 t)) * per_100))) <$> tone_lexicon in
  let rate (key : string) := default 0%Q (dict_get key tone_rates) in
  let sentences := filter (λ s, empty_text (strip_text s) = false) (re_split (Plus (OneOf SENTENCE_ENDS)) t) in
  let passive := length (filter (λ s, is_passive s = true) sentences) in
  let dominant := if existsb (λ r, negb (Qeq_bool r.2 0)) tone_rates then dominant_tone tone_rates else "neutral" in
  let tone := mkTone (rate "confident") (rate "collaborative") (rate "individual") (rate "hedging")
    (match sentences with [] => 0%Q | _ => round2 (q_of passive / q_of (length sentences)) end) dominant in
  let confidence := (qmin 1 (q_of word_count / _WORDS_FOR_FULL_CONFIDENCE) *
                     ((1 # 2) + (1 # 2) * qmin 1 (q_of total_hits / 5)))%Q in
  mkSoftOutput (merge_sort soft_before items) tone word_count (round2 confidence).
End soft_skills.
