(* ===== verification/Supervisor.v ===== *)
(** The supervisor of the agents ([app/agents/supervisor.py]), the graph that
    runs them ([app/agents/graph.py]) and their contract
    ([app/agents/schema.py]): one analysis out of three outputs, conflicts
    resolved by rule, a matching score between 0 and 100. LangGraph, the
    threads and the clock are what [Threads] says. *)
From S2P Require Import Prelude PyText Unicode Regex Texts Rounding Config Models Codecs Experience SkillGraph Parser Matching Questions Profile Agents.
From stdpp Require Import sorting.
From Stdlib Require Import QArith.
Local Open Scope string_scope.
Local Open Scope Z_scope.
Local Open Scope list_scope.

(** ** The unified analysis *)

Definition SCHEMA_VERSION : string := "agents-v1".

Record ConflictResolution := mkConflict {
  cr_code : string; cr_agents : list string; cr_description : string; cr_resolution : string }.

Record Matching := mkMatching {
  ma_score : option Q; ma_base_score : option Q; ma_components : list (string * Q);
  ma_soft_skill_bonus : Q; ma_validation_penalty : Q; ma_matched_required_skills : list string }.

Record Timing := mkTiming { start_ms : Q; end_ms : Q; duration_ms : Q }.

(** The status of a section: [true] for completed. *)
Record UnifiedAnalysis := mkAnalysis {
  ua_status : string;
  ua_skills_ok : bool; ua_skills : list SkillItem;
  ua_experience_ok : bool; ua_total_experience_years : Z; ua_entries : list ExperienceEntry;
  ua_overlaps : list Overlap; ua_invalid_periods : list nat;
  ua_soft_ok : bool; ua_soft_skills : list SoftSkillItem; ua_tone : option ToneProfile; ua_confidence : Q;
  ua_conflicts_resolved : list ConflictResolution; ua_flags : list ValidationFlag; ua_matching : Matching;
  ua_errors : list (string * string); ua_timings_ms : list (string * Timing) }.

(** ** The supervisor *)

Definition SKILL_AGENT : string := "skill_extraction".
Definition SOFT_SKILLS_AGENT : string := "culture_fit_soft_skills".
Definition AGENTS : list string := [SKILL_AGENT; EXPERIENCE_AGENT; SOFT_SKILLS_AGENT].

Definition SOFT_SKILL_MAX_BONUS : Q := 5.
Definition VALIDATION_PENALTY (s : Severity) : Q := match s with high => 6 | medium => 3 | low => 1 end.
Definition VALIDATION_MAX_PENALTY : Q := 15.
Definition _CAPPED_SKILL_CONFIDENCE_FACTOR : Q := 7 # 10.
Definition _LEADERSHIP_MIN_YEARS : Z := 3.

(** What [state.get(name)] holds: nothing, a model, or a failure. *)
Definition Payload (A : Type) : Type := option (A + string).

(** [_failed]: the model, or the words of the failure. *)
Definition _failed {A} (payload : Payload A) (default_error : string) : A + string :=
  match payload with
  | Some (inl output) => inl output
  | Some (inr error) => inr (if nonempty error then error else default_error)
  | None => inr default_error
  end.

Definition completed {A} (output : A + string) : bool := match output with inl _ => true | inr _ => false end.

Record JobContext := mkJobContext {
  jc_title : string; jc_skills_required : option (list string); jc_required_seniority : option string;
  jc_required_education : option string; jc_location : option string; jc_description : option string;
  jc_candidate_location : option string }.

Section supervisor.
Context `{Unicode, FormatG}.

Definition has_lead_title (entries : list ExperienceEntry) : bool :=
  existsb (λ e, let title := chars (default "" (ee_job_title e)) in
    word_in ["lead"; "manager"; "head"; "director"; "cto"; "vp"; "principal"; "supervisor"] title ||
    any_of ["سرپرست"; "مدیر"; "راهبر"] title) entries.

(** Rule R4. *)
Definition note_failure {A} (name : string) (output : A + string)
    (acc : list (string * string) * list ConflictResolution) : list (string * string) * list ConflictResolution :=
  match output with
  | inl _ => acc
  | inr error =>
      let errors := match dict_get name acc.1 with
                    | Some _ => acc.1
                    | None => dict_set name (if nonempty error then error else "failed") acc.1
                    end in
      (errors, acc.2 ++ [mkConflict "agent_failed" [name]
         ("عامل " +:+ name +:+ " خروجی نداد (" +:+ default "" (dict_get name errors) +:+ ").")
         "بخش این عامل «failed» علامت خورد؛ جمع‌بندی و نمره با خروجی بقیه‌ی عامل‌ها انجام شد."])
  end.

(** Rule R1. *)
Definition over_claimed (has_history : bool) (validated_years : Z) (item : SkillItem) : bool :=
  has_history && match si_claimed_years item with Some y => validated_years + _CLAIM_TOLERANCE_YEARS <? y | None => false end.

Definition cap_skill (validated_years : Z) (item : SkillItem) : SkillItem :=
  mkSkillItem (si_name item) (si_core item) (si_category item) (si_evidence_count item) (si_inferred item)
    (round2 (si_confidence item * _CAPPED_SKILL_CONFIDENCE_FACTOR)) (Some validated_years).

Definition skill_conflict (validated_years : Z) (item : SkillItem) : ConflictResolution :=
  mkConflict "skill_years_capped" [SKILL_AGENT; EXPERIENCE_AGENT]
    ("ادعای " +:+ g (default 0 (si_claimed_years item)) +:+ " سال " +:+ si_name item +:+ " در برابر " +:+
     g validated_years +:+ " سال سابقه‌ی تأییدشده.")
    ("سال‌های " +:+ si_name item +:+ " به " +:+ g validated_years +:+ " محدود و اطمینانش ×0.7 شد.").

(** Rule R2. *)
Definition total_conflict (claimed validated_years : Z) : ConflictResolution :=
  mkConflict "claimed_total_overridden" [EXPERIENCE_AGENT]
    ("متن رزومه " +:+ g claimed +:+ " سال سابقه ادعا می‌کند؛ بازه‌های معتبر " +:+ g validated_years +:+ " سال.")
    "سابقه‌ی محاسبه‌شده از بازه‌های تاریخ (پس از ادغام تداخل‌ها) مرجع نمره‌دهی است.".

(** Rule R3. *)
Definition halve (item : SoftSkillItem) : SoftSkillItem :=
  mkSoftSkill (ss_key item) (ss_label_fa item) (round2 (ss_score item / 2)) (ss_evidence item).

Definition leadership_conflict : ConflictResolution :=
  mkConflict "leadership_unsupported" [SOFT_SKILLS_AGENT; EXPERIENCE_AGENT]
    "نشانه‌های «رهبری» در متن، بدون عنوان سرپرستی/مدیریتی و با سابقه‌ی کمتر از ۳ سال."
    "امتیاز مهارت نرم رهبری نصف شد.".

Definition parsed_titles (parsed : option ParsedResumeData) : list string :=
  match parsed with
  | Some p => filter (λ t, nonempty t = true) (omap (λ e, text_of <$> we_job_title e) (work_experience p))
  | None => []
  end.
Definition parsed_degrees (parsed : option ParsedResumeData) : list (option string) :=
  match parsed with Some p => ed_degree <$> education p | None => [] end.

Definition job_side (c : JobContext) : JobSide :=
  mkJobSide (default [] (jc_skills_required c)) (jc_title c) (jc_required_seniority c) (jc_required_education c)
    (jc_location c) (jc_description c).

Definition descending (a b : Q) : Prop := Qle_bool b a = true.
#[global] Instance descending_dec : RelDecision descending := λ a b, decide (Qle_bool b a = true).

Definition q_sum (l : list Q) : Q := foldr Qplus 0%Q l.

Definition soft_bonus (soft_items : list SoftSkillItem) (confidence : Q) : Q :=
  match take 3 (merge_sort descending (ss_score <$> soft_items)) with
  | [] => 0%Q
  | top_scores => (SOFT_SKILL_MAX_BONUS * (q_sum top_scores / q_of (length top_scores)) * qmax (1 # 2) confidence)%Q
  end.

Definition flag_penalty (flags : list ValidationFlag) : Q :=
  qmin VALIDATION_MAX_PENALTY (q_sum ((λ f, VALIDATION_PENALTY (fl_severity f)) <$> flags)).

Definition _matching (skill_items : list SkillItem) (validated_years : Z) (soft_items : list SoftSkillItem)
    (soft_confidence : Q) (flags : list ValidationFlag) (parsed : option ParsedResumeData) (job : option JobContext) : Matching :=
  match job with
  | None => mkMatching None None [] 0 0 []
  | Some c =>
      let base := calculate_matching_score (job_side c)
        (mkCandidateSide (si_name <$> skill_items) (parsed_titles parsed) (inject_Z validated_years)
           (parsed_degrees parsed) (jc_candidate_location c)) in
      let bonus := soft_bonus soft_items soft_confidence in
      let penalty := flag_penalty flags in
      mkMatching (Some (qmax 0 (qmin 100 (round2 (final_score base + bonus - penalty)))))
        (Some (final_score base))
        [("skill_match", skill_match base); ("title_match", title_match base); ("seniority_match", seniority_match base);
         ("education_match", education_match base); ("location_match", location_match base);
         ("secondary_keywords_match", secondary_keywords_match base)]
        (round2 bonus) (round2 penalty) (Matching.matched_required_skills base)
  end.

Definition aggregate (skill_payload : Payload (list SkillItem)) (experience_payload : Payload ExperienceAgentOutput)
    (soft_payload : Payload SoftSkillsAgentOutput) (parsed : option ParsedResumeData) (job : option JobContext)
    (timings : list (string * Timing)) (errors : list (string * string)) : UnifiedAnalysis :=
  let skills := _failed skill_payload "no_output" in
  let experience := _failed experience_payload "no_output" in
  let soft := _failed soft_payload "no_output" in
  let '(errors, failures) :=
    note_failure SOFT_SKILLS_AGENT soft (note_failure EXPERIENCE_AGENT experience (note_failure SKILL_AGENT skills (errors, []))) in
  let validated_years := match experience with inl o => eo_total_experience_years o | inr _ => 0 end in
  let entries := match experience with inl o => eo_entries o | inr _ => [] end in
  let flags := match experience with inl o => eo_flags o | inr _ => [] end in
  let has_history := completed experience && existsb ee_is_valid entries in
  let skill_list := match skills with inl l => l | inr _ => [] end in
  let capped := filter (λ item, over_claimed has_history validated_years item = true) skill_list in
  let skill_items := (λ item, if over_claimed has_history validated_years item then cap_skill validated_years item else item)
                       <$> skill_list in
  let total := match experience with
               | inl o => match eo_claimed_total_years o with
                          | Some y => if has_history && (validated_years + _CLAIM_TOLERANCE_YEARS <? y)
                                      then [total_conflict y validated_years] else []
                          | None => []
                          end
               | inr _ => []
               end in
  let soft_list := match soft with inl o => so_soft_skills o | inr _ => [] end in
  let unsupported (item : SoftSkillItem) := completed experience && bool_decide (ss_key item = "leadership") &&
    negb (has_lead_title entries) && (validated_years <? _LEADERSHIP_MIN_YEARS) in
  let soft_items := (λ item, if unsupported item then halve item else item) <$> soft_list in
  let confidence := match soft with inl o => so_confidence o | inr _ => 0%Q end in
  let failed := filter (λ name, is_Some (dict_get name errors)) AGENTS in
  mkAnalysis
    (match failed with [] => "completed" | _ => if bool_decide (length failed = length AGENTS) then "failed" else "partial" end)
    (completed skills) skill_items
    (completed experience) validated_years entries
    (match experience with inl o => eo_overlaps o | inr _ => [] end)
    (match experience with inl o => eo_invalid_periods o | inr _ => [] end)
    (completed soft) soft_items (match soft with inl o => Some (so_tone o) | inr _ => None end) confidence
    (failures ++ (skill_conflict validated_years <$> capped) ++ total ++
     ((λ _, leadership_conflict) <$> filter (λ item, unsupported item = true) soft_list))
    flags (_matching skill_items validated_years soft_items confidence flags parsed job) errors timings.

(** ** The graph *)

(** How the thread of an agent ends. *)
Inductive AgentEnd := InTime | OutOfTime | Raised (error : string).

Context `{Settings}.

(** [_agent_node]: the payload of the state, and the error. *)
Definition end_error (e : AgentEnd) : option string :=
  match e with
  | InTime => None
  | OutOfTime => Some ("timeout>" +:+ format_g AGENT_TIMEOUT_SECONDS +:+ "s")
  | Raised error => Some error
  end.

Definition agent_node {A} (e : AgentEnd) (output : A) : Payload A :=
  Some (match end_error e with Some error => inr error | None => inl output end).

(** How the threads of the agents end, and the clock. *)
Record Threads := mkThreads { ending : string → AgentEnd; elapsed : string → Q * Q }.

Definition node_errors (threads : Threads) : list (string * string) :=
  omap (λ name, error ← end_error (ending threads name); Some (name, error)) AGENTS.

Definition _timing (threads : Threads) (name : string) : string * Timing :=
  let '(start, stop) := elapsed threads name in (name, mkTiming start stop (round2 (stop - start))).

Context `{DocumentReaders, Ner}.
Context (today_year : Z).

(** [dispatch]: the text, and the structured data unless parsing fails. *)
Definition dispatch (file_bytes filename : string) : exn + text * option ParsedResumeData :=
  match extract_raw_text file_bytes filename with
  | inl e => inl e
  | inr raw_text => inr (raw_text, parse_resume_text raw_text)
  end.

Definition work_row (e : WorkEntry) : WorkExperienceEntry :=
  mkWork (text_of <$> we_company e) (text_of <$> we_job_title e) (text_of <$> we_duration e).

Definition work_rows (parsed : option ParsedResumeData) : list WorkExperienceEntry :=
  match parsed with Some p => work_row <$> work_experience p | None => [] end.

Definition analyse (threads : Threads) (raw_text : text) (parsed : option ParsedResumeData) (job : option JobContext) :
    UnifiedAnalysis :=
  let signals := Some (compute_shared_signals raw_text) in
  aggregate
    (agent_node (ending threads SKILL_AGENT) (run_skill_agent raw_text signals))
    (agent_node (ending threads EXPERIENCE_AGENT) (run_experience_agent today_year raw_text (work_rows parsed) signals))
    (agent_node (ending threads SOFT_SKILLS_AGENT) (run_soft_skills_agent raw_text))
    parsed job
    (_timing threads <$> "supervisor_dispatch" :: AGENTS ++ ["supervisor_aggregate"; "total"])
    (node_errors threads).

Record PipelineResult := mkResult { pr_raw_text : text; pr_parsed_data : option ParsedResumeData; pr_analysis : UnifiedAnalysis }.

Definition run_agent_pipeline (threads : Threads) (file_bytes filename : string) (job : option JobContext) : exn + PipelineResult :=
  match dispatch file_bytes filename with
  | inl e => inl e
  | inr (raw_text, parsed) => inr (mkResult raw_text parsed (analyse threads raw_text parsed job))
  end.
End supervisor.
