(* ===== verification/SupervisorLaws.v ===== *)
(** The supervisor keeps its contract whatever the agents do, and one agent
    that fails costs the resume its own section only. *)
From S2P Require Import Prelude PyText Unicode Regex Texts Rounding Config Models Codecs Experience SkillGraph Parser ParserLaws Matching Questions Profile Agents Supervisor.
From stdpp Require Import sorting.
From Stdlib Require Import QArith Lqa Qminmax.
Local Open Scope string_scope.
Local Open Scope Z_scope.
Local Open Scope list_scope.

#[local] Opaque soft_skills_lexicon tone_lexicon _SKILL_LOOKUP_TABLE passive_persian.

(** ** The contract *)

Definition unit_interval (q : Q) : Prop := (0 <= q <= 1)%Q.

Record skill_item_ok (i : SkillItem) : Prop := {
  sk_confidence : unit_interval (si_confidence i);
  sk_claimed : match si_claimed_years i with Some y => 0 <= y | None => True end;
  sk_inferred : si_inferred i = bool_decide (si_evidence_count i = 0%nat) }.

Record tone_ok (t : ToneProfile) : Prop := {
  tn_rates : Forall (λ q, (0 <= q)%Q) [tone_confident t; tone_collaborative t; tone_individual t; tone_hedging t];
  tn_passive : unit_interval (tone_passive_voice_ratio t) }.

(** The fields of [app/agents/schema.py] with their bounds. *)
Record contract_ok (a : UnifiedAnalysis) : Prop := {
  ct_status : ua_status a ∈ ["completed"; "partial"; "failed"];
  ct_skills : Forall skill_item_ok (ua_skills a);
  ct_years : 0 <= ua_total_experience_years a;
  ct_overlaps : Forall (λ o, 0 < ov_years o) (ua_overlaps a);
  ct_soft : Forall (λ i, unit_interval (ss_score i)) (ua_soft_skills a);
  ct_tone : match ua_tone a with Some t => tone_ok t | None => True end;
  ct_confidence : unit_interval (ua_confidence a);
  ct_score : match ma_score (ua_matching a) with Some s => (0 <= s <= 100)%Q | None => True end;
  ct_penalty : (0 <= ma_validation_penalty (ua_matching a) <= 15)%Q }.

(** ** Numbers *)

Lemma qmin_spec a b : ((qmin a b <= a) ∧ (qmin a b <= b) ∧ (qmin a b = a ∨ qmin a b = b))%Q.
Proof.
  unfold qmin. destruct (Qle_bool a b) eqn:E; [apply Qle_bool_iff in E; split_and!; [lra|lra|auto]|].
  assert (~ (a <= b)%Q) by (rewrite <- Qle_bool_iff; congruence). split_and!; [lra|lra|auto].
Qed.

Lemma qmax_spec a b : ((a <= qmax a b) ∧ (b <= qmax a b) ∧ (qmax a b = a ∨ qmax a b = b))%Q.
Proof.
  unfold qmax. destruct (Qle_bool a b) eqn:E; [apply Qle_bool_iff in E; split_and!; [lra|lra|auto]|].
  assert (~ (a <= b)%Q) by (rewrite <- Qle_bool_iff; congruence). split_and!; [lra|lra|auto].
Qed.

Lemma qmin_bounds lo hi a b : (lo <= a → lo <= b → (a <= hi ∨ b <= hi) → lo <= qmin a b <= hi)%Q.
Proof. intros Ha Hb Hh. destruct (qmin_spec a b) as (H1 & H2 & [E|E]); rewrite E in *; destruct Hh; lra. Qed.

Lemma q_of_nonneg n : (0 <= q_of n)%Q.
Proof. unfold q_of. change 0%Q with (inject_Z 0). rewrite <- Zle_Qle. lia. Qed.

Lemma round2_nonneg q : (0 <= q → 0 <= round2 q)%Q.
Proof. intros Hq%round2_mono. assert (round2 0 == 0)%Q as E by reflexivity. lra. Qed.

Lemma round2_unit q : unit_interval q → unit_interval (round2 q).
Proof.
  intros [H0 H1]. split; [by apply round2_nonneg|]. apply round2_mono in H1. assert (round2 1 == 1)%Q as E by reflexivity. lra.
Qed.

Lemma unit_mult a b : unit_interval a → unit_interval b → unit_interval (a * b)%Q.
Proof. unfold unit_interval. intros. nra. Qed.

Lemma ratio_unit a b : (a ≤ b)%nat → unit_interval (q_of a / q_of b)%Q.
Proof. intros Hab. split; [apply (ratio_nonneg a b)|by apply (ratio_le_1 a b)]. Qed.

Lemma q_sum_nonneg l : Forall (λ q, (0 <= q)%Q) l → (0 <= q_sum l)%Q.
Proof. induction 1; cbn; [lra|]. unfold q_sum in *. lra. Qed.

(** ** The agents *)

Section agents.
Context `{Unicode, FormatG}.

(** *** Claims are plausible *)

Definition plausible (claims : SkillClaims) : Prop := Forall (λ c, 0 < c.2.1 ≤ _MAX_PLAUSIBLE_YEARS) claims.

Lemma dict_set_plausible k c claims : 0 < c.1 ≤ _MAX_PLAUSIBLE_YEARS → plausible claims → plausible (dict_set k c claims).
Proof.
  intros Hc. induction 1 as [|[k' c'] claims Hk Hcs IH]; cbn; [constructor; [done|constructor]|].
  case_bool_decide; by constructor.
Qed.

Lemma record_plausible claims y w e : plausible claims → plausible (record_claim claims y w e).
Proof.
  intros Hc. unfold record_claim. destruct (negb _) eqn:E; [done|]. apply negb_false_iff, andb_true_iff in E as [E1%Z.ltb_lt E2%Z.leb_le].
  generalize (filter (λ skill, found (Lit skill) None w = true) (match_skills (text_of w))). intros l. revert claims Hc.
  induction l as [|s l IH]; intros claims Hc; cbn; [done|]. apply IH.
  destruct (match dict_get s claims with Some c => c.1 <? y | None => true end); [|done].
  apply dict_set_plausible; [done|done].
Qed.

Lemma foldl_plausible {A} (f : SkillClaims → A → SkillClaims) l claims :
  (∀ c x, plausible c → plausible (f c x)) → plausible claims → plausible (foldl f claims l).
Proof. intros Hf. revert claims. induction l as [|x l IH]; intros claims Hc; cbn; [done|]. apply IH. auto. Qed.

Lemma claims_plausible t : plausible (extract_skill_year_claims t).
Proof.
  unfold extract_skill_year_claims. apply foldl_plausible; [intros c [[y w] m]; apply record_plausible|].
  apply foldl_plausible; [intros c [[y w] m]; apply record_plausible|constructor].
Qed.

(** *** Skills *)

Lemma mention_confidence_unit n : unit_interval (mention_confidence n).
Proof.
  unfold mention_confidence. destruct n as [|n]; [split; unfold _INFERRED_CONFIDENCE; lra|].
  pose proof (q_of_nonneg n) as Hn. unfold q_of in Hn. unfold unit_interval, _DIRECT_BASE_CONFIDENCE, _PER_EXTRA_MENTION.
  apply qmin_bounds; [lra|lra|left; lra].
Qed.

Lemma skill_item_ok_of mentions claims name core : plausible claims → skill_item_ok (skill_item mentions claims name core).
Proof.
  intros Hp. unfold skill_item. split; cbn [si_confidence si_claimed_years si_inferred si_evidence_count].
  - apply round2_unit, mention_confidence_unit.
  - destruct (dict_get name claims) as [c|] eqn:E; [|exact I].
    apply dict_get_elem in E. unfold plausible in Hp. rewrite Forall_forall in Hp. apply Hp in E. cbn in E |- *. lia.
  - reflexivity.
Qed.

Lemma skills_ok t : Forall skill_item_ok (run_skill_agent t (Some (compute_shared_signals t))).
Proof.
  unfold run_skill_agent. apply Forall_fmap, Forall_true. intros name. apply skill_item_ok_of.
  exact (claims_plausible t).
Qed.

(** *** Soft skills and tone *)

Lemma soft_output_ok t :
  let o := run_soft_skills_agent t in
  Forall (λ i, unit_interval (ss_score i)) (so_soft_skills o) ∧ tone_ok (so_tone o) ∧ unit_interval (so_confidence o).
Proof.
  intros o. unfold o, run_soft_skills_agent. clear o. cbn [so_soft_skills so_tone so_confidence].
  set (t' := lower_text t). split_and!.
  - rewrite merge_sort_Permutation. apply Forall_forall. intros i Hi. apply list_elem_of_omap in Hi as ([[k lbl] hits] & _ & Hi).
    destruct hits as [|h hits]; [done|]. injection Hi as <-. cbn. apply round2_unit.
    unfold _HITS_FOR_FULL_SCORE. pose proof (q_of_nonneg (S (length hits))) as Hn. apply qmin_bounds; [lra| |left; lra].
    apply Qle_shift_div_l; lra.
  - assert (∀ w key, (0 <= default 0%Q (dict_get key ((λ e : string * Phrases, (e.1, round2 (q_of (length (group_hits e.2 t')) *
      (if bool_decide (w = O) then 0%Q else (100 / q_of w)%Q)))) <$> tone_lexicon)))%Q) as Hrate.
    { intros w key. destruct (dict_get key _) as [q|] eqn:E; cbn; [|lra].
      apply dict_get_elem, list_elem_of_fmap in E as (e & [= _ ->] & _). apply round2_nonneg.
      pose proof (q_of_nonneg (length (group_hits e.2 t'))). apply Qmult_le_0_compat; [done|]. case_bool_decide; [lra|].
      apply Qmult_le_0_compat; [lra|]. apply Qinv_le_0_compat, q_of_nonneg. }
    split; [repeat constructor; apply Hrate|]. cbn [tone_passive_voice_ratio]. case_match eqn:Es; [split; lra|]. rewrite <- Es.
    apply round2_unit, ratio_unit, length_filter.
  - apply round2_unit, unit_mult.
    + unfold _WORDS_FOR_FULL_CONFIDENCE. apply qmin_bounds; [lra| |left; lra]. apply Qle_shift_div_l; [lra|].
      pose proof (q_of_nonneg (length (findall (Plus (Chr (λ c, word_char c || bool_decide (c = utf8 0x200c)))) t'))). lra.
    + set (h := (q_of _ / 5)%Q). assert (0 <= h)%Q as Hh by (apply Qle_shift_div_l; [lra|]; rewrite Qmult_0_l; apply q_of_nonneg).
      assert (unit_interval (qmin 1 h)) as [? ?] by (apply qmin_bounds; [lra|lra|left; lra]). split; lra.
Qed.

(** *** The work history *)

(** Until 2121 no Persian year is above the threshold that separates the
    calendars. *)
Context (today_year : Z) (Htoday : today_year < 2121).

Notation history ws := (imap agent_entry (analyze_work_experience today_year ws).2).

Lemma span_interval n a : span_of (agent_entry n a) = p ← interval_of a; s ← _gregorian (Some p.1); t ← _gregorian (Some p.2); Some (s, t).
Proof.
  unfold span_of, interval_of, agent_entry. cbn [ee_is_valid ee_start_year_gregorian ee_end_year_gregorian].
  destruct (is_valid a); [|done]. by destruct (an_start_year a), (an_end_year a).
Qed.

Lemma spans_ordered ws e p : e ∈ history ws → span_of e = Some p → p.1 <= p.2.
Proof.
  intros (n & a & -> & Ha)%elem_of_lookup_imap Hs. rewrite span_interval in Hs. cbn in Ha.
  apply list_elem_of_lookup_2, list_elem_of_fmap in Ha as (w & -> & _).
  destruct (interval_of _) as [[s t]|] eqn:Ei; [|done]. apply interval_of_valid in Ei as (Hi & _ & _).
  unfold _gregorian, _current_year_for_calendar, _SHAMSI_YEAR_THRESHOLD, _SHAMSI_TO_GREGORIAN_OFFSET in *. cbn in Hs, Hi.
  injection Hs as <-. cbn [fst snd]. destruct (Z.ltb_spec s 1500), (Z.ltb_spec t 1500); cbn in *; lia.
Qed.

(** The valid entries with their spans, as the agent lists them. *)
Definition numbered (e : ExperienceEntry) : option (nat * (Z * Z)) := p ← span_of e; Some (ee_index e, p).

Lemma elem_of_numbered (es : list ExperienceEntry) i p : (i, p) ∈ omap numbered es ↔ ∃ e, e ∈ es ∧ ee_index e = i ∧ span_of e = Some p.
Proof.
  rewrite list_elem_of_omap. unfold numbered. split.
  - intros (e & He & (q & Hq & [= <- <-])%bind_Some). eauto.
  - intros (e & He & <- & Hs). exists e. by rewrite Hs.
Qed.

(** Of a list in the order of the numbers: the overlap of any two. *)
Lemma overlaps_spec (valid : list (nat * (Z * Z))) o :
  StronglySorted (λ a b, a.1 < b.1)%nat valid →
  o ∈ overlaps_of valid ↔ ∃ a b, a ∈ valid ∧ b ∈ valid ∧ (a.1 < b.1)%nat ∧ overlap_of a b = Some o.
Proof.
  induction 1 as [|x valid Hs IH Hx]; cbn [overlaps_of].
  - rewrite elem_of_nil. split; [done|]. by intros (a & b & Ha%elem_of_nil & _).
  - rewrite elem_of_app, IH, list_elem_of_omap. rewrite Forall_forall in Hx. setoid_rewrite elem_of_cons. split.
    + intros [(b & Hb & Ho)|(a & b & Ha & Hb & Hab & Ho)]; [exists x, b; auto|exists a, b; auto 6].
    + intros (a & b & [->|Ha] & [->|Hb] & Hab & Ho); [lia|left; eauto|apply Hx in Ha; lia|right; eauto 6].
Qed.

Lemma numbered_sorted l : ∀ n,
  StronglySorted (λ a b, a.1 < b.1)%nat (omap numbered (imap (λ i, agent_entry (n + i)) l)) ∧
  Forall (λ a, (n ≤ a.1)%nat) (omap numbered (imap (λ i, agent_entry (n + i)) l)).
Proof.
  induction l as [|a l IH]; intros n; [split; constructor|]. rewrite imap_cons. cbn [omap list_omap].
  destruct (IH (S n)) as [Hs Hf].
  replace (imap ((λ i, agent_entry (n + i)) ∘ S) l) with (imap (λ i, agent_entry (S n + i)) l)
    by (apply imap_ext; intros; cbn; f_equal; lia).
  assert (Forall (λ a, n ≤ a.1)%nat (omap numbered (imap (λ i, agent_entry (S n + i)) l))) as Hn
    by (eapply Forall_impl; [exact Hf|cbn; lia]).
  destruct (numbered (agent_entry (n + 0) a)) as [q|] eqn:Eq; [|done].
  apply bind_Some in Eq as (p & _ & [= <-]). rewrite Nat.add_0_r. split.
  - constructor; [done|]. eapply Forall_impl; [exact Hf|cbn; lia].
  - by constructor.
Qed.

Lemma overlap_pos a b o : overlap_of a b = Some o → 0 < ov_years o.
Proof. unfold overlap_of. destruct (Z.ltb_spec 0 (Z.min a.2.2 b.2.2 - Z.max a.2.1 b.2.1)); [|done]. by intros [= <-]. Qed.

Lemma overlaps_pos valid : Forall (λ o, 0 < ov_years o) (overlaps_of valid).
Proof.
  induction valid as [|x valid IH]; cbn [overlaps_of]; [constructor|]. apply Forall_app. split; [|done].
  apply Forall_forall. intros o (b & _ & Ho)%list_elem_of_omap. by eapply overlap_pos.
Qed.

Lemma total_is_union (es : list ExperienceEntry) : (∀ e p, e ∈ es → span_of e = Some p → p.1 <= p.2) →
  _merge_intervals_and_sum_years (omap numbered es).*2 = Z.of_nat (size (years (omap numbered es).*2)).
Proof.
  intros Hes. apply merge_is_union. intros p ((i, q) & -> & Hq)%list_elem_of_fmap.
  apply elem_of_numbered in Hq as (e & He & _ & Hs). by eapply Hes.
Qed.

(** *** The most jobs at one time *)

Lemma foldr_min_le (l : list Z) n x : x ∈ n :: l → foldr Z.min n l <= x.
Proof.
  induction l as [|y l IH]; cbn; [intros ->%list_elem_of_singleton; lia|].
  intros [->|[->|Hx]%elem_of_cons]%elem_of_cons; [pose proof (IH ltac:(left)); lia|lia|].
  pose proof (IH ltac:(by right)). lia.
Qed.

Lemma foldr_max_ge (l : list Z) n x : x ∈ n :: l → x <= foldr Z.max n l.
Proof.
  induction l as [|y l IH]; cbn; [intros ->%list_elem_of_singleton; lia|].
  intros [->|[->|Hx]%elem_of_cons]%elem_of_cons; [pose proof (IH ltac:(left)); lia|lia|].
  pose proof (IH ltac:(by right)). lia.
Qed.

Lemma foldr_max_spec (l : list nat) n : (n < foldr Nat.max O l)%nat ↔ ∃ x, x ∈ l ∧ (n < x)%nat.
Proof.
  induction l as [|y l IH]; cbn.
  - split; [lia|]. by intros (x & Hx%elem_of_nil & _).
  - setoid_rewrite elem_of_cons. split.
    + intros Hn. destruct (decide (n < y)%nat); [by exists y; auto|].
      destruct (proj1 IH ltac:(lia)) as (x & Hx & Hlt). exists x. auto.
    + intros (x & [->|Hx] & Hlt); [lia|]. pose proof (proj2 IH ltac:(eauto)). lia.
Qed.

(** More than [n] jobs at one time: a year more than [n] of the spans cover. *)
Lemma peak_spec spans n : (n < peak_of spans)%nat ↔ ∃ year, (n < jobs_in spans year)%nat.
Proof.
  unfold peak_of. destruct spans as [|p spans].
  - split; [lia|]. intros [year Hy]. unfold jobs_in in Hy. cbn in Hy. lia.
  - rewrite foldr_max_spec. split.
    + intros (x & (y & -> & _)%list_elem_of_fmap & Hx). eauto.
    + intros [y Hy]. exists (jobs_in (p :: spans) y). split; [|done]. apply list_elem_of_fmap. exists y. split; [done|].
      assert (∃ q, q ∈ p :: spans ∧ q.1 <= y < q.2) as (q & Hq & Hc).
      { unfold jobs_in in Hy. destruct (filter (λ p0, p0.1 <= y < p0.2) (p :: spans)) as [|q l] eqn:E; [cbn in Hy; lia|].
        assert (q ∈ filter (λ p0, p0.1 <= y < p0.2) (p :: spans)) as [Hc Hq]%list_elem_of_filter by (rewrite E; left). eauto. }
      apply elem_of_seqZ.
      pose proof (foldr_min_le spans.*1 p.1 q.1 ltac:(apply (list_elem_of_fmap_2 fst) in Hq; done)).
      pose proof (foldr_max_ge spans.*2 p.2 q.2 ltac:(apply (list_elem_of_fmap_2 snd) in Hq; done)). lia.
Qed.

(** The Gregorian years of a job that counts: from which to which. *)
Definition worked (w : WorkExperienceEntry) : option (Z * Z) :=
  p ← interval_of (analyze_entry today_year w); Some (calendar_year p.1, calendar_year p.2).

Definition works_in (w : WorkExperienceEntry) (y : Z) : Prop :=
  match worked w with Some p => p.1 <= y < p.2 | None => False end.

#[global] Instance works_in_dec w y : Decision (works_in w y).
Proof. unfold works_in. destruct (worked w); apply _. Defined.

(** The years of a career that the title of a job asks for. *)
Definition career_for (title : string) : option Z :=
  (λ p, p.2.1.2) <$> list_find (λ p : (text → bool) * Z * string, p.1.1 (chars title) = true) _SENIORITY_TITLE_MIN_YEARS.

Definition total_claim (raw_text : text) (signals : option Signals) : option (Z * text) :=
  match signals with Some s => claimed_total s | None => extract_claimed_total_years raw_text end.
Definition skill_claims_of (raw_text : text) (signals : option Signals) : SkillClaims :=
  match signals with Some s => skill_year_claims s | None => extract_skill_year_claims raw_text end.

Definition raised (o : ExperienceAgentOutput) (code : string) (severity : Severity) : Prop :=
  ∃ f, f ∈ eo_flags o ∧ fl_code f = code ∧ fl_severity f = severity.

Lemma history_spec ws e : e ∈ history ws ↔ ∃ i w, ws !! i = Some w ∧ e = agent_entry i (analyze_entry today_year w).
Proof.
  rewrite elem_of_lookup_imap. cbn. setoid_rewrite list_lookup_fmap. setoid_rewrite fmap_Some. split.
  - intros (i & a & -> & w & Hw & ->). eauto.
  - intros (i & w & Hw & ->). eauto 6.
Qed.

Lemma an_entry_kept w : an_entry (analyze_entry today_year w) = w.
Proof. unfold analyze_entry. by destruct (_parse_duration _ _) as [[]|]. Qed.

Lemma span_worked i w : span_of (agent_entry i (analyze_entry today_year w)) = worked w.
Proof. rewrite span_interval. unfold worked. by destruct (interval_of _). Qed.

Lemma numbered_history ws i p : (i, p) ∈ omap numbered (history ws) ↔ ∃ w, ws !! i = Some w ∧ worked w = Some p.
Proof.
  rewrite elem_of_numbered. setoid_rewrite history_spec. split.
  - intros (e & (j & w & Hw & ->) & <- & Hs). rewrite span_worked in Hs. eauto.
  - intros (w & Hw & Hp). eexists. rewrite span_worked. eauto 6.
Qed.

Lemma numbered_nonempty ws : omap numbered (history ws) ≠ [] ↔ ∃ w, w ∈ ws ∧ is_Some (worked w).
Proof.
  split.
  - intros Hn. destruct (omap numbered (history ws)) as [|[i p] l] eqn:E; [done|].
    assert ((i, p) ∈ omap numbered (history ws)) as (w & Hw & Hp)%numbered_history by (rewrite E; left).
    exists w. split; [by eapply list_elem_of_lookup_2|eauto].
  - intros (w & [i Hw]%list_elem_of_lookup_1 & p & Hp) E.
    assert ((i, p) ∈ omap numbered (history ws)) as Hin by (apply numbered_history; eauto). rewrite E in Hin. by apply elem_of_nil in Hin.
Qed.

Lemma jobs_worked ws y : jobs_in (omap numbered (history ws)).*2 y = length (filter (λ w, works_in w y) ws).
Proof.
  unfold jobs_in. cbn [analyze_work_experience snd].
  assert (∀ n, length (filter (λ p : Z * Z, p.1 <= y < p.2)
    (omap numbered (imap (λ i, agent_entry (n + i)) (analyze_entry today_year <$> ws))).*2) = length (filter (λ w, works_in w y) ws)) as Hn;
    [|exact (Hn O)].
  induction ws as [|w ws IH]; intros n; [done|]. rewrite fmap_cons, imap_cons. cbn [omap list_omap]. unfold numbered at 1.
  rewrite span_worked. replace (imap ((λ i, agent_entry (n + i)) ∘ S) (analyze_entry today_year <$> ws))
    with (imap (λ i, agent_entry (S n + i)) (analyze_entry today_year <$> ws)) by (apply imap_ext; intros; cbn; f_equal; lia).
  rewrite (filter_cons _ w). destruct (decide (works_in w y)) as [Hw|Hw]; unfold works_in in Hw;
    destruct (worked w) as [p|]; cbn [mbind option_bind]; try done; rewrite ?fmap_cons; cbn [snd].
  - rewrite filter_cons_True by done. cbn [length]. by rewrite <- (IH (S n)).
  - rewrite filter_cons_False by done. by rewrite <- (IH (S n)).
Qed.

Lemma elem_of_concat {A} (x : A) ls : x ∈ concat ls ↔ ∃ l, l ∈ ls ∧ x ∈ l.
Proof. rewrite list_elem_of_In, in_concat. by setoid_rewrite list_elem_of_In. Qed.

Lemma or_iff_cong (A B C D : Prop) : (A ↔ B) → (C ↔ D) → A ∨ C ↔ B ∨ D.
Proof. tauto. Qed.

(** Every flag the agent raises, with the rule that raises it. *)
Lemma flag_cases raw_text ws signals f :
  let o := run_experience_agent today_year raw_text ws signals in
  let total := eo_total_experience_years o in
  let exceeds years := ¬ omap numbered (history ws) = [] ∧ total + 2 < years in
  f ∈ eo_flags o ↔
    (∃ e, e ∈ history ws ∧ ee_is_valid e = false ∧
       f = _flag "invalid_period" low (default "بازه‌ی تاریخ نامعتبر" (ee_flag_reason e)) (ee_duration e)) ∨
    (∃ years evidence, total_claim raw_text signals = Some (years, evidence) ∧ exceeds years ∧
       f = _flag "claimed_years_exceed_history" (claim_severity (years - total))
             ("ادعای " +:+ g years +:+ " سال سابقه، ولی بازه‌های معتبر فقط " +:+ g total +:+ " سال است.") (Some (text_of evidence))) ∨
    (∃ e, e ∈ history ws ∧ is_Some (span_of e) ∧ f ∈ title_flags total e) ∨
    ((2 < peak_of (omap numbered (history ws)).*2)%nat ∧
       f = _flag "concurrent_full_time_roles" medium
             (pretty (peak_of (omap numbered (history ws)).*2) +:+ " شغل هم‌زمان در یک بازه‌ی زمانی ثبت شده است.") None) ∨
    (∃ skill years evidence, dict_get skill (skill_claims_of raw_text signals) = Some (years, evidence) ∧ exceeds years ∧
       f = _flag "skill_years_exceed_career" (claim_severity (years - total))
             ("ادعای " +:+ g years +:+ " سال " +:+ skill +:+ "، بیشتر از کل سابقه‌ی کاری (" +:+ g total +:+ " سال).")
             (Some (text_of evidence))).
Proof.
  intros o total exceeds. unfold o, total, exceeds, run_experience_agent. cbn [eo_flags eo_total_experience_years].
  change (omap (λ e, p ← span_of e; Some (ee_index e, p)) (history ws)) with (omap numbered (history ws)).
  set (n := _merge_intervals_and_sum_years _). repeat rewrite elem_of_app.
  assert (∀ y, negb (bool_decide (omap numbered (history ws) = [])) && (n + _CLAIM_TOLERANCE_YEARS <? y) = true ↔
    ¬ omap numbered (history ws) = [] ∧ n + 2 < y) as He.
  { intros y. rewrite andb_true_iff, negb_true_iff, bool_decide_eq_false, Z.ltb_lt. done. }
  repeat apply or_iff_cong.
  - rewrite list_elem_of_fmap. setoid_rewrite list_elem_of_filter. naive_solver.
  - unfold total_claim. destruct (match signals with Some s => claimed_total s | None => _ end) as [[y ev]|].
    + specialize (He y). destruct (_ && _); [rewrite list_elem_of_singleton|rewrite elem_of_nil]; naive_solver.
    + rewrite elem_of_nil. naive_solver.
  - rewrite elem_of_concat. setoid_rewrite list_elem_of_fmap. setoid_rewrite list_elem_of_filter. naive_solver.
  - unfold _MAX_CONCURRENT_ROLES. destruct (2 <? _)%nat eqn:E; [apply Nat.ltb_lt in E|apply Nat.ltb_ge in E].
    + rewrite list_elem_of_singleton. naive_solver.
    + rewrite elem_of_nil. split; [done|]. intros [? _]. lia.
  - rewrite elem_of_concat. setoid_rewrite list_elem_of_fmap. setoid_rewrite list_elem_of_omap. fold (skill_claims_of raw_text signals). split.
    + intros (l & ([skill [y ev]] & -> & s & Hs & Hc) & Hf). specialize (He y).
      destruct (dict_get s _) as [c|] eqn:Ec; [|done]. injection Hc as <- ->.
      destruct (_ && _); [apply list_elem_of_singleton in Hf|by apply elem_of_nil in Hf]. naive_solver.
    + intros (skill & y & ev & Hc & Hx & ->). apply He in Hx. eexists. split; [exists (skill, (y, ev)); split; [reflexivity|]|].
      * exists skill. rewrite Hc. split; [|done]. apply elem_of_sorted_set, list_elem_of_fmap. exists (skill, (y, ev)).
        split; [done|by apply dict_get_elem].
      * rewrite Hx. by left.
Qed.

Lemma title_flag_spec total e f :
  f ∈ title_flags total e → fl_code f = "seniority_title_vs_tenure" ∧ fl_severity f = medium.
Proof.
  unfold title_flags. destruct (list_find _ _) as [[k [[pt my] lv]]|]; [|by intros ?%elem_of_nil].
  destruct (_ <? _); [|by intros ?%elem_of_nil]. by intros ->%list_elem_of_singleton.
Qed.

Lemma title_flagged total e :
  (∃ f, f ∈ title_flags total e) ↔ ∃ n, career_for (default "" (ee_job_title e)) = Some n ∧ total < n.
Proof.
  unfold title_flags, career_for. destruct (list_find _ _) as [[k [[pt my] lv]]|]; cbn.
  - destruct (Z.ltb_spec total my).
    + split; [eauto|]. intros _. eexists. by left.
    + split; [by intros (? & ?%elem_of_nil)|]. intros (? & [= ->] & ?). lia.
  - split; [by intros (? & ?%elem_of_nil)|]. by intros (? & ? & _).
Qed.

Ltac flag_case H :=
  destruct H as (f & Hf & Hcode & <-); apply flag_cases in Hf; cbv zeta in Hf;
  destruct Hf as [(e & He & Hv & ->)|[(y & ev & Hc & Hx & ->)|[(e & He & Hs & Hf)|[(Hp & ->)|(skill & y & ev & Hc & Hx & ->)]]]];
  try (apply title_flag_spec in Hf as [Hf _]; congruence); try (cbn in Hcode; discriminate Hcode).

Lemma overlaps_worked raw_text ws signals i j n :
  mkOverlap (i, j) n ∈ eo_overlaps (run_experience_agent today_year raw_text ws signals) ↔
  (i < j)%nat ∧ 0 < n ∧ ∃ a b p q,
    ws !! i = Some a ∧ ws !! j = Some b ∧ worked a = Some p ∧ worked b = Some q ∧ n = Z.min p.2 q.2 - Z.max p.1 q.1.
Proof.
  unfold run_experience_agent. cbn [eo_overlaps]. change (omap _ (history ws)) with (omap numbered (history ws)).
  rewrite overlaps_spec by apply (numbered_sorted _ 0). unfold overlap_of. split.
  - intros ([i' p] & [j' q] & Ha & Hb & Hij & Ho). cbn [fst snd] in *. destruct (Z.ltb_spec 0 (Z.min p.2 q.2 - Z.max p.1 q.1)); [|done].
    injection Ho as <- <- <-. apply numbered_history in Ha as (a & Ha & Hp), Hb as (b & Hb & Hq).
    split; [done|]. split; [done|]. exists a, b, p, q. done.
  - intros (Hij & Hn & a & b & p & q & Ha & Hb & Hp & Hq & ->). exists (i, p), (j, q).
    rewrite !numbered_history. split_and!; [eauto|eauto|done|]. cbn [fst snd]. by rewrite (proj2 (Z.ltb_lt _ _) Hn).
Qed.

(** C36. The work history an analysis reports is validated on one calendar. A
    job counts from the Gregorian year its start stands for to that of its end,
    621 later when the number is Persian (less than 1500). The total is the
    number of distinct years in which some job counts, so that a year two jobs
    share, in whichever calendars, counts once; the overlaps are exactly the
    pairs of jobs that share years, with how many; the invalid periods are the
    jobs that do not count. The flags are raised exactly when their rule says,
    with its severity: a job that does not count; a claim of a total, or of a
    skill, more than two years above the total (high from five years on); a
    senior title on less than the years it asks for; and more than two jobs in
    some year. *)
Theorem work_history_is_validated (raw_text : text) (ws : list WorkExperienceEntry) (signals : option Signals) :
  let o := run_experience_agent today_year raw_text ws signals in
  let total := eo_total_experience_years o in
  let exceeded years severity :=
    (∃ w, w ∈ ws ∧ is_Some (worked w)) ∧ total + 2 < years ∧ severity = (if 5 <=? years - total then high else medium) in
  (∃ Y : gset Z, total = Z.of_nat (size Y) ∧ ∀ y, y ∈ Y ↔ ∃ w, w ∈ ws ∧ works_in w y) ∧
  (∀ i j n, mkOverlap (i, j) n ∈ eo_overlaps o ↔ (i < j)%nat ∧ 0 < n ∧ ∃ a b p q,
     ws !! i = Some a ∧ ws !! j = Some b ∧ worked a = Some p ∧ worked b = Some q ∧ n = Z.min p.2 q.2 - Z.max p.1 q.1) ∧
  (∀ i, i ∈ eo_invalid_periods o ↔ ∃ w, ws !! i = Some w ∧ is_valid (analyze_entry today_year w) = false) ∧
  (∀ s, raised o "invalid_period" s ↔ s = low ∧ ∃ w, w ∈ ws ∧ is_valid (analyze_entry today_year w) = false) ∧
  (∀ s, raised o "claimed_years_exceed_history" s ↔ ∃ years evidence,
     total_claim raw_text signals = Some (years, evidence) ∧ exceeded years s) ∧
  (∀ s, raised o "seniority_title_vs_tenure" s ↔ s = medium ∧ ∃ w n,
     w ∈ ws ∧ is_Some (worked w) ∧ career_for (default "" (work_job_title w)) = Some n ∧ total < n) ∧
  (∀ s, raised o "concurrent_full_time_roles" s ↔
     s = medium ∧ ∃ y, (2 < length (filter (λ w, works_in w y) ws))%nat) ∧
  (∀ s, raised o "skill_years_exceed_career" s ↔ ∃ skill years evidence,
     dict_get skill (skill_claims_of raw_text signals) = Some (years, evidence) ∧ exceeded years s).
Proof.
  intros o total exceeded. pose proof (λ f, flag_cases raw_text ws signals f) as Hflags. cbv zeta in Hflags. fold o total in Hflags.
  assert (∀ y s, exceeded y s ↔ (¬ omap numbered (history ws) = [] ∧ total + 2 < y) ∧ s = claim_severity (y - total)) as Hex.
  { intros y s. unfold exceeded. rewrite <- numbered_nonempty. tauto. }
  split_and!.
  - exists (years (omap numbered (history ws)).*2). split; [apply total_is_union; intros e p; apply spans_ordered|].
    intros y. rewrite elem_of_years. unfold works_in. split.
    + intros (p & ((i, q) & -> & (w & Hw & Hp)%numbered_history)%list_elem_of_fmap & Hy). exists w. rewrite Hp.
      split; [by eapply list_elem_of_lookup_2|done].
    + intros (w & [i Hw]%list_elem_of_lookup_1 & Hy). destruct (worked w) as [p|] eqn:Ep; [|done]. exists p. split; [|done].
      apply list_elem_of_fmap. exists (i, p). split; [done|]. apply numbered_history. eauto.
  - apply overlaps_worked.
  - intros i. unfold o, run_experience_agent. cbn [eo_invalid_periods]. rewrite list_elem_of_fmap.
    setoid_rewrite list_elem_of_filter. setoid_rewrite history_spec. split.
    + intros (e & -> & Hv & j & w & Hw & ->). exists w. done.
    + intros (w & Hw & Hv). eexists. split; [|split; [|exists i, w; split; [exact Hw|reflexivity]]]; done.
  - intros s. split.
    + intros Hr. flag_case Hr. apply history_spec in He as (i & w & Hw & ->). split; [done|]. exists w.
      split; [by eapply list_elem_of_lookup_2|done].
    + intros (-> & w & [i Hw]%list_elem_of_lookup_1 & Hv). eexists. rewrite Hflags. split; [left|].
      * eexists. rewrite history_spec. eauto 6.
      * done.
  - intros s. split.
    + intros Hr. flag_case Hr. exists y, ev. by rewrite Hex.
    + intros (y & ev & Hc & [Hx ->]%Hex). eexists. rewrite Hflags. split; [right; left; eauto 6|done].
  - intros s. split.
    + intros Hr. flag_case Hr. apply title_flag_spec in Hf as Hs'. split; [apply Hs'|].
      destruct (proj1 (title_flagged total e) ltac:(eauto)) as (n & Hn & Hlt).
      apply history_spec in He as (i & w & Hw & ->). rewrite span_worked in Hs. cbn in Hn. rewrite an_entry_kept in Hn.
      exists w, n. split; [by eapply list_elem_of_lookup_2|done].
    + intros (-> & w & n & [i Hw]%list_elem_of_lookup_1 & Hv & Hn & Hlt).
      destruct (proj2 (title_flagged total (agent_entry i (analyze_entry today_year w)))) as [f Hf].
      { exists n. cbn [ee_job_title agent_entry]. by rewrite an_entry_kept. }
      exists f. split; [|by eapply title_flag_spec]. rewrite Hflags. right; right; left. eexists.
      rewrite history_spec, span_worked. eauto 6.
  - intros s. setoid_rewrite <- jobs_worked. rewrite <- (peak_spec (omap numbered (history ws)).*2 2). split.
    + intros Hr. by flag_case Hr.
    + intros (-> & Hp). eexists. rewrite Hflags. split; [right; right; right; left; eauto|done].
  - intros s. split.
    + intros Hr. flag_case Hr. exists skill, y, ev. by rewrite Hex.
    + intros (skill & y & ev & Hc & [Hx ->]%Hex). eexists. rewrite Hflags. split; [right; right; right; right; eauto 8|done].
Qed.
End agents.

(** ** The supervisor *)

Section supervisor.
Context `{Unicode, FormatG}.

Lemma score_in_bounds skills years soft c flags parsed job :
  let m := _matching skills years soft c flags parsed job in
  match ma_score m with Some s => (0 <= s <= 100)%Q | None => True end ∧ (0 <= ma_validation_penalty m <= 15)%Q.
Proof.
  unfold _matching. destruct job as [j|]; [|split; [exact I|cbn; lra]]. cbn [ma_score ma_validation_penalty]. split.
  - set (x := qmin 100 _). destruct (qmax_spec 0 x) as (H1' & H2' & [E|E]); rewrite E in *; [lra|].
    destruct (qmin_spec 100 (round2 (final_score (calculate_matching_score (job_side j)
      (mkCandidateSide (si_name <$> skills) (parsed_titles parsed) (inject_Z years) (parsed_degrees parsed) (jc_candidate_location j))) +
      soft_bonus soft c - flag_penalty flags))) as (H3' & _ & _). unfold x in *. lra.
  - unfold flag_penalty, VALIDATION_MAX_PENALTY.
    assert (0 <= q_sum ((λ f, VALIDATION_PENALTY (fl_severity f)) <$> flags))%Q as Hs.
    { apply q_sum_nonneg, Forall_fmap, Forall_true. intros f. cbn. destruct (fl_severity f); cbn; lra. }
    destruct (qmin_bounds 0 15 15 (q_sum ((λ f, VALIDATION_PENALTY (fl_severity f)) <$> flags)) ltac:(lra) Hs ltac:(left; lra)) as [H1' H2'].
    split; [by apply round2_nonneg|]. apply round2_mono in H2'. assert (round2 15 == 15)%Q as E by reflexivity. lra.
Qed.

Definition payload_ok {A} (ok : A → Prop) (p : Payload A) : Prop := match p with Some (inl x) => ok x | _ => True end.

Lemma cap_skill_ok years i : 0 <= years → skill_item_ok i → skill_item_ok (cap_skill years i).
Proof.
  intros Hy []. split; cbn; [|done|done]. apply round2_unit, unit_mult; [done|].
  unfold _CAPPED_SKILL_CONFIDENCE_FACTOR. split; lra.
Qed.

Lemma halve_unit i : unit_interval (ss_score i) → unit_interval (ss_score (halve i)).
Proof.
  intros Hi. cbn. apply round2_unit. apply (unit_mult _ (/ 2)); [done|]. split; vm_compute; discriminate.
Qed.

Lemma aggregate_contract skill experience soft parsed job timings errors :
  payload_ok (Forall skill_item_ok) skill →
  payload_ok (λ o, 0 <= eo_total_experience_years o ∧ Forall (λ v, 0 < ov_years v) (eo_overlaps o)) experience →
  payload_ok (λ o, Forall (λ i, unit_interval (ss_score i)) (so_soft_skills o) ∧ tone_ok (so_tone o) ∧
                   unit_interval (so_confidence o)) soft →
  contract_ok (aggregate skill experience soft parsed job timings errors).
Proof.
  intros Hs He Ho. unfold aggregate.
  destruct (note_failure SOFT_SKILLS_AGENT _ _) as [errs failures].
  assert (0 <= match _failed experience "no_output" with inl o => eo_total_experience_years o | inr _ => 0 end) as Hy
    by (destruct experience as [[o|e]|]; cbn in *; [apply He|done|done]).
  assert (unit_interval 0) as H01 by (split; lra).
  split; cbn [ua_status ua_skills ua_total_experience_years ua_overlaps ua_soft_skills ua_tone ua_confidence ua_matching].
  - repeat case_match; set_solver.
  - apply Forall_fmap. apply (Forall_impl skill_item_ok); [destruct skill as [[l|e]|]; cbn in *; [done|constructor|constructor]|].
    intros i Hi. cbn. destruct (over_claimed _ _ i); [by apply cap_skill_ok|done].
  - exact Hy.
  - destruct experience as [[o|e]|]; cbn in *; [apply He|constructor|constructor].
  - apply Forall_fmap. apply (Forall_impl (λ i, unit_interval (ss_score i)));
      [destruct soft as [[o|e]|]; cbn in *; [apply Ho|constructor|constructor]|].
    intros i Hi. cbn. destruct (_ && _); [by apply halve_unit|done].
  - destruct soft as [[o|e]|]; cbn in *; [apply Ho|done|done].
  - destruct soft as [[o|e]|]; cbn in *; [apply Ho|done|done].
  - apply score_in_bounds.
  - apply score_in_bounds.
Qed.

Context `{Settings, DocumentReaders, Ner}.

Lemma experience_output_ok today t ws signals :
  today < 2121 →
  let o := run_experience_agent today t ws signals in
  0 <= eo_total_experience_years o ∧ Forall (λ v, 0 < ov_years v) (eo_overlaps o).
Proof.
  intros Ht. unfold run_experience_agent. cbn [eo_total_experience_years eo_overlaps]. split; [|apply overlaps_pos].
  change (omap _ (imap _ _)) with (omap numbered (imap agent_entry (analyze_work_experience today ws).2)).
  rewrite total_is_union; [lia|]. intros e p. by eapply spans_ordered.
Qed.

(** C33. Whatever the resume says and however the agents end - in time, out of
    time, by an error - the analysis the supervisor returns has the types and
    bounds its schema declares: confidences, soft skill scores and the share
    of passive sentences lie between 0 and 1, claimed and worked years are not
    negative, overlaps are positive, rates are not negative, the penalty is at
    most 15 and the matching score a number from 0 to 100. *)
Theorem analysis_meets_contract (today : Z) (threads : Threads) (raw_text : text)
    (parsed : option ParsedResumeData) (job : option JobContext) :
  today < 2121 → contract_ok (analyse today threads raw_text parsed job).
Proof.
  intros Ht. unfold analyse. apply aggregate_contract; unfold agent_node; destruct (end_error _); cbn [payload_ok]; try exact I.
  - apply skills_ok.
  - by apply experience_output_ok.
  - apply soft_output_ok.
Qed.

(** *** Failures *)

Definition in_time (threads : Threads) (name : string) : Prop := end_error (ending threads name) = None.

Lemma note_known {A} name (o : A + string) acc :
  completed o = true ∨ is_Some (dict_get name acc.1) → (note_failure name o acc).1 = acc.1.
Proof. destruct acc as [errors cs], o; cbn; [done|]. intros [|[e E]]; [done|]. by rewrite E. Qed.

Lemma node_errors_get threads name :
  name ∈ AGENTS → dict_get name (node_errors threads) = end_error (ending threads name).
Proof.
  unfold AGENTS. rewrite !elem_of_cons, elem_of_nil. intros Hn.
  unfold node_errors, AGENTS. cbn [omap list_omap].
  destruct (end_error (ending threads SKILL_AGENT)) eqn:E1, (end_error (ending threads EXPERIENCE_AGENT)) eqn:E2,
    (end_error (ending threads SOFT_SKILLS_AGENT)) eqn:E3; cbn [mbind option_bind];
    destruct Hn as [->|[->|[->|[]]]]; rewrite ?E1, ?E2, ?E3; vm_compute; reflexivity.
Qed.

Lemma noted_errors {A B C} threads (x : A) (y : B) (z : C) :
  let p := note_failure SOFT_SKILLS_AGENT (_failed (agent_node (ending threads SOFT_SKILLS_AGENT) z) "no_output")
    (note_failure EXPERIENCE_AGENT (_failed (agent_node (ending threads EXPERIENCE_AGENT) y) "no_output")
      (note_failure SKILL_AGENT (_failed (agent_node (ending threads SKILL_AGENT) x) "no_output") (node_errors threads, []))) in
  p.1 = node_errors threads.
Proof.
  assert (∀ T name (v : T), name ∈ AGENTS → completed (_failed (agent_node (ending threads name) v) "no_output") = true ∨
    is_Some (dict_get name (node_errors threads))) as Hk.
  { intros T name v Hn. rewrite node_errors_get by done. unfold agent_node. destruct (end_error _); [right; eauto|by left]. }
  assert (SKILL_AGENT ∈ AGENTS ∧ EXPERIENCE_AGENT ∈ AGENTS ∧ SOFT_SKILLS_AGENT ∈ AGENTS) as (K1 & K2 & K3) by (vm_compute; set_solver).
  cbv zeta. assert (∀ T name (v : T) acc, name ∈ AGENTS → acc.1 = node_errors threads →
    (note_failure name (_failed (agent_node (ending threads name) v) "no_output") acc).1 = node_errors threads) as Hs.
  { intros T name v acc Hn E. rewrite note_known; [done|]. rewrite E. by apply Hk. }
  by repeat apply Hs.
Qed.

Lemma status_spec (P : string → Prop) `{!∀ n, Decision (P n)} :
  let failed := filter P AGENTS in
  let status := match failed with
                | [] => "completed"
                | _ => if bool_decide (length failed = length AGENTS) then "failed" else "partial"
                end in
  (status = "completed" ↔ Forall (λ n, ¬ P n) AGENTS) ∧ (status = "failed" ↔ Forall P AGENTS).
Proof.
  unfold AGENTS. rewrite !filter_cons, filter_nil, !Forall_cons, !Forall_nil.
  destruct (decide (P SKILL_AGENT)), (decide (P EXPERIENCE_AGENT)), (decide (P SOFT_SKILLS_AGENT)); cbn;
    repeat case_bool_decide; try lia; split; split; try done; tauto.
Qed.

(** Each item reported is the one found, changed by a correction exactly where
    it is due. *)
Definition corrected {A} (due : A → Prop) (correction : A → A) (found reported : list A) : Prop :=
  Forall2 (λ x y, (due x → y = correction x) ∧ (¬ due x → y = x)) found reported.

Lemma corrected_fmap {A} (due : A → Prop) (test : A → bool) (correction : A → A) l :
  (∀ x, test x = true ↔ due x) → corrected due correction l ((λ x, if test x then correction x else x) <$> l).
Proof.
  intros Hd. unfold corrected. rewrite Forall2_fmap_r. apply Forall_Forall2_diag, Forall_true. intros x.
  specialize (Hd x). unfold compose. destruct (test x); split; intros Hx; try reflexivity.
  - by destruct (Hx (proj1 Hd eq_refl)).
  - by apply (proj2 Hd) in Hx.
Qed.

Lemma corrected_none {A} (due : A → Prop) (correction : A → A) l :
  (∀ x, ¬ due x) → corrected due correction l ((λ x, x) <$> l).
Proof.
  intros Hd. unfold corrected. rewrite Forall2_fmap_r. apply Forall_Forall2_diag, Forall_true. intros x.
  unfold compose. split; [by intros ?%Hd|done].
Qed.

Lemma over_claimed_spec entries total i :
  over_claimed (true && existsb ee_is_valid entries) total i = true ↔
  None = @None string ∧ (∃ e, e ∈ entries ∧ ee_is_valid e = true) ∧ ∃ y, si_claimed_years i = Some y ∧ total + 2 < y.
Proof.
  unfold over_claimed, _CLAIM_TOLERANCE_YEARS. rewrite !andb_true_iff, existsb_exists. setoid_rewrite list_elem_of_In.
  destruct (si_claimed_years i) as [y|]; [rewrite Z.ltb_lt|]; naive_solver.
Qed.

(** C37. An agent that runs out of time or raises costs the resume its own
    section and nothing else: the analysis is completed when every agent ends
    in time, failed when none does and partial otherwise; the section of an
    agent that failed is marked and empty and the error is recorded; the
    sections of the others say exactly what those agents found. Only a work
    history whose agent has ended in time corrects the others: a skill claimed
    for more than two years above the total of a history with valid jobs is cut
    to that total and trusted less, and leadership without a leading title in
    under three years is worth half. *)
Theorem failed_agents_cost_their_section (today : Z) (threads : Threads) (raw_text : text)
    (parsed : option ParsedResumeData) (job : option JobContext) :
  let a := analyse today threads raw_text parsed job in
  let signals := Some (compute_shared_signals raw_text) in
  let history := run_experience_agent today raw_text (work_rows parsed) signals in
  let total := eo_total_experience_years history in
  let manner := run_soft_skills_agent raw_text in
  (ua_status a = "completed" ↔ Forall (in_time threads) AGENTS) ∧
  (ua_status a = "failed" ↔ Forall (λ name, ¬ in_time threads name) AGENTS) ∧
  (∀ name, name ∈ AGENTS → dict_get name (ua_errors a) = end_error (ending threads name)) ∧
  (if ua_skills_ok a
   then in_time threads SKILL_AGENT ∧
        corrected
          (λ i, in_time threads EXPERIENCE_AGENT ∧ (∃ e, e ∈ eo_entries history ∧ ee_is_valid e = true) ∧
                ∃ y, si_claimed_years i = Some y ∧ total + 2 < y)
          (λ i, mkSkillItem (si_name i) (si_core i) (si_category i) (si_evidence_count i) (si_inferred i)
                  (round2 (si_confidence i * (7 # 10))) (Some total))
          (run_skill_agent raw_text signals) (ua_skills a)
   else ¬ in_time threads SKILL_AGENT ∧ ua_skills a = []) ∧
  (if ua_experience_ok a
   then in_time threads EXPERIENCE_AGENT ∧ ua_total_experience_years a = total ∧
        ua_entries a = eo_entries history ∧ ua_overlaps a = eo_overlaps history ∧
        ua_invalid_periods a = eo_invalid_periods history ∧ ua_flags a = eo_flags history
   else ¬ in_time threads EXPERIENCE_AGENT ∧ ua_total_experience_years a = 0 ∧
        ua_entries a = [] ∧ ua_overlaps a = [] ∧ ua_invalid_periods a = [] ∧ ua_flags a = []) ∧
  (if ua_soft_ok a
   then in_time threads SOFT_SKILLS_AGENT ∧
        corrected
          (λ i, in_time threads EXPERIENCE_AGENT ∧ ss_key i = "leadership" ∧ has_lead_title (eo_entries history) = false ∧ total < 3)
          (λ i, mkSoftSkill (ss_key i) (ss_label_fa i) (round2 (ss_score i / 2)) (ss_evidence i))
          (so_soft_skills manner) (ua_soft_skills a) ∧
        ua_tone a = Some (so_tone manner) ∧ ua_confidence a = so_confidence manner
   else ¬ in_time threads SOFT_SKILLS_AGENT ∧ ua_soft_skills a = [] ∧ ua_tone a = None ∧ ua_confidence a = 0%Q).
Proof.
  intros a signals history total manner.
  assert (∀ P : string → Prop, (∀ name, name ∈ AGENTS → P name ↔ is_Some (end_error (ending threads name))) →
    (Forall (λ n, ¬ P n) AGENTS ↔ Forall (in_time threads) AGENTS) ∧
    (Forall P AGENTS ↔ Forall (λ name, ¬ in_time threads name) AGENTS)) as Hiff.
  { intros P HP. unfold in_time. split; rewrite !Forall_forall; split; intros Hall name Hn; specialize (Hall name Hn);
      rewrite HP in * by done; destruct (end_error _); naive_solver. }
  unfold a, analyse, aggregate, total. clear a total. fold signals. fold history. fold manner.
  generalize (_timing threads <$> "supervisor_dispatch" :: AGENTS ++ ["supervisor_aggregate"; "total"]). intros timings.
  pose proof (noted_errors threads (run_skill_agent raw_text signals) history manner) as Hnoted. cbv zeta in Hnoted.
  destruct (note_failure SOFT_SKILLS_AGENT _ _) as [errs failures]. cbn in Hnoted. subst errs.
  pose proof (status_spec (λ name, is_Some (dict_get name (node_errors threads)))) as [Hs1 Hs2].
  destruct (Hiff (λ name, is_Some (dict_get name (node_errors threads)))) as [Hi1 Hi2];
    [intros name Hn; by rewrite node_errors_get|].
  cbn [ua_status ua_skills_ok ua_skills ua_experience_ok ua_total_experience_years ua_entries ua_overlaps ua_invalid_periods
    ua_flags ua_soft_ok ua_soft_skills ua_tone ua_confidence ua_errors].
  split; [by rewrite Hs1|]. split; [by rewrite Hs2|]. split; [apply node_errors_get|].
  unfold agent_node, in_time. split_and!.
  - destruct (end_error (ending threads SKILL_AGENT)); cbn [_failed completed]; [by destruct (nonempty s)|].
    split; [done|]. destruct (end_error (ending threads EXPERIENCE_AGENT)); cbn [_failed completed].
    + apply corrected_none. by intros i [].
    + apply (corrected_fmap _ (over_claimed _ _) (cap_skill _)). intros i. apply over_claimed_spec.
  - by destruct (end_error (ending threads EXPERIENCE_AGENT)).
  - destruct (end_error (ending threads SOFT_SKILLS_AGENT)); cbn [_failed completed]; [done|].
    split_and!; try done. destruct (end_error (ending threads EXPERIENCE_AGENT)); cbn [_failed completed].
    + apply corrected_none. by intros i [].
    + apply (corrected_fmap _ _ halve). intros i. unfold _LEADERSHIP_MIN_YEARS.
      rewrite !andb_true_iff, bool_decide_eq_true, negb_true_iff, Z.ltb_lt. naive_solver.
Qed.
End supervisor.

(** *** A resume and two agents *)

Section demo.
#[local] Existing Instances default_settings text_unicode.
#[local] Instance demo_format : FormatG := {| format_g q := pretty (Qnum q) |}.
#[local] Instance demo_readers : DocumentReaders := {| fitz_open _ := None; docx_open _ := None |}.
#[local] Instance demo_ner : Ner := {| spacy_model := None |}.

(** The soft skills agent runs out of time. *)
Definition demo_threads : Threads :=
  mkThreads (λ name, if bool_decide (name = SOFT_SKILLS_AGENT) then OutOfTime else InTime) (λ _, (0%Q, 1%Q)).

Definition demo_job : JobContext :=
  mkJobContext "Backend Developer" (Some ["Python"; "Docker"]) (Some "senior") None (Some "Tehran") None (Some "Tehran").

Definition demo_cv : text := chars "Django developer, Python (12 years)".
Definition demo_parsed : ParsedResumeData :=
  mkParsed (mkPersonal None None None) []
    [mkWorkEntry (Some (chars "A")) (Some (chars "developer")) (Some (chars "2019 - 2023"));
     mkWorkEntry (Some (chars "B")) (Some (chars "developer")) (Some (chars "1400 - 1401"))].

Definition demo_analysis : UnifiedAnalysis := analyse 2026 demo_threads demo_cv (Some demo_parsed) (Some demo_job).

(** Python is claimed for more years than the four that are proven. *)
Lemma analysis_meets_contract_witness :
  contract_ok demo_analysis ∧ ua_status demo_analysis = "partial" ∧
  (λ i, (si_name i, si_claimed_years i)) <$> ua_skills demo_analysis = [("Django", None); ("Python", Some 4)] ∧
  cr_code <$> ua_conflicts_resolved demo_analysis = ["agent_failed"; "skill_years_capped"].
Proof.
  split; [apply (analysis_meets_contract 2026 demo_threads demo_cv (Some demo_parsed) (Some demo_job)); lia|].
  vm_compute. split_and!; reflexivity.
Defined.

(** A Persian and a Gregorian period that share a year. *)
Lemma work_history_is_validated_witness :
  let o := run_experience_agent 2026 [] (work_rows (Some demo_parsed)) None in
  (∃ Y : gset Z, eo_total_experience_years o = Z.of_nat (size Y)) ∧
  (eo_total_experience_years o, eo_overlaps o) = (4, [mkOverlap (0, 1)%nat 1]).
Proof.
  split; [|vm_compute; reflexivity].
  destruct (work_history_is_validated 2026 ltac:(lia) [] (work_rows (Some demo_parsed)) None) as ((Y & HY & _) & _).
  exists Y. exact HY.
Defined.
End demo.
