(* ===== verification/Processing.v ===== *)
(** The background processing of an uploaded resume
    ([app/tasks/resume_processing.py]): file, text, structured data, skills,
    score - by the agents or one stage after the other. *)
From S2P Require Import Prelude PyText Unicode Regex Texts Rounding Config Storage Models Codecs Security Tenancy Orm OrmLaws Experience SkillGraph Search Parser Matching Questions Profile Agents Supervisor.
From Stdlib Require Import QArith.
Local Open Scope string_scope.
Local Open Scope Z_scope.
Local Open Scope list_scope.

(** ** The columns *)

Definition str_texts (o : option text) : json := str_opt (text_of <$> o).
Definition int_opt (o : option Z) : json := match o with Some n => JInt n | None => JNull end.
Definition float_opt (o : option Q) : json := match o with Some q => JFloat q | None => JNull end.

(** [ParsedResumeData.model_dump()] *)
Definition parsed_json (p : ParsedResumeData) : json :=
  JObj [("personal_info", JObj [("name", str_texts (pi_name (personal_info p))); ("email", str_texts (pi_email (personal_info p)));
                                ("phone", str_texts (pi_phone (personal_info p)))]);
        ("education", JArr ((λ e, JObj [("degree", str_opt (ed_degree e)); ("university", str_texts (ed_university e));
                                        ("gpa", float_opt (ed_gpa e))]) <$> education p));
        ("work_experience", JArr ((λ e, JObj [("company", str_texts (we_company e)); ("job_title", str_texts (we_job_title e));
                                              ("duration", str_texts (we_duration e))]) <$> work_experience p))].

(** An entry of [experience_entries]. *)
Definition entry_json (company job_title duration : option string) (start_year end_year : option Z) (valid : bool)
    (flag_reason : option string) : json :=
  JObj [("company", str_opt company); ("job_title", str_opt job_title); ("duration", str_opt duration);
        ("start_year", int_opt start_year); ("end_year", int_opt end_year); ("is_valid", JBool valid);
        ("flag_reason", str_opt flag_reason)].

(** [run_skill_engine(..)] *)
Definition skill_engine_json (a : SkillAnalysis) : json :=
  JObj [("skills", strs (sa_skills a)); ("total_experience_years", JFloat (inject_Z (sa_total_experience_years a)));
        ("experience_entries", JArr ((λ e, entry_json (work_company (an_entry e)) (work_job_title (an_entry e))
            (work_duration (an_entry e)) (an_start_year e) (an_end_year e) (is_valid e) (reason_words e))
          <$> sa_experience_entries a))].

(** [to_skill_analysis] *)
Definition to_skill_analysis (a : UnifiedAnalysis) : json :=
  JObj [("skills", strs (sorted_set (si_name <$> ua_skills a)));
        ("total_experience_years", JFloat (inject_Z (ua_total_experience_years a)));
        ("experience_entries", JArr ((λ e, entry_json (ee_company e) (ee_job_title e) (ee_duration e) (ee_start_year e)
            (ee_end_year e) (ee_is_valid e) (ee_flag_reason e)) <$> ua_entries a))].

(** *** [UnifiedAnalysis.model_dump(mode="json")] *)

Definition status_json (ok : bool) : json := JStr (if ok then "completed" else "failed").

Definition skill_item_json (i : SkillItem) : json :=
  JObj [("name", JStr (si_name i)); ("core", JStr (si_core i)); ("category", JStr (si_category i));
        ("evidence_count", JInt (Z.of_nat (si_evidence_count i))); ("inferred", JBool (si_inferred i));
        ("confidence", JFloat (si_confidence i)); ("claimed_years", float_opt (inject_Z <$> si_claimed_years i))].

Definition agent_entry_json (e : ExperienceEntry) : json :=
  JObj [("index", JInt (Z.of_nat (ee_index e))); ("company", str_opt (ee_company e)); ("job_title", str_opt (ee_job_title e));
        ("duration", str_opt (ee_duration e)); ("start_year", int_opt (ee_start_year e)); ("end_year", int_opt (ee_end_year e));
        ("start_year_gregorian", int_opt (ee_start_year_gregorian e)); ("end_year_gregorian", int_opt (ee_end_year_gregorian e));
        ("is_valid", JBool (ee_is_valid e)); ("flag_reason", str_opt (ee_flag_reason e))].

Definition overlap_json (o : Overlap) : json :=
  JObj [("entries", JArr [JInt (Z.of_nat (ov_entries o).1); JInt (Z.of_nat (ov_entries o).2)]);
        ("years", JFloat (inject_Z (ov_years o)))].

Definition soft_item_json (i : SoftSkillItem) : json :=
  JObj [("key", JStr (ss_key i)); ("label_fa", JStr (ss_label_fa i)); ("score", JFloat (ss_score i));
        ("evidence", strs (ss_evidence i))].

Definition tone_json (o : option ToneProfile) : json :=
  match o with
  | None => JNull
  | Some t => JObj [("confident", JFloat (tone_confident t)); ("collaborative", JFloat (tone_collaborative t));
                    ("individual", JFloat (tone_individual t)); ("hedging", JFloat (tone_hedging t));
                    ("passive_voice_ratio", JFloat (tone_passive_voice_ratio t)); ("dominant", JStr (tone_dominant t))]
  end.

Definition conflict_json (c : ConflictResolution) : json :=
  JObj [("code", JStr (cr_code c)); ("agents", strs (cr_agents c)); ("description", JStr (cr_description c));
        ("resolution", JStr (cr_resolution c))].

Definition severity_value (s : Severity) : string := match s with low => "low" | medium => "medium" | high => "high" end.

Definition flag_json (f : ValidationFlag) : json :=
  JObj [("code", JStr (fl_code f)); ("severity", JStr (severity_value (fl_severity f))); ("message", JStr (fl_message f));
        ("evidence", str_opt (fl_evidence f)); ("source", JStr (fl_source f))].

Definition matching_json (m : Matching) : json :=
  JObj [("score", float_opt (ma_score m)); ("base_score", float_opt (ma_base_score m));
        ("components", JObj ((λ p, (p.1, JFloat p.2)) <$> ma_components m));
        ("soft_skill_bonus", JFloat (ma_soft_skill_bonus m)); ("validation_penalty", JFloat (ma_validation_penalty m));
        ("matched_required_skills", strs (ma_matched_required_skills m))].

Definition timing_json (t : Timing) : json :=
  JObj [("start_ms", JFloat (start_ms t)); ("end_ms", JFloat (end_ms t)); ("duration_ms", JFloat (duration_ms t))].

Definition analysis_json (a : UnifiedAnalysis) : json :=
  JObj [("schema_version", JStr SCHEMA_VERSION); ("status", JStr (ua_status a));
        ("skills", JObj [("status", status_json (ua_skills_ok a)); ("items", JArr (skill_item_json <$> ua_skills a))]);
        ("experience", JObj [("status", status_json (ua_experience_ok a));
           ("total_experience_years", JFloat (inject_Z (ua_total_experience_years a)));
           ("entries", JArr (agent_entry_json <$> ua_entries a)); ("overlaps", JArr (overlap_json <$> ua_overlaps a));
           ("invalid_periods", JArr ((λ i, JInt (Z.of_nat i)) <$> ua_invalid_periods a))]);
        ("soft_skills", JObj [("status", status_json (ua_soft_ok a)); ("items", JArr (soft_item_json <$> ua_soft_skills a));
           ("tone", tone_json (ua_tone a)); ("confidence", JFloat (ua_confidence a))]);
        ("conflicts_resolved", JArr (conflict_json <$> ua_conflicts_resolved a)); ("flags", JArr (flag_json <$> ua_flags a));
        ("matching", matching_json (ua_matching a)); ("errors", JObj ((λ p, (p.1, JStr p.2)) <$> ua_errors a));
        ("timings_ms", JObj ((λ p, (p.1, timing_json p.2)) <$> ua_timings_ms a))].

(** ** The job *)

(** What the storage answers: a file of the media directory, an HTTP download. *)
Record Files := mkFiles { read_bytes : abs_path → exn + string; urlopen : string → exn + string }.

Section processing.
Context `{Unicode, FormatG, Settings, BlindIndex, DocumentReaders, Ner}.
Context (cwd : abs_path) (today_year : Z).

Definition _download_file (files : Files) (file_url : string) : exn + string :=
  match resolve_local_media_path cwd file_url with
  | Some local_path => read_bytes files local_path
  | None => urlopen files file_url
  end.

(** The assignments to a resume; the listener on [raw_text] hashes its words. *)
Definition res_store (raw_text : text) (parsed skills agents : option json) (r : Resume) : Resume :=
  mkResume (res_id r) (res_tenant_id r) (res_candidate_id r) (res_file_url r) (Some (text_of raw_text))
    (blind_index_tokens (Some (text_of raw_text)))
    (match parsed with Some j => Some j | None => res_parsed_data r end)
    (match skills with Some j => Some j | None => res_skill_analysis r end)
    (match agents with Some j => Some j | None => res_agent_analysis r end).

Definition app_set_score (score : Z) (a : Application) : Application :=
  mkApplication (app_id a) (app_tenant_id a) (app_job_id a) (app_candidate_id a) (app_current_status a)
    (Some score) (app_created_at a) (app_updated_at a).

(** [uuid.UUID(application_id)] *)
Definition application_key (application_id : string) : M World uuid :=
  match uuid_parse application_id with Some u => mret u | None => raise (PyError "ValueError") end.

Definition job_context (job : Job) (candidate : option Candidate) : JobContext :=
  mkJobContext (Models.job_title job) (Models.job_skills_required job) (Models.job_required_seniority job)
    (Models.job_required_education job) (Models.job_location job) (Models.job_description job)
    (candidate ≫= cand_location).

Definition _load_job_context (application_id : string) (resume : Resume) : M World (option JobContext) :=
  key ← application_key application_id;
  application ← select_by_id (R:=Application) key;
  match application with
  | None => mret None
  | Some application =>
      job ← select_by_id (R:=Job) (app_job_id application);
      match job with
      | None => mret None
      | Some job =>
          candidate ← select_by_id (R:=Candidate) (res_candidate_id resume);
          mret (Some (job_context job candidate))
      end
  end.

Definition resume_of_file (file_url : string) : M World (option Resume) :=
  l ← select_where (λ r, bool_decide (res_file_url r = file_url));
  scalar_one_or_none l.

(** *** By the agents *)

Definition store_result (now : instant) (application_id : string) (resume_id : uuid) (result : PipelineResult) : M World unit :=
  let analysis := pr_analysis result in
  o ← select_by_id (R:=Resume) resume_id;
  (match o with Some _ => mret tt | None => raise (PyError "AttributeError") end);;
  update_row now resume_id (res_store (pr_raw_text result) (parsed_json <$> pr_parsed_data result)
    (if ua_skills_ok analysis || ua_experience_ok analysis then Some (to_skill_analysis analysis) else None)
    (Some (analysis_json analysis)));;
  (match ma_score (ua_matching analysis) with
   | None => mret tt
   | Some score =>
       key ← application_key application_id;
       application ← select_by_id (R:=Application) key;
       match application with
       | None => mret tt
       | Some a => update_row now (app_id a) (app_set_score (round0 score))
       end
   end);;
  commit.

Definition _process_resume_multi_agent (now : instant) (files : Files) (threads : Threads) (application_id file_url : string) :
    M World unit :=
  taken ← run_request (
    o ← resume_of_file file_url;
    match o with
    | None => mret None
    | Some resume => job_context ← _load_job_context application_id resume; mret (Some (res_id resume, job_context))
    end);
  match taken with
  | None => mret tt
  | Some (resume_id, job_context) =>
      match _download_file files file_url with
      | inl _ => mret tt
      | inr file_bytes =>
          match run_agent_pipeline today_year threads file_bytes file_url job_context with
          | inl _ => mret tt
          | inr result => run_request (store_result now application_id resume_id result)
          end
      end
  end.

(** *** One stage after the other *)

(** The matching score of stage 4, for the resume's candidate. *)
Definition score_application (now : instant) (application_id : string) (resume : Resume) (parsed : ParsedResumeData)
    (skills : SkillAnalysis) : M World unit :=
  key ← application_key application_id;
  application ← select_by_id (R:=Application) key;
  match application with
  | None => mret tt
  | Some application =>
      job ← select_by_id (R:=Job) (app_job_id application);
      candidate ← select_by_id (R:=Candidate) (res_candidate_id resume);
      match job with
      | None => mret tt
      | Some job =>
          let score := calculate_matching_score (job_side (job_context job candidate))
            (mkCandidateSide (sa_skills skills) (parsed_titles (Some parsed)) (inject_Z (sa_total_experience_years skills))
               (parsed_degrees (Some parsed)) (candidate ≫= cand_location)) in
          update_row now (app_id application) (app_set_score (round0 (final_score score)))
      end
  end.

Definition store_stages (now : instant) (application_id file_url : string) (raw_text : text)
    (parsed : option ParsedResumeData) (skills : SkillAnalysis) : M World unit :=
  o ← resume_of_file file_url;
  match o with
  | None => mret tt
  | Some resume =>
      update_row now (res_id resume) (res_store raw_text (parsed_json <$> parsed) (Some (skill_engine_json skills)) None);;
      (match parsed with
       | None => mret tt
       | Some parsed => try_except (score_application now application_id resume parsed skills) (λ _, mret tt)
       end);;
      commit
  end.

Definition _process_resume_linear (now : instant) (files : Files) (application_id file_url : string) : M World unit :=
  match _download_file files file_url with
  | inl _ => mret tt
  | inr file_bytes =>
      match extract_raw_text file_bytes file_url with
      | inl _ => mret tt
      | inr raw_text =>
          let parsed := parse_resume_text raw_text in
          let skills := run_skill_engine today_year (text_of raw_text) (work_rows parsed) in
          run_request (store_stages now application_id file_url raw_text parsed skills)
      end
  end.

Definition process_resume_task (now : instant) (files : Files) (threads : Threads) (application_id file_url : string) :
    M World unit :=
  if bool_decide (RESUME_PIPELINE = "linear") then _process_resume_linear now files application_id file_url
  else _process_resume_multi_agent now files threads application_id file_url.
End processing.
