(* ===== verification/Genai.v ===== *)
(** Interview questions written by a language model
    ([app/genai/service.py], [app/genai/client.py], [app/routers/genai.py],
    [app/schemas/genai.py]): the contract of the model's answer, one call with
    one chance of repair, the job of the worker and the API of the reviewers.

    The HTTP answers of the model's provider and of the internal API, the
    clock and the random keys are arguments; so are the type checks and the
    error texts of pydantic ([decode], [describe]). *)
From S2P Require Import Prelude PyText Unicode Sanitize Config Models Codecs Security Tenancy Orm OrmLaws Roles SkillGraph Questions Queue Profile.
From Stdlib Require Import QArith.
Local Open Scope string_scope.
Local Open Scope Z_scope.
Local Open Scope list_scope.

(** ** The contract of the model's output *)

Definition MIN_QUESTIONS : Z := 3.
Definition MAX_QUESTIONS : Z := 15.
Definition QuestionCategory : list string := ["technical"; "problem_solving"; "system_design"; "behavioral"; "gap_probe"].
Definition QuestionDifficulty : list string := ["easy"; "medium"; "hard"].

Record GeneratedQuestion := mkGenerated {
  gq_category : string; gq_skill : string; gq_difficulty : string; gq_question : string; gq_purpose : string;
  gq_expected_answer : string; gq_evaluation_points : list string; gq_red_flags : list string;
  gq_follow_ups : list string; gq_estimated_minutes : Z }.

Record GeneratedQuestionSet := mkGeneratedSet { gs_focus_summary : string; gs_questions : list GeneratedQuestion }.

(** [Field(min_length=a, max_length=b)] *)
Definition len_between (a b n : nat) : bool := (a <=? n)%nat && (n <=? b)%nat.

Definition question_ok (q : GeneratedQuestion) : bool :=
  bool_decide (gq_category q ∈ QuestionCategory) && len_between 1 100 (py_len (gq_skill q)) &&
  bool_decide (gq_difficulty q ∈ QuestionDifficulty) && len_between 10 1200 (py_len (gq_question q)) &&
  len_between 5 600 (py_len (gq_purpose q)) && len_between 10 2500 (py_len (gq_expected_answer q)) &&
  len_between 1 6 (length (gq_evaluation_points q)) && len_between 0 4 (length (gq_red_flags q)) &&
  len_between 0 3 (length (gq_follow_ups q)) && (1 <=? gq_estimated_minutes q) && (gq_estimated_minutes q <=? 30).

Definition question_set_ok (s : GeneratedQuestionSet) : bool :=
  len_between 10 1500 (py_len (gs_focus_summary s)) &&
  len_between 1 (Z.to_nat MAX_QUESTIONS) (length (gs_questions s)) && forallb question_ok (gs_questions s).

(** [_CODE_FENCE_PATTERN.sub("", content.strip())] *)
Fixpoint removesuffix (suffix s : string) : option string :=
  if bool_decide (s = suffix) then Some "" else
  match s with EmptyString => None | String c r => String c <$> removesuffix suffix r end.

Definition strip_fence (content : string) : string :=
  let s := strip content in
  let s := match removeprefix "```" s with
           | Some r =>
               let r := if bool_decide (lower (substring 0 4 r) = "json") then substring 4 (String.length r - 4) r else r in
               lstrip_if is_space r
           | None => s
           end in
  match removesuffix "```" s with Some r => rstrip_if is_space r | None => s end.

(** ** The client *)

(** What a POST to the provider gives: [body] is the JSON of the answer, if it
    is JSON. *)
Inductive HttpAnswer :=
  | TimedOut (message : string)
  | NotConnected (message : string)
  | Answered (status_code : Z) (text : string) (body : option json).

Record CompletionResult := mkCompletion {
  content : string; model : json; prompt_tokens : option Z; completion_tokens : option Z;
  latency_ms : Z; finish_reason : json }.

(** A result, a [GenAIError] with its [retryable], or another exception. *)
Inductive Attempt (A : Type) :=
  | Ok (a : A)
  | GenAIError (message : string) (retryable : bool)
  | Crash (name : string).
Arguments Ok {_}.
Arguments GenAIError {_}.
Arguments Crash {_}.

#[global] Instance Attempt_bind : MBind Attempt := λ A B f m,
  match m with Ok a => f a | GenAIError e r => GenAIError e r | Crash n => Crash n end.
#[global] Instance Attempt_ret : MRet Attempt := λ A, Ok.

Definition _RETRYABLE_STATUS : list Z := [408; 409; 425; 429; 500; 502; 503; 504].

Definition or_else {A} (o : option A) (e : Attempt A) : Attempt A := match o with Some a => Ok a | None => e end.

(** A count of tokens: null or an integer; the column takes nothing else. *)
Definition token_count (j : json) : option (option Z) :=
  match j with JNull => Some None | JInt n => Some (Some n) | _ => None end.

Definition malformed (text : string) {A} : Attempt A :=
  GenAIError ("ساختار پاسخ سرویس مدل زبانی نامعتبر است: " +:+ py_take 300 text) false.

(** The first choice of an answer: [body["choices"][0]]. *)
Definition first_choice (body : json) : option json :=
  match json_get "choices" body with Some (JArr (c :: _)) => Some c | _ => None end.

Section client.
Context `{Settings}.

Definition complete_json (elapsed_ms : Z) (answer : HttpAnswer) : Attempt CompletionResult :=
  match answer with
  | TimedOut e => GenAIError ("پاسخ سرویس مدل زبانی در زمان مقرر نرسید: " +:+ e) true
  | NotConnected e => GenAIError ("اتصال به سرویس مدل زبانی برقرار نشد: " +:+ e) true
  | Answered code text body =>
      if 400 <=? code then
        GenAIError ("سرویس مدل زبانی خطای " +:+ pretty code +:+ " داد: " +:+ py_take 300 text)
          (bool_decide (code ∈ _RETRYABLE_STATUS))
      else
        body ← or_else body (malformed text);
        choice ← or_else (first_choice body) (malformed text);
        message ← or_else (json_get "message" choice) (malformed text);
        raw ← or_else (py_get "content" message) (Crash "AttributeError");
        let content := if json_falsy raw then JStr "" else raw in
        let finish_reason := default JNull (json_get "finish_reason" choice) in
        if bool_decide (finish_reason = JStr "length") then GenAIError 
          "پاسخ مدل به سقف GENAI_MAX_OUTPUT_TOKENS رسید و ناقص ماند — سقف را افزایش یا تعداد سؤال را کاهش دهید" false else
        content ← or_else (json_str content) (Crash "AttributeError");
        if negb (nonempty (strip content)) then GenAIError "پاسخ مدل خالی بود" false else
        let usage := or_dict (json_get "usage" body) in
        prompt ← or_else (py_get "prompt_tokens" usage ≫= token_count) (Crash "AttributeError");
        completion ← or_else (py_get "completion_tokens" usage ≫= token_count) (Crash "AttributeError");
        let named := default JNull (json_get "model" body) in
        Ok (mkCompletion content (if json_falsy named then JStr GENAI_MODEL else named) prompt completion
              elapsed_ms finish_reason)
  end.

(** ** One generation *)

Record GenerationResult := mkGeneration {
  question_set : GeneratedQuestionSet; completion : CompletionResult; repaired : bool; plan : list QuestionSlot }.

(** The type checks of [model_validate_json], before the bounds of the fields;
    and the summary of the errors of a text. *)
Context (decode : string → option GeneratedQuestionSet) (describe : string → string).

Definition parse_question_set (text : string) : option GeneratedQuestionSet :=
  s ← decode (strip_fence text);
  if question_set_ok s then Some s else None.

Definition _parse_for_plan (text : string) (plan : list QuestionSlot) : option GeneratedQuestionSet :=
  s ← parse_question_set text;
  if (length (gs_questions s) <? length plan)%nat then None else Some s.

Definition _add (first second : option Z) : option Z :=
  match first, second with None, None => None | _, _ => Some (default 0 first + default 0 second) end.

(** [http k]: the answer to the [k]-th call and the milliseconds it took. *)
Definition generate_questions (http : nat → Z * HttpAnswer) (profile : json) (question_count : Z)
    (difficulty : string) (focus_skills : list string) : Attempt GenerationResult :=
  plan ← or_else (profile_plan profile (Z.to_nat question_count) difficulty focus_skills) (Crash "AttributeError");
  first ← complete_json (http 0%nat).1 (http 0%nat).2;
  match _parse_for_plan (content first) plan with
  | Some s => Ok (mkGeneration s first false plan)
  | None =>
      second ← complete_json (http 1%nat).1 (http 1%nat).2;
      match _parse_for_plan (content second) plan with
      | None => GenAIError ("خروجی مدل پس از یک بار اصلاح هم با Schema سازگار نبود: " +:+ describe (content second)) false
      | Some s =>
          Ok (mkGeneration s
                (mkCompletion (content second) (model second)
                   (_add (prompt_tokens first) (prompt_tokens second))
                   (_add (completion_tokens first) (completion_tokens second))
                   (latency_ms first + latency_ms second) (finish_reason second)) true plan)
      end
  end.

(** The constructor of the client refuses to work without its settings. *)
Definition _generate_with_settings (http : nat → Z * HttpAnswer) (profile : json) (question_count : Z)
    (difficulty : string) (focus_skills : list string) : Attempt GenerationResult :=
  if negb genai_enabled then
    GenAIError "سرویس هوش مصنوعی مولد پیکربندی نشده است (GENAI_BASE_URL / GENAI_MODEL)" false
  else if negb (bool_decide (GENAI_STRUCTURED_OUTPUT ∈ ["json_schema"; "json_object"])) then
    GenAIError ("GENAI_STRUCTURED_OUTPUT نامعتبر: " +:+ GENAI_STRUCTURED_OUTPUT) false
  else generate_questions http profile question_count difficulty focus_skills.
End client.

(** ** The job of the worker *)

Definition MAX_ATTEMPTS : Z := 3.
Definition _OPEN_STATUSES : list string := ["pending"; "processing"].

Definition qs_start (attempts : Z) (q : InterviewQuestionSet) : InterviewQuestionSet :=
  mkQuestionSet (qs_id q) (qs_tenant_id q) (qs_application_id q) (qs_job_id q) (qs_candidate_id q) (qs_requested_by q)
    "processing" (qs_language q) (qs_question_count q) (qs_difficulty q) (qs_focus_skills q) (qs_prompt_version q)
    (qs_provider_model q) (qs_input_profile q) (qs_focus_summary q) None (qs_prompt_tokens q)
    (qs_completion_tokens q) (qs_latency_ms q) attempts (qs_created_at q) (qs_completed_at q).

Definition qs_set_profile (profile : json) (provider_model : option string) (q : InterviewQuestionSet) :
    InterviewQuestionSet :=
  mkQuestionSet (qs_id q) (qs_tenant_id q) (qs_application_id q) (qs_job_id q) (qs_candidate_id q) (qs_requested_by q)
    (qs_status q) (qs_language q) (qs_question_count q) (qs_difficulty q) (qs_focus_skills q) PROMPT_VERSION
    provider_model (Some profile) (qs_focus_summary q) (qs_error q) (qs_prompt_tokens q) (qs_completion_tokens q)
    (qs_latency_ms q) (qs_attempts q) (qs_created_at q) (qs_completed_at q).

Definition qs_fail (final : bool) (now : instant) (message : string) (q : InterviewQuestionSet) : InterviewQuestionSet :=
  mkQuestionSet (qs_id q) (qs_tenant_id q) (qs_application_id q) (qs_job_id q) (qs_candidate_id q) (qs_requested_by q)
    (if final then "failed" else "pending") (qs_language q) (qs_question_count q) (qs_difficulty q)
    (qs_focus_skills q) (qs_prompt_version q) (qs_provider_model q) (qs_input_profile q) (qs_focus_summary q)
    (Some (py_take 2000 message)) (qs_prompt_tokens q) (qs_completion_tokens q) (qs_latency_ms q) (qs_attempts q)
    (qs_created_at q) (if final then Some now else qs_completed_at q).

Definition qs_complete (now : instant) (profile : json) (r : GenerationResult) (q : InterviewQuestionSet) :
    InterviewQuestionSet :=
  mkQuestionSet (qs_id q) (qs_tenant_id q) (qs_application_id q) (qs_job_id q) (qs_candidate_id q) (qs_requested_by q)
    "completed" (qs_language q) (qs_question_count q) (qs_difficulty q) (qs_focus_skills q) (qs_prompt_version q)
    (qs_provider_model q)
    (Some (match profile with
           | JObj o => JObj (dict_set "question_plan" (JArr (slot_to_dict <$> plan r)) o)
           | j => j
           end))
    (Some (gs_focus_summary (question_set r))) (qs_error q) (prompt_tokens (completion r))
    (completion_tokens (completion r)) (Some (latency_ms (completion r))) (qs_attempts q) (qs_created_at q) (Some now).

(** The row of a generated question; an approval is the reviewers' to give. *)
Definition question_row (fresh : uuid) (q : InterviewQuestionSet) (position : Z) (item : GeneratedQuestion) :
    InterviewQuestion :=
  mkQuestion fresh (qs_tenant_id q) (qs_id q) position (gq_category item) (gq_skill item) (gq_difficulty item)
    (gq_question item) (gq_purpose item) (gq_expected_answer item) (gq_evaluation_points item) (gq_red_flags item)
    (gq_follow_ups item) (gq_estimated_minutes item) false None None None.

(** What one run of the job meets: the time, random keys, the answers of the
    internal API and of the provider. *)
Record Run := mkRun {
  run_now : instant; run_keys : nat → uuid; run_fetch : uuid → exn + json; run_http : nat → Z * HttpAnswer }.

Section worker.
Context `{Unicode, FormatG, Settings}.
Context (decode : string → option GeneratedQuestionSet) (describe : string → string).

Definition load_interview_profile (run : Run) (application : Application) : M World json :=
  if negb internal_api_enabled then build_profile_for_application application
  else match run_fetch run (app_id application) with inr profile => mret profile | inl e => raise e end.

(** The first session: take the set and record the attempt. [None]: there is
    nothing to do. *)
Definition begin_attempt (run : Run) (question_set_id : uuid) : M World (option (json * InterviewQuestionSet)) :=
  o ← select_by_id question_set_id;
  match o with
  | None => mret None
  | Some q =>
      if negb (bool_decide (qs_status q ∈ _OPEN_STATUSES)) then mret None else
      o ← select_by_id (R:=Application) (qs_application_id q);
      let attempts := qs_attempts q + 1 in
      update_row (run_now run) question_set_id (qs_start attempts);;
      match o with
      | None => raise (PyError "AttributeError")
      | Some application =>
          profile ← load_interview_profile run application;
          let provider_model := if nonempty GENAI_MODEL then Some GENAI_MODEL else None in
          update_row (run_now run) question_set_id (qs_set_profile profile provider_model);;
          commit;;
          mret (Some (profile, qs_set_profile profile provider_model (qs_start attempts q)))
      end
  end.

Definition get_set (question_set_id : uuid) : M World InterviewQuestionSet :=
  o ← select_by_id question_set_id;
  match o with Some q => mret q | None => raise (PyError "AttributeError") end.

Definition record_failure (run : Run) (question_set_id : uuid) (final : bool) (message : string) : M World unit :=
  q ← get_set question_set_id;
  update_row (R:=InterviewQuestionSet) (run_now run) question_set_id (qs_fail final (run_now run) message);;
  commit.

Fixpoint add_questions (keys : nat → uuid) (q : InterviewQuestionSet) (position : nat)
    (items : list GeneratedQuestion) : M World unit :=
  match items with
  | [] => mret tt
  | item :: rest =>
      insert_row (question_row (keys position) q (Z.of_nat position) item);;
      add_questions keys q (S position) rest
  end.

(** [questions[:question_count]] of a count that is not negative. *)
Definition record_success (run : Run) (question_set_id : uuid) (profile : json) (r : GenerationResult) : M World unit :=
  q ← get_set question_set_id;
  add_questions (run_keys run) q 1 (take (Z.to_nat (qs_question_count q)) (gs_questions (question_set r)));;
  update_row (R:=InterviewQuestionSet) (run_now run) question_set_id (qs_complete (run_now run) profile r);;
  commit.

(** Each [run_request] is one [async with session_factory()]. *)
Definition run_question_set_job (run : Run) (question_set_id : uuid) : M World unit :=
  taken ← run_request (begin_attempt run question_set_id);
  match taken with
  | None => mret tt
  | Some (profile, q) =>
      match _generate_with_settings decode describe (run_http run) profile (qs_question_count q) (qs_difficulty q)
              (qs_focus_skills q) with
      | Crash name => raise (PyError name)
      | GenAIError message retryable =>
          let final := negb retryable || (MAX_ATTEMPTS <=? qs_attempts q) in
          run_request (record_failure run question_set_id final message);;
          if final then mret tt else raise (PyError "GenAIError")
      | Ok r => run_request (record_success run question_set_id profile r)
      end
  end.

(** RQ runs a job again while it raises and has runs left; the sessions of a
    run that died are closed. *)
Fixpoint retried (n : nat) (k : nat) (job : nat → M World unit) : M World unit :=
  match n with
  | O => raise (PyError "RetriesExhausted")
  | S n => try_except (job k) (λ _, retried n (S k) job)
  end.

Definition generate_interview_questions_task (run : nat → Run) (question_set_id : uuid) : M World unit :=
  retried (Queue.runs (Queue.policy_for "app.tasks.genai")) 0 (λ k, run_question_set_job (run k) question_set_id).
End worker.

(** ** The API *)

Definition MANAGER_ROLES : list string := ["Admin"; "HR_Manager"].
Definition REVIEWER_ROLES : list string := ["Admin"; "HR_Manager"; "Interviewer"].

Record GenerateQuestionsRequest := mkGenerate {
  gen_application_id : uuid; gen_question_count : Z; gen_difficulty : string; gen_focus_skills : list string;
  gen_language : string }.

Definition clean_focus_skills (skills : list string) : list string :=
  filter (λ s, nonempty s = true) (dict_fromkeys ((λ s, py_take 100 (strip (strip_html_tags s))) <$> skills)).

(** The validated body; [None] is a 422. *)
Definition generate_request (application_id : uuid) (question_count : Z) (difficulty : string)
    (focus_skills : list string) (language : string) : option GenerateQuestionsRequest :=
  if bool_decide (MIN_QUESTIONS ≤ question_count ≤ MAX_QUESTIONS) &&
     bool_decide (difficulty ∈ ["mixed"; "easy"; "medium"; "hard"]) &&
     (length focus_skills <=? 10)%nat && bool_decide (language ∈ ["fa"; "en"])
  then Some (mkGenerate application_id question_count difficulty (clean_focus_skills focus_skills) language)
  else None.

(** A field that was not sent is [None], one sent as null [Some None]. *)
Record QuestionUpdateRequest := mkQuestionUpdate {
  upd_question : option (option string); upd_expected_answer : option (option string);
  upd_is_approved : option (option bool); upd_interviewer_notes : option (option string) }.

(** The bounds are checked before the validator takes the tags out. *)
Definition clean_text (a b : nat) (field : option (option string)) : option (option (option string)) :=
  match field with
  | Some (Some s) => if len_between a b (py_len s) then Some (Some (Some (strip (strip_html_tags s)))) else None
  | f => Some f
  end.

Definition question_update_request (question expected_answer : option (option string))
    (is_approved : option (option bool)) (notes : option (option string)) : option QuestionUpdateRequest :=
  question ← clean_text 10 1200 question;
  expected_answer ← clean_text 10 2500 expected_answer;
  notes ← clean_text 0 2000 notes;
  Some (mkQuestionUpdate question expected_answer is_approved notes).

(** Text without text: the bound of ten characters is met by a tag. *)
Example empty_question_passes :
  question_update_request (Some (Some "<b></b><i>")) None None None =
    Some (mkQuestionUpdate (Some (Some "")) None None None).
Proof. vm_compute. reflexivity. Qed.

(** The loop of [setattr]: null leaves the question and its answer alone. *)
Definition q_apply (now : instant) (by_ : uuid) (p : QuestionUpdateRequest) (q : InterviewQuestion) : InterviewQuestion :=
  mkQuestion (q_id q) (q_tenant_id q) (q_question_set_id q) (q_position q) (q_category q) (q_skill q) (q_difficulty q)
    (default (q_question q) (upd_question p ≫= id)) (q_purpose q)
    (default (q_expected_answer q) (upd_expected_answer p ≫= id)) (q_evaluation_points q) (q_red_flags q)
    (q_follow_ups q) (q_estimated_minutes q) (default (q_is_approved q) (upd_is_approved p ≫= id))
    (default (q_interviewer_notes q) (upd_interviewer_notes p)) (Some by_) (Some now).

Record QuestionSetAccepted := mkAccepted { acc_id : uuid; acc_status : string; acc_status_url : string }.

(** A set with its questions, by position. *)
Definition QuestionSetResponse : Type := InterviewQuestionSet * list InterviewQuestion.

Section api.
Context `{Settings}.

Definition _ensure_role (user : User) (roles : list string) : M World unit := require_roles roles user.

Definition _ensure_can_review (user : User) (application_id : uuid) : M World unit :=
  _ensure_role user REVIEWER_ROLES;;
  if bool_decide (user_role user = "Interviewer") then
    assigned ← select_where (λ i, bool_decide (iv_application_id i = application_id) &&
                                  bool_decide (iv_interviewer_id i = user_id user));
    reject_if (bool_decide (assigned = [])) 403
  else mret tt.

(** [selectinload(InterviewQuestionSet.questions)], ordered by position. *)
Definition _to_response (q : InterviewQuestionSet) : M World QuestionSetResponse :=
  l ← select_where (λ item, bool_decide (q_question_set_id item = qs_id q));
  mret (q, sort_by (λ item, Z.to_nat (q_position item)) l).

Definition _load_set (set_id : uuid) : M World QuestionSetResponse :=
  o ← select_by_id set_id;
  q ← or_raise o 404;
  _to_response q.

(** [queued]: Redis takes the job. *)
Definition request_question_set (queued : bool) (now later : instant) (fresh : uuid) (current_user : User)
    (payload : GenerateQuestionsRequest) : M World QuestionSetAccepted :=
  _ensure_role current_user MANAGER_ROLES;;
  reject_if (negb genai_enabled) 503;;
  o ← select_by_id (R:=Application) (gen_application_id payload);
  application ← or_raise o 404;
  resume ← latest_processed_resume (app_candidate_id application) (app_tenant_id application);
  reject_if (bool_decide (resume = None)) 409;;
  insert_row (mkQuestionSet fresh None (app_id application) (app_job_id application) (app_candidate_id application)
    (user_id current_user) "pending" (gen_language payload) (gen_question_count payload) (gen_difficulty payload)
    (gen_focus_skills payload) PROMPT_VERSION None None None None None None None 0 now None);;
  commit;;
  if queued then
    emit (Enqueue "generate_interview_questions_task" [Some (uuid_str fresh)]);;
    mret (mkAccepted fresh "pending" (API_V1_PREFIX +:+ "/genai/interview-questions/" +:+ uuid_str fresh))
  else
    update_row later fresh (qs_fail true later "افزودن کار به صف ناموفق بود (Redis در دسترس نیست)");;
    commit;;
    http_error 503.

Fixpoint to_responses (l : list InterviewQuestionSet) : M World (list QuestionSetResponse) :=
  match l with
  | [] => mret []
  | q :: rest => r ← _to_response q; rs ← to_responses rest; mret (r :: rs)
  end.

(** The rows [list_question_sets] pages through ([Pagination.v]), newest
    first, with their questions. *)
Definition list_question_sets (current_user : User) (application_id : uuid) : M World (list QuestionSetResponse) :=
  _ensure_can_review current_user application_id;;
  l ← select_where (λ q, bool_decide (qs_application_id q = application_id));
  to_responses l.

Definition get_question_set (current_user : User) (set_id : uuid) : M World QuestionSetResponse :=
  _ensure_role current_user REVIEWER_ROLES;;
  r ← _load_set set_id;
  _ensure_can_review current_user (qs_application_id r.1);;
  mret r.

(** A null approval violates the column and fails at the commit. *)
Definition update_question (now : instant) (current_user : User) (set_id question_id : uuid)
    (payload : QuestionUpdateRequest) : M World InterviewQuestion :=
  _ensure_role current_user REVIEWER_ROLES;;
  r ← _load_set set_id;
  _ensure_can_review current_user (qs_application_id r.1);;
  question ← or_raise (head (filter (λ item, q_id item = question_id) r.2)) 404;
  (if bool_decide (upd_is_approved payload = Some None) then raise (PyError "IntegrityError") else mret tt);;
  update_row now (q_id question) (q_apply now (user_id current_user) payload);;
  commit;;
  refresh (q_id question).

(** The conditions of [search_question_bank] on a row. *)
Definition bank_filter (skill difficulty category : option string) (q : InterviewQuestion) : bool :=
  q_is_approved q &&
  (negb (truthy skill) || bool_decide (lower (q_skill q) = lower (strip (default "" skill)))) &&
  (negb (truthy difficulty) || bool_decide (Some (q_difficulty q) = difficulty)) &&
  (negb (truthy category) || bool_decide (Some (q_category q) = category)).

(** The rows [search_question_bank] pages through, each with the job of its
    set. *)
Fixpoint bank_items (l : list InterviewQuestion) : M World (list (InterviewQuestion * uuid)) :=
  match l with
  | [] => mret []
  | q :: rest =>
      o ← select_by_id (R:=InterviewQuestionSet) (q_question_set_id q);
      match o with
      | None => raise (PyError "AttributeError")
      | Some s => items ← bank_items rest; mret ((q, qs_job_id s) :: items)
      end
  end.

Definition search_question_bank (current_user : User) (skill difficulty category : option string) :
    M World (list (InterviewQuestion * uuid)) :=
  _ensure_role current_user REVIEWER_ROLES;;
  l ← select_where (bank_filter skill difficulty category);
  bank_items l.
End api.
