(* ===== verification/GenaiLaws.v ===== *)
(** Laws of [Genai.v]: a requested set of questions is settled within the runs
    the queue gives its job, and the answers are shown to reviewers only. *)
From S2P Require Import Prelude PyText Unicode Sanitize Config Models Codecs Security Tenancy Orm Roles OrmLaws SkillGraph Questions Queue Profile Genai.
From Stdlib Require Import QArith.
Local Open Scope string_scope.
Local Open Scope Z_scope.
Local Open Scope list_scope.

(** ** The job *)

(** The loading of a profile reads three tables. *)
Section loading.
Context `{Unicode, FormatG, Settings}.

Lemma load_same run a w w' :
  ctx w = SYSTEM_CONTEXT → ctx w' = SYSTEM_CONTEXT →
  jobs (session w) = jobs (session w') → candidates (session w) = candidates (session w') →
  resumes (session w) = resumes (session w') →
  fst (load_interview_profile run a w) = fst (load_interview_profile run a w').
Proof.
  intros Hc Hc' Hj Hd Hr. unfold load_interview_profile. destruct (negb internal_api_enabled); [|by case_match].
  unfold build_profile_for_application, latest_processed_resume.
  rewrite !select_by_id_bind, !system_lookup by done. cbn [rows Job_table Candidate_table]. rewrite Hj, Hd.
  unfold mbind, M_bind, select_where, reads. cbn [fst snd].
  rewrite !system_rows by done. cbn [rows Resume_table]. rewrite Hr.
  destruct (mapM _ _); [|done]. mrun. by repeat case_match.
Qed.

Lemma load_readonly run a : readonly (load_interview_profile run a).
Proof.
  unfold load_interview_profile, build_profile_for_application, latest_processed_resume. readonly.
Qed.
End loading.

(** What the job starts from: a closed session of the worker, a set whose row
    is sound, and none of its questions. *)
Record Ready (w : World) (id : uuid) (q : InterviewQuestionSet) : Prop := {
  ready_ctx : ctx w = SYSTEM_CONTEXT;
  ready_closed : session w = committed w;
  ready_row : question_sets (committed w) !! id = Some q;
  ready_id : qs_id q = id;
  ready_ok : constraints (committed w) q = true;
  ready_empty : ∀ k r, questions (committed w) !! k = Some r → q_question_set_id r ≠ id }.

(** The set has changed, nothing else. *)
Definition set_row (id : uuid) (q : InterviewQuestionSet) (w : World) : World :=
  let db := with_rows (<[id := q]> (question_sets (committed w))) (committed w) in
  mkWorld db db (ctx w) (effects w).

(** The columns the constraints of a set speak of. *)
Definition same_refs (q q' : InterviewQuestionSet) : Prop :=
  qs_id q = qs_id q' ∧ qs_tenant_id q = qs_tenant_id q' ∧ qs_application_id q = qs_application_id q' ∧
  qs_job_id q = qs_job_id q' ∧ qs_candidate_id q = qs_candidate_id q' ∧ qs_requested_by q = qs_requested_by q'.

Definition legal_status (q : InterviewQuestionSet) : Prop :=
  qs_status q ∈ ["pending"; "processing"; "completed"; "failed"].

Lemma set_constraints db q q' :
  constraints db q = true → same_refs q q' → legal_status q' → constraints db q' = true.
Proof.
  intros Hk (_ & Ht & Ha & Hj & Hc & Hu) Hs. cbn in *. rewrite <- Ht, <- Ha, <- Hj, <- Hc, <- Hu.
  bool_to_prop. repeat (apply andb_true_iff; split); [done..|by apply bool_decide_eq_true].
Qed.

Lemma ready_set_row w id q q' :
  Ready w id q → same_refs q q' → legal_status q' →
  Ready (set_row id q' w) id q'.
Proof.
  intros [] Hs Hst. split; try done.
  - cbn. by rewrite lookup_insert_eq.
  - destruct Hs as [<- _]. done.
  - exact (set_constraints (committed w) q q' ready_ok0 Hs Hst).
Qed.

Lemma set_row_twice id q q' w : set_row id q' (set_row id q w) = set_row id q' w.
Proof. unfold set_row. cbn. by rewrite insert_insert_eq. Qed.

Section job.
Context `{Unicode, FormatG, Settings}.
Definition provider_model : option string := if nonempty GENAI_MODEL then Some GENAI_MODEL else None.

(** The row after a run has taken the set. *)
Definition taken (profile : json) (q : InterviewQuestionSet) : InterviewQuestionSet :=
  qs_set_profile profile provider_model (qs_start (qs_attempts q + 1) q).

Lemma update_set now id f w q :
  ctx w = SYSTEM_CONTEXT → question_sets (session w) !! id = Some q → constraints (session w) (f q) = true →
  update_row now id f w =
    (inr tt, mkWorld (committed w) (with_rows (<[id := f q]> (question_sets (session w))) (session w)) (ctx w) (effects w)).
Proof. intros Hc Hq Hk. by apply (system_update (H0:=QuestionSet_table)). Qed.

Lemma begin_run run w id q a profile :
  Ready w id q → qs_status q ∈ _OPEN_STATUSES →
  applications (committed w) !! qs_application_id q = Some a →
  fst (load_interview_profile run a w) = inr profile →
  run_request (begin_attempt run id) w = (inr (Some (profile, taken profile q)), set_row id (taken profile q) w).
Proof.
  intros [Hc Hs Hq Hid Hk He] Hopen Ha Hl. unfold run_request, begin_attempt.
  rewrite select_by_id_bind, system_lookup by done. cbn [rows QuestionSet_table]. rewrite Hs, Hq.
  rewrite bool_decide_true by done. cbn [negb].
  rewrite select_by_id_bind, system_lookup by done. cbn [rows Application_table]. rewrite Hs, Ha.
  set (q1 := qs_start (qs_attempts q + 1) q).
  assert (same_refs q q1 ∧ legal_status q1) as [Hr1 Hl1] by (split; [done|by right; left]).
  assert (update_row (run_now run) id (qs_start (qs_attempts q + 1)) w = _) as E0
    by (apply (update_set _ _ _ _ q); [done|by rewrite Hs|rewrite Hs; by apply (set_constraints _ q)]).
  rewrite (bind_ok _ _ _ _ _ E0). fold q1. set (w1 := mkWorld _ _ _ _).
  assert (load_interview_profile run a w1 = (inr profile, w1)) as E1.
  { pose proof (load_readonly run a w1) as Hro.
    rewrite (load_same run a w w1) in Hl by (done || (cbn; by rewrite Hs)).
    destruct (load_interview_profile run a w1) as [r w2]. cbn in Hl, Hro. by subst. }
  rewrite (bind_ok _ _ _ _ _ E1).
  assert (question_sets (session w1) !! id = Some q1) as Hq1 by (cbn; by rewrite lookup_insert_eq).
  assert (update_row (run_now run) id (qs_set_profile profile provider_model) w1 = _) as E2
    by (apply (update_set _ _ _ _ q1); [done|done|cbn [session w1]; rewrite Hs; by apply (set_constraints (committed w) q)]).
  rewrite (bind_ok _ _ _ _ _ E2), commit_bind. cbn. unfold set_row, mret, M_ret. cbn. by rewrite Hs, insert_insert_eq.
Qed.
Lemma get_set_bind {A} id q w (k : InterviewQuestionSet → M World A) :
  ctx w = SYSTEM_CONTEXT → question_sets (session w) !! id = Some q → (get_set id ≫= k) w = k q w.
Proof.
  intros Hc Hq. apply bind_ok. unfold get_set. rewrite select_by_id_bind, system_lookup by done.
  cbn [rows QuestionSet_table]. by rewrite Hq.
Qed.

Lemma fail_run run w id q final message :
  Ready w id q →
  run_request (record_failure run id final message) w = (inr tt, set_row id (qs_fail final (run_now run) message q) w).
Proof.
  intros [Hc Hs Hq Hid Hk He]. unfold run_request, record_failure.
  rewrite (get_set_bind _ q) by (done || by rewrite Hs).
  assert (update_row (run_now run) id (qs_fail final (run_now run) message) w = _) as E
    by (apply (update_set _ _ _ _ q); [done|by rewrite Hs|rewrite Hs; apply (set_constraints _ q); [done|done|]];
        unfold legal_status; cbn; destruct final; set_solver).
  rewrite (bind_ok _ _ _ _ _ E). unfold set_row. cbn. by rewrite Hs.
Qed.

(** *** The rows of the questions *)

Fixpoint added (keys : nat → uuid) (q : InterviewQuestionSet) (p : nat) (items : list GeneratedQuestion)
    (m : gmap uuid InterviewQuestion) : gmap uuid InterviewQuestion :=
  match items with
  | [] => m
  | item :: rest => added keys q (S p) rest (<[keys p := question_row (keys p) q (Z.of_nat p) item]> m)
  end.

Definition unused (keys : nat → uuid) (m : gmap uuid InterviewQuestion) (p : nat) : Prop :=
  ∀ i, (p ≤ i)%nat → m !! keys i = None.

Lemma unused_insert keys m p r : Inj (=) (=) keys → unused keys m p → unused keys (<[keys p := r]> m) (S p).
Proof.
  intros Hinj Hu i Hi. rewrite lookup_insert_ne; [apply Hu; lia|]. intros E%Hinj. lia.
Qed.

Lemma added_lookup keys q items : ∀ p m k r,
  Inj (=) (=) keys → unused keys m p →
  added keys q p items m !! k = Some r ↔
  m !! k = Some r ∨
  ∃ i item, items !! i = Some item ∧ k = keys (p + i)%nat ∧ r = question_row (keys (p + i)%nat) q (Z.of_nat (p + i)) item.
Proof.
  induction items as [|item items IH]; intros p m k r Hinj Hu; cbn [added].
  - split; [by left|]. by intros [?|(i & it & Hi & _)].
  - rewrite IH by (done || by apply unused_insert). split.
    + intros [Hk|(i & it & Hi & -> & ->)].
      * destruct (decide (k = keys p)) as [->|Hne].
        -- rewrite lookup_insert_eq in Hk. simplify_eq. right. exists 0%nat, item. by rewrite Nat.add_0_r.
        -- left. by rewrite lookup_insert_ne in Hk.
      * right. exists (S i), it. rewrite Nat.add_succ_r. done.
    + intros [Hk|([|i] & it & Hi & -> & ->)].
      * left. rewrite lookup_insert_ne; [done|]. intros <-. by rewrite Hu in Hk by lia.
      * left. rewrite Nat.add_0_r. cbn in Hi. simplify_eq. by rewrite lookup_insert_eq.
      * right. exists i, it. rewrite Nat.add_succ_r. done.
Qed.

Lemma add_questions_run keys q items : ∀ p w,
  Inj (=) (=) keys → ctx w = SYSTEM_CONTEXT → constraints (session w) q = true →
  exists_row (question_sets (session w)) (qs_id q) = true → forallb question_ok items = true →
  (∀ k r, questions (session w) !! k = Some r → q_question_set_id r = qs_id q → q_position r < Z.of_nat p) →
  unused keys (questions (session w)) p →
  add_questions keys q p items w =
    (inr tt, upd_session (with_rows (R:=InterviewQuestion) (added keys q p items (questions (session w)))) w).
Proof.
  induction items as [|item items IH]; intros p w Hinj Hc Hk Hs Hok Hpos Hu; cbn [add_questions added].
  - by destruct w as [c [] ? ?].
  - cbn [forallb] in Hok. apply andb_true_iff in Hok as [Hi Hok].
    set (r := question_row (keys p) q (Z.of_nat p) item).
    assert (constraints (session w) r = true) as Hkr.
    { cbn [constraints Question_table r question_row q_tenant_id q_question_set_id q_updated_by q_difficulty exists_opt].
      unfold question_ok in Hi. cbn in Hk. bool_to_prop. repeat (apply andb_true_iff; split); try done.
      - apply forallb_forall. intros o Ho%list_elem_of_In. apply list_elem_of_fmap in Ho as ([k o'] & -> & Ho).
        apply elem_of_map_to_list in Ho. cbn. apply orb_true_iff. right. apply negb_true_iff, bool_decide_eq_false.
        intros [= Hset Hp]. specialize (Hpos _ _ Ho Hset). lia.
      - by apply bool_decide_eq_true. }
    pose proof (system_insert (H0:=Question_table) r w Hc (Hu p (Nat.le_refl p)) Hkr) as E.
    rewrite (bind_ok _ _ _ _ _ E). rewrite IH; clear IH; try done.
    + intros k r' Hr' Hset. cbn in Hr'. destruct (decide (k = keys p)) as [->|Hne].
      * rewrite lookup_insert_eq in Hr'. simplify_eq. cbn. lia.
      * rewrite lookup_insert_ne in Hr' by done. specialize (Hpos _ _ Hr' Hset). lia.
    + by apply unused_insert.
Qed.
Lemma plan_length fit seniority n difficulty focus : length (plan_questions fit seniority n difficulty focus) = n.
Proof.
  destruct (plan_shape fit seniority n difficulty focus) as (t & r & -> & Hlen & _).
  rewrite length_fmap, (sort_by_perm slot_order _), length_take. cbn zeta in Hlen. lia.
Qed.

(** What a generation that succeeds has. *)
Lemma generated_ok decode describe http profile n difficulty focus r :
  _generate_with_settings decode describe http profile n difficulty focus = Ok r →
  question_set_ok (question_set r) = true ∧ (Z.to_nat n ≤ length (gs_questions (question_set r)))%nat.
Proof.
  unfold _generate_with_settings, generate_questions. do 2 (case_match; [done|]).
  destruct (profile_plan _ _ _ _) as [plan|] eqn:Ep; [|done]. cbn [or_else mbind Attempt_bind].
  assert (length plan = Z.to_nat n) as Hl.
  { unfold profile_plan in Ep. repeat (apply bind_Some in Ep as (? & _ & Ep)). simplify_eq. apply plan_length. }
  assert (∀ text s, _parse_for_plan decode text plan = Some s →
            question_set_ok s = true ∧ (Z.to_nat n ≤ length (gs_questions s))%nat) as Hp.
  { intros text s Hs. unfold _parse_for_plan, parse_question_set in Hs. apply bind_Some in Hs as (s' & Hs' & Hs).
    apply bind_Some in Hs' as (s'' & _ & Hs''). destruct (question_set_ok s'') eqn:Eok; simplify_eq.
    destruct (Nat.ltb_spec (length (gs_questions s')) (length plan)); simplify_eq. split; [done|lia]. }
  destruct (complete_json _ (http 0%nat).2) as [first| |]; [|done|done]. cbn [mbind Attempt_bind].
  destruct (_parse_for_plan _ (content first) plan) as [s|] eqn:E1; [intros [= <-]; by apply (Hp (content first))|].
  destruct (complete_json _ (http 1%nat).2) as [second| |]; [|done|done]. cbn [mbind Attempt_bind].
  destruct (_parse_for_plan _ (content second) plan) as [s|] eqn:E2; [intros [= <-]; by apply (Hp (content second))|done].
Qed.

(** The committed state after a run that succeeds. *)
Lemma success_run run w id q profile r :
  Ready w id q → Inj (=) (=) (run_keys run) → unused (run_keys run) (questions (committed w)) 0 →
  question_set_ok (question_set r) = true →
  let q' := qs_complete (run_now run) profile r q in
  let items := take (Z.to_nat (qs_question_count q)) (gs_questions (question_set r)) in
  ∃ w', run_request (record_success run id profile r) w = (inr tt, w') ∧
    question_sets (committed w') = <[id := q']> (question_sets (committed w)) ∧
    questions (committed w') = added (run_keys run) q 1 items (questions (committed w)).
Proof.
  intros [Hc Hs Hq Hid Hk He] Hinj Hu Hok q' items. unfold run_request, record_success.
  rewrite (get_set_bind _ q) by (done || by rewrite Hs). fold items.
  assert (forallb question_ok items = true) as Hitems.
  { unfold question_set_ok in Hok. bool_to_prop. rewrite forallb_elem_of in *. intros x Hx.
    apply subseteq_take in Hx. auto. }
  eassert (add_questions (run_keys run) q 1 items w = _) as E.
  { apply add_questions_run; rewrite ?Hs; try done.
    - unfold exists_row. by rewrite Hid, Hq.
    - intros k x Hx Hset. rewrite Hid in Hset. by destruct (He k x Hx).
    - intros i _. apply Hu. lia. }
  rewrite (bind_ok _ _ _ _ _ E). set (w1 := upd_session _ w).
  eassert (update_row (run_now run) id (qs_complete (run_now run) profile r) w1 = _) as E2.
  { apply (update_set _ _ _ _ q); [done|cbn; by rewrite Hs|]. cbn [session w1 upd_session].
    rewrite Hs. apply (set_constraints (committed w) q); [done|done|]. unfold legal_status. cbn. set_solver. }
  rewrite (bind_ok _ _ _ _ _ E2). eexists. split; [reflexivity|]. cbn. by rewrite Hs.
Qed.
End job.

(** ** A set settles *)

(** The fields the model has written. *)
Definition as_generated (r : InterviewQuestion) : GeneratedQuestion :=
  mkGenerated (q_category r) (q_skill r) (q_difficulty r) (q_question r) (q_purpose r) (q_expected_answer r)
    (q_evaluation_points r) (q_red_flags r) (q_follow_ups r) (q_estimated_minutes r).

(** The questions of a set are exactly one for each position from 1 to [n],
    of the contract's form, and none is approved. *)
Definition complete_questions (db : Db) (id : uuid) (n : Z) : Prop :=
  (∀ p, 1 ≤ p ≤ n → ∃ k r, questions db !! k = Some r ∧ q_question_set_id r = id ∧ q_position r = p) ∧
  (∀ k r, questions db !! k = Some r → q_question_set_id r = id →
     1 ≤ q_position r ≤ n ∧ q_is_approved r = false ∧ question_ok (as_generated r) = true ∧
     ∀ k' r', questions db !! k' = Some r' → q_question_set_id r' = id → q_position r' = q_position r → k' = k).

Definition settled (w : World) (id : uuid) : Prop :=
  ∃ q, question_sets (committed w) !! id = Some q ∧ is_Some (qs_completed_at q) ∧
    (qs_status q = "failed" ∧ is_Some (qs_error q) ∨
     qs_status q = "completed" ∧ is_Some (qs_focus_summary q) ∧
       complete_questions (committed w) id (qs_question_count q)).

Lemma added_complete db m keys q items n :
  questions db = added keys q 1 items m → Inj (=) (=) keys → unused keys m 0 →
  (∀ k r, m !! k = Some r → q_question_set_id r ≠ qs_id q) →
  forallb question_ok items = true → length items = Z.to_nat n →
  complete_questions db (qs_id q) n.
Proof.
  intros Hdb Hinj Hu He Hok Hlen.
  assert (∀ k r, questions db !! k = Some r ∧ q_question_set_id r = qs_id q ↔
    ∃ i item, items !! i = Some item ∧ k = keys (1 + i)%nat ∧
      r = question_row (keys (1 + i)%nat) q (Z.of_nat (1 + i)) item) as Hl.
  { intros k r. rewrite Hdb, added_lookup by (done || (intros i _; apply Hu; lia)). split.
    - intros [[Hm|Hx] Hs]; [by destruct (He _ _ Hm)|done].
    - intros Hx. split; [by right|]. by destruct Hx as (i & it & _ & _ & ->). }
  split.
  - intros p Hp. destruct (lookup_lt_is_Some_2 items (Z.to_nat (p - 1)) ltac:(lia)) as [item Hi].
    exists (keys (1 + Z.to_nat (p - 1))%nat), (question_row (keys (1 + Z.to_nat (p - 1))%nat) q (Z.of_nat (1 + Z.to_nat (p - 1))) item).
    rewrite assoc by apply _. split; [apply Hl; eauto|]. cbn [question_row q_position]. lia.
  - intros k r Hr Hs. destruct (proj1 (Hl k r) (conj Hr Hs)) as (i & item & Hi & -> & ->).
    cbn [question_row q_position q_is_approved]. pose proof (lookup_lt_Some _ _ _ Hi). split_and!; [lia|lia|done| |].
    + rewrite forallb_elem_of in Hok. rewrite <- (Hok item) by (by eapply list_elem_of_lookup_2). by destruct item.
    + intros k' r' Hr' Hs' Hp. destruct (proj1 (Hl k' r') (conj Hr' Hs')) as (j & item' & Hj & -> & ->).
      cbn [question_row q_position] in Hp. f_equal. lia.
Qed.

Section settles.
Context `{Unicode, FormatG, Settings}.
Context (decode : string → option GeneratedQuestionSet) (describe : string → string).

(** The profile loads, and can be planned for (as every profile this program
    builds can, [Profile.profile_plans]). *)
Definition profile_loads (run : Run) (w : World) (a : Application) (q : InterviewQuestionSet) : Prop :=
  ∃ profile, fst (load_interview_profile run a w) = inr profile ∧
    is_Some (profile_plan profile (Z.to_nat (qs_question_count q)) (qs_difficulty q) (qs_focus_skills q)).

(** The provider answers, or fails, in ways the client knows. *)
Definition provider_known (run : Run) : Prop :=
  ∀ k name, complete_json (run_http run k).1 (run_http run k).2 ≠ Crash name.

Lemma generate_known run profile q :
  provider_known run →
  is_Some (profile_plan profile (Z.to_nat (qs_question_count q)) (qs_difficulty q) (qs_focus_skills q)) →
  ∀ name, _generate_with_settings decode describe (run_http run) profile (qs_question_count q) (qs_difficulty q)
            (qs_focus_skills q) ≠ Crash name.
Proof.
  intros Hp [plan Hplan] name. unfold _generate_with_settings, generate_questions. do 2 (case_match; [done|]).
  rewrite Hplan. cbn [or_else mbind Attempt_bind].
  pose proof (Hp 0%nat) as H0'. destruct (complete_json _ (run_http run 0%nat).2); [|done|by destruct (H0' name0)].
  cbn [mbind Attempt_bind]. case_match; [done|].
  pose proof (Hp 1%nat) as H1'. destruct (complete_json _ (run_http run 1%nat).2); [|done|by destruct (H1' name0)].
  cbn [mbind Attempt_bind]. by case_match.
Qed.

(** One run: the set is settled, or the run raises and the set waits with one
    attempt more; after the third attempt it is settled. *)
Lemma job_step run w id q a :
  Ready w id q → qs_status q ∈ _OPEN_STATUSES →
  applications (committed w) !! qs_application_id q = Some a →
  profile_loads run w a q → provider_known run →
  Inj (=) (=) (run_keys run) → unused (run_keys run) (questions (committed w)) 0 →
  let '(r, w') := run_question_set_job decode describe run id w in
  (r = inr tt ∧ settled w' id) ∨
  ((∃ e, r = inl e) ∧ qs_attempts q + 1 < MAX_ATTEMPTS ∧
   ∃ q', w' = set_row id q' w ∧ same_refs q q' ∧ qs_status q' = "pending" ∧ qs_attempts q' = qs_attempts q + 1 ∧
     qs_question_count q' = qs_question_count q ∧ qs_difficulty q' = qs_difficulty q ∧
     qs_focus_skills q' = qs_focus_skills q).
Proof.
  intros Hw Hopen Ha (profile & Hl & Hplan) Hknown Hinj Hu. unfold run_question_set_job.
  rewrite (bind_ok _ _ _ _ _ (begin_run run w id q a profile Hw Hopen Ha Hl)).
  set (q1 := taken profile q).
  assert (Ready (set_row id q1 w) id q1) as Hw1 by (apply (ready_set_row _ _ q); [done|done|by right; left]).
  pose proof (generate_known run profile q Hknown Hplan) as Hcrash.
  change (qs_question_count q1) with (qs_question_count q). change (qs_difficulty q1) with (qs_difficulty q).
  change (qs_focus_skills q1) with (qs_focus_skills q).
  destruct (_generate_with_settings _ _ _ _ _ _ _) as [r|message retryable|name] eqn:Eg; [| |by destruct (Hcrash name)].
  - destruct (generated_ok _ _ _ _ _ _ _ _ Eg) as [Hok Hlen].
    destruct (success_run run (set_row id q1 w) id q1 profile r Hw1 Hinj Hu Hok) as (w' & -> & Hsets & Hqs).
    left. split; [done|]. eexists. split; [rewrite Hsets; apply lookup_insert_eq|]. split; [by eexists|]. right.
    split; [done|]. split; [by eexists|]. rewrite <- (ready_id _ _ _ Hw).
    eapply (added_complete _ _ _ q1); [exact Hqs|done|done| | |].
    + intros k x Hx. rewrite (ready_id _ _ _ Hw1). apply (ready_empty _ _ _ Hw1 k x Hx).
    + unfold question_set_ok in Hok. bool_to_prop. rewrite forallb_elem_of in *. intros x Hx.
      apply subseteq_take in Hx. auto.
    + rewrite length_take. cbn [qs_complete qs_question_count]. change (qs_question_count q1) with (qs_question_count q). lia.
  - change (qs_attempts q1) with (qs_attempts q + 1). set (final := negb retryable || (MAX_ATTEMPTS <=? qs_attempts q + 1)).
    rewrite (bind_ok _ _ _ _ _ (fail_run run _ id q1 final message Hw1)), set_row_twice.
    destruct final eqn:Ef.
    + left. split; [done|]. eexists. split; [apply lookup_insert_eq|]. split; [by eexists|]. left. split; [done|by eexists].
    + right. split; [by eexists|]. apply orb_false_iff in Ef as [_ Ef]. split; [lia|].
      eexists. split; [reflexivity|]. done.
Qed.

Lemma retried_settles id : ∀ n k runs w q a,
  Ready w id q → qs_status q ∈ _OPEN_STATUSES →
  applications (committed w) !! qs_application_id q = Some a →
  (∀ k, profile_loads (runs k) w a q) → (∀ k, provider_known (runs k)) →
  (∀ k, Inj (=) (=) (run_keys (runs k)) ∧ unused (run_keys (runs k)) (questions (committed w)) 0) →
  MAX_ATTEMPTS ≤ qs_attempts q + Z.of_nat n → (0 < n)%nat →
  let '(r, w') := retried n k (λ k, run_question_set_job decode describe (runs k) id) w in r = inr tt ∧ settled w' id.
Proof.
  induction n as [|n IH]; intros k runs w q a Hw Hopen Ha Hl Hknown Hkeys Hn Hpos; [lia|].
  cbn [retried]. unfold try_except. destruct (Hkeys k) as [Hinj Hu].
  pose proof (job_step (runs k) w id q a Hw Hopen Ha (Hl k) (Hknown k) Hinj Hu) as Hs.
  destruct (run_question_set_job decode describe (runs k) id w) as [[e|[]] w'].
  2: { destruct Hs as [[_ Hs]|[[e [=]] _]]. done. }
  destruct Hs as [[[=] _]|(_ & Hlt & q' & -> & Hrefs & Hst & Hat & Hcount & Hdiff & Hfocus)].
  apply (IH (S k) runs (set_row id q' w) q' a).
  - apply (ready_set_row _ _ q); [done|done|]. unfold legal_status. rewrite Hst. by left.
  - rewrite Hst. by left.
  - destruct Hrefs as (_ & _ & <- & _). done.
  - intros j. destruct (Hl j) as (profile & Hload & Hplan). exists profile. rewrite Hcount, Hdiff, Hfocus.
    split; [|done]. rewrite <- Hload. destruct Hw as [Hc Hs _ _ _ _]. by apply load_same; rewrite ?Hs.
  - done.
  - done.
  - lia.
  - lia.
Qed.

End settles.

(** When the profile cannot be fetched, no attempt is recorded: after the last
    run of the queue the set waits for ever. *)
Section stranded.
Context `{Unicode, FormatG, Settings}.
Context (decode : string → option GeneratedQuestionSet) (describe : string → string).

Lemma unreachable_run run w id q a e :
  Ready w id q → qs_status q ∈ _OPEN_STATUSES →
  applications (committed w) !! qs_application_id q = Some a →
  internal_api_enabled = true → run_fetch run (app_id a) = inl e →
  run_question_set_job decode describe run id w = (inl e, w).
Proof.
  intros [Hc Hs Hq Hid Hk He] Hopen Ha Hi Hf. unfold run_question_set_job, run_request.
  assert (begin_attempt run id w = (inl e, mkWorld (committed w)
    (with_rows (<[id := qs_start (qs_attempts q + 1) q]> (question_sets (committed w))) (committed w)) (ctx w) (effects w))) as E.
  { unfold begin_attempt. rewrite select_by_id_bind, system_lookup by done. cbn [rows QuestionSet_table]. rewrite Hs, Hq.
    rewrite bool_decide_true by done. cbn [negb].
    rewrite select_by_id_bind, system_lookup by done. cbn [rows Application_table]. rewrite Hs, Ha.
    assert (update_row (run_now run) id (qs_start (qs_attempts q + 1)) w = _) as E0
      by (apply (update_set _ _ _ _ q); [done|by rewrite Hs|rewrite Hs; apply (set_constraints _ q);
          [done|done|by right; left]]).
    rewrite (bind_ok _ _ _ _ _ E0). unfold load_interview_profile. rewrite Hi. cbn [negb]. rewrite Hf. by rewrite Hs. }
  unfold mbind, M_bind. rewrite E. cbn. destruct w; cbn in *. by subst.
Qed.

Lemma unreachable_profile_strands_set (run : nat → Run) w id q a e :
  Ready w id q → qs_status q ∈ _OPEN_STATUSES →
  applications (committed w) !! qs_application_id q = Some a →
  internal_api_enabled = true → (∀ k, run_fetch (run k) (app_id a) = inl e) →
  generate_interview_questions_task decode describe run id w = (inl (PyError "RetriesExhausted"), w).
Proof.
  intros Hw Hopen Ha Hi Hf. unfold generate_interview_questions_task.
  change (Queue.runs _) with 3%nat. cbn [retried]. unfold try_except.
  by rewrite !(unreachable_run _ _ _ q a e) by done.
Qed.
End stranded.

(** *** An organisation with one application *)

Definition demo_settings : Settings :=
  let '(mkSettings a b c d e f g h i j k l m n o p q r s t u v w x y z a1 b1 c1 d1 e1 _ _ i1 j1 k1) := default_settings in
  mkSettings a b c d e f g h i j k l m n o p q r s t u v w x y z a1 b1 c1 d1 e1 "http://llm" "any-model" i1 j1 k1.

Definition demo_set : InterviewQuestionSet :=
  mkQuestionSet 6 (Some 1%N) 5 4 3 2 "pending" "en" 3 "mixed" ["Docker"] PROMPT_VERSION None None None None None None None
    0 0 None.

Definition demo_application : Application := mkApplication 5 (Some 1%N) 4 3 "Screening" (Some 70) 0 0.

Definition demo_db : Db := {|
  users := {[2%N := mkUser 2 "hr@a.com" "" "HR_Manager" true 0 (Some 1%N) None None None]};
  companies := {[1%N := mkCompany 1 "A" None None 2]};
  candidates := {[3%N := mkCandidate 3 2 "Ali" "R" None (Some ["Python"]) None]};
  jobs := {[4%N := mkJob 4 (Some 1%N) (Some 1%N) 2 "Developer" None None (Some ["Python"; "Go"]) None "Open" None None None 0]};
  applications := {[5%N := demo_application]};
  interviews := ∅;
  resumes := {[8%N := mkResume 8 (Some 1%N) 3 "f" None None None
                        (Some (JObj [("skills", JArr [JStr "Python"]); ("total_experience_years", JInt 4);
                                     ("experience_entries", JArr [])])) None]};
  skills := ∅; notifications := ∅; status_history := ∅; question_sets := {[6%N := demo_set]}; questions := ∅ |}.

Definition demo_world : World := mkWorld demo_db demo_db SYSTEM_CONTEXT [].

Definition demo_question : GeneratedQuestion :=
  mkGenerated "technical" "Python" "easy" "What is a generator?" "a strength" "A lazy iterator." ["yield"] [] [] 5.

Definition demo_decode (text : string) : option GeneratedQuestionSet :=
  if bool_decide (text = "") then None
  else Some (mkGeneratedSet "Python and gaps" (replicate 4 demo_question)).

(** The first call times out, the second run is answered. *)
Definition demo_run (k : nat) : Run :=
  mkRun (Z.of_nat k) (λ i, N.of_nat (100 + i)) (λ _, inl (PyError "ConnectError"))
    (λ _, (5, if bool_decide (k = 0%nat) then TimedOut "t"
              else Answered 200 "" (Some (JObj [("choices", JArr [JObj [("message", JObj [("content", JStr "{}")])]])])))).

Lemma demo_ready : Ready demo_world 6 demo_set.
Proof. by split; vm_compute. Qed.

Section demo.
#[local] Instance demo_unicode : Unicode := text_unicode.
#[local] Instance demo_format : FormatG := {| format_g _ := "" |}.
#[local] Instance demo_env : Settings := demo_settings.

Lemma demo_loads k : profile_loads (demo_run k) demo_world demo_application demo_set.
Proof. eexists. split; [vm_compute; reflexivity|]. eexists. vm_compute. reflexivity. Qed.

Lemma demo_known k : provider_known (demo_run k).
Proof. intros i name. destruct k; by vm_compute. Qed.

End demo.
