(* ===== verification/Privacy.v ===== *)
(** The deletion of an account ([app/core/privacy.py], [DELETE /candidates/me/]
    of [app/routers/candidates.py]): the rows stay for the statistics of the
    organisations, the identity in them goes.

    The random parts - the code of the new name, the new address and the new
    password - are arguments, and so is what the storage says of a file. *)
From S2P Require Import Prelude PyText Config Storage Models Codecs Security Tenancy Orm OrmLaws Roles Redis RedisLaws Sessions Cache Auth.
From S2P Require Import StateMachine Kanban Board Analytics.
From Stdlib Require Import QArith.
Local Open Scope string_scope.
Local Open Scope Z_scope.
Local Open Scope list_scope.

Definition ANONYMIZED_FIRST_NAME : string := "کاربر حذف‌شده".
Definition ANONYMIZED_EMAIL_DOMAIN : string := "anonymized.invalid".
Definition DELETED_FILE_URL_PREFIX : string := "deleted:".

Record AnonymizationResult := mkAnonymization { resumes_cleared : nat; files_deleted : nat }.

(** The answer [None] is written to the JSONB column as JSON null. *)
Definition _anonymous_skill_analysis (analysis : option json) : option json :=
  match analysis with
  | None => None
  | Some j =>
      if json_falsy j then Some JNull else
      let skills := default JNull (json_get "skills" j) in
      Some (JObj [("skills", if json_falsy skills then JArr [] else skills);
                  ("total_experience_years", default JNull (json_get "total_experience_years" j))])
  end.

(** ** What is left of the rows *)

Definition res_forget (r : Resume) : Resume :=
  mkResume (res_id r) (res_tenant_id r) (res_candidate_id r) (DELETED_FILE_URL_PREFIX +:+ uuid_str (res_id r))
    None None None (_anonymous_skill_analysis (res_skill_analysis r)) (res_agent_analysis r).

Definition cand_forget (code : string) (c : Candidate) : Candidate :=
  mkCandidate (cand_id c) (cand_user_id c) ANONYMIZED_FIRST_NAME ("#" +:+ code) None None None.

Definition deleted_email (fresh : uuid) : string := "deleted-" +:+ uuid_hex fresh +:+ "@" +:+ ANONYMIZED_EMAIL_DOMAIN.

Definition user_forget (now : instant) (fresh : uuid) (password_hash : string) (u : User) : User :=
  mkUser (user_id u) (deleted_email fresh) password_hash (user_role u) false (user_created_at u)
    (user_tenant_id u) (user_data_consent_at u) (user_data_consent_version u) (Some now).

(** ** Files *)

(** What the storage answers for a URL: whether the file is there and whether
    its removal works. *)
Record Disk := mkDisk { is_file : string → bool; unlinks : string → bool }.

Section privacy.
Context `{Settings, PasswordLib}.
Variable cwd : abs_path.

Definition delete_file (disk : Disk) (file_url : string) : M World bool :=
  let remove := if unlinks disk file_url then emit (RemovedFile file_url);; mret true
                else raise (PyError "StorageError") in
  if bool_decide (STORAGE_BACKEND = "s3") then
    match _object_key_from_url file_url with None => mret false | Some _ => remove end
  else
    match resolve_local_media_path cwd file_url with
    | None => mret false
    | Some _ => if is_file disk file_url then remove else mret false
    end.

Fixpoint delete_files (disk : Disk) (file_urls : list string) : M World nat :=
  match file_urls with
  | [] => mret 0%nat
  | file_url :: rest =>
      n ← try_except (b ← delete_file disk file_url; mret (if (b : bool) then 1%nat else 0%nat)) (λ _, mret 0%nat);
      m ← delete_files disk rest;
      mret (n + m)%nat
  end.

(** ** The transaction *)

(** The loop over the resumes: the files that are still to be deleted. *)
Fixpoint clear_resumes (now : instant) (l : list Resume) : M World (list string) :=
  match l with
  | [] => mret []
  | r :: rest =>
      update_row now (res_id r) res_forget;;
      file_urls ← clear_resumes now rest;
      mret (if startswith (res_file_url r) DELETED_FILE_URL_PREFIX then file_urls else res_file_url r :: file_urls)
  end.

Definition anonymize_rows (now : instant) (code : string) (fresh : uuid) (salt secret : string) (user : User) :
    M World (list string * nat) :=
  system_scope (
    l ← select_where (λ c, bool_decide (cand_user_id c = user_id user));
    candidate ← scalar_one_or_none l;
    p ← match candidate with
        | None => mret ([], 0%nat)
        | Some candidate =>
            resumes ← select_where (λ r, bool_decide (res_candidate_id r = cand_id candidate));
            file_urls ← clear_resumes now resumes;
            update_row now (cand_id candidate) (cand_forget code);;
            mret (file_urls, length resumes)
        end;
    o ← select_by_id (R:=User) (user_id user);
    match o with
    | None => raise (PyError "AttributeError")
    | Some _ =>
        update_row now (user_id user) (user_forget now fresh (hash_password salt secret));;
        commit;;
        mret p
    end).

Context `{JsonText, FloatText, Redis St}.

Definition anonymize_candidate_account (now : instant) (clk : time) (code : string) (fresh : uuid)
    (salt secret : string) (disk : Disk) (user : User) : M (AppWorld St) AnonymizationResult :=
  '(file_urls, cleared) ← on_db (anonymize_rows now code fresh salt secret user);
  let uid := uuid_str (user_id user) in
  on_redis (try_except
    (revoke_all_sessions clk uid;;
     execute clk [DEL [KNOWN_DEVICES_KEY_PREFIX +:+ uid; LOGIN_HISTORY_KEY_PREFIX +:+ uid]])
    (λ _, mret tt));;
  on_redis (delete_cached clk (_session_cache_key (user_id user)));;
  n ← on_db (delete_files disk file_urls);
  mret (mkAnonymization cleared n).

(** [DELETE /candidates/me/] *)
Definition delete_my_account (now : instant) (clk : time) (code : string) (fresh : uuid)
    (salt secret : string) (disk : Disk) (current_user : User) : M (AppWorld St) AnonymizationResult :=
  on_db (require_roles ["Candidate"] current_user);;
  anonymize_candidate_account now clk code fresh salt secret disk current_user.
End privacy.

(** ** The specification: one map over each table *)

Definition mine (user : uuid) (c : Candidate) : bool := bool_decide (cand_user_id c = user).

Definition of_user (user : uuid) (db : Db) (r : Resume) : bool :=
  existsb (λ c, mine user c && bool_decide (cand_id c = res_candidate_id r)) (map_to_list (candidates db)).*2.

Definition anonymized (now : instant) (code : string) (fresh : uuid) (hash : string) (user : uuid) (db : Db) : Db :=
  mkDb (alter (user_forget now fresh hash) user (users db)) (companies db)
    ((λ c, if mine user c then cand_forget code c else c) <$> candidates db)
    (jobs db) (applications db) (interviews db)
    ((λ r, if of_user user db r then res_forget r else r) <$> resumes db)
    (skills db) (notifications db) (status_history db) (question_sets db) (questions db).

(** ** The loop over the resumes *)

Section rows.
Context `{Settings, PasswordLib}.

Definition set_resumes (m : gmap uuid Resume) (db : Db) : Db := with_rows (R:=Resume) m db.

(** The rows of [l] are rewritten, the others stay. *)
Lemma clear_resumes_spec now l : ∀ w,
  ctx w = SYSTEM_CONTEXT → NoDup (res_id <$> l) →
  (∀ r, r ∈ l → resumes (session w) !! res_id r = Some r ∧ constraints (session w) r = true) →
  ∃ m, clear_resumes now l w =
    (inr (res_file_url <$> filter (λ r, negb (startswith (res_file_url r) DELETED_FILE_URL_PREFIX) = true) l),
     mkWorld (committed w) (set_resumes m (session w)) SYSTEM_CONTEXT (effects w)) ∧
    (∀ r, r ∈ l → m !! res_id r = Some (res_forget r)) ∧
    (∀ k, k ∉ res_id <$> l → m !! k = resumes (session w) !! k).
Proof.
  induction l as [|r l IH]; intros w Hc Hnd Hrows.
  - exists (resumes (session w)). split_and!; [|set_solver|done]. destruct w as [cm [] cx ef]. cbn in *. by rewrite Hc.
  - rewrite fmap_cons in Hnd. apply NoDup_cons in Hnd as [Hni Hnd]. destruct (Hrows r ltac:(left)) as [Hr Hk].
    cbn [clear_resumes].
    pose proof (system_update (H0:=Resume_table) now (res_id r) res_forget w r Hc Hr Hk) as Eu.
    rewrite (bind_ok _ _ w tt _ Eu).
    set (w1 := upd_session _ w).
    destruct (IH w1) as (m & E & Hin & Hout); [done|done| |].
    { intros x Hx. destruct (Hrows x ltac:(by right)) as [Hx1 Hx2]. split; [|done].
      cbn. rewrite lookup_insert_ne; [done|]. intros Heq. apply Hni. rewrite Heq. by apply list_elem_of_fmap_2. }
    exists m. rewrite (bind_ok _ _ _ _ _ E). split_and!.
    + rewrite filter_cons. destruct (startswith (res_file_url r) DELETED_FILE_URL_PREFIX); done.
    + intros x [->|Hx]%elem_of_cons; [|by apply Hin]. rewrite Hout by done. cbn. by rewrite lookup_insert_eq.
    + intros k Hk'. rewrite fmap_cons, not_elem_of_cons in Hk'. destruct Hk' as [Hne Hk'].
      rewrite Hout by done. cbn. by rewrite lookup_insert_ne.
Qed.
End rows.

Section table_rows.
Context `{Table R}.

Lemma elem_of_rows db (r : R) : table_ok R db → r ∈ (map_to_list (rows db)).*2 ↔ rows db !! pk r = Some r.
Proof.
  intros Hok. rewrite list_elem_of_fmap. split.
  - intros ([k x] & -> & Hx%elem_of_map_to_list). cbn. destruct (Hok k x Hx) as [-> _]. done.
  - intros Hr. exists (pk r, r). by rewrite elem_of_map_to_list.
Qed.

Lemma rows_ids db : table_ok R db → pk <$> (map_to_list (rows db)).*2 = (map_to_list (rows db)).*1.
Proof.
  intros Hok. rewrite <- list_fmap_compose. apply list_fmap_ext. intros i [k x] Hi.
  apply list_elem_of_lookup_2, elem_of_map_to_list in Hi. by apply Hok.
Qed.

Lemma NoDup_filter_ids (p : R → bool) db :
  table_ok R db → NoDup (pk <$> filter (λ r, p r = true) (map_to_list (rows db)).*2).
Proof.
  intros Hok. pose proof (NoDup_fst_map_to_list (rows db)) as Hnd. rewrite <- rows_ids in Hnd by done.
  eapply sublist_NoDup; [exact Hnd|]. apply fmap_sublist, sublist_filter.
Qed.
End table_rows.

(** A user has at most one profile. *)
Lemma own_candidates db user :
  table_ok Candidate db →
  let l := filter (λ c, bool_decide (cand_user_id c = user) = true) (map_to_list (candidates db)).*2 in
  l = [] ∨ ∃ c, l = [c] ∧ candidates db !! cand_id c = Some c ∧ cand_user_id c = user.
Proof.
  intros Hok l. assert (∀ c, c ∈ l → candidates db !! cand_id c = Some c ∧ cand_user_id c = user) as Hin.
  { intros c [Hc Hin]%list_elem_of_filter. apply bool_decide_eq_true in Hc.
    split; [|done]. by apply (elem_of_rows (R:=Candidate) db c Hok). }
  pose proof (NoDup_filter_ids (R:=Candidate) (λ c, bool_decide (cand_user_id c = user)) db Hok) as Hnd.
  change (NoDup (cand_id <$> l)) in Hnd. destruct l as [|c [|d l']] eqn:El; [by left| |].
  - right. exists c. split; [done|]. apply Hin. left.
  - exfalso. destruct (Hin c ltac:(left)) as [Hc Huc], (Hin d ltac:(right; left)) as [Hd Hud].
    destruct (Hok _ _ Hc) as [_ Hk]. cbn in Hk. apply andb_true_iff in Hk as [Hk _].
    unfold unique_col in Hk. rewrite forallb_elem_of in Hk.
    specialize (Hk d (proj2 (elem_of_rows (R:=Candidate) db d Hok) Hd)).
    rewrite (bool_decide_true (cand_user_id d = cand_user_id c)) in Hk by congruence.
    rewrite orb_false_r in Hk. apply bool_decide_eq_true in Hk.
    cbn in Hk, Hnd. apply NoDup_cons in Hnd as [Hni _]. apply Hni. rewrite Hk. left.
Qed.

(** ** The transaction meets its specification *)

Section transaction.
Context `{Settings, PasswordLib}.

(** The resumes of a profile are those of its user. *)
Lemma of_user_iff db user c r :
  table_ok Candidate db → candidates db !! cand_id c = Some c → cand_user_id c = user →
  (∀ d, candidates db !! cand_id d = Some d → cand_user_id d = user → d = c) →
  of_user user db r = bool_decide (res_candidate_id r = cand_id c).
Proof.
  intros Hok Hc Hu Huniq. apply eq_true_iff_eq. unfold of_user, mine. rewrite existsb_exists, bool_decide_eq_true. split.
  - intros (d & Hd%list_elem_of_In & [Hm Hi]%andb_true_iff). apply bool_decide_eq_true in Hm, Hi.
    apply (elem_of_rows (R:=Candidate) db d Hok) in Hd. rewrite (Huniq d Hd Hm) in Hi. done.
  - intros Hr. exists c. split; [by apply list_elem_of_In, (elem_of_rows (R:=Candidate) db c Hok)|].
    apply andb_true_iff. by rewrite !bool_decide_eq_true.
Qed.

Lemma of_user_none db user r :
  (∀ c, c ∈ (map_to_list (candidates db)).*2 → cand_user_id c ≠ user) → of_user user db r = false.
Proof.
  intros Hn. unfold of_user. apply existsb_false. intros c Hc. unfold mine.
  by rewrite bool_decide_false by (by apply Hn).
Qed.

(** The database after the loop and the profile. *)
Lemma profile_cleared now code db user c m :
  table_ok Candidate db → table_ok Resume db → candidates db !! cand_id c = Some c → cand_user_id c = user →
  (∀ d, candidates db !! cand_id d = Some d → cand_user_id d = user → d = c) →
  (∀ r, r ∈ filter (λ r, bool_decide (res_candidate_id r = cand_id c) = true) (map_to_list (resumes db)).*2 →
     m !! res_id r = Some (res_forget r)) →
  (∀ k, k ∉ res_id <$> filter (λ r, bool_decide (res_candidate_id r = cand_id c) = true) (map_to_list (resumes db)).*2 →
     m !! k = resumes db !! k) →
  m = (λ r, if of_user user db r then res_forget r else r) <$> resumes db ∧
  <[cand_id c := cand_forget code c]> (candidates db) =
    (λ c, if mine user c then cand_forget code c else c) <$> candidates db ∧
  constraints db (on_update now (cand_forget code c)) = true.
Proof.
  intros Hcok Hrok Hc Hu Huniq Hin Hout. split_and!.
  - apply map_eq. intros k. rewrite lookup_fmap. destruct (resumes db !! k) as [r|] eqn:Hr; cbn.
    + destruct (Hrok k r Hr) as [Hk _]. cbn in Hk. rewrite (of_user_iff db user c) by done.
      assert (r ∈ (map_to_list (resumes db)).*2) as Hel
        by (apply (elem_of_rows (R:=Resume) db r Hrok); cbn; congruence).
      case_bool_decide as Hm.
      * rewrite <- Hk. apply Hin, list_elem_of_filter. by rewrite bool_decide_eq_true.
      * rewrite Hout, Hr; [done|]. intros (x & Hx & [Hxm Hxin]%list_elem_of_filter)%list_elem_of_fmap.
        apply bool_decide_eq_true in Hxm. apply (elem_of_rows (R:=Resume) db x Hrok) in Hxin. cbn in Hxin.
        assert (x = r) as -> by congruence. done.
    + rewrite Hout, Hr; [done|]. intros (x & Hx & [_ Hxin]%list_elem_of_filter)%list_elem_of_fmap.
      apply (elem_of_rows (R:=Resume) db x Hrok) in Hxin. cbn in Hxin. congruence.
  - apply map_eq. intros k. rewrite lookup_fmap. destruct (decide (k = cand_id c)) as [->|Hne].
    + rewrite lookup_insert_eq, Hc. cbn. unfold mine. by rewrite bool_decide_true.
    + rewrite lookup_insert_ne by done. destruct (candidates db !! k) as [d|] eqn:Hd; [|done]. cbn. unfold mine.
      rewrite bool_decide_false; [done|]. intros Hud. destruct (Hcok k d Hd) as [Hk _]. cbn in Hk.
      rewrite <- Hk in Hd. rewrite (Huniq d Hd Hud) in Hk. done.
  - by destruct (Hcok _ c Hc) as [_ Hk].
Qed.

Lemma alter_known {A} (f : A → A) (m : gmap uuid A) i x : m !! i = Some x → alter f i m = <[i := f x]> m.
Proof.
  intros Hx. apply map_eq. intros j. destruct (decide (i = j)) as [->|Hne].
  - by rewrite lookup_alter_eq, Hx, lookup_insert_eq.
  - by rewrite lookup_alter_ne, lookup_insert_ne.
Qed.

Lemma forget_user now fresh hash user u w (p : list string * nat) :
  ctx w = SYSTEM_CONTEXT → table_ok User (session w) → users (session w) !! user_id user = Some u →
  (∀ k v, users (session w) !! k = Some v → user_email v ≠ deleted_email fresh) →
  (o ← select_by_id (R:=User) (user_id user);
   match o with
   | None => raise (PyError "AttributeError")
   | Some _ => update_row now (user_id user) (user_forget now fresh hash);; commit;; mret p
   end) w =
  (inr p, let db' := with_rows (R:=User) (alter (user_forget now fresh hash) (user_id user) (users (session w)))
                       (session w) in
          mkWorld db' db' SYSTEM_CONTEXT (effects w)).
Proof.
  intros Hc Hok Hu Hfresh. rewrite select_by_id_bind, system_lookup by done.
  change (rows (session w)) with (users (session w)). rewrite Hu.
  destruct (Hok _ u Hu) as [Hid Hk]. cbn in Hid, Hk. apply andb_true_iff in Hk as [_ Hk].
  assert (constraints (session w) (on_update now (user_forget now fresh hash u)) = true) as Hnew.
  { cbn. rewrite Hk, andb_true_r. unfold unique_col. apply forallb_elem_of. intros v Hv.
    apply (elem_of_rows (R:=User) (session w) v Hok) in Hv. apply orb_true_iff. right.
    rewrite bool_decide_false; [done|]. by eapply Hfresh. }
  pose proof (system_update (H0:=User_table) now (user_id user) (user_forget now fresh hash) w u Hc Hu Hnew) as Eu.
  rewrite (bind_ok _ _ w tt _ Eu), commit_bind, (alter_known _ _ _ u) by done.
  unfold mret, M_ret. cbn. by rewrite Hc.
Qed.

Lemma anonymize_rows_spec now code fresh salt secret user u db c eff :
  table_ok User db → table_ok Candidate db → table_ok Resume db → users db !! user_id user = Some u →
  (∀ k v, users db !! k = Some v → user_email v ≠ deleted_email fresh) →
  ∃ file_urls, anonymize_rows now code fresh salt secret user (mkWorld db db c eff) =
    (inr (file_urls, length (filter (λ r, of_user (user_id user) db r = true) (map_to_list (resumes db)).*2)),
     let db' := anonymized now code fresh (pwd_hash salt secret) (user_id user) db in mkWorld db' db' c eff).
Proof.
  intros Huok Hcok Hrok Hu Hfresh. unfold anonymize_rows. rewrite in_system_scope. cbn [committed session ctx effects].
  set (w0 := mkWorld db db SYSTEM_CONTEXT eff).
  rewrite select_where_bind, system_rows by done. change (rows (session w0)) with (candidates db).
  destruct (own_candidates db (user_id user) Hcok) as [El|(cd & El & Hc & Huc)]; rewrite El.
  - assert (∀ r, of_user (user_id user) db r = false) as Hof.
    { intros r. apply of_user_none. intros d Hd Hdu. apply (filter_nil_not_elem_of _ _ d El); [|done].
      by apply bool_decide_eq_true. }
    exists []. rewrite (filter_none _ (map_to_list (resumes db)).*2) by (intros r _; by rewrite Hof).
    rewrite (bind_ok (scalar_one_or_none []) _ w0 None w0) by done.
    rewrite (bind_ok (mret ([], 0%nat)) _ w0 ([], 0%nat) w0) by done.
    rewrite (forget_user now fresh _ user u w0) by done. cbn. f_equal. unfold anonymized.
    assert ((λ d, if mine (user_id user) d then cand_forget code d else d) <$> candidates db = candidates db) as ->.
    { rewrite <- (map_fmap_id (candidates db)) at 2. apply map_fmap_ext. intros k d Hd. unfold mine.
      rewrite bool_decide_false; [done|]. intros Hdu.
      apply (filter_nil_not_elem_of _ _ d El); [by apply bool_decide_eq_true|].
      apply (elem_of_rows (R:=Candidate) db d Hcok). cbn. by destruct (Hcok k d Hd) as [<- _]. }
    assert ((λ r, if of_user (user_id user) db r then res_forget r else r) <$> resumes db = resumes db) as ->; [|by destruct db].
    rewrite <- (map_fmap_id (resumes db)) at 2. apply map_fmap_ext. intros k r _. by rewrite Hof.
  - assert (∀ d, candidates db !! cand_id d = Some d → cand_user_id d = user_id user → d = cd) as Huniq.
    { intros d Hd Hdu. apply list_elem_of_singleton. rewrite <- El. apply list_elem_of_filter.
      split; [by apply bool_decide_eq_true|]. by apply (elem_of_rows (R:=Candidate) db d Hcok). }
    rewrite (bind_ok (scalar_one_or_none [cd]) _ w0 (Some cd) w0) by done.
    set (own := filter (λ r, bool_decide (res_candidate_id r = cand_id cd) = true) (map_to_list (resumes db)).*2).
    assert (filter (λ r, of_user (user_id user) db r = true) (map_to_list (resumes db)).*2 = own) as ->.
    { apply list_filter_iff. intros r. by rewrite (of_user_iff db (user_id user) cd). }
    destruct (clear_resumes_spec now own w0 eq_refl) as (m & Ecl & Hin & Hout).
    { apply (NoDup_filter_ids (R:=Resume) _ db Hrok). }
    { intros r [_ Hr]%list_elem_of_filter. apply (elem_of_rows (R:=Resume) db r Hrok) in Hr. cbn in Hr.
      split; [done|]. by destruct (Hrok _ r Hr). }
    destruct (profile_cleared now code db (user_id user) cd m) as (Hm & Hcd & Hck); try done.
    set (urls := res_file_url <$> _) in Ecl. exists urls.
    set (w1 := mkWorld _ _ _ _) in Ecl.
    pose proof (system_update (H0:=Candidate_table) now (cand_id cd) (cand_forget code) w1 cd eq_refl Hc Hck) as Eu.
    set (w2 := upd_session _ w1) in Eu.
    assert ((resumes ← select_where (λ r, bool_decide (res_candidate_id r = cand_id cd));
             file_urls ← clear_resumes now resumes;
             update_row now (cand_id cd) (cand_forget code);; mret (file_urls, length resumes)) w0 =
            (inr (urls, length own), w2)) as Eprofile.
    { rewrite select_where_bind, system_rows by done. change (rows (session w0)) with (resumes db). fold own.
      by rewrite (bind_ok _ _ _ _ _ Ecl), (bind_ok _ _ _ _ _ Eu). }
    rewrite (bind_ok _ _ _ _ _ Eprofile), (forget_user now fresh _ user u w2) by done. cbn. f_equal.
    unfold anonymized. by rewrite Hm, Hcd.
Qed.
End transaction.

(** ** What can still be told apart *)

(** Two databases that differ only in the identity of a user: in the address,
    the password and the state of the account; in the names, the telephone,
    the skills and the place of the profile; in the file, the text, the
    extracted data and the jobs of its resumes. *)
Record alike (user : uuid) (db db' : Db) : Prop := {
  alike_rest : ∀ m m' m'',
    with_rows (R:=User) m (with_rows (R:=Candidate) m' (with_rows (R:=Resume) m'' db)) =
    with_rows (R:=User) m (with_rows (R:=Candidate) m' (with_rows (R:=Resume) m'' db'));
  alike_users : map_relation
    (λ k u v, user_id u = user_id v ∧ user_role u = user_role v ∧ user_created_at u = user_created_at v ∧
       user_tenant_id u = user_tenant_id v ∧ user_data_consent_at u = user_data_consent_at v ∧
       user_data_consent_version u = user_data_consent_version v ∧ (k ≠ user → u = v))
    (λ _ _, False) (λ _ _, False) (users db) (users db');
  alike_candidates : map_relation
    (λ _ c d, cand_id c = cand_id d ∧ cand_user_id c = cand_user_id d ∧ (cand_user_id c ≠ user → c = d))
    (λ _ _, False) (λ _ _, False) (candidates db) (candidates db');
  alike_resumes : map_relation
    (λ _ r s, res_id r = res_id s ∧ res_tenant_id r = res_tenant_id s ∧ res_candidate_id r = res_candidate_id s ∧
       _anonymous_skill_analysis (res_skill_analysis r) = _anonymous_skill_analysis (res_skill_analysis s) ∧
       res_agent_analysis r = res_agent_analysis s ∧ (of_user user db r = false → r = s))
    (λ _ _, False) (λ _ _, False) (resumes db) (resumes db') }.

Lemma map_relation_same {A} (P : uuid → A → A → Prop) (f g : uuid → A → A) (m m' m1 m2 : gmap uuid A) :
  map_relation P (λ _ _, False) (λ _ _, False) m m' →
  (∀ k, m1 !! k = f k <$> m !! k) → (∀ k, m2 !! k = g k <$> m' !! k) →
  (∀ k x y, m !! k = Some x → m' !! k = Some y → P k x y → f k x = g k y) → m1 = m2.
Proof.
  intros Hrel H1 H2 Hfg. apply map_eq. intros k. rewrite H1, H2. specialize (Hrel k).
  destruct (m !! k) as [x|] eqn:Ex, (m' !! k) as [y|] eqn:Ey; cbn in *; try done. f_equal. by apply Hfg.
Qed.

Lemma of_user_spec user db r :
  of_user user db r = true ↔
  ∃ k c, candidates db !! k = Some c ∧ cand_user_id c = user ∧ cand_id c = res_candidate_id r.
Proof.
  unfold of_user, mine. rewrite existsb_exists. split.
  - intros (c & (p & -> & Hp)%list_elem_of_In%list_elem_of_fmap & [Hm Hi]%andb_true_iff). destruct p as [k c].
    apply elem_of_map_to_list in Hp. apply bool_decide_eq_true in Hm, Hi. eauto.
  - intros (k & c & Hk & Hm & Hi). exists c. rewrite andb_true_iff, !bool_decide_eq_true. split; [|done].
    apply list_elem_of_In, list_elem_of_fmap. exists (k, c). by rewrite elem_of_map_to_list.
Qed.

Lemma alike_of_user user db db' r s :
  alike user db db' → res_candidate_id r = res_candidate_id s → of_user user db r = of_user user db' s.
Proof.
  intros [_ _ Hc _] Hr. apply eq_true_iff_eq. rewrite !of_user_spec. split; intros (k & c & Hk & Hm & Hi);
    specialize (Hc k); rewrite Hk in Hc.
  - destruct (candidates db' !! k) as [d|] eqn:Ed; [|done]. cbn in Hc. destruct Hc as (? & ? & _).
    exists k, d. split_and!; congruence.
  - destruct (candidates db !! k) as [d|] eqn:Ed; [|done]. cbn in Hc. destruct Hc as (? & ? & _).
    exists k, d. split_and!; congruence.
Qed.

Lemma anonymized_alike now code fresh hash user db db' :
  alike user db db' → anonymized now code fresh hash user db = anonymized now code fresh hash user db'.
Proof.
  intros Ha. pose proof Ha as [Hrest Hu Hc Hr]. unfold anonymized.
  assert (alter (user_forget now fresh hash) user (users db) = alter (user_forget now fresh hash) user (users db')) as ->.
  { apply (map_relation_same _ (λ k, if decide (k = user) then user_forget now fresh hash else id)
             (λ k, if decide (k = user) then user_forget now fresh hash else id) _ _ _ _ Hu).
    1,2: intros k; destruct (decide (k = user)) as [->|]; [by rewrite lookup_alter_eq|];
         rewrite lookup_alter_ne by done; symmetry; apply option_fmap_id.
    intros k x y _ _ (?&?&?&?&?&?&Heq). case_decide as Hk; [unfold user_forget; congruence|by apply Heq]. }
  assert ((λ c, if mine user c then cand_forget code c else c) <$> candidates db =
          (λ c, if mine user c then cand_forget code c else c) <$> candidates db') as ->.
  { apply (map_relation_same _ (λ _ c, if mine user c then cand_forget code c else c)
             (λ _ c, if mine user c then cand_forget code c else c) _ _ _ _ Hc); [intros; apply lookup_fmap..|].
    intros k x y _ _ (Hi & Hxy & Heq). unfold mine. rewrite Hxy.
    case_bool_decide as Hm; [unfold cand_forget; congruence|apply Heq; congruence]. }
  assert ((λ r, if of_user user db r then res_forget r else r) <$> resumes db =
          (λ r, if of_user user db' r then res_forget r else r) <$> resumes db') as ->.
  { apply (map_relation_same _ (λ _ r, if of_user user db r then res_forget r else r)
             (λ _ r, if of_user user db' r then res_forget r else r) _ _ _ _ Hr); [intros; apply lookup_fmap..|].
    intros k x y _ _ (Hi & Ht & Hcx & Hs & Hag & Heq). rewrite <- (alike_of_user user db db' x y) by done.
    destruct (of_user user db x); [unfold res_forget; congruence|by apply Heq]. }
  pose proof (Hrest ∅ ∅ ∅) as Hr0. cbn in Hr0. injection Hr0 as -> -> -> -> -> -> -> -> ->. done.
Qed.

(** *** The statistics of the organisations *)

Lemma isolated_rows_same `{Settings, IsolatedTable R col setc} t v db db' :
  rows (R:=R) db = rows db' →
  visible_rows (R:=R) (open_session db (tenant_ctx t v)) = visible_rows (open_session db' (tenant_ctx t v)).
Proof.
  intros Hr. unfold visible_rows. cbn [open_session session]. rewrite Hr. apply list_filter_iff. intros r.
  by rewrite !(row_visible_isolated _ t v).
Qed.

Lemma funnel_same `{Settings} t v who job db db' :
  jobs db = jobs db' → applications db = applications db' → status_history db = status_history db' →
  fst (get_recruitment_funnel who job (open_session db (tenant_ctx t v))) =
  fst (get_recruitment_funnel who job (open_session db' (tenant_ctx t v))).
Proof.
  intros Hj Ha Hs. set (w := open_session db _). set (w' := open_session db' _).
  assert (∀ st, applications_reaching w job st = applications_reaching w' job st) as Hreach.
  { intros st. unfold applications_reaching.
    rewrite (isolated_rows_same (R:=StatusHistory) t v db db') by done. do 2 f_equal. apply list_filter_iff.
    intros h. assert (history_of_job w job h = history_of_job w' job h) as ->; [|done].
    unfold history_of_job. destruct job; [|done]. by rewrite (isolated_rows_same (R:=Application) t v db db'). }
  unfold get_recruitment_funnel, require_roles, reject_if. destruct (negb _); [done|].
  assert (fst (ensure_job job w) = fst (ensure_job job w') ∧ snd (ensure_job job w) = w ∧ snd (ensure_job job w') = w')
    as (He & Hw & Hw').
  { unfold ensure_job. destruct job as [j|]; [|done]. unfold _ensure_job_exists. rewrite !select_by_id_bind.
    assert (lookup_visible (R:=Job) j w = lookup_visible j w') as ->.
    { unfold lookup_visible. cbn [w w' open_session session rows Job_table]. rewrite Hj.
      destruct (jobs db' !! j) as [x|]; [|done]. cbn.
      assert (row_visible w x = row_visible w' x) as ->; [|done].
      apply eq_true_iff_eq. by rewrite !(row_visible_isolated _ t v). }
    by destruct (lookup_visible j w'). }
  cbv [mbind M_bind mret M_ret reads].
  destruct (ensure_job job w) as [r w1], (ensure_job job w') as [r' w1']. cbn [fst snd] in He, Hw, Hw'. subst r w1 w1'.
  destruct r'; [done|]. cbn [fst]. f_equal. apply list_fmap_ext. intros i st _. by rewrite Hreach.
Qed.

(** ** The account is forgotten *)

Lemma delete_files_total `{Settings} cwd disk l w :
  ∃ n w', delete_files cwd disk l w = (inr n, w') ∧ committed w' = committed w ∧ session w' = session w ∧ ctx w' = ctx w.
Proof.
  assert (∀ url w, ∃ r w', delete_file cwd disk url w = (r, w') ∧
    committed w' = committed w ∧ session w' = session w ∧ ctx w' = ctx w) as Hone.
  { clear. intros url w. unfold delete_file.
    assert (∃ r w', (if unlinks disk url then emit (RemovedFile url);; mret true
                     else raise (PyError "StorageError")) w = (r, w') ∧
      committed w' = committed w ∧ session w' = session w ∧ ctx w' = ctx w) as Hrem
      by (destruct (unlinks disk url); eexists _, _; (split; [reflexivity|done])).
    repeat case_match; try exact Hrem; eexists _, _; (split; [reflexivity|done]). }
  revert w. induction l as [|url l IH]; intros w; [by eexists _, _|]. cbn [delete_files].
  destruct (Hone url w) as (r & w1 & E & Hc & Hs & Hx).
  assert (∃ n, try_except (b ← delete_file cwd disk url; mret (if (b : bool) then 1%nat else 0%nat)) (λ _, mret 0%nat) w
               = (inr n, w1)) as (n & En).
  { unfold try_except, mbind, M_bind. rewrite E. destruct r; eexists; reflexivity. }
  rewrite (bind_ok _ _ _ _ _ En). destruct (IH w1) as (m & w2 & E2 & Hc2 & Hs2 & Hx2).
  rewrite (bind_ok _ _ _ _ _ E2). eexists _, w2. split; [reflexivity|]. split_and!; congruence.
Qed.


(** ** A concrete account *)

#[local] Existing Instances default_settings text_json text_floats text_passwords.

Definition demo_resume : Resume :=
  mkResume 9 (Some 1%N) 4 "http://localhost:8000/media/resumes/cv.pdf" (Some "Ali Rezaei") (Some ["t1"; "t2"])
    (Some (JStr "name")) (Some (JObj [("skills", JArr [JStr "Python"]); ("total_experience_years", JInt 3);
                                      ("entries", JArr [JStr "Acme"])])) None.
Definition demo_portal : Db :=
  mkDb (users demo_db) (companies demo_db) (candidates demo_db) (jobs demo_db) (applications demo_db) ∅
    {[9%N := demo_resume]} ∅ ∅ ∅ ∅ ∅.

Definition demo_deletion : (exn + AnonymizationResult) * AppWorld Store :=
  delete_my_account (St:=Store) [] 99 0 "a1b2c3" 77 "salt" "random" (mkDisk (λ _, true) (λ _, false)) demo_candidate_user
    (mkApp (open_session demo_portal (candidate_ctx 3)) (mkRWorld empty_store [mkTurn [] Lost])).

