(* ===== verification/ProcessingLaws.v ===== *)
(** What the processing of a resume leaves behind: columns the rest of the
    program can read, a score that is a percentage, and nothing else changed. *)
From S2P Require Import Prelude PyText Unicode Regex Texts Rounding Config Storage Models Codecs Security Tenancy Orm OrmLaws Invariants Experience SkillGraph Search Parser Matching Questions Profile Agents Supervisor SupervisorLaws Processing Privacy.
From Stdlib Require Import QArith Qminmax Lqa.
Local Open Scope string_scope.
Local Open Scope Z_scope.
Local Open Scope list_scope.

(** ** Readable columns *)

(** The parts [build_input_profile] takes out of [skill_analysis]. *)
Definition read_skills (column : option json) : option (option (list ExperienceRow) * list string * Q) :=
  let analysis := or_dict column in
  entries ← py_get "experience_entries" analysis;
  rows ← (if json_falsy entries then Some None else rows ← or_list entries; rows ← mapM experience_row rows; Some (Some rows));
  found ← py_get "skills" analysis ≫= or_list;
  found ← mapM json_str found;
  years ← py_get "total_experience_years" analysis ≫= float_or_zero;
  Some (rows, found, years).

(** ... and out of [parsed_data]. *)
Definition read_parsed (column : option json) : option (list ExperienceRow * list (option string) * option string) :=
  let parsed := or_dict column in
  rows ← py_get "work_experience" parsed ≫= or_list;
  rows ← mapM experience_row rows;
  education ← py_get "education" parsed ≫= or_list;
  degrees ← mapM degree_of education;
  info ← py_get "personal_info" parsed;
  name ← py_get "name" (or_dict (Some info)) ≫= opt_str;
  Some (rows, degrees, name).

Definition readable (r : Resume) : Prop :=
  is_Some (read_skills (res_skill_analysis r)) ∧ is_Some (read_parsed (res_parsed_data r)) ∧ is_Some (skill_count r).

(** A profile is built of readable columns. *)
Lemma readable_profile `{Unicode, FormatG} skills parsed raw declared score job :
  is_Some (read_skills skills) → is_Some (read_parsed parsed) →
  is_Some (build_input_profile skills parsed raw declared score job).
Proof.
  intros [[[rows found] years] Hs] [[[work degrees] name] Hp]. unfold build_input_profile.
  unfold read_skills in Hs. unfold read_parsed in Hp. cbv zeta in *.
  apply bind_Some in Hs as (entries & -> & Hs). rewrite some_bind.
  apply bind_Some in Hs as (rs & Hrows & Hs). apply bind_Some in Hs as (f & Hf & Hs). apply bind_Some in Hs as (fs & Hfs & Hs).
  apply bind_Some in Hs as (y & Hy & _).
  apply bind_Some in Hp as (w & Hw & Hp). apply bind_Some in Hp as (ws & Hws & Hp).
  apply bind_Some in Hp as (ed & Hed & Hp). apply bind_Some in Hp as (ds & Hds & Hp). apply bind_Some in Hp as (i & Hi & Hp).
  apply bind_Some in Hp as (n & Hn & _).
  assert (∃ l, (if json_falsy entries then py_get "work_experience" (or_dict parsed) else Some entries) ≫= or_list = Some l ∧
    is_Some (mapM experience_row l)) as (l & -> & [er Her]).
  { destruct (json_falsy entries); [exists w; split; [done|eauto]|].
    apply bind_Some in Hrows as (l & Hl & Hrows). apply bind_Some in Hrows as (er & Her & _). exists l. rewrite some_bind. eauto. }
  rewrite some_bind, Her, some_bind, Hed, some_bind, Hds, some_bind, Hf, some_bind, Hfs, some_bind, Hy, some_bind, Hi,
    some_bind, Hn, some_bind. eauto.
Qed.

(** *** What is written can be read *)

Lemma opt_str_opt o : opt_str (str_opt o) = Some o.
Proof. by destruct o. Qed.

Lemma experience_row_entry c t d s e v reason :
  experience_row (entry_json c t d s e v reason) = Some (mkExperience t d v reason).
Proof.
  unfold experience_row, entry_json.
  change (py_get "job_title" _) with (Some (str_opt t)). change (py_get "duration" _) with (Some (str_opt d)).
  change (json_get "is_valid" _) with (Some (JBool v)). change (py_get "flag_reason" _) with (Some (str_opt reason)).
  by rewrite !some_bind, !opt_str_opt, !some_bind.
Qed.

Lemma falsy_list (l : list json) : json_falsy (JArr l) = match l with [] => true | _ => false end.
Proof. by destruct l. Qed.

Lemma or_list_arr l : or_list (JArr l) = Some l.
Proof. by destruct l. Qed.

Lemma mapM_fmap_some {A B C} (f : B → option C) (g : A → B) (h : A → C) l :
  (∀ x, f (g x) = Some (h x)) → mapM f (g <$> l) = Some (h <$> l).
Proof. intros Hf. induction l as [|x l IH]; [done|]. cbn in *. by rewrite Hf, IH. Qed.

(** An analysis of the shape both pipelines write. *)
Lemma written_skills {A} (f : A → json) (h : A → ExperienceRow) skills years (l : list A) :
  (∀ x, experience_row (f x) = Some (h x)) →
  is_Some (read_skills (Some (JObj [("skills", strs skills); ("total_experience_years", JFloat years);
                                    ("experience_entries", JArr (f <$> l))]))).
Proof.
  intros Hf. unfold read_skills. cbn [or_dict json_falsy]. cbv zeta.
  change (py_get "experience_entries" _) with (Some (JArr (f <$> l))). change (py_get "skills" _) with (Some (strs skills)).
  change (py_get "total_experience_years" _) with (Some (JFloat years)).
  rewrite !some_bind. assert (is_Some (float_or_zero (JFloat years))) as [y Hy] by (unfold float_or_zero; case_match; eauto).
  assert (mapM experience_row (f <$> l) = Some (h <$> l)) as Hm by (by apply mapM_fmap_some).
  rewrite Hy, falsy_list, or_list_arr, some_bind, Hm, some_bind. unfold strs.
  destruct (f <$> l); rewrite some_bind, or_list_arr, some_bind, mapM_json_str, !some_bind; eauto.
Qed.

Lemma engine_readable `{Unicode} a : is_Some (read_skills (Some (skill_engine_json a))).
Proof.
  apply (written_skills (λ e, entry_json (work_company (an_entry e)) (work_job_title (an_entry e)) (work_duration (an_entry e))
    (an_start_year e) (an_end_year e) (is_valid e) (reason_words e))
    (λ e, mkExperience (work_job_title (an_entry e)) (work_duration (an_entry e)) (is_valid e) (reason_words e))).
  intros e. apply experience_row_entry.
Qed.

Lemma analysis_readable a : is_Some (read_skills (Some (to_skill_analysis a))).
Proof.
  apply (written_skills (λ e, entry_json (ee_company e) (ee_job_title e) (ee_duration e) (ee_start_year e) (ee_end_year e)
    (ee_is_valid e) (ee_flag_reason e)) (λ e, mkExperience (ee_job_title e) (ee_duration e) (ee_is_valid e) (ee_flag_reason e))).
  intros e. apply experience_row_entry.
Qed.

Lemma parsed_readable p : is_Some (read_parsed (Some (parsed_json p))).
Proof.
  unfold read_parsed, parsed_json. cbn [or_dict json_falsy]. cbv zeta.
  change (py_get "work_experience" _) with (Some (JArr ((λ e, JObj [("company", str_texts (we_company e));
    ("job_title", str_texts (we_job_title e)); ("duration", str_texts (we_duration e))]) <$> work_experience p))).
  change (py_get "education" _) with (Some (JArr ((λ e, JObj [("degree", str_opt (ed_degree e));
    ("university", str_texts (ed_university e)); ("gpa", float_opt (ed_gpa e))]) <$> education p))).
  change (py_get "personal_info" _) with (Some (JObj [("name", str_texts (pi_name (personal_info p)));
    ("email", str_texts (pi_email (personal_info p))); ("phone", str_texts (pi_phone (personal_info p)))])).
  rewrite !some_bind, !or_list_arr, !some_bind.
  rewrite (mapM_fmap_some _ _ (λ e, mkExperience (text_of <$> we_job_title e) (text_of <$> we_duration e) true None)).
  2:{ intros e. unfold experience_row. change (py_get "job_title" _) with (Some (str_texts (we_job_title e))).
      change (py_get "duration" _) with (Some (str_texts (we_duration e))). change (json_get "is_valid" _) with (@None json).
      change (py_get "flag_reason" _) with (Some JNull). unfold str_texts. by rewrite !some_bind, !opt_str_opt, !some_bind. }
  rewrite !some_bind, (mapM_fmap_some _ _ ed_degree).
  2:{ intros e. unfold degree_of. change (py_get "degree" _) with (Some (str_opt (ed_degree e))). by rewrite some_bind, opt_str_opt. }
  rewrite !some_bind. cbn [or_dict json_falsy].
  change (py_get "name" _) with (Some (str_texts (pi_name (personal_info p)))). rewrite some_bind. unfold str_texts.
  rewrite opt_str_opt, some_bind. eauto.
Qed.

(** Erasure keeps what it keeps readable. *)
Lemma anonymous_readable o :
  is_Some (read_skills o) → is_Some (read_skills (_anonymous_skill_analysis o)).
Proof.
  intros [[[rows found] years] Hs]. unfold _anonymous_skill_analysis. destruct o as [j|]; [|eauto].
  destruct (json_falsy j) eqn:Ef; [vm_compute; eauto|]. unfold read_skills in *. cbn [or_dict] in *. rewrite Ef in Hs. cbv zeta in *.
  cbn [json_falsy].
  apply bind_Some in Hs as (entries & He & Hs). apply bind_Some in Hs as (rs & Hrows & Hs).
  apply bind_Some in Hs as (f & Hf & Hs). apply bind_Some in Hs as (fs & Hfs & Hs). apply bind_Some in Hs as (y & Hy & _).
  destruct j as [| | | | | |fields]; try done. 
  change (or_list (default JNull (json_get "skills" (JObj fields))) = Some f) in Hf.
  change (float_or_zero (default JNull (json_get "total_experience_years" (JObj fields))) = Some y) in Hy.
  set (skills := default JNull (json_get "skills" (JObj fields))) in *.
  set (total := default JNull (json_get "total_experience_years" (JObj fields))) in *.
  change (py_get "experience_entries" _) with (Some JNull). change (py_get "total_experience_years" _) with (Some total).
  match goal with |- context [py_get "skills" (JObj ((_, ?x) :: _))] => change (py_get "skills" _) with (Some x) end.
  rewrite !some_bind. cbn [json_falsy]. rewrite some_bind.
  assert (or_list (if json_falsy skills then JArr [] else skills) = Some f) as ->.
  { unfold or_list in *. destruct (json_falsy skills) eqn:E; [|by rewrite E]. done. }
  rewrite some_bind, Hfs, some_bind, Hy, some_bind. eauto.
Qed.

Lemma anonymous_counted r r' :
  is_Some (read_skills (res_skill_analysis r)) → is_Some (skill_count r) →
  res_skill_analysis r' = _anonymous_skill_analysis (res_skill_analysis r) → is_Some (skill_count r').
Proof.
  unfold skill_count. intros _ Hc ->. unfold _anonymous_skill_analysis. destruct (res_skill_analysis r) as [j|]; [|eauto].
  destruct (json_falsy j) eqn:Ef; [cbn; eauto|]. rewrite some_bind in *.
  match goal with |- context [json_get "skills" (JObj ((_, ?x) :: _))] => change (json_get "skills" _) with (Some x) end.
  cbv iota beta. destruct (json_get "skills" j) as [v|] eqn:Ev; cbn [default id]; [|cbn; eauto].
  destruct (json_falsy v) eqn:Efv; [eauto|]. done.
Qed.

(** ** Rows that stay readable *)

Definition readable_rows (m : gmap uuid Resume) : Prop := ∀ k r, m !! k = Some r → readable r.
Definition Readable : World → Prop := On resumes readable_rows.

Lemma readable_insert m k r : readable r → readable_rows m → readable_rows (<[k := r]> m).
Proof.
  intros Hr Hm j r' Hj. destruct (decide (j = k)) as [->|Hne].
  - rewrite lookup_insert_eq in Hj. by injection Hj as <-.
  - rewrite lookup_insert_ne in Hj by done. by eapply Hm.
Qed.

Section readable.
Context `{Settings}.

Lemma obeys_readable_insert (r : Resume) : readable r → obeys Readable (insert_row r).
Proof.
  intros Hr w [Hc Hs]. destruct (insert_row r w) as [[e|x] w'] eqn:E; simpl; [by apply insert_row_fail in E as ->|].
  apply insert_row_inv in E as (r' & Hst & _ & _ & _ & ->). split; [done|]. cbn. apply readable_insert; [|done].
  revert Hst. unfold _stamp_tenant_on_new_rows. cbn. repeat case_match; try done; intros [= <-]; done.
Qed.

Lemma obeys_readable_update now id (f : Resume → Resume) :
  (∀ r, readable r → readable (f r)) → obeys Readable (update_row now id f).
Proof.
  intros Hf w [Hc Hs]. destruct (update_row now id f w) as [[e|x] w'] eqn:E; simpl; [by apply update_row_fail in E as ->|].
  apply update_row_inv in E as (old & Ho & _ & _ & _ & _ & ->). split; [done|]. cbn. apply readable_insert; [|done].
  cbn. by eapply Hf, Hs.
Qed.
End readable.

(** What the job stores of a resume. *)
Inductive stored_skills : option json → Prop :=
  | stored_nothing : stored_skills None
  | stored_engine `{Unicode} a : stored_skills (Some (skill_engine_json a))
  | stored_analysis a : stored_skills (Some (to_skill_analysis a)).

Lemma store_readable `{Unicode, BlindIndex} raw p skills agents r :
  stored_skills skills → readable r → readable (res_store raw (parsed_json <$> p) skills agents r).
Proof.
  intros Hs (Hk & Hp & Hc). unfold readable, skill_count in *. cbn [res_store res_skill_analysis res_parsed_data]. split_and!.
  - destruct Hs; [done|apply engine_readable|apply analysis_readable].
  - destruct p; [apply parsed_readable|done].
  - destruct Hs; [done| |]; cbn; eauto.
Qed.

Lemma forget_readable r : readable r → readable (res_forget r).
Proof.
  intros (Hk & Hp & Hc). split_and!; [by apply anonymous_readable|vm_compute; eauto|by eapply anonymous_counted].
Qed.

(** ** What a run of the job changes *)

(** The resumes of the file have new texts and analyses and are otherwise as
    they were; the application has a percentage for a score; nothing else. *)
Definition same_resume (r r' : Resume) : Prop :=
  res_id r' = res_id r ∧ res_tenant_id r' = res_tenant_id r ∧ res_candidate_id r' = res_candidate_id r ∧
  res_file_url r' = res_file_url r.

Definition scored (a a' : Application) : Prop :=
  ∃ s t, 0 <= s <= 100 ∧ a' = app_touch t (app_set_score s a).

Record processed (file_url : string) (key : option uuid) (db db' : Db) : Prop := {
  pd_resumes k : resumes db' !! k = resumes db !! k ∨
    ∃ r r', resumes db !! k = Some r ∧ res_file_url r = file_url ∧ resumes db' !! k = Some r' ∧ same_resume r r';
  pd_applications k : applications db' !! k = applications db !! k ∨
    (Some k = key ∧ ∃ a a', applications db !! k = Some a ∧ applications db' !! k = Some a' ∧ scored a a');
  pd_rest : db' = mkDb (users db) (companies db) (candidates db) (jobs db) (applications db') (interviews db)
    (resumes db') (skills db) (notifications db) (status_history db) (question_sets db) (questions db) }.

Lemma processed_refl file_url key db : processed file_url key db db.
Proof. split; [by left|by left|by destruct db]. Qed.

Lemma processed_resume file_url key db db' id r0 r' :
  processed file_url key db db' → resumes db !! id = Some r0 → res_file_url r0 = file_url →
  (∀ r, resumes db' !! id = Some r → same_resume r r') →
  processed file_url key db (with_rows (<[id := r']> (resumes db')) db').
Proof.
  intros [Hr Ha He] H0 Hu Hs. split.
  - intros k. cbn. destruct (decide (k = id)) as [->|Hne]; [|rewrite lookup_insert_ne by done; apply Hr].
    right. exists r0, r'. rewrite lookup_insert_eq. split_and!; try done.
    destruct (Hr id) as [E|(r & r1 & E & _ & E1 & Hsame)]; [rewrite H0 in E; by apply Hs|].
    rewrite H0 in E. injection E as <-. specialize (Hs _ E1). destruct Hs as (?&?&?&?), Hsame as (?&?&?&?). split_and!; congruence.
  - intros k. apply Ha.
  - cbn. rewrite He. done.
Qed.

Lemma processed_application file_url key db db' id a s t :
  processed file_url key db db' → Some id = key → applications db' !! id = Some a → 0 <= s <= 100 →
  processed file_url key db (with_rows (<[id := app_touch t (app_set_score s a)]> (applications db')) db').
Proof.
  intros [Hr Ha He] Hk Hl Hs. split.
  - intros k. apply Hr.
  - intros k. cbn. destruct (decide (k = id)) as [->|Hne]; [|rewrite lookup_insert_ne by done; apply Ha].
    right. split; [done|]. rewrite lookup_insert_eq. destruct (Ha id) as [E|(_ & a0 & a1 & E0 & E1 & (s1 & t1 & _ & ->))].
    + exists a, (app_touch t (app_set_score s a)). rewrite <- E. split_and!; [done|done|]. by exists s, t.
    + rewrite Hl in E1. injection E1 as ->. eexists a0, _. split_and!; [done|reflexivity|]. by exists s, t.
  - cbn. rewrite He. done.
Qed.

(** A computation whose answer has the property [Q]. *)
Definition answers {A} (I : World → Prop) (m : M World A) (Q : A → Prop) : Prop :=
  ∀ w, I w → I (snd (m w)) ∧ match fst (m w) with inr a => Q a | inl _ => True end.

Lemma obeys_answer {A B} I (m : M World A) (Q : A → Prop) (f : A → M World B) :
  answers I m Q → (∀ a, Q a → obeys I (f a)) → obeys I (m ≫= f).
Proof.
  intros Hm Hf w Hw. unfold mbind, M_bind. destruct (Hm w Hw) as [Hi Hq]. destruct (m w) as [[e|a] w']; [done|]. by apply Hf.
Qed.

Lemma answers_bind {A B} I (m : M World A) (Q : A → Prop) (f : A → M World B) (P : B → Prop) :
  answers I m Q → (∀ a, Q a → answers I (f a) P) → answers I (m ≫= f) P.
Proof.
  intros Hm Hf w Hw. unfold mbind, M_bind. destruct (Hm w Hw) as [Hi Hq]. destruct (m w) as [[e|a] w']; [done|]. by apply Hf.
Qed.

Lemma answers_obeys {A} I (m : M World A) : obeys I m → answers I m (λ _, True).
Proof. intros Hm w Hw. split; [by apply Hm|]. by case_match. Qed.

Lemma answers_request `{Settings} {A} I `{!Transactional I} (m : M World A) Q : answers I m Q → answers I (run_request m) Q.
Proof.
  intros Hm w Hw. unfold run_request. destruct (Hm w Hw) as [Hi Hq]. destruct (m w) as [r w']. split; [by apply tx_rollback|done].
Qed.

Section job.
Context `{Unicode, FormatG, Settings, BlindIndex, DocumentReaders, Ner}.
Context (cwd : abs_path) (today_year : Z) (db0 : Db) (Hdb : Integrity db0).
Context (application_id file_url : string).

Definition Processed (w : World) : Prop :=
  processed file_url (uuid_parse application_id) db0 (committed w) ∧
  processed file_url (uuid_parse application_id) db0 (session w).

#[local] Instance Processed_transactional : Transactional Processed.
Proof. split; by intros; intros w (? & ?). Qed.

(** The resume that was found is a resume of the file. *)
Definition of_file (id : uuid) : Prop := ∃ r0, resumes db0 !! id = Some r0 ∧ res_file_url r0 = file_url.

Lemma processed_id db k r :
  processed file_url (uuid_parse application_id) db0 db → resumes db !! k = Some r → res_id r = k ∧
    ∃ r0, resumes db0 !! k = Some r0 ∧ res_file_url r0 = res_file_url r.
Proof.
  intros [Hr _ _] Hk. destruct (Hr k) as [E|(r0 & r1 & E & Hu & E1 & (Hi & _ & _ & Hf))].
  - rewrite Hk in E. split; [by destruct (ok_resumes _ Hdb k r (eq_sym E))|eauto].
  - rewrite Hk in E1. injection E1 as <-. destruct (ok_resumes _ Hdb k r0 E) as [Hp _]. cbn in Hp.
    split; [congruence|]. exists r0. by rewrite Hf.
Qed.

Lemma processed_app_id db k a :
  processed file_url (uuid_parse application_id) db0 db → applications db !! k = Some a → app_id a = k.
Proof.
  intros [_ Ha _] Hk. destruct (Ha k) as [E|(_ & a0 & a1 & E & E1 & (s & t & _ & ->))].
  - rewrite Hk in E. by destruct (ok_applications _ Hdb k a (eq_sym E)).
  - rewrite Hk in E1. injection E1 as ->. destruct (ok_applications _ Hdb k a0 E) as [Hp _]. exact Hp.
Qed.

Lemma resume_of_file_answers :
  answers Processed (resume_of_file file_url) (λ o, match o with Some r => of_file (res_id r) | None => True end).
Proof.
  intros w Hw. unfold resume_of_file. unfold select_where. unfold mbind, M_bind, reads. cbn.
  unfold scalar_one_or_none. destruct (filter _ _) as [|r [|]] eqn:E; [split; [exact Hw|exact I]| |split; [exact Hw|exact I]].
  split; [exact Hw|]. cbn.
  assert (r ∈ filter (λ r, bool_decide (res_file_url r = file_url) = true) (visible_rows (R:=Resume) w)) as Hin by (rewrite E; left).
  apply list_elem_of_filter in Hin as [Hu Hin]. apply bool_decide_eq_true in Hu.
  apply list_elem_of_filter in Hin as [_ Hin]. apply list_elem_of_fmap in Hin as ([k r1] & -> & Hin). cbn in *.
  apply elem_of_map_to_list in Hin. destruct (processed_id _ _ _ (proj2 Hw) Hin) as [-> (r0 & E0 & Eu0)].
  exists r0. split; [done|]. congruence.
Qed.

Lemma obeys_store_resume now id raw p skills agents :
  of_file id → obeys Processed (update_row now id (res_store raw p skills agents)).
Proof.
  intros (r0 & E0 & Hu) w [Hc Hs]. destruct (update_row _ _ _ w) as [[e|x] w'] eqn:E; simpl; [by apply update_row_fail in E as ->|].
  apply update_row_inv in E as (old & Ho & _ & _ & _ & _ & ->). split; [done|]. cbn [session upd_session].
  eapply processed_resume; [done|done|done|]. intros r Hr. cbn in Ho. rewrite Hr in Ho. injection Ho as ->. done.
Qed.

Lemma obeys_store_score now id s :
  Some id = uuid_parse application_id → 0 <= s <= 100 → obeys Processed (update_row now id (app_set_score s)).
Proof.
  intros Hid Hb w [Hc Hs]. destruct (update_row _ _ _ w) as [[e|x] w'] eqn:E; simpl; [by apply update_row_fail in E as ->|].
  apply update_row_inv in E as (old & Ho & _ & _ & _ & _ & ->). split; [done|]. cbn [session upd_session].
  by apply processed_application.
Qed.

(** The application with the key, if there is one. *)
Lemma select_application_answers key :
  answers Processed (select_by_id (R:=Application) key)
    (λ o, match o with Some a => app_id a = key | None => True end).
Proof.
  intros w Hw. unfold select_by_id, reads. split; [exact Hw|]. cbn [fst]. unfold lookup_visible. cbn [rows Application_table].
  destruct (applications (session w) !! key) as [a|] eqn:E; cbn [mbind option_bind]; [|exact I].
  destruct (row_visible w a); [|exact I]. by eapply processed_app_id; [apply Hw|].
Qed.

Lemma key_answers : answers Processed (application_key application_id) (λ u, Some u = uuid_parse application_id).
Proof. intros w Hw. unfold application_key. destruct (uuid_parse application_id); by split. Qed.

Lemma round0_percentage q : (0 <= q <= 100)%Q → 0 <= round0 q <= 100.
Proof.
  intros [Hlo Hhi]. unfold round0. unfold Qle in Hlo, Hhi. cbn in Hlo, Hhi.
  pose proof (Z.div_mod (Qnum q) (Zpos (Qden q)) ltac:(lia)) as Hd.
  pose proof (Z.mod_pos_bound (Qnum q) (Zpos (Qden q)) ltac:(lia)) as Hm.
  set (d := Zpos (Qden q)) in *. set (i := Qnum q / d) in *. set (r := Qnum q mod d) in *.
  assert (0 <= i) by nia.
  destruct (Z.ltb_spec (2 * r) d); [nia|]. destruct (Z.ltb_spec d (2 * r)); [nia|]. destruct (Z.even i); nia.
Qed.

Lemma final_score_percentage j c : (0 <= final_score (calculate_matching_score j c) <= 100)%Q.
Proof.
  rewrite final_score_eq. split; [apply Q.le_max_l|]. apply Q.max_lub; [lra|]. apply Q.le_min_l.
Qed.

Lemma obeys_score now r parsed skills : obeys Processed (score_application now application_id r parsed skills).
Proof.
  unfold score_application. eapply obeys_answer; [apply key_answers|]. intros key Hkey.
  eapply obeys_answer; [apply select_application_answers|]. intros [a|] Ha; [|apply obeys_ret].
  apply obeys_bind; [apply obeys_select_by_id|]. intros job. apply obeys_bind; [apply obeys_select_by_id|]. intros c.
  destruct job; [|apply obeys_ret]. apply obeys_store_score; [congruence|]. apply round0_percentage, final_score_percentage.
Qed.

Lemma obeys_linear now files : obeys Processed (_process_resume_linear cwd today_year now files application_id file_url).
Proof.
  unfold _process_resume_linear. destruct (_download_file _ _ _); [apply obeys_ret|].
  destruct (extract_raw_text _ _); [apply obeys_ret|]. apply obeys_request; [apply _|].
  unfold store_stages. eapply obeys_answer; [apply resume_of_file_answers|].
  intros [r|] Hr; [|apply obeys_ret]. apply obeys_bind; [by apply obeys_store_resume|]. intros _.
  apply obeys_bind; [|intros _; apply tx_commit]. destruct (parse_resume_text _); [|apply obeys_ret].
  apply obeys_try; [apply obeys_score|]. intros e. apply obeys_ret.
Qed.

Lemma obeys_context r : obeys Processed (_load_job_context application_id r).
Proof.
  unfold _load_job_context, application_key. destruct (uuid_parse application_id); [|apply obeys_raise]. obey.
Qed.

Lemma obeys_multi_agent now files threads :
  obeys Processed (_process_resume_multi_agent cwd today_year now files threads application_id file_url).
Proof.
  unfold _process_resume_multi_agent.
  apply obeys_answer with (Q := λ o : option (uuid * option JobContext), match o with Some p => of_file p.1 | None => True end).
  - apply answers_request; [apply _|]. eapply answers_bind; [apply resume_of_file_answers|].
    intros [r|] Hr; [|by intros w Hw]. eapply answers_bind; [apply answers_obeys, obeys_context|].
    intros c _ w Hw. split; [done|]. exact Hr.
  - intros [[id c]|] Hid; [|apply obeys_ret]. destruct (_download_file _ _ _); [apply obeys_ret|].
    destruct (run_agent_pipeline _ _ _ _ _) as [e|res] eqn:Er; [apply obeys_ret|]. apply obeys_request; [apply _|].
    unfold store_result. apply obeys_bind; [apply obeys_select_by_id|]. intros o.
    apply obeys_bind; [destruct o; [apply obeys_ret|apply obeys_raise]|]. intros _.
    apply obeys_bind; [by apply obeys_store_resume|]. intros _. apply obeys_bind; [|intros _; apply tx_commit].
    destruct (ma_score _) as [score|] eqn:Es; [|apply obeys_ret].
    eapply obeys_answer; [apply key_answers|]. intros key Hkey.
    eapply obeys_answer; [apply select_application_answers|]. intros [a|] Ha; [|apply obeys_ret].
    apply obeys_store_score; [congruence|]. apply round0_percentage.
    unfold run_agent_pipeline in Er. destruct (dispatch _ _) as [|[raw parsed]]; [done|]. injection Er as <-.
    cbn [pr_analysis] in Es. unfold analyse, aggregate in Es. destruct (note_failure SOFT_SKILLS_AGENT _ _) as [errs fs].
    cbn [ua_matching] in Es.
    match type of Es with ma_score (_matching ?a ?b ?c ?d ?e ?f ?g) = _ => pose proof (score_in_bounds a b c d e f g) as [Hb _] end.
    by rewrite Es in Hb.
Qed.
End job.

Section theorems.
Context `{Unicode, FormatG, Settings, BlindIndex, DocumentReaders, Ner}.

(** C32. The processing of a resume touches nothing but its resume: whatever
    the file holds, whatever the libraries answer and wherever it fails, what
    it commits differs from the database before it only in the derived columns
    of resumes with the uploaded file (their owner, organisation and file
    stay) and in the score of the application it was queued for, which is a
    percentage. *)
Theorem processing_changes_only_its_resume (cwd : abs_path) (today_year : Z) (now : instant) (files : Files)
    (threads : Threads) (application_id file_url : string) (w : World) :
  Integrity (committed w) → session w = committed w →
  processed file_url (uuid_parse application_id) (committed w)
    (committed (snd (process_resume_task cwd today_year now files threads application_id file_url w))).
Proof.
  intros Hdb Hs. assert (Processed (committed w) application_id file_url w) as Hw
    by (split; [|rewrite Hs]; apply processed_refl).
  unfold process_resume_task. case_bool_decide.
  - apply (obeys_linear cwd today_year (committed w) Hdb application_id file_url now files w Hw).
  - apply (obeys_multi_agent cwd today_year (committed w) Hdb application_id file_url now files threads w Hw).
Qed.
End theorems.

(** *** One resume of one candidate, downloaded and scored *)

Section demo.
#[local] Existing Instances default_settings text_unicode.
#[local] Instance demo_index : BlindIndex := {| keyed_hash s := s |}.
#[local] Instance demo_format : FormatG := {| format_g _ := "" |}.
#[local] Instance demo_ner : Ner := {| spacy_model := None |}.

Definition demo_text : text := chars "Jane Doe, Python developer, jane@example.com".
#[local] Instance demo_readers : DocumentReaders := {|
  fitz_open _ := Some (mkPdf false [mkPage (inr demo_text) (inr [])]); docx_open _ := None |}.

Definition demo_url : string := "https://files.example.com/cv.pdf".
Definition demo_key : string := uuid_str 6.
Definition demo_files : Files := mkFiles (λ _, inl (PyError "FileNotFoundError")) (λ _, inr "%PDF").
Definition demo_ends : Threads := mkThreads (λ _, InTime) (λ _, (0%Q, 1%Q)).

Definition demo_rows : Db := {|
  users := {[2%N := mkUser 2 "admin@a.com" "" "Admin" true 0 (Some 1%N) None None None;
             3%N := mkUser 3 "jane@example.com" "" "Candidate" true 0 None None None None]};
  companies := {[1%N := mkCompany 1 "A" None None 2]};
  candidates := {[4%N := mkCandidate 4 3 "Jane" "Doe" None None None]};
  jobs := {[5%N := mkJob 5 (Some 1%N) (Some 1%N) 2 "Developer" None None (Some ["Python"]) None "Active" None None None 0]};
  applications := {[6%N := mkApplication 6 (Some 1%N) 5 4 "Applied" None 0 0]}; interviews := ∅;
  resumes := {[7%N := mkResume 7 (Some 1%N) 4 demo_url None None None None None]};
  skills := ∅; notifications := ∅; status_history := ∅; question_sets := ∅; questions := ∅ |}.

Definition demo_before : World := mkWorld demo_rows demo_rows SYSTEM_CONTEXT [].
Definition demo_after : Db := committed (snd (process_resume_task [] 2026 9 demo_files demo_ends demo_key demo_url demo_before)).

Lemma processing_changes_only_its_resume_witness :
  integrity_check demo_rows = true ∧ processed demo_url (uuid_parse demo_key) demo_rows demo_after ∧
  (res_raw_text <$> resumes demo_after !! 7%N, app_score_ai <$> applications demo_after !! 6%N)
    = (Some (Some (text_of demo_text)), Some (Some 85)).
Proof.
  assert (integrity_check demo_rows = true) as Hok by (vm_compute; reflexivity).
  split; [exact Hok|]. split; [|vm_compute; reflexivity].
  apply (processing_changes_only_its_resume [] 2026 9 demo_files demo_ends demo_key demo_url demo_before); [|reflexivity].
  by apply integrity_check_ok.
Defined.
End demo.
