(* ===== verification/Interviews.v ===== *)
(** Interviews ([app/routers/interviews.py], [app/schemas/interviews.py],
    [app/core/interview_scheduler.py]): the meetings of an application, their
    evaluation, and the reminders both sides get 24 hours before.

    The scheduler (rq-scheduler on Redis) is outside the database: a booking
    or a cancellation takes effect at once and no rollback undoes it, so it is
    an effect of the world. What it answers is an argument of the handlers
    ([Scheduler]). *)
From S2P Require Import Prelude PyText Sanitize Config Models Codecs Security Tenancy Orm OrmLaws Roles Rounding.
From Stdlib Require Import QArith.
Local Open Scope string_scope.
Local Open Scope Z_scope.
Local Open Scope list_scope.

Definition INTERVIEW_MANAGER_ROLES : list string := ["Admin"; "HR_Manager"].
Definition _VALID_INTERVIEWER_ROLES : list string := ["Interviewer"; "HR_Manager"].
Definition _INTERVIEW_VIEWER_ROLES : list string := INTERVIEW_MANAGER_ROLES ++ ["Interviewer"].

(** ** Requests *)

Definition ALLOWED_EVALUATION_CRITERIA : list string :=
  ["technical_skill"; "problem_solving"; "communication"; "culture_fit"].
Definition _MIN_SCORE : Z := 1.
Definition _MAX_SCORE : Z := 10.

Record InterviewCreateRequest := mkCreateInterview {
  new_application_id : uuid; new_interviewer_id : uuid;
  new_scheduled_at : instant; new_meeting_link : string }.

(** A field that was not sent is [None]; one sent as [null] is [Some None]. *)
Record InterviewUpdateRequest := mkUpdateInterview {
  upd_interviewer_id : option (option uuid);
  upd_scheduled_at : option (option instant);
  upd_meeting_link : option (option string) }.

Record InterviewEvaluationRequest := mkEvaluation {
  evaluation_scores : list (string * Z); feedback_text : string }.

(** [sanitize_meeting_link] and the length of the field. *)
Definition sanitize_meeting_link (value : string) : option string :=
  let value := strip_html_tags value in
  if bool_decide (1 ≤ py_len value ≤ 500)%nat then Some value else None.

(** [normalize_timezone]: [offset] is the time zone of the text, in
    microseconds, and [None] for a naive one, which is taken as UTC. *)
Definition normalize_timezone (local : instant) (offset : option Z) : instant :=
  local - default 0 offset.

(** Keys of a JSON object are distinct. *)
Definition validate_scores (value : list (string * Z)) : bool :=
  negb (bool_decide (value = [])) &&
  forallb (λ p, bool_decide (p.1 ∈ ALLOWED_EVALUATION_CRITERIA)) value &&
  forallb (λ p, bool_decide (_MIN_SCORE ≤ p.2 ≤ _MAX_SCORE)) value.

Definition evaluation_request (scores : list (string * Z)) (feedback : string) : option InterviewEvaluationRequest :=
  let feedback := strip_html_tags feedback in
  if validate_scores scores && bool_decide (1 ≤ py_len feedback ≤ 4000)%nat
  then Some (mkEvaluation scores feedback) else None.

Definition score_total (scores : list (string * Z)) : Z := foldr (λ p s, p.2 + s) 0 scores.

(** [round(sum / len, 2)]: the quotients of at most four scores are never so
    close to a tie that their doubles round differently. *)
Definition overall_score (scores : list (string * Z)) : Q :=
  Qmake (round_hundredths (score_total scores) (Z.of_nat (length scores))) 100.

(** ** Reminders *)

Definition REMINDER_LEAD_TIME : Z := hours 24.

(** What the scheduler answers in one request: the id of the [k]-th job it is
    given, or [None] for an exception, and whether the [k]-th cancellation
    works. *)
Record Scheduler := mkScheduler { book : nat → option string; cancels : nat → bool }.

Definition reminder_time (scheduled_at now : instant) : instant :=
  Z.max (scheduled_at - REMINDER_LEAD_TIME) now.

(** The arguments of [send_interview_reminder_email_task], less the instant
    of the meeting. *)
Definition reminder_args (email name candidate_name interviewer_name meeting_link : string) : list string :=
  [email; name; candidate_name; interviewer_name; meeting_link].

(** The loop over the recipients; a failure ends it with the empty list. *)
Fixpoint book_all (sched : Scheduler) (k : nat) (at_ scheduled_at : instant) (jobs : list (list string)) :
    M World (option (list string)) :=
  match jobs with
  | [] => mret (Some [])
  | args :: rest =>
      match book sched k with
      | None => mret None
      | Some id =>
          emit (ScheduledJob id at_ scheduled_at args);;
          ids ← book_all sched (S k) at_ scheduled_at rest;
          mret (cons id <$> ids)
      end
  end.

Definition schedule_interview_reminder (sched : Scheduler) (now : instant) (scheduled_at : instant)
    (candidate_email candidate_name interviewer_email interviewer_name meeting_link : string) :
    M World (list string) :=
  let effective_time := reminder_time scheduled_at now in
  let args e n := reminder_args e n candidate_name interviewer_name meeting_link in
  o ← book_all sched 0 effective_time scheduled_at
        [args candidate_email candidate_name; args interviewer_email interviewer_name];
  mret (default [] o).

Fixpoint cancel_all (sched : Scheduler) (k : nat) (ids : list string) : M World unit :=
  match ids with
  | [] => mret tt
  | id :: rest => if cancels sched k then emit (DroppedJob id);; cancel_all sched (S k) rest else mret tt
  end.

Definition cancel_interview_reminder (sched : Scheduler) (job_ids : option (list string)) : M World unit :=
  cancel_all sched 0 (default [] job_ids).

(** [ids or None] *)
Definition ids_or_none (ids : list string) : option (list string) :=
  match ids with [] => None | _ => Some ids end.

(** ** Changes of an interview *)

Definition iv_set_reminders (ids : option (list string)) (i : Interview) : Interview :=
  mkInterview (iv_id i) (iv_tenant_id i) (iv_application_id i) (iv_interviewer_id i) (iv_scheduled_at i)
    (iv_meeting_link i) ids (iv_status i) (iv_evaluation_scores i) (iv_overall_score i)
    (iv_feedback_text i) (iv_evaluated_at i).

(** [for field_name, value in update_data.items(): setattr(..)]; the caller
    has rejected a null interviewer. *)
Definition iv_apply (p : InterviewUpdateRequest) (i : Interview) : Interview :=
  mkInterview (iv_id i) (iv_tenant_id i) (iv_application_id i)
    (default (iv_interviewer_id i) (upd_interviewer_id p ≫= id))
    (default (iv_scheduled_at i) (upd_scheduled_at p))
    (default (iv_meeting_link i) (upd_meeting_link p))
    (iv_reminder_job_ids i) (iv_status i) (iv_evaluation_scores i) (iv_overall_score i)
    (iv_feedback_text i) (iv_evaluated_at i).

Definition iv_evaluate (now : instant) (p : InterviewEvaluationRequest) (i : Interview) : Interview :=
  mkInterview (iv_id i) (iv_tenant_id i) (iv_application_id i) (iv_interviewer_id i) (iv_scheduled_at i)
    (iv_meeting_link i) (iv_reminder_job_ids i) "Completed" (Some (evaluation_scores p))
    (Some (overall_score (evaluation_scores p))) (Some (feedback_text p)) (Some now).

(** ** Handlers *)

Record InterviewResponse := mkInterviewResponse {
  ir_interview : Interview; ir_interviewer_name : string; ir_candidate_name : string; ir_job_title : string }.

Section handlers.
Context `{Settings}.

Definition full_name (c : Candidate) : string := strip (cand_first_name c +:+ " " +:+ cand_last_name c).

Definition _get_valid_interviewer (interviewer_id : option uuid) : M World User :=
  w ← get;
  l ← select_where (λ u, bool_decide (Some (user_id u) = interviewer_id) &&
                         bool_decide (user_tenant_id u = tenant_id (ctx w)));
  o ← scalar_one_or_none l;
  user ← or_raise o 404;
  reject_if (negb (bool_decide (user_role user ∈ _VALID_INTERVIEWER_ROLES))) 422;;
  mret user.

Definition _get_candidate_contact (application : Application) : M World (string * string) :=
  o ← select_by_id (R:=Candidate) (app_candidate_id application);
  candidate ← or_raise o 404;
  o ← select_by_id (R:=User) (cand_user_id candidate);
  user ← or_raise o 404;
  let name := full_name candidate in
  mret (user_email user, if nonempty name then name else user_email user).

(** The title and the name come from one join, so they are there together. *)
Definition _build_interview_response (interview : Interview) : M World InterviewResponse :=
  interviewer ← select_by_id (R:=User) (iv_interviewer_id interview);
  application ← select_by_id (R:=Application) (iv_application_id interview);
  job ← match application with Some a => select_by_id (R:=Job) (app_job_id a) | None => mret None end;
  candidate ← match application with
              | Some a => select_by_id (R:=Candidate) (app_candidate_id a)
              | None => mret None
              end;
  let '(title, name) := match job, candidate with
                        | Some j, Some c => (job_title j, full_name c)
                        | _, _ => ("", "")
                        end in
  mret (mkInterviewResponse interview (match interviewer with Some u => user_email u | None => "" end) name title).

Definition create_interview (sched : Scheduler) (now : instant) (fresh : uuid) (current_user : User)
    (payload : InterviewCreateRequest) : M World InterviewResponse :=
  require_roles INTERVIEW_MANAGER_ROLES current_user;;
  o ← select_by_id (R:=Application) (new_application_id payload);
  application ← or_raise o 404;
  interviewer ← _get_valid_interviewer (Some (new_interviewer_id payload));
  insert_row (mkInterview fresh None (new_application_id payload) (new_interviewer_id payload)
    (Some (new_scheduled_at payload)) (Some (new_meeting_link payload)) None "Pending" None None None None);;
  '(candidate_email, candidate_name) ← _get_candidate_contact application;
  reminder_job_ids ← schedule_interview_reminder sched now (new_scheduled_at payload) candidate_email
    candidate_name (user_email interviewer) (user_email interviewer) (new_meeting_link payload);
  update_row now fresh (iv_set_reminders (ids_or_none reminder_job_ids));;
  commit;;
  interview ← refresh fresh;
  _build_interview_response interview.

Definition may_see (current_user : User) (i : Interview) : bool :=
  bool_decide (user_role current_user ∈ INTERVIEW_MANAGER_ROLES) ||
  bool_decide (user_id current_user = iv_interviewer_id i).

Definition get_interview (current_user : User) (interview_id : uuid) : M World InterviewResponse :=
  o ← select_by_id (R:=Interview) interview_id;
  interview ← or_raise o 404;
  reject_if (negb (may_see current_user interview)) 403;;
  _build_interview_response interview.

Definition day_length : Z := hours 24.

(** The conditions of [list_interviews] on a row; [day] is the start of the
    day. *)
Definition interview_filter (application_id : option uuid) (day : option instant)
    (evaluation_status : option string) (current_user : User) (i : Interview) : bool :=
  match application_id with Some a => bool_decide (iv_application_id i = a) | None => true end &&
  match day with
  | Some d => match iv_scheduled_at i with Some t => bool_decide (d ≤ t < d + day_length) | None => false end
  | None => true
  end &&
  match evaluation_status with Some s => bool_decide (iv_status i = s) | None => true end &&
  (negb (bool_decide (user_role current_user = "Interviewer")) ||
   bool_decide (iv_interviewer_id i = user_id current_user)).

(** The rows [list_interviews] pages through ([Pagination.v]). *)
Definition list_interviews (application_id : option uuid) (day : option instant)
    (evaluation_status : option string) (current_user : User) : M World (list Interview) :=
  reject_if (negb (bool_decide (user_role current_user ∈ _INTERVIEW_VIEWER_ROLES))) 403;;
  select_where (interview_filter application_id day evaluation_status current_user).

Definition needs_reschedule (p : InterviewUpdateRequest) : bool :=
  bool_decide (is_Some (upd_scheduled_at p)) || bool_decide (is_Some (upd_interviewer_id p)).

(** The new reminders of a moved interview. *)
Definition reschedule (sched : Scheduler) (now : instant) (interviewer : option User) (interview : Interview) :
    M World unit :=
  o ← select_by_id (R:=Application) (iv_application_id interview);
  application ← or_raise o 404;
  '(candidate_email, candidate_name) ← _get_candidate_contact application;
  interviewer ← match interviewer with
                | Some u => mret (Some u)
                | None => select_by_id (R:=User) (iv_interviewer_id interview)
                end;
  let email := match interviewer with Some u => user_email u | None => "" end in
  match iv_scheduled_at interview with
  | None => raise (PyError "TypeError")
  | Some scheduled_at =>
      new_job_ids ← schedule_interview_reminder sched now scheduled_at candidate_email candidate_name
        email email (default "" (iv_meeting_link interview));
      update_row now (iv_id interview) (iv_set_reminders (ids_or_none new_job_ids))
  end.

Definition update_interview (sched : Scheduler) (now : instant) (current_user : User) (interview_id : uuid)
    (payload : InterviewUpdateRequest) : M World InterviewResponse :=
  require_roles INTERVIEW_MANAGER_ROLES current_user;;
  o ← select_by_id (R:=Interview) interview_id;
  interview ← or_raise o 404;
  interviewer ← match upd_interviewer_id payload with
                | Some i => u ← _get_valid_interviewer i; mret (Some u)
                | None => mret None
                end;
  let updated := iv_apply payload interview in
  (if needs_reschedule payload then
     cancel_interview_reminder sched (iv_reminder_job_ids interview);;
     update_row now interview_id (iv_apply payload);;
     reschedule sched now interviewer updated
   else update_row now interview_id (iv_apply payload));;
  commit;;
  interview ← refresh interview_id;
  _build_interview_response interview.

Definition submit_interview_evaluation (now : instant) (current_user : User) (interview_id : uuid)
    (payload : InterviewEvaluationRequest) : M World InterviewResponse :=
  o ← select_by_id (R:=Interview) interview_id;
  interview ← or_raise o 404;
  reject_if (negb (may_see current_user interview)) 403;;
  update_row now interview_id (iv_evaluate now payload);;
  commit;;
  interview ← refresh interview_id;
  _build_interview_response interview.

Definition delete_interview (sched : Scheduler) (current_user : User) (interview_id : uuid) : M World unit :=
  require_roles INTERVIEW_MANAGER_ROLES current_user;;
  o ← select_by_id (R:=Interview) interview_id;
  interview ← or_raise o 404;
  cancel_interview_reminder sched (iv_reminder_job_ids interview);;
  delete_row (R:=Interview) interview_id;;
  commit.
End handlers.
