(* ===== verification/InterviewLaws.v ===== *)
(** Reminders and evaluations ([Interviews.v]): which jobs wait in the
    scheduler, whose they are, and what an evaluation records. *)
From S2P Require Import Prelude PyText Sanitize Config Models Codecs Security Tenancy Orm OrmLaws Roles Rounding Interviews.
From stdpp Require Import relations.
From Stdlib Require Import QArith.
Local Open Scope string_scope.
Local Open Scope Z_scope.
Local Open Scope list_scope.

Section handlers.
Context `{Settings}.

Lemma readonly_interviewer i : readonly (_get_valid_interviewer i).
Proof. unfold _get_valid_interviewer. readonly. Qed.
Lemma readonly_contact a : readonly (_get_candidate_contact a).
Proof. unfold _get_candidate_contact. readonly. Qed.
Lemma readonly_response i : readonly (_build_interview_response i).
Proof. unfold _build_interview_response. readonly. Qed.

Lemma interviewer_inv i w u w' :
  _get_valid_interviewer i w = (inr u, w') →
  w' = w ∧ i = Some (user_id u) ∧ (∃ k, users (session w) !! k = Some u) ∧
  user_tenant_id u = tenant_id (ctx w) ∧ user_role u ∈ _VALID_INTERVIEWER_ROLES.
Proof.
  intros E. pose proof (readonly_run _ _ _ _ (readonly_interviewer i) E) as ->. split; [done|].
  unfold _get_valid_interviewer in E. rewrite (bind_ok get _ w w w) in E by done.
  rewrite select_where_bind in E. destruct (filter _ _) as [|x [|y l]] eqn:El; [done| |done].
  cbv [scalar_one_or_none mret M_ret mbind M_bind or_raise reject_if] in E.
  destruct (negb _) eqn:Hr; [done|]. injection E as <-. bool_to_prop.
  assert (x ∈ [x]) as Hx by left. rewrite <- El in Hx. apply list_elem_of_filter in Hx as [Hx Hv].
  bool_to_prop. unfold visible_rows in Hv. apply list_elem_of_filter in Hv as [_ Hv].
  apply list_elem_of_fmap in Hv as ([k x'] & -> & Hv). apply elem_of_map_to_list in Hv. cbn in *. eauto.
Qed.

(** ** The scheduler *)

(** The scheduler answers every call. *)
Definition scheduler_up (sched : Scheduler) (a b : string) : Prop :=
  book sched 0 = Some a ∧ book sched 1 = Some b ∧ ∀ k, cancels sched k = true.

Definition add_effects (es : list Effect) (w : World) : World :=
  mkWorld (committed w) (session w) (ctx w) (effects w ++ es).

Definition reminder_ids (i : Interview) : list string := default [] (iv_reminder_job_ids i).
Definition drops (ids : list string) : list Effect := DroppedJob <$> ids.

Lemma cancel_run sched k ids w :
  (∀ k, cancels sched k = true) → cancel_all sched k ids w = (inr tt, add_effects (drops ids) w).
Proof.
  intros Hc. revert k w. induction ids as [|id ids IH]; intros k w; cbn [cancel_all].
  - destruct w. unfold add_effects. cbn. by rewrite app_nil_r.
  - rewrite Hc, emit_bind, IH. unfold add_effects. cbn. by rewrite <- app_assoc.
Qed.

Lemma cancel_reminders_run sched i w :
  (∀ k, cancels sched k = true) →
  cancel_interview_reminder sched (iv_reminder_job_ids i) w = (inr tt, add_effects (drops (reminder_ids i)) w).
Proof. apply cancel_run. Qed.

Definition bookings (a b : string) (now scheduled_at : instant) (ce cn ie link : string) : list Effect :=
  [ScheduledJob a (reminder_time scheduled_at now) scheduled_at (reminder_args ce cn cn ie link);
   ScheduledJob b (reminder_time scheduled_at now) scheduled_at (reminder_args ie ie cn ie link)].

Lemma schedule_run sched a b now t ce cn ie link w :
  scheduler_up sched a b →
  schedule_interview_reminder sched now t ce cn ie ie link w =
    (inr [a; b], add_effects (bookings a b now t ce cn ie link) w).
Proof.
  intros (Ha & Hb & _). unfold schedule_interview_reminder. cbn [book_all]. rewrite Ha, Hb.
  unfold add_effects, bookings. cbv [emit modify mbind M_bind mret M_ret]. cbn. by rewrite <- app_assoc.
Qed.

(** ** Jobs that wait *)

Record Job := mkWaiting { run_at : instant; meeting_at : instant; job_args : list string }.

Definition replay_one (m : gmap string Job) (e : Effect) : gmap string Job :=
  match e with
  | ScheduledJob id r t args => <[id := mkWaiting r t args]> m
  | DroppedJob id => delete id m
  | _ => m
  end.

Definition waiting (w : World) : gmap string Job := fold_left replay_one (effects w) ∅.

Lemma replay_app m es es' : fold_left replay_one (es ++ es') m = fold_left replay_one es' (fold_left replay_one es m).
Proof. apply fold_left_app. Qed.

Lemma replay_drops m ids id j :
  fold_left replay_one (drops ids) m !! id = Some j → m !! id = Some j ∧ id ∉ ids.
Proof.
  revert m. induction ids as [|i ids IH]; intros m; cbn; [intros; split; [done|apply not_elem_of_nil]|].
  intros (Hd & Hn)%IH. apply lookup_delete_Some in Hd as [Hne Hd].
  split; [done|]. apply not_elem_of_cons. auto.
Qed.

(** The interview of a waiting job: it exists, the job is recorded with it,
    is about its current time and its current interviewer, and is not due
    earlier than 24 hours before the meeting. *)
Definition backed (db : Db) (id : string) (j : Job) : Prop :=
  ∃ i iv u, interviews db !! i = Some iv ∧ id ∈ reminder_ids iv ∧
    iv_scheduled_at iv = Some (meeting_at j) ∧ meeting_at j - REMINDER_LEAD_TIME ≤ run_at j ∧
    user_id u = iv_interviewer_id iv ∧ (∃ k, users db !! k = Some u) ∧ job_args j !! 3%nat = Some (user_email u).

Definition tidy (w : World) : Prop :=
  session w = committed w ∧ ∀ id j, waiting w !! id = Some j → backed (committed w) id j.

Definition set_interviews (m : gmap uuid Interview) (db : Db) : Db := with_rows (R:=Interview) m db.

(** What a request leaves: the effects it has added and the new database. *)
Inductive outcome (db : Db) : list Effect → Db → Prop :=
  | failed ids : outcome db (drops ids) db
  | changed i iv iv' :
      interviews db !! i = Some iv → iv_id iv' = iv_id iv → iv_reminder_job_ids iv' = iv_reminder_job_ids iv →
      iv_scheduled_at iv' = iv_scheduled_at iv → iv_interviewer_id iv' = iv_interviewer_id iv →
      outcome db [] (set_interviews (<[i := iv']> (interviews db)) db)
  | deleted i iv :
      interviews db !! i = Some iv →
      outcome db (drops (reminder_ids iv)) (set_interviews (delete i (interviews db)) db)
  | booked i iv ids a b now t ce cn ie link u :
      (∀ old, interviews db !! i = Some old → ids = reminder_ids old) →
      iv_id iv = i → iv_reminder_job_ids iv = Some [a; b] → iv_scheduled_at iv = Some t →
      user_id u = iv_interviewer_id iv → (∃ k, users db !! k = Some u) → user_email u = ie →
      outcome db (drops ids ++ bookings a b now t ce cn ie link) (set_interviews (<[i := iv]> (interviews db)) db).

Lemma backed_change db i iv iv' id j :
  interviews db !! i = Some iv → iv_reminder_job_ids iv' = iv_reminder_job_ids iv →
  iv_scheduled_at iv' = iv_scheduled_at iv → iv_interviewer_id iv' = iv_interviewer_id iv →
  backed db id j → backed (set_interviews (<[i := iv']> (interviews db)) db) id j.
Proof.
  intros Hi Hr Hs Hv (k & x & u & Hk & Hin & Ht & Hl & Hu & Hdb & Ha). destruct (decide (i = k)) as [->|Hne].
  - simplify_eq. exists k, iv', u. cbn. rewrite lookup_insert_eq. unfold reminder_ids. rewrite Hr, Hs, Hv.
    unfold reminder_ids in Hin. split_and!; done.
  - exists k, x, u. cbn. rewrite lookup_insert_ne by done. split_and!; done.
Qed.

(** A job that is not of the row that changes stays backed. *)
Lemma backed_other db i o id j :
  (∀ old, interviews db !! i = Some old → id ∉ reminder_ids old) → backed db id j →
  backed (set_interviews (partial_alter (λ _, o) i (interviews db)) db) id j.
Proof.
  intros Hold (k & x & u & Hk & Hin & Hrest). exists k, x, u. split; [|done]. cbn.
  rewrite lookup_partial_alter_ne; [done|]. intros ->. by apply (Hold x).
Qed.

Lemma outcome_tidy db es db' w :
  outcome db es db' → tidy w → committed w = db →
  ∀ c, tidy (mkWorld db' db' c (effects w ++ es)).
Proof.
  intros Ho [_ Ht] <- c. split; [done|]. unfold waiting in *. cbn [effects committed].
  setoid_rewrite replay_app. intros id j. destruct Ho as
    [ids|i iv iv' Hi _ Hr Hs Hv|i iv Hi|i iv ids a b now t ce cn ie link u Hold _ Hr Hs Hu Hdb He].
  - intros [Hj _]%replay_drops. by apply Ht.
  - cbn. intros Hj%Ht. by eapply backed_change.
  - intros [Hj Hn]%replay_drops. apply Ht in Hj. apply (backed_other _ i None); [|done].
    intros old Ho. by simplify_eq.
  - rewrite replay_app. unfold bookings. cbn [fold_left replay_one].
    assert (∀ id' args, id' ∈ [a; b] → args !! 3%nat = Some ie →
      backed (set_interviews (<[i:=iv]> (interviews (committed w))) (committed w)) id'
        (mkWaiting (reminder_time t now) t args)) as Hnew.
    { intros id' args Hin Hargs. exists i, iv, u. cbn. rewrite lookup_insert_eq. unfold reminder_ids.
      rewrite Hr, Hs. split_and!; try done; [unfold reminder_time; lia|by rewrite Hargs, He]. }
    rewrite !lookup_insert_Some. intros [[<- <-]|[_ [[<- <-]|[_ [Hj Hn]%replay_drops]]]].
    + apply Hnew; [right; left|done].
    + apply Hnew; [left|done].
    + apply Ht in Hj. apply (backed_other _ i (Some iv)); [|done]. intros old Ho. by rewrite <- (Hold old Ho).
Qed.

(** *** Every handler has an outcome *)

Lemma interview_policies_alike g cmd cmd' db (r : Interview) :
  rls_using policies g cmd db r = rls_check policies g cmd' db r.
Proof. done. Qed.

(** Recording the ids of the jobs cannot fail. *)
Lemma record_run now i ids iv w cmd :
  interviews (session w) !! i = Some iv → rls_check policies (guc w) cmd (session w) iv = true →
  constraints (session w) iv = true →
  update_row now i (iv_set_reminders ids) w =
    (inr tt, upd_session (λ db, set_interviews (<[i := iv_set_reminders ids iv]> (interviews db)) db) w).
Proof.
  intros Hi Hr Hc. exact (update_row_ok (R:=Interview) now i (iv_set_reminders ids) w iv Hi Hr Hr Hr Hr Hc).
Qed.

(** After the row is written: a commit, and reads. *)
Lemma commit_tail {A} (m : M World A) w r w' :
  readonly m → (commit;; m) w = (r, w') → w' = mkWorld (session w) (session w) (ctx w) (effects w).
Proof. intros Hm E. rewrite commit_bind in E. by apply readonly_run in E. Qed.

Lemma readonly_tail i : readonly (interview ← refresh (R:=Interview) i; _build_interview_response interview).
Proof. apply readonly_bind; [auto with readonly|]. intros. apply readonly_response. Qed.

(** What a run of a handler has done when it stops: taken jobs back at most,
    or reached an outcome and committed it. *)
Definition ends (w w1 : World) : Prop :=
  (∃ ids, committed w1 = committed w ∧ effects w1 = effects w ++ drops ids) ∨
  (∃ es, outcome (committed w) es (committed w1) ∧ effects w1 = effects w ++ es).

Lemma ends_same (w : World) : ends w w.
Proof. left. exists []. cbn. by rewrite app_nil_r. Qed.
Lemma ends_dropped ids (w w1 : World) : committed w1 = committed w → effects w1 = effects w ++ drops ids → ends w w1.
Proof. left. by exists ids. Qed.

(** At the end of the request the session is closed. *)
Lemma request_outcome {A} (m : M World A) w r w' :
  (∀ r w1, m w = (r, w1) → ends w w1) → run_request m w = (r, w') →
  ∃ es, outcome (committed w) es (committed w') ∧ session w' = committed w' ∧ effects w' = effects w ++ es.
Proof.
  intros Hm. unfold run_request. destruct (m w) as [r1 w1] eqn:E. intros [= <- <-].
  destruct (Hm _ _ eq_refl) as [(ids & Hc & He)|(es & Ho & He)]; cbn.
  - exists (drops ids). rewrite Hc. split_and!; [constructor|done|done].
  - exists es. done.
Qed.

(** The first statement of a handler raised without a change. *)
Ltac stops := first [by apply ends_same | by (eapply ends_dropped; cbn; [done|reflexivity])].

Lemma overwrite_interview m i (x y : Interview) db :
  set_interviews (<[i:=y]> (interviews (set_interviews (<[i:=x]> m) db))) (set_interviews (<[i:=x]> m) db) =
  set_interviews (<[i:=y]> m) db.
Proof. unfold set_interviews. cbn. by rewrite insert_insert_eq. Qed.

Lemma create_ends sched now fresh a b u p w r w1 :
  scheduler_up sched a b → session w = committed w →
  create_interview sched now fresh u p w = (r, w1) → ends w w1.
Proof.
  intros Hup Hs E. unfold create_interview in E.
  apply reject_bind_inv in E as [(_ & _ & ->)|[_ E]]; [stops|].
  rewrite select_by_id_bind in E.
  apply or_raise_bind_inv in E as [(_ & _ & ->)|(app & _ & E)]; [stops|].
  apply bind_inv in E as [(e & E & _)|(iu & w2 & E1 & E)].
  { apply readonly_run in E as ->; [stops|apply readonly_interviewer]. }
  apply interviewer_inv in E1 as (-> & Hid & Hdb & _). injection Hid as Hid.
  apply bind_inv in E as [(e & E & _)|(x & w2 & E1 & E)]; [apply insert_row_fail in E as ->; stops|].
  apply insert_row_inv in E1 as (iv & Hst & Hck & Hn & Hk & ->).
  apply bind_inv in E as [(e & E & _)|([ce cn] & w2 & E1 & E)]; apply readonly_run in E1 || apply readonly_run in E;
    try apply readonly_contact.
  { subst w1. left. exists []. cbn. by rewrite app_nil_r. }
  subst w2. rewrite (bind_ok _ _ _ _ _ (schedule_run _ _ _ _ _ _ _ _ _ _ Hup)) in E. cbn [ids_or_none] in E.
  assert (iv_id iv = fresh ∧ iv_scheduled_at iv = Some (new_scheduled_at p) ∧
    iv_interviewer_id iv = new_interviewer_id p) as (Hivid & Hsch & Hint).
  { eapply (stamp_inv iv_tenant_id iv_set_tenant) in Hst as [[-> _]|(_ & _ & ->)]; done. }
  cbn [pk Interview_table] in Hn, E. rewrite Hivid in Hn, E.
  erewrite (bind_ok (update_row _ _ _)) in E; [|eapply (record_run _ _ _ iv _ INSERT); [|exact Hck|exact Hk];
    apply lookup_insert_eq].
  apply commit_tail in E; [|apply readonly_tail]. subst w1. right. eexists. split; [|reflexivity].
  cbn [committed upd_session add_effects session rows Interview_table]. rewrite <- Hs.
  fold (set_interviews (<[fresh:=iv]> (interviews (session w))) (session w)). rewrite overwrite_interview.
  apply (booked _ _ _ [] _ _ _ _ _ _ _ _ iu); cbn; try done.
  - intros old Ho. cbn in Hn. congruence.
  - by rewrite Hint.
Qed.

Lemma evaluation_ends now u i p w r w1 :
  session w = committed w → submit_interview_evaluation now u i p w = (r, w1) → ends w w1.
Proof.
  intros Hs E. unfold submit_interview_evaluation in E. rewrite select_by_id_bind in E.
  apply or_raise_bind_inv in E as [(_ & _ & ->)|(iv & Hiv & E)]; [stops|].
  apply lookup_visible_Some in Hiv as [Hiv _].
  apply reject_bind_inv in E as [(_ & _ & ->)|[_ E]]; [stops|].
  apply bind_inv in E as [(e & E & _)|(x & w2 & E1 & E)]; [apply update_row_fail in E as ->; stops|].
  apply update_row_inv in E1 as (old & Hold & _ & _ & _ & _ & ->).
  apply commit_tail in E; [|apply readonly_tail]. subst w1. right. exists []. split; [|cbn; by rewrite app_nil_r].
  cbn. rewrite <- Hs. by apply (changed _ _ old).
Qed.

Lemma delete_ends sched a b u i w r w1 :
  scheduler_up sched a b → session w = committed w → delete_interview sched u i w = (r, w1) → ends w w1.
Proof.
  intros Hup Hs E. unfold delete_interview in E.
  apply reject_bind_inv in E as [(_ & _ & ->)|[_ E]]; [stops|].
  rewrite select_by_id_bind in E.
  apply or_raise_bind_inv in E as [(_ & _ & ->)|(iv & Hiv & E)]; [stops|].
  apply lookup_visible_Some in Hiv as [Hiv _].
  rewrite (bind_ok _ _ _ _ _ (cancel_reminders_run sched _ w (proj2 (proj2 Hup)))) in E.
  apply bind_inv in E as [(e & E & _)|(x & w2 & E1 & E)]; [apply delete_row_fail in E as ->; stops|].
  apply delete_row_inv in E1 as (old & Hold & _ & ->). cbv [commit modify] in E. injection E as _ <-.
  right. exists (drops (reminder_ids iv)). split; [|reflexivity]. cbn. rewrite <- Hs. by apply deleted.
Qed.

(** Rows of users stand under their ids. *)
Definition users_keyed (db : Db) : Prop := ∀ k u, users db !! k = Some u → user_id u = k.

Lemma new_interviewer_inv (p : InterviewUpdateRequest) w r w1 :
  match upd_interviewer_id p with
  | Some i => u ← _get_valid_interviewer i; mret (Some u)
  | None => mret None
  end w = (r, w1) →
  w1 = w ∧ ∀ o, r = inr o →
    match o with
    | Some u => upd_interviewer_id p = Some (Some (user_id u)) ∧ ∃ k, users (session w) !! k = Some u
    | None => upd_interviewer_id p = None
    end.
Proof.
  destruct (upd_interviewer_id p) as [i|]; [|by intros [= <- <-]; split; [|intros o [= <-]]].
  intros [(e & E & ->)|(u & w2 & E1 & E)]%bind_inv.
  - by apply readonly_run in E as ->; [|apply readonly_interviewer].
  - apply interviewer_inv in E1 as (-> & -> & Hdb & _). cbv [mret M_ret] in E. injection E as <- <-.
    split; [done|]. by intros o [= <-].
Qed.

(** Moving the reminders of an interview whose change has been written. *)
Lemma reschedule_run sched a b now o iv w r w1 :
  scheduler_up sched a b → users_keyed (session w) →
  interviews (session w) !! iv_id iv = Some iv → rls_check policies (guc w) UPDATE (session w) iv = true →
  constraints (session w) iv = true →
  match o with
  | Some u => user_id u = iv_interviewer_id iv ∧ ∃ k, users (session w) !! k = Some u
  | None => True
  end →
  reschedule sched now o iv w = (r, w1) →
  w1 = w ∧ (∃ e, r = inl e) ∨ ∃ t ce cn link u, iv_scheduled_at iv = Some t ∧ user_id u = iv_interviewer_id iv ∧
    (∃ k, users (session w) !! k = Some u) ∧ r = inr tt ∧
    w1 = add_effects (bookings a b now t ce cn (user_email u) link)
           (upd_session (λ db, set_interviews (<[iv_id iv := iv_set_reminders (Some [a; b]) iv]> (interviews db)) db) w).
Proof.
  intros Hup Hkeys Hiv Hrls Hk Ho E. unfold reschedule in E. rewrite select_by_id_bind in E.
  apply or_raise_bind_inv in E as [(_ & -> & ->)|(app & _ & E)]; [left; eauto|].
  apply bind_inv in E as [(e & E & ->)|([ce cn] & w2 & E1 & E)]; apply readonly_run in E1 || apply readonly_run in E;
    try apply readonly_contact; [left; eauto|]. subst w2.
  apply bind_inv in E as [(e & E & _)|(ou & w2 & E1 & E)]; [by destruct o|].
  assert (w2 = w ∧ ∃ u, ou = Some u ∧ user_id u = iv_interviewer_id iv ∧ ∃ k, users (session w) !! k = Some u)
    as (-> & u & -> & Hu & Hdb).
  { destruct o as [u|]; [by injection E1 as <- <-; eauto|].
    assert (∃ u, users (session w) !! iv_interviewer_id iv = Some u) as [u Hu].
    { cbn in Hk. apply andb_true_iff in Hk as [_ Hk]. unfold exists_row in Hk.
      destruct (users (session w) !! _) as [u|]; [eauto|done]. }
    unfold select_by_id, reads in E1. cbn [rows User_table] in E1. rewrite Hu in E1. cbn [mbind option_bind] in E1.
    unfold row_visible, orm_criteria in E1. destruct (negb _) in E1; injection E1 as <- <-;
      (split; [done|]; exists u; split_and!; eauto). }
  destruct (iv_scheduled_at iv) as [t|] eqn:Ht; [|injection E as <- <-; left; eauto].
  rewrite (bind_ok _ _ _ _ _ (schedule_run _ _ _ _ _ _ _ _ _ _ Hup)) in E. cbn [ids_or_none] in E.
  erewrite (record_run _ _ _ iv _ UPDATE) in E; [|done..]. injection E as <- <-. right.
  exists t, ce, cn, (default "" (iv_meeting_link iv)), u. done.
Qed.

(** Moving an interview: its jobs are taken back, the row is changed, and new
    jobs are booked; or the run stops after the jobs are gone. *)
Lemma move_run sched now a b i p o iv w r w1 :
  scheduler_up sched a b → users_keyed (session w) → interviews (session w) !! i = Some iv → iv_id iv = i →
  match o with
  | Some u => upd_interviewer_id p = Some (Some (user_id u)) ∧ ∃ k, users (session w) !! k = Some u
  | None => upd_interviewer_id p = None
  end →
  (cancel_interview_reminder sched (iv_reminder_job_ids iv);;
   update_row now i (iv_apply p);;
   reschedule sched now o (iv_apply p iv)) w = (r, w1) →
  (committed w1 = committed w ∧ effects w1 = effects w ++ drops (reminder_ids iv)) ∧ (∃ e, r = inl e) ∨
  r = inr tt ∧ ∃ x es, w1 = mkWorld (committed w) (set_interviews (<[i := x]> (interviews (session w))) (session w)) (ctx w)
                (effects w ++ es) ∧
    outcome (session w) es (set_interviews (<[i := x]> (interviews (session w))) (session w)).
Proof.
  intros Hup Hkeys Hiv Hid Ho E.
  rewrite (bind_ok _ _ _ _ _ (cancel_reminders_run sched _ w (proj2 (proj2 Hup)))) in E.
  apply bind_inv in E as [(e' & E & ->)|(y & w3 & E2 & E)]; [apply update_row_fail in E as ->; left; eauto|].
  apply update_row_inv in E2 as (old & Hold & _ & _ & Hck & Hk & ->). cbn in Hold. simplify_eq.
  cbn [on_update Interview_table] in Hck, Hk, E.
  set (x := iv_apply p iv) in *.
  assert (iv_id x = iv_id iv) as Hx by done.
  match type of E with _ ?w2 = _ => destruct (reschedule_run sched a b now o x w2 r w1 Hup)
    as [(-> & e & ->)|(t & ce & cn & link & v & Ht & Hv & Hdb & -> & ->)] end; try exact E.
  - exact Hkeys.
  - rewrite Hx. apply lookup_insert_eq.
  - exact Hck.
  - exact Hk.
  - destruct o as [v|]; [|done]. destruct Ho as [Ho Hdb]. split; [|exact Hdb].
    unfold x, iv_apply. cbn. by rewrite Ho.
  - left. split; [done|by exists e].
  - right. split; [done|]. eexists _, _. split.
    { unfold add_effects, upd_session. cbn [committed session ctx effects]. f_equal.
      - rewrite Hx. apply overwrite_interview.
      - by rewrite <- app_assoc. }
    apply (booked _ _ _ (reminder_ids iv) _ _ _ _ _ _ _ _ v); try done.
    intros old Ho'. by simplify_eq.
Qed.

Lemma update_ends sched now a b u i p w r w1 :
  scheduler_up sched a b → session w = committed w → users_keyed (session w) →
  (∀ k x, interviews (session w) !! k = Some x → iv_id x = k) →
  update_interview sched now u i p w = (r, w1) → ends w w1.
Proof.
  intros Hup Hs Hkeys Hids E. unfold update_interview in E.
  apply reject_bind_inv in E as [(_ & _ & ->)|[_ E]]; [stops|].
  rewrite select_by_id_bind in E.
  apply or_raise_bind_inv in E as [(_ & _ & ->)|(iv & Hiv & E)]; [stops|].
  apply lookup_visible_Some in Hiv as [Hiv _]. cbn in Hiv. pose proof (Hids _ _ Hiv) as Hid.
  apply bind_inv in E as [(e & E & _)|(o & w2 & E1 & E)].
  { apply new_interviewer_inv in E as [-> _]. stops. }
  apply new_interviewer_inv in E1 as [-> Ho]. specialize (Ho o eq_refl). cbv zeta in E.
  destruct (needs_reschedule p) eqn:Hneeds.
  - apply bind_inv in E as [(e & E & _)|(x & w2 & E1 & E)].
    + apply (move_run _ _ a b _ _ _ iv) in E as [[[Hc He] _]|([=] & _)]; [|done..].
      by eapply ends_dropped.
    + apply (move_run _ _ a b _ _ _ iv) in E1 as [[_ [e [=]]]|(_ & y & es & -> & Hout)]; [|done..].
      apply commit_tail in E; [|apply readonly_tail]. subst w1. right. exists es. split; [|done].
      cbn. by rewrite <- Hs.
  - apply bind_inv in E as [(e & E & _)|(x & w2 & E1 & E)]; [apply update_row_fail in E as ->; stops|].
    apply update_row_inv in E1 as (old & Hold & _ & _ & _ & _ & ->). cbn in Hold. simplify_eq.
    apply commit_tail in E; [|apply readonly_tail]. subst w1. right. exists []. split; [|cbn; by rewrite app_nil_r].
    unfold needs_reschedule in Hneeds. bool_to_prop. cbn. rewrite <- Hs. apply (changed _ _ iv); [done|done|done| |].
    + cbn. destruct (upd_scheduled_at p); [exfalso; eauto|done].
    + cbn. destruct (upd_interviewer_id p); [exfalso; eauto|done].
Qed.
(** ** The system *)

Definition interviews_keyed (db : Db) : Prop := ∀ k i, interviews db !! k = Some i → iv_id i = k.

Lemma outcome_keyed db es db' :
  outcome db es db' → users_keyed db → interviews_keyed db → users_keyed db' ∧ interviews_keyed db'.
Proof.
  intros Ho Hu Hi. destruct Ho; (split; [done|]); intros k x; cbn; [by apply Hi| | |].
  - intros [[<- <-]|[_ Hx]]%lookup_insert_Some; [|by apply Hi]. by erewrite <- Hi.
  - intros [_ Hx]%lookup_delete_Some. by apply Hi.
  - intros [[<- <-]|[_ Hx]]%lookup_insert_Some; [done|by apply Hi].
Qed.

(** The requests that change interviews, with a scheduler that answers. *)
Inductive interview_request : ∀ A, M World A → Prop :=
  | req_create sched a b now fresh u p :
      scheduler_up sched a b → interview_request _ (create_interview sched now fresh u p)
  | req_update sched a b now u i p :
      scheduler_up sched a b → interview_request _ (update_interview sched now u i p)
  | req_evaluate now u i p : interview_request _ (submit_interview_evaluation now u i p)
  | req_delete sched a b u i : scheduler_up sched a b → interview_request _ (delete_interview sched u i).

(** One of them in any context; a job that runs and so leaves the schedule; or
    any other request, which does not touch interviews, reminders or the
    addresses of users. *)
Inductive interview_step : World → World → Prop :=
  | step_request A m c w r w' :
      interview_request A m → run_request m (snd (set_ctx c w)) = (r, w') → interview_step w w'
  | step_run id w : interview_step w (add_effects [DroppedJob id] w)
  | step_other w w' :
      session w' = committed w' → interviews (committed w') = interviews (committed w) →
      (∀ k u, users (committed w) !! k = Some u →
         ∃ u', users (committed w') !! k = Some u' ∧ user_id u' = user_id u ∧ user_email u' = user_email u) →
      users_keyed (committed w') → waiting w' = waiting w → interview_step w w'.

Lemma request_ends A m w :
  interview_request A m → session w = committed w → users_keyed (session w) → interviews_keyed (session w) →
  ∀ r w1, m w = (r, w1) → ends w w1.
Proof.
  intros [] Hs Hu Hi r w1 E;
    [by eapply create_ends|by eapply update_ends|by eapply evaluation_ends|by eapply delete_ends].
Qed.

Definition orderly (w : World) : Prop := tidy w ∧ users_keyed (committed w) ∧ interviews_keyed (committed w).

Lemma step_orderly w w' : orderly w → interview_step w w' → orderly w'.
Proof.
  intros (Ht & Hu & Hi) Hstep. pose proof (proj1 Ht) as Hs.
  destruct Hstep as [A m c w r w' Hm Hr|id w|w w' Hs' Hiv Husers Hu' Hw].
  - destruct (request_outcome m (snd (set_ctx c w)) r w') as (es & Ho & Hsw & He); [|exact Hr|].
    { apply request_ends; [done|done|by rewrite <- Hs in Hu|by rewrite <- Hs in Hi]. }
    cbn in Ho, He. pose proof (outcome_tidy _ _ _ w Ho Ht eq_refl (ctx w')) as Ht'. rewrite <- He in Ht'.
    destruct (outcome_keyed _ _ _ Ho Hu Hi). destruct w' as [cm ss cx ef]. cbn in *. subst ss. done.
  - split; [|done]. pose proof (outcome_tidy _ _ _ w (failed (committed w) [id]) Ht eq_refl (ctx w)) as Ht'.
    unfold add_effects. rewrite Hs. exact Ht'.
  - split; [split; [done|]|split; [done|unfold interviews_keyed; by rewrite Hiv]].
    rewrite Hw. intros id j (i & iv & u & Hi' & Hin & Hsch & Hlead & Hid & [k Hk] & Ha)%(proj2 Ht).
    destruct (Husers _ _ Hk) as (u' & Hk' & Hid' & He). exists i, iv, u'. rewrite Hiv, Hid', He. eauto 10.
Qed.
End handlers.


(** ** Evaluations *)

Lemma total_bounds scores :
  forallb (λ p : string * Z, bool_decide (_MIN_SCORE ≤ p.2 ≤ _MAX_SCORE)) scores = true →
  Z.of_nat (length scores) <= score_total scores <= 10 * Z.of_nat (length scores).
Proof.
  unfold _MIN_SCORE, _MAX_SCORE. induction scores as [|p l IH]; [done|]. cbn [forallb score_total foldr length].
  intros [Hp Hl]%andb_true_iff. apply bool_decide_eq_true in Hp. specialize (IH Hl).
  fold (score_total l). lia.
Qed.

Lemma overall_score_bounds scores :
  validate_scores scores = true →
  let n := Z.of_nat (length scores) in
  let mean := (inject_Z (score_total scores) / inject_Z n)%Q in
  (1 <= overall_score scores <= 10)%Q ∧ (- (1 # 200) <= overall_score scores - mean <= 1 # 200)%Q.
Proof.
  intros Hv n mean. unfold validate_scores in Hv. bool_to_prop.
  assert (0 < n) as Hn by (unfold n; destruct scores; [done|cbn; lia]).
  pose proof (round_hundredths_near (score_total scores) n Hn) as Hr.
  pose proof (total_bounds scores ltac:(done)) as Ht. fold n in Ht.
  unfold overall_score. fold n. set (q := round_hundredths (score_total scores) n) in *.
  assert (100 <= q <= 1000) as Hq by nia.
  split; [unfold Qle; cbn; lia|].
  assert ((q # 100) - mean == Qmake (n * q - 100 * score_total scores) (Z.to_pos (100 * n)))%Q as ->.
  { unfold mean, Qdiv, Qinv, inject_Z. destruct n as [|m|m]; [lia| |lia]. unfold Qeq. cbn. lia. }
  unfold Qle. cbn [Qnum Qden Qopp]. rewrite Z2Pos.id by lia. lia.
Qed.

Lemma refresh_inv `{Settings, Table R} id w r w' :
  refresh (R:=R) id w = (inr r, w') → w' = w ∧ rows (session w) !! id = Some r.
Proof.
  intros E. pose proof (readonly_run _ _ _ _ (readonly_refresh id) E) as ->. split; [done|].
  unfold refresh, reads, mbind, M_bind in E. destruct (rows (session w) !! id) as [x|]; [|done].
  cbn in E. destruct (rls_using _ _ _ _ x); [|done]. by injection E as ->.
Qed.

Lemma response_inv `{Settings} i w resp w' :
  _build_interview_response i w = (inr resp, w') → w' = w ∧ ir_interview resp = i.
Proof.
  intros E. pose proof (readonly_run _ _ _ _ (readonly_response i) E) as ->. split; [done|].
  unfold _build_interview_response in E. bind_step E as e | u w1 E1; [done|].
  bind_step E as e | a w2 E2; [done|]. bind_step E as e | j w3 E3; [done|]. bind_step E as e | c w4 E4; [done|].
  destruct (match j, c with Some _, Some _ => _ | _, _ => _ end) as [t n]. ret_step E. done.
Qed.

Lemma evaluation_run `{Settings} now u i p w resp w' :
  submit_interview_evaluation now u i p w = (inr resp, w') →
  ∃ old, interviews (session w) !! i = Some old ∧ may_see u old = true ∧ row_visible w old = true ∧
    session w' = set_interviews (<[i := iv_evaluate now p old]> (interviews (session w))) (session w) ∧
    committed w' = session w' ∧ ir_interview resp = iv_evaluate now p old.
Proof.
  unfold submit_interview_evaluation. intros E. rewrite select_by_id_bind in E.
  apply or_raise_bind_inv in E as [(_ & ? & _)|(iv & Hiv & E)]; [done|].
  apply lookup_visible_Some in Hiv as [Hiv Hvis].
  apply reject_bind_inv in E as [(_ & ? & _)|[Hsee E]]; [done|].
  bind_step E as e | x w1 E1; [done|].
  apply update_row_inv in E1 as (old & Hold & _ & _ & _ & _ & ->). cbn in Hiv, Hold. simplify_eq.
  rewrite commit_bind in E. bind_step E as e | r w2 E2; [done|]. apply refresh_inv in E2 as [-> Hr].
  apply response_inv in E as [-> Hresp]. cbn in Hr. rewrite lookup_insert_eq in Hr. injection Hr as <-.
  exists iv. bool_to_prop. done.
Qed.

(** C22. What an evaluation records: the scores of a valid form, their mean
    rounded to hundredths - between 1 and 10 and within 1/200 of the exact
    mean - and the status Completed, on the one interview that was named and
    that the user manages or was assigned to; nothing else changes. *)
Theorem evaluation_is_recorded `{Settings} (now : instant) (u : User) (i : uuid) (scores : list (string * Z))
    (feedback : string) (p : InterviewEvaluationRequest) (w w' : World) (resp : InterviewResponse) :
  evaluation_request scores feedback = Some p →
  submit_interview_evaluation now u i p w = (inr resp, w') →
  ∃ old new q, interviews (session w) !! i = Some old ∧
    (user_role u ∈ INTERVIEW_MANAGER_ROLES ∨ user_id u = iv_interviewer_id old) ∧
    committed w' = set_interviews (<[i := new]> (interviews (session w))) (session w) ∧
    iv_status new = "Completed" ∧ iv_evaluation_scores new = Some scores ∧ iv_evaluated_at new = Some now ∧
    iv_reminder_job_ids new = iv_reminder_job_ids old ∧ iv_scheduled_at new = iv_scheduled_at old ∧
    iv_overall_score new = Some q ∧ (1 <= q <= 10)%Q ∧
    (- (1 # 200) <= q - inject_Z (score_total scores) / inject_Z (Z.of_nat (length scores)) <= 1 # 200)%Q.
Proof.
  unfold evaluation_request. destruct (validate_scores scores && _) eqn:Hv; [|done]. intros [= <-].
  intros (old & Hold & Hsee & _ & Hs & Hc & Hresp)%evaluation_run. apply andb_true_iff in Hv as [Hv _].
  destruct (overall_score_bounds scores Hv) as [Hb Hm].
  exists old, (iv_evaluate now (mkEvaluation scores (strip_html_tags feedback)) old), (overall_score scores).
  split_and!; try done; [|by rewrite Hc|apply Hb|apply Hb|apply Hm|apply Hm].
  unfold may_see in Hsee. apply orb_true_iff in Hsee as [Hx|Hx]; apply bool_decide_eq_true in Hx; auto.
Qed.

(** ** Who sees what *)

Lemma visible_in_tenant `{Settings} t u w (i : Interview) :
  ctx w = tenant_ctx t u → row_visible w i = true → iv_tenant_id i = Some t.
Proof.
  intros Hc. unfold row_visible, orm_criteria. rewrite Hc. intros [Hv _]%andb_true_iff. cbn in Hv.
  unfold sql_eq in Hv. destruct (iv_tenant_id i) as [t'|]; [|done]. apply bool_decide_eq_true in Hv. by subst.
Qed.

(** C21. An interviewer is shown, and can evaluate, only interviews of the own
    organisation that are assigned to them, and cannot plan, move or cancel
    any. *)
Theorem interviewers_see_their_own `{Settings} (u : User) (t cu : uuid) (w : World) :
  user_role u = "Interviewer" → ctx w = tenant_ctx t cu →
  (∀ a d s l w', list_interviews a d s u w = (inr l, w') →
     ∀ iv, iv ∈ l → iv_interviewer_id iv = user_id u ∧ iv_tenant_id iv = Some t) ∧
  (∀ i resp w', get_interview u i w = (inr resp, w') →
     iv_interviewer_id (ir_interview resp) = user_id u ∧ iv_tenant_id (ir_interview resp) = Some t) ∧
  (∀ now i p resp w', submit_interview_evaluation now u i p w = (inr resp, w') →
     iv_interviewer_id (ir_interview resp) = user_id u ∧ iv_tenant_id (ir_interview resp) = Some t) ∧
  (∀ sched now fresh i p q,
     create_interview sched now fresh u p w = (inl (HTTPException 403), w) ∧
     update_interview sched now u i q w = (inl (HTTPException 403), w) ∧
     delete_interview sched u i w = (inl (HTTPException 403), w)).
Proof.
  intros Hrole Hctx.
  assert (∀ iv, may_see u iv = true → iv_interviewer_id iv = user_id u) as Hown.
  { intros iv Hs. unfold may_see in Hs. rewrite Hrole in Hs.
    apply orb_true_iff in Hs as [Hs|Hs]; apply bool_decide_eq_true in Hs; [|done].
    unfold INTERVIEW_MANAGER_ROLES in Hs. set_solver. }
  split_and!.
  - intros a d s l w' E iv Hin. unfold list_interviews in E.
    apply reject_bind_inv in E as [(_ & ? & _)|[_ E]]; [done|]. unfold select_where, reads in E.
    injection E as <- <-. apply list_elem_of_filter in Hin as [Hf Hin].
    apply list_elem_of_filter in Hin as [Hvis _]. split; [|by eapply visible_in_tenant].
    unfold interview_filter in Hf. rewrite Hrole in Hf. by bool_to_prop; apply bool_decide_eq_true in H1.
  - intros i resp w' E. unfold get_interview in E. rewrite select_by_id_bind in E.
    apply or_raise_bind_inv in E as [(_ & ? & _)|(iv & Hiv & E)]; [done|].
    apply lookup_visible_Some in Hiv as [_ Hvis].
    apply reject_bind_inv in E as [(_ & ? & _)|[Hsee E]]; [done|]. apply negb_false_iff in Hsee.
    apply response_inv in E as [_ ->]. split; [by apply Hown|by eapply visible_in_tenant].
  - intros now i p resp w' (old & _ & Hsee & Hvis & _ & _ & ->)%evaluation_run. cbn.
    split; [by apply Hown|by eapply visible_in_tenant].
  - intros sched now fresh i p q.
    unfold create_interview, update_interview, delete_interview, require_roles. by rewrite Hrole.
Qed.

(** ** Reminders that go wrong *)

Lemma null_time_stops `{Settings} sched now a b p o (iv : Interview) i w r w1 :
  scheduler_up sched a b → upd_scheduled_at p = Some None →
  (cancel_interview_reminder sched (iv_reminder_job_ids iv);;
   update_row now i (iv_apply p);;
   reschedule sched now o (iv_apply p iv)) w = (r, w1) →
  ∃ e, r = inl e ∧ committed w1 = committed w ∧ effects w1 = effects w ++ drops (reminder_ids iv).
Proof.
  intros Hup Hp E. rewrite (bind_ok _ _ _ _ _ (cancel_reminders_run sched _ w (proj2 (proj2 Hup)))) in E.
  apply bind_inv in E as [(e & E & ->)|(y & w3 & E2 & E)]; [apply update_row_fail in E as ->; by exists e|].
  apply update_row_inv in E2 as (old & _ & _ & _ & _ & _ & ->).
  unfold reschedule in E. rewrite select_by_id_bind in E.
  apply or_raise_bind_inv in E as [(_ & -> & ->)|(app & _ & E)]; [by eexists|].
  apply bind_inv in E as [(e & E & ->)|([ce cn] & w4 & E1 & E)].
  { apply readonly_run in E as ->; [by exists e|apply readonly_contact]. }
  apply readonly_run in E1 as ->; [|apply readonly_contact].
  apply bind_inv in E as [(e & E & ->)|(ou & w4 & E1 & E)]; [by destruct o|].
  cbn [iv_apply iv_scheduled_at] in E. rewrite Hp in E. cbn [default] in E. injection E as <- <-.
  exists (PyError "TypeError"). destruct o; by injection E1 as _ <-.
Qed.

(** A change of the time to null takes the reminders away and then fails:
    the request always ends in an error and the interview stays as it was,
    with its time, but none of the jobs recorded with it waits any more. *)
Theorem null_time_loses_reminders `{Settings} (sched : Scheduler) (a b : string) (now : instant) (u : User)
    (i : uuid) (iv : Interview) (w : World) :
  scheduler_up sched a b → user_role u ∈ INTERVIEW_MANAGER_ROLES → session w = committed w →
  lookup_visible i w = Some iv →
  let '(r, w') := run_request (update_interview sched now u i (mkUpdateInterview None (Some None) None)) w in
  (∃ e, r = inl e) ∧ committed w' = committed w ∧ interviews (committed w') !! i = Some iv ∧
  ∀ id, id ∈ reminder_ids iv → waiting w' !! id = None.
Proof.
  intros Hup Hrole Hs Hiv. unfold run_request.
  destruct (update_interview _ _ _ _ _ w) as [r w1] eqn:E. unfold update_interview, require_roles in E.
  rewrite bool_decide_true in E by done. cbn [negb] in E. rewrite (bind_ok _ _ w tt w) in E by done.
  rewrite select_by_id_bind, Hiv in E. cbn [or_raise] in E. rewrite (bind_ok _ _ w iv w) in E by done.
  cbn [upd_interviewer_id] in E. rewrite (bind_ok _ _ w None w) in E by done. cbv zeta in E.
  change (needs_reschedule _) with true in E. cbv iota in E.
  apply lookup_visible_Some in Hiv as [Hiv _].
  assert (∃ e, r = inl e ∧ committed w1 = committed w ∧ effects w1 = effects w ++ drops (reminder_ids iv))
    as (e & -> & Hc & He).
  { apply bind_inv in E as [(e & E & ->)|(x & w2 & E & _)].
    - apply (null_time_stops _ _ a b) in E as (e' & _ & Hc & He); [by exists e|done|done].
    - by apply (null_time_stops _ _ a b) in E as (e' & [=] & _). }
  cbn. split_and!; [by exists e|done|by rewrite Hc, <- Hs|].
  intros id Hid. unfold waiting. cbn. rewrite He, replay_app.
  destruct (fold_left replay_one (drops (reminder_ids iv)) _ !! id) as [j|] eqn:Ej; [|done].
  by apply replay_drops in Ej as [_ Hn].
Qed.

(** A change of the link alone leaves the reminders as they were booked:
    the interview has the new link and every waiting job the one it was
    booked with. *)
Theorem new_link_keeps_old_reminders `{Settings} (sched : Scheduler) (now : instant) (u : User) (i : uuid)
    (link : string) (w w' : World) (resp : InterviewResponse) :
  update_interview sched now u i (mkUpdateInterview None None (Some (Some link))) w = (inr resp, w') →
  iv_meeting_link (ir_interview resp) = Some link ∧ waiting w' = waiting w.
Proof.
  unfold update_interview. intros E. apply reject_bind_inv in E as [(_ & ? & _)|[_ E]]; [done|].
  rewrite select_by_id_bind in E. apply or_raise_bind_inv in E as [(_ & ? & _)|(iv & Hiv & E)]; [done|].
  cbn [upd_interviewer_id] in E. rewrite (bind_ok _ _ w None w) in E by done. cbv zeta in E.
  change (needs_reschedule _) with false in E. cbv iota in E. bind_step E as e | x w1 E1; [done|].
  apply update_row_inv in E1 as (old & Hold & _ & _ & _ & _ & ->).
  rewrite commit_bind in E. bind_step E as e | r w2 E2; [done|]. apply refresh_inv in E2 as [-> Hr].
  apply response_inv in E as [-> ->]. cbn in Hr. rewrite lookup_insert_eq in Hr. injection Hr as <-. done.
Qed.

(** ** A concrete interview *)

#[local] Existing Instance default_settings.
Definition demo_manager : User := mkUser 2 "hr@acme.ir" "h" "HR_Manager" true 0 (Some 1%N) None None None.
Definition demo_interviewer : User := mkUser 3 "sara@acme.ir" "h" "Interviewer" true 0 (Some 1%N) None None None.
Definition demo_applicant : User := mkUser 5 "ali@mail.ir" "h" "Candidate" true 0 None None None None.
Definition demo_db : Db :=
  mkDb {[2%N := demo_manager; 3%N := demo_interviewer; 5%N := demo_applicant]}
    {[1%N := mkCompany 1 "Acme" None None 2]} {[6%N := mkCandidate 6 5 "Ali" "Rad" None None None]}
    {[7%N := mkJob 7 (Some 1%N) None 2 "Engineer" None (Some "text") None None "Open" None None None 0]}
    {[8%N := mkApplication 8 (Some 1%N) 7 6 "Screening" None 0 0]} ∅ ∅ ∅ ∅ ∅ ∅ ∅.
Definition demo_world : World := mkWorld demo_db demo_db (tenant_ctx 1 2) [].
Definition demo_scheduler : Scheduler :=
  mkScheduler (λ k, match k with O => Some "j1" | _ => Some "j2" end) (λ _, true).
Definition demo_planned : (exn + InterviewResponse) * World :=
  run_request (create_interview demo_scheduler 1000 9 demo_manager
    (mkCreateInterview 8 3 (hours 100) "https://meet/a")) demo_world.
Definition demo_interview (link : string) : Interview :=
  mkInterview 9 (Some 1%N) 8 3 (Some (hours 100)) (Some link) (Some ["j1"; "j2"]) "Pending" None None None None.

Example demo_planned_ok :
  interviews (committed (snd demo_planned)) = {[9%N := demo_interview "https://meet/a"]} ∧
  waiting (snd demo_planned) =
    {["j1" := mkWaiting (hours 76) (hours 100) ["ali@mail.ir"; "Ali Rad"; "Ali Rad"; "sara@acme.ir"; "https://meet/a"];
      "j2" := mkWaiting (hours 76) (hours 100)
                ["sara@acme.ir"; "sara@acme.ir"; "Ali Rad"; "sara@acme.ir"; "https://meet/a"]]}.
Proof. split; vm_compute; reflexivity. Qed.

Lemma demo_scheduler_up : scheduler_up demo_scheduler "j1" "j2".
Proof. done. Qed.

Lemma demo_keyed : users_keyed demo_db ∧ interviews_keyed demo_db.
Proof.
  split; intros k x; cbn; [|by rewrite lookup_empty].
  rewrite !lookup_insert_Some, lookup_singleton_Some. naive_solver.
Qed.


(** The planned interview, on the second day. *)
Definition demo_later : World := snd demo_planned.

Lemma null_time_loses_reminders_witness :
  interviews (committed demo_later) !! 9%N = Some (demo_interview "https://meet/a") ∧
  let '(r, w') := run_request (update_interview demo_scheduler 2000 demo_manager 9
    (mkUpdateInterview None (Some None) None)) demo_later in
  (∃ e, r = inl e) ∧ interviews (committed w') !! 9%N = Some (demo_interview "https://meet/a") ∧
  waiting w' !! "j1" = None ∧ waiting w' !! "j2" = None.
Proof.
  split; [vm_compute; reflexivity|].
  pose proof (null_time_loses_reminders demo_scheduler "j1" "j2" 2000 demo_manager 9
    (demo_interview "https://meet/a") demo_later) as T.
  destruct (run_request _ _) as [r w'].
  destruct T as (He & _ & Hi & Hw); [apply demo_scheduler_up|cbn; set_solver|vm_compute; reflexivity
    |vm_compute; reflexivity|].
  split; [exact He|]. split; [exact Hi|].
  split; apply Hw; cbn; set_solver.
Defined.

Definition demo_relinked : (exn + InterviewResponse) * World :=
  update_interview demo_scheduler 2000 demo_manager 9
    (mkUpdateInterview None None (Some (Some "https://meet/b"))) demo_later.

Lemma new_link_keeps_old_reminders_witness :
  ∃ resp, fst demo_relinked = inr resp ∧ iv_meeting_link (ir_interview resp) = Some "https://meet/b" ∧
  (job_args <$> waiting (snd demo_relinked) !! "j1") =
    Some ["ali@mail.ir"; "Ali Rad"; "Ali Rad"; "sara@acme.ir"; "https://meet/a"].
Proof.
  destruct demo_relinked as [[e|resp] w'] eqn:E.
  { assert (match fst demo_relinked with inl _ => true | inr _ => false end = false) as Hx by (vm_compute; reflexivity).
    rewrite E in Hx. discriminate. }
  exists resp. split; [reflexivity|].
  destruct (new_link_keeps_old_reminders demo_scheduler 2000 demo_manager 9 _ _ _ _ E) as [Hl Hw]. split; [exact Hl|].
  cbn [snd]. rewrite Hw. vm_compute. reflexivity.
Defined.

Definition demo_form : option InterviewEvaluationRequest :=
  evaluation_request [("technical_skill", 8); ("communication", 7); ("culture_fit", 7)] "<b>Good</b>".

Lemma evaluation_is_recorded_witness :
  ∃ p resp w', demo_form = Some p ∧
    submit_interview_evaluation 5000 demo_interviewer 9 p demo_later = (inr resp, w') ∧
    ∃ new, interviews (committed w') !! 9%N = Some new ∧ iv_status new = "Completed" ∧
      iv_overall_score new = Some (Qmake 733 100).
Proof.
  assert (match demo_form ≫= λ p, match fst (submit_interview_evaluation 5000 demo_interviewer 9 p demo_later) with
    inr r => iv_overall_score (ir_interview r) | _ => None end with Some q => true | None => false end = true) as Hok
    by (vm_compute; reflexivity).
  assert (overall_score [("technical_skill", 8); ("communication", 7); ("culture_fit", 7)] = Qmake 733 100) as Hq
    by (vm_compute; reflexivity).
  destruct demo_form as [p|] eqn:Ep; [|discriminate]. cbn [mbind option_bind] in Hok.
  destruct (submit_interview_evaluation 5000 demo_interviewer 9 p demo_later) as [[e|resp] w'] eqn:E; [discriminate|].
  exists p, resp, w'. split; [reflexivity|]. split; [exact E|].
  destruct (evaluation_is_recorded _ _ _ _ _ _ _ _ _ Ep E)
    as (old & new & q & Hold & _ & Hc & Hst & Hs & _ & _ & _ & Hov & _).
  exists new. rewrite Hc. split; [apply lookup_insert_eq|]. split; [exact Hst|].
  apply evaluation_run in E as (old' & Hold' & _ & _ & Hs' & Hc' & _). rewrite Hc' in Hc. rewrite Hc in Hs'.
  assert (new = iv_evaluate 5000 p old') as ->.
  { apply (f_equal (λ db, interviews db !! 9%N)) in Hs'. cbn in Hs'. rewrite !lookup_insert_eq in Hs'.
    by injection Hs'. }
  cbn. injection Ep as <-. cbn. by rewrite <- Hq.
Defined.

Lemma interviewers_see_their_own_witness :
  ∃ l, fst (list_interviews None None None demo_interviewer demo_later) = inr l ∧
    length l = 1%nat ∧ ∀ iv, iv ∈ l → iv_interviewer_id iv = 3%N.
Proof.
  destruct (interviewers_see_their_own demo_interviewer 1 2 demo_later) as (Hl & _); [reflexivity..|].
  destruct (list_interviews None None None demo_interviewer demo_later) as [[e|l] w'] eqn:E.
  { assert (match fst (list_interviews None None None demo_interviewer demo_later) with
      inl _ => true | inr _ => false end = false) as Hx by (vm_compute; reflexivity). rewrite E in Hx. discriminate. }
  assert (match fst (list_interviews None None None demo_interviewer demo_later) with
      inl _ => 0%nat | inr l => length l end = 1%nat) as Hn by (vm_compute; reflexivity).
  rewrite E in Hn. exists l. split; [reflexivity|]. split; [exact Hn|]. intros iv Hin. by apply (Hl _ _ _ _ _ E).
Defined.
