(* ===== verification/Isolation.v ===== *)
(** One organisation and the others: every request the staff of an
    organisation can make, as one type, and what no sequence of them does. *)
From S2P Require Import Prelude PyText Unicode Config Models Security Tenancy Orm Roles OrmLaws Invariants StateMachine Kanban Analytics Interviews Auth Staff Search Portal Questions Genai.
From Stdlib Require Import QArith.
Local Open Scope string_scope.
Local Open Scope list_scope.

(** ** The requests *)

(** One constructor per route (and the background task of a move), with what
    the route takes from outside. *)
Inductive StaffRequest :=
  | UpdateApplicationStatus (now : instant) (history_id application_id : uuid) (p : ApplicationStatusUpdateRequest)
  | NotifyStatusChange (candidate_id job_id : uuid) (new_status : string)
  | GetResume (resume_id : uuid)
  | GetFunnel (job_id : option uuid)
  | GetTrend (now : instant) (n : Z) (job_id : option uuid)
  | CreateInterview (s : Scheduler) (now : instant) (fresh : uuid) (p : InterviewCreateRequest)
  | GetInterview (interview_id : uuid)
  | ListInterviews (application_id : option uuid) (day : option instant) (evaluation_status : option string)
  | UpdateInterview (s : Scheduler) (now : instant) (interview_id : uuid) (p : InterviewUpdateRequest)
  | EvaluateInterview (now : instant) (interview_id : uuid) (p : InterviewEvaluationRequest)
  | DeleteInterview (s : Scheduler) (interview_id : uuid)
  | CreateJob (now : instant) (fresh : uuid) (p : Jobs.JobCreateRequest)
  | ListJobs (status_filter department : option string)
  | CloseJob (now : instant) (job_id : uuid)
  | GetMyTenant
  | ListTenantStaff
  | CreateTenantStaff (now : instant) (fresh : uuid) (salt : string) (p : Organisation.StaffCreateRequest)
  | GetAdminStats
  | FindTenantMember (user_id : uuid)
  | ListMyNotifications
  | MarkAllNotificationsRead (now : instant)
  | MarkNotificationRead (now : instant) (notification_id : uuid)
  | RequestQuestionSet (queued : bool) (now later : instant) (fresh : uuid) (p : GenerateQuestionsRequest)
  | ListQuestionSets (application_id : uuid)
  | GetQuestionSet (set_id : uuid)
  | UpdateQuestion (now : instant) (set_id question_id : uuid) (p : QuestionUpdateRequest)
  | SearchQuestionBank (skill difficulty category : option string)
  | SearchCandidates (q : CandidateQuery).

Section isolation.
Context `{Settings, PasswordLib, Unicode, BlindIndex}.

(** The handler of a request; the answer is dropped. *)
Definition serve (u : User) (r : StaffRequest) : M World unit :=
  match r with
  | UpdateApplicationStatus now h a p => update_application_status now h u a p;; mret tt
  | NotifyStatusChange c j s => trigger_status_change_email c j s
  | GetResume r => get_resume u r;; mret tt
  | GetFunnel j => get_recruitment_funnel u j;; mret tt
  | GetTrend now n j => get_applications_trend now u n j;; mret tt
  | CreateInterview s now i p => create_interview s now i u p;; mret tt
  | GetInterview i => get_interview u i;; mret tt
  | ListInterviews a d e => list_interviews a d e u;; mret tt
  | UpdateInterview s now i p => update_interview s now u i p;; mret tt
  | EvaluateInterview now i p => submit_interview_evaluation now u i p;; mret tt
  | DeleteInterview s i => delete_interview s u i
  | CreateJob now j p => Jobs.create_job now j u p;; mret tt
  | ListJobs s d => Jobs.list_jobs s d;; mret tt
  | CloseJob now j => Jobs.close_job now u j;; mret tt
  | GetMyTenant => Organisation.get_my_tenant u;; mret tt
  | ListTenantStaff => Organisation.list_tenant_staff u;; mret tt
  | CreateTenantStaff now i s p => Organisation.create_tenant_staff now i s u p;; mret tt
  | GetAdminStats => Admin.get_admin_stats u;; mret tt
  | FindTenantMember i => Admin._tenant_member i;; mret tt
  | ListMyNotifications => Inbox.list_my_notifications u;; mret tt
  | MarkAllNotificationsRead now => Inbox.mark_all_notifications_read now u;; mret tt
  | MarkNotificationRead now i => Inbox.mark_notification_read now u i;; mret tt
  | RequestQuestionSet k now later i p => request_question_set k now later i u p;; mret tt
  | ListQuestionSets a => list_question_sets u a;; mret tt
  | GetQuestionSet s => get_question_set u s;; mret tt
  | UpdateQuestion now s q p => update_question now u s q p;; mret tt
  | SearchQuestionBank s d c => search_question_bank u s d c;; mret tt
  | SearchCandidates q => search_candidates u q;; mret tt
  end.

(** A request of the member [u] of [t]: a fresh session in the context of the
    token ([AuthLaws.user_and_tenant_agree]). *)
Definition member_request (t : uuid) (u : User) (r : StaffRequest) (w : World) : World :=
  snd (run_request (serve u r) (mkWorld (committed w) (committed w) (tenant_ctx t (user_id u)) (effects w))).

Definition member_requests (t : uuid) (l : list (User * StaffRequest)) (w : World) : World :=
  foldl (λ w p, member_request t p.1 p.2 w) w l.
End isolation.

(** ** Every handler keeps what its statements keep *)

Section handlers.
Context `{Settings, PasswordLib, Unicode, BlindIndex} {I : World → Prop}.
Context `{!Transactional I, !Writes I Application, !Writes I StatusHistory, !Writes I Interview, !Deletes I Interview}.
Context `{!Writes I Job, !Writes I Notification, !BulkWrites I Notification}.
Context `{!Writes I InterviewQuestionSet, !Writes I InterviewQuestion}.

Lemma obeys_book_all sched jobs : ∀ k at_ scheduled_at, obeys I (book_all sched k at_ scheduled_at jobs).
Proof. induction jobs as [|j jobs IH]; intros k at_ s; cbn [book_all]; obey. Qed.

Lemma obeys_cancel_all sched ids : ∀ k, obeys I (cancel_all sched k ids).
Proof. induction ids as [|i ids IH]; intros k; cbn [cancel_all]; obey. Qed.

Lemma obeys_to_responses l : obeys I (to_responses l).
Proof. induction l as [|q l IH]; cbn [to_responses]; unfold _to_response; obey. Qed.

Lemma obeys_bank_items l : obeys I (bank_items l).
Proof. induction l as [|q l IH]; cbn [bank_items]; obey. Qed.

Lemma obeys_search_items apps cvs l : obeys I (search_items apps cvs l).
Proof. induction l as [|c l IH]; cbn [search_items]; obey. Qed.

#[local] Hint Resolve obeys_book_all obeys_cancel_all obeys_to_responses obeys_bank_items
  obeys_search_items : obeys.

Lemma obeys_kanban now h u a p : obeys I (update_application_status now h u a p).
Proof. unfold update_application_status, check_transition, write_transition. obey. Qed.
Lemma obeys_notify c j s : obeys I (trigger_status_change_email c j s).
Proof. unfold trigger_status_change_email. obey. Qed.
Lemma obeys_resume u r : obeys I (get_resume u r).
Proof. unfold get_resume. obey. Qed.
Lemma obeys_funnel u j : obeys I (get_recruitment_funnel u j).
Proof. unfold get_recruitment_funnel, ensure_job, _ensure_job_exists. obey. Qed.
Lemma obeys_trend now u n j : obeys I (get_applications_trend now u n j).
Proof. unfold get_applications_trend, ensure_job, _ensure_job_exists. obey. Qed.

Lemma obeys_interviewer i : obeys I (_get_valid_interviewer i).
Proof. unfold _get_valid_interviewer. obey. Qed.
Lemma obeys_contact a : obeys I (_get_candidate_contact a).
Proof. unfold _get_candidate_contact. obey. Qed.
Lemma obeys_response i : obeys I (_build_interview_response i).
Proof. unfold _build_interview_response. obey. Qed.
Lemma obeys_schedule s now t ce cn ie iname l : obeys I (schedule_interview_reminder s now t ce cn ie iname l).
Proof. unfold schedule_interview_reminder. obey. Qed.
Lemma obeys_cancel s ids : obeys I (cancel_interview_reminder s ids).
Proof. apply obeys_cancel_all. Qed.
#[local] Hint Resolve obeys_interviewer obeys_contact obeys_response obeys_schedule obeys_cancel : obeys.

Lemma obeys_create_interview s now i u p : obeys I (create_interview s now i u p).
Proof. unfold create_interview. obey. Qed.
Lemma obeys_get_interview u i : obeys I (get_interview u i).
Proof. unfold get_interview. obey. Qed.
Lemma obeys_list_interviews a d e u : obeys I (list_interviews a d e u).
Proof. unfold list_interviews. obey. Qed.
Lemma obeys_reschedule s now o i : obeys I (reschedule s now o i).
Proof. unfold reschedule. obey. Qed.
#[local] Hint Resolve obeys_reschedule : obeys.
Lemma obeys_update_interview s now u i p : obeys I (update_interview s now u i p).
Proof. unfold update_interview. obey. Qed.
Lemma obeys_evaluate now u i p : obeys I (submit_interview_evaluation now u i p).
Proof. unfold submit_interview_evaluation. obey. Qed.
Lemma obeys_delete_interview s u i : obeys I (delete_interview s u i).
Proof. unfold delete_interview. obey. Qed.

Lemma obeys_jobs u now j p s d :
  obeys I (Jobs.create_job now j u p) ∧ obeys I (Jobs.list_jobs s d) ∧ obeys I (Jobs.close_job now u j).
Proof. unfold Jobs.create_job, Jobs.list_jobs, Jobs.close_job. split_and!; obey. Qed.

Lemma obeys_organisation u :
  obeys I (Organisation.get_my_tenant u) ∧ obeys I (Organisation.list_tenant_staff u).
Proof. unfold Organisation.get_my_tenant, Organisation.list_tenant_staff. split; obey. Qed.

Lemma obeys_admin u i : obeys I (Admin.get_admin_stats u) ∧ obeys I (Admin._tenant_member i).
Proof. unfold Admin.get_admin_stats, Admin._tenant_member. split; obey. Qed.

Lemma obeys_inbox u now i :
  obeys I (Inbox.list_my_notifications u) ∧ obeys I (Inbox.mark_all_notifications_read now u) ∧
  obeys I (Inbox.mark_notification_read now u i).
Proof.
  unfold Inbox.list_my_notifications, Inbox.mark_all_notifications_read, Inbox.mark_notification_read.
  split_and!; obey.
Qed.

Lemma obeys_can_review u a : obeys I (_ensure_can_review u a).
Proof. unfold _ensure_can_review, _ensure_role. obey. Qed.
Lemma obeys_load_set s : obeys I (_load_set s).
Proof. unfold _load_set, _to_response. obey. Qed.
#[local] Hint Resolve obeys_can_review obeys_load_set : obeys.

Lemma obeys_request_set k now later i u p : obeys I (request_question_set k now later i u p).
Proof. unfold request_question_set, _ensure_role, Profile.latest_processed_resume. obey. Qed.
Lemma obeys_question_sets u a s : obeys I (list_question_sets u a) ∧ obeys I (get_question_set u s).
Proof. unfold list_question_sets, get_question_set, _ensure_role. split; obey. Qed.
Lemma obeys_update_question now u s q p : obeys I (update_question now u s q p).
Proof. unfold update_question, _ensure_role. obey. Qed.
Lemma obeys_bank u s d c : obeys I (search_question_bank u s d c).
Proof. unfold search_question_bank, _ensure_role. obey. Qed.
Lemma obeys_search u q : obeys I (search_candidates u q).
Proof. unfold search_candidates. obey. Qed.

(** The creation of accounts is left to the invariant. *)
Lemma obeys_serve u r :
  (∀ now i s p, obeys I (Organisation.create_tenant_staff now i s u p)) → obeys I (serve u r).
Proof.
  intros Hstaff.
  destruct r; cbn [serve]; try apply obeys_notify; try apply obeys_delete_interview;
    (apply obeys_bind; [|intros; apply obeys_ret]).
  - apply obeys_kanban.
  - apply obeys_resume.
  - apply obeys_funnel.
  - apply obeys_trend.
  - apply obeys_create_interview.
  - apply obeys_get_interview.
  - apply obeys_list_interviews.
  - apply obeys_update_interview.
  - apply obeys_evaluate.
  - by apply (obeys_jobs u now fresh p None None).
  - apply (obeys_jobs u 0%Z 0%N (Jobs.mkJobCreate "" None None [] None None None None)).
  - by apply (obeys_jobs u now job_id (Jobs.mkJobCreate "" None None [] None None None None) None None).
  - apply obeys_organisation.
  - apply obeys_organisation.
  - apply Hstaff.
  - apply (obeys_admin u 0%N).
  - apply (obeys_admin u).
  - apply (obeys_inbox u 0%Z 0%N).
  - apply (obeys_inbox u now 0%N).
  - apply obeys_inbox.
  - apply obeys_request_set.
  - apply (obeys_question_sets u application_id 0%N).
  - apply (obeys_question_sets u 0%N set_id).
  - apply obeys_update_question.
  - apply obeys_bank.
  - apply obeys_search.
Qed.
End handlers.

(** ** One organisation *)

Section organisation.
Context `{Settings, PasswordLib, Unicode, BlindIndex}.

Lemma create_staff_writes {I} `{!Transactional I, !Writes I User} now i s u p :
  obeys I (Organisation.create_tenant_staff now i s u p).
Proof. unfold Organisation.create_tenant_staff. obey. Qed.

Lemma create_staff_accounts t db0 now i s u p :
  user_tenant_id u = Some t → obeys (Accounts t db0) (Organisation.create_tenant_staff now i s u p).
Proof.
  intros Ht. unfold Organisation.create_tenant_staff.
  repeat first [apply Accounts_insert_user; [exact Ht|cbn; destruct (Organisation.staff_role p); cbn; set_solver]
               | apply obeys_bind; [|intros]]; obey.
Qed.

#[local] Existing Instance Confined_where.
#[local] Existing Instance Confined_deletes.

Lemma serve_confined t u r db0 :
  DB_RLS_ROLE ≠ "none" → obeys (Confined t (user_id u) db0) (serve u r).
Proof.
  intros Hr. pose proof (Confined_writes (R:=Application) Hr t (user_id u) db0).
  pose proof (Confined_writes (R:=StatusHistory) Hr t (user_id u) db0).
  pose proof (Confined_writes (R:=Interview) Hr t (user_id u) db0).
  pose proof (Confined_deletes (R:=Interview) Hr t (user_id u) db0).
  pose proof (Confined_writes (R:=Job) Hr t (user_id u) db0).
  pose proof (Confined_writes (R:=Notification) Hr t (user_id u) db0).
  pose proof (Confined_where (R:=Notification) Hr t (user_id u) db0).
  pose proof (Confined_writes (R:=InterviewQuestionSet) Hr t (user_id u) db0).
  pose proof (Confined_writes (R:=InterviewQuestion) Hr t (user_id u) db0).
  pose proof (Confined_writes (R:=User) Hr t (user_id u) db0).
  apply obeys_serve. intros. apply create_staff_writes.
Qed.

Lemma serve_accounts t u r db0 : user_tenant_id u = Some t → obeys (Accounts t db0) (serve u r).
Proof. intros Ht. apply obeys_serve. intros. by apply create_staff_accounts. Qed.

Lemma member_request_spec t u r w :
  DB_RLS_ROLE ≠ "none" → user_tenant_id u = Some t →
  same_foreign t (committed w) (committed (member_request t u r w)) ∧
  accounts_kept t (users (committed w)) (users (committed (member_request t u r w))).
Proof.
  intros Hr Ht. unfold member_request.
  set (w1 := mkWorld (committed w) (committed w) (tenant_ctx t (user_id u)) (effects w)).
  assert (Confined t (user_id u) (committed w) w1) as Hw1 by (split_and!; reflexivity).
  assert (Accounts t (committed w) w1) as Ha1.
  { split; (split; [done|intros k x Hx Hn; cbn in *; congruence]). }
  split.
  - apply (obeys_request (Confined t (user_id u) (committed w)) _ (serve_confined t u r _ Hr) w1 Hw1).
  - apply (obeys_request (Accounts t (committed w)) _ (serve_accounts t u r _ Ht) w1 Ha1).
Qed.

Lemma accounts_kept_trans t m1 m2 m3 : accounts_kept t m1 m2 → accounts_kept t m2 m3 → accounts_kept t m1 m3.
Proof.
  intros [Ha Ha'] [Hb Hb']. split; [by auto|]. intros k u Hk Hn.
  destruct (m2 !! k) as [x|] eqn:E.
  - pose proof (Hb _ _ E) as Hx. simplify_eq. by apply (Ha' k).
  - by apply (Hb' k).
Qed.

(** C4. The staff of an organisation stays in it: whatever sequence of
    requests its members make - any route of the staff, with any arguments -
    every row that belongs to another organisation, every candidate profile
    and every account is afterwards what it was; the only new accounts are HR
    managers and interviewers of the same organisation. *)
Theorem staff_stays_in_organisation (t : uuid) (l : list (User * StaffRequest)) (w : World) :
  DB_RLS_ROLE ≠ "none" → Forall (λ p, user_tenant_id p.1 = Some t) l →
  let w' := member_requests t l w in
  same_foreign t (committed w) (committed w') ∧ accounts_kept t (users (committed w)) (users (committed w')).
Proof.
  intros Hr. revert w. induction l as [|[u r] l IH]; intros w Hl.
  - split; [reflexivity|]. split; [done|]. intros k x Hx Hn. cbn in Hx. congruence.
  - inversion Hl as [|? ? Ht Hl']; subst. cbn in Ht.
    destruct (member_request_spec t u r w Hr Ht) as [Hs Ha]. destruct (IH (member_request t u r w) Hl') as [Hs' Ha'].
    split; [by etrans|by eapply accounts_kept_trans].
Qed.
End organisation.

(** *** Two organisations: a job of the other one cannot be closed *)

Section demo.
#[local] Existing Instances default_settings text_passwords text_unicode.
#[local] Instance demo_index : BlindIndex := {| keyed_hash s := s |}.

Definition two_admin : User := mkUser 2 "admin@a.com" "" "Admin" true 0 (Some 1%N) None None None.

Definition two_job (id owner : uuid) : Job :=
  mkJob id (Some owner) (Some owner) 2 "Developer" None None None None "Active" None None None 0.

Definition two_organisations : Db := {|
  users := {[2%N := two_admin; 3%N := mkUser 3 "admin@b.com" "" "Admin" true 0 (Some 9%N) None None None]};
  companies := {[1%N := mkCompany 1 "A" None None 2; 9%N := mkCompany 9 "B" None None 3]};
  candidates := ∅; jobs := {[4%N := two_job 4 1; 5%N := two_job 5 9]}; applications := ∅; interviews := ∅;
  resumes := ∅; skills := ∅; notifications := ∅; status_history := ∅; question_sets := ∅; questions := ∅ |}.

Definition two_world : World := mkWorld two_organisations two_organisations SYSTEM_CONTEXT [].

Definition two_requests : list (User * StaffRequest) :=
  [(two_admin, CloseJob 7 5); (two_admin, CloseJob 7 4);
   (two_admin, CreateTenantStaff 8 20 "s" (Organisation.mkStaffCreate "hr@a.com" "Passw0rd!" Organisation.HR_MANAGER))].

Lemma staff_stays_in_organisation_witness :
  let w' := member_requests 1 two_requests two_world in
  same_foreign 1 two_organisations (committed w') ∧
  accounts_kept 1 (users two_organisations) (users (committed w')) ∧
  (job_status <$> jobs (committed w') !! 5%N, job_status <$> jobs (committed w') !! 4%N,
   user_role <$> users (committed w') !! 20%N) = (Some "Active", Some "Closed", Some "HR_Manager").
Proof.
  intros w'. assert (same_foreign 1 two_organisations (committed w') ∧
    accounts_kept 1 (users two_organisations) (users (committed w'))) as [Hs Ha].
  { apply (staff_stays_in_organisation 1 two_requests two_world); [done|]. repeat constructor. }
  split; [exact Hs|]. split; [exact Ha|]. vm_compute. reflexivity.
Defined.
End demo.
