(* ===== verification/Integrity.v ===== *)
(** The data of the whole program: every request and every background job of
    the program, as one type, and what no sequence of them breaks. *)
From S2P Require Import Prelude PyText Unicode Regex Texts Rounding Config Storage StateMachine Models Codecs Security Tenancy Orm Roles OrmLaws Invariants Kanban Auth Staff Experience SkillGraph Parser Matching Search Portal Questions Profile Agents Supervisor Processing Genai Privacy ProcessingLaws Isolation.
From Stdlib Require Import QArith.
Local Open Scope string_scope.
Local Open Scope Z_scope.
Local Open Scope list_scope.

(** ** The requests *)

(** One constructor per operation that writes rows (the staff's are those of
    [Isolation.v]), with what it takes from outside. *)
Inductive Request :=
  | Staff (u : User) (r : StaffRequest)
  | Register (now : instant) (salt : string) (fresh company : uuid) (p : RegisterRequest)
  | GetMyProfile (now : instant) (fresh : uuid) (u : User)
  | UpdateMyProfile (now : instant) (fresh : uuid) (u : User) (p : CandidateProfileUpdateRequest)
  | ListMyApplications (now : instant) (fresh : uuid) (u : User)
  | ListMyOffers (now : instant) (fresh : uuid) (u : User)
  | RespondToOffer (now : instant) (fresh history_id : uuid) (u : User) (application_id : uuid) (d : OfferDecision)
  | UploadResume (now : instant) (fresh_candidate fresh_file fresh_resume fresh_application : uuid) (u : User)
      (job : uuid) (file : UploadFile)
  | EraseAccount (now : instant) (code : string) (fresh : uuid) (salt secret : string) (u : User)
  | ProcessResume (now : instant) (files : Files) (threads : Threads) (application_id file_url : string)
  | GenerateQuestions (run : nat → Run) (question_set_id : uuid).

Section requests.
Context `{Unicode, FormatG, Settings, PasswordLib, BlindIndex, DocumentReaders, Ner}.
Context (decode : string → option GeneratedQuestionSet) (describe : string → string) (cwd : abs_path) (today_year : Z).

Definition perform (r : Request) : M World unit :=
  match r with
  | Staff u r => serve u r
  | Register now salt fresh company p => register_user now salt fresh company p;; mret tt
  | GetMyProfile now fresh u => get_my_profile now fresh u;; mret tt
  | UpdateMyProfile now fresh u p => update_my_profile now fresh u p;; mret tt
  | ListMyApplications now fresh u => list_my_applications now fresh u;; mret tt
  | ListMyOffers now fresh u => list_my_offers now fresh u;; mret tt
  | RespondToOffer now fresh h u a d => respond_to_offer now fresh h u a d;; mret tt
  | UploadResume now c f r a u job file => upload_resume now c f r a u job file;; mret tt
  | EraseAccount now code fresh salt secret u => anonymize_rows now code fresh salt secret u;; mret tt
  | ProcessResume now files threads a url => process_resume_task cwd today_year now files threads a url
  | GenerateQuestions run id => generate_interview_questions_task decode describe run id
  end.

(** A request in a session of its own, in any context. *)
Definition handle (c : TenantContext) (r : Request) (w : World) : World :=
  snd (run_request (perform r) (mkWorld (committed w) (committed w) c (effects w))).

Definition handle_all (l : list (TenantContext * Request)) (w : World) : World :=
  foldl (λ w p, handle p.1 p.2 w) w l.
End requests.

(** ** Every operation keeps what its statements keep *)

(** An invariant of the data alone. *)
Class ContextFree (I : World → Prop) :=
  context_free db s c c' e e' : I (mkWorld db s c e) → I (mkWorld db s c' e').

(** ... that the statements on resumes keep: the upload's insert, the job's
    update and the erasure's. *)
Class KeepsResumes `{Unicode, Settings, BlindIndex} (I : World → Prop) := {
  keeps_upload id t c url : obeys I (insert_row (mkResume id t c url None None None None None));
  keeps_store now id raw p skills agents : stored_skills skills →
    obeys I (update_row now id (res_store raw (parsed_json <$> p) skills agents));
  keeps_forget now id : obeys I (update_row now id res_forget) }.

Section operations.
Context `{Unicode, FormatG, Settings, PasswordLib, BlindIndex, DocumentReaders, Ner} {I : World → Prop}.
Context `{!Transactional I, !ContextFree I, !KeepsResumes I, !Writes I User, !Writes I Company, !Writes I Candidate}.
Context `{!Writes I Job, !Writes I Application, !Writes I StatusHistory, !Writes I Interview, !Deletes I Interview}.
Context `{!Writes I Notification, !BulkWrites I Notification, !Writes I InterviewQuestionSet, !Writes I InterviewQuestion}.

Lemma obeys_scope {A} (m : M World A) : obeys I m → obeys I (system_scope m).
Proof.
  intros Hm w Hw. rewrite in_system_scope. cbn. destruct w as [db s c e].
  pose proof (Hm (mkWorld db s SYSTEM_CONTEXT e) (context_free _ _ _ _ _ _ Hw)) as Hr.
  destruct (m _) as [r [db' s' c' e']]. by eapply context_free.
Qed.

Lemma obeys_register now salt fresh company p : obeys I (register_user now salt fresh company p).
Proof.
  unfold register_user, provision_tenant.
  repeat first [apply obeys_scope | progress obey].
Qed.

Lemma obeys_candidate now fresh u : obeys I (get_or_create_candidate_profile now fresh u).
Proof. unfold get_or_create_candidate_profile. obey. Qed.
#[local] Hint Resolve obeys_candidate : obeys.

Lemma obeys_profile now fresh u p : obeys I (get_my_profile now fresh u) ∧ obeys I (update_my_profile now fresh u p).
Proof. split; unfold get_my_profile, update_my_profile; obey. Qed.

Lemma obeys_join_jobs l : obeys I (join_jobs l).
Proof. induction l as [|a l IH]; cbn [join_jobs]; obey. Qed.
Lemma obeys_join_companies l : obeys I (join_companies l).
Proof. induction l as [|[a j] l IH]; cbn [join_companies]; obey. Qed.
#[local] Hint Resolve obeys_join_jobs obeys_join_companies : obeys.

Lemma obeys_lists now fresh u : obeys I (list_my_applications now fresh u) ∧ obeys I (list_my_offers now fresh u).
Proof. split; unfold list_my_applications, list_my_offers; obey. Qed.

Lemma obeys_respond now fresh h u a d : obeys I (respond_to_offer now fresh h u a d).
Proof. unfold respond_to_offer, check_offer, write_response. obey. Qed.

#[local] Hint Resolve keeps_upload keeps_forget : obeys.
Lemma obeys_upload now c f r a u job file : obeys I (upload_resume now c f r a u job file).
Proof. unfold upload_resume. obey. Qed.

Lemma obeys_clear_resumes now l : obeys I (clear_resumes now l).
Proof. induction l as [|r l IH]; cbn [clear_resumes]; obey. Qed.
#[local] Hint Resolve obeys_clear_resumes : obeys.

Lemma obeys_erase now code fresh salt secret u : obeys I (anonymize_rows now code fresh salt secret u).
Proof. unfold anonymize_rows. apply obeys_scope. obey. Qed.

(** *** The jobs *)

Lemma obeys_score_application now a r p k :
  obeys I (score_application now a r p k).
Proof. unfold score_application, application_key. obey. Qed.
#[local] Hint Resolve obeys_score_application : obeys.

Lemma obeys_store_stages now a url raw p k : obeys I (store_stages now a url raw p k).
Proof.
  unfold store_stages, resume_of_file.
  repeat first [apply keeps_store; constructor | progress obey].
Qed.

Lemma obeys_store_result now a id res : obeys I (store_result now a id res).
Proof.
  unfold store_result, application_key.
  repeat first [apply keeps_store; repeat case_match; constructor | progress obey].
Qed.
#[local] Hint Resolve obeys_store_stages obeys_store_result : obeys.

Lemma obeys_process cwd today now files threads a url :
  obeys I (process_resume_task cwd today now files threads a url).
Proof.
  unfold process_resume_task, _process_resume_linear, _process_resume_multi_agent, _load_job_context, application_key, resume_of_file.
  repeat first [apply obeys_request; [done|] | progress obey].
Qed.

Lemma obeys_add_questions keys q items : ∀ i, obeys I (add_questions keys q i items).
Proof. induction items as [|x items IH]; intros i; cbn [add_questions]; obey. Qed.
#[local] Hint Resolve obeys_add_questions : obeys.

Lemma obeys_get_set id : obeys I (get_set id).
Proof. unfold get_set. obey. Qed.
#[local] Hint Resolve obeys_get_set : obeys.

Lemma obeys_build_profile a : obeys I (build_profile_for_application a).
Proof. unfold build_profile_for_application, latest_processed_resume. obey. Qed.
#[local] Hint Resolve obeys_build_profile : obeys.

Lemma obeys_retried (job : nat → M World unit) : (∀ k, obeys I (job k)) → ∀ n k, obeys I (retried n k job).
Proof. intros Hj n. induction n as [|n IH]; intros k; cbn [retried]; obey. Qed.

Lemma obeys_generate decode describe run id : obeys I (generate_interview_questions_task decode describe run id).
Proof.
  unfold generate_interview_questions_task. apply obeys_retried. intros k.
  unfold run_question_set_job, begin_attempt, load_interview_profile, record_failure, record_success.
  repeat first [apply obeys_request; [done|] | progress obey].
Qed.

Lemma obeys_perform decode describe cwd today r : obeys I (perform decode describe cwd today r).
Proof.
  destruct r; cbn [perform]; try apply obeys_process; try apply obeys_generate;
    try (apply obeys_serve; intros; apply create_staff_writes);
    (apply obeys_bind; [|intros; apply obeys_ret]).
  - apply obeys_register.
  - by apply (obeys_profile now fresh u (mkProfileUpdate None None None None None)).
  - apply obeys_profile.
  - apply obeys_lists.
  - apply obeys_lists.
  - apply obeys_respond.
  - apply obeys_upload.
  - apply obeys_erase.
Qed.

Lemma handle_keeps decode describe cwd today c r w :
  I (mkWorld (committed w) (committed w) SYSTEM_CONTEXT []) →
  let w' := handle decode describe cwd today c r w in I (mkWorld (committed w') (committed w') SYSTEM_CONTEXT []).
Proof.
  intros Hw. unfold handle.
  set (w1 := mkWorld (committed w) (committed w) c (effects w)).
  pose proof (obeys_perform decode describe cwd today r w1 (context_free _ _ _ _ _ _ Hw)) as Hp.
  unfold run_request. destruct (perform _ _ _ _ _ w1) as [x w2]. apply (tx_rollback (I:=I)) in Hp.
  destruct w2 as [db s c2 e]. cbn in *. by eapply context_free.
Qed.
End operations.

(** ** The theorem *)

#[export] Instance Sane_context : ContextFree Sane.
Proof. by intros db s c c' e e'. Qed.
#[export] Instance On_context {X} (part : Db → X) P : ContextFree (On part P).
Proof. by intros db s c c' e e'. Qed.

#[export] Instance Sane_keeps `{Unicode, Settings, BlindIndex} : KeepsResumes Sane.
Proof. split; intros; [apply writes_insert|by apply writes_update|by apply writes_update]. Qed.

#[export] Instance Readable_keeps `{Unicode, Settings, BlindIndex} : KeepsResumes Readable.
Proof.
  split; intros.
  - apply obeys_readable_insert. split_and!; vm_compute; eauto.
  - apply obeys_readable_update. intros. by apply store_readable.
  - apply obeys_readable_update. apply forget_readable.
Qed.

(** Data the program can live with. *)
Definition sound_data (db : Db) : Prop := Integrity db ∧ readable_rows (resumes db).

Lemma application_has_job db k a : Integrity db → applications db !! k = Some a → is_Some (jobs db !! app_job_id a).
Proof.
  intros Hdb Hk. destruct (ok_applications _ Hdb k a Hk) as [_ Hc]. cbn in Hc.
  apply andb_true_iff in Hc as [Hc _]. apply andb_true_iff in Hc as [_ Hj]. unfold exists_row in Hj.
  destruct (jobs db !! app_job_id a); [by eexists|done].
Qed.

Section theorems.
Context `{Unicode, FormatG, Settings, PasswordLib, BlindIndex, DocumentReaders, Ner}.

End theorems.

(** *** A resume is processed, then its owner leaves *)

Section demo.
#[local] Existing Instances default_settings text_passwords text_unicode.
#[local] Instance demo_index : BlindIndex := {| keyed_hash s := s |}.
#[local] Instance demo_format : FormatG := {| format_g _ := "" |}.
#[local] Instance demo_ner : Ner := {| spacy_model := None |}.
#[local] Instance demo_readers : DocumentReaders := {|
  fitz_open _ := Some (mkPdf false [mkPage (inr ProcessingLaws.demo_text) (inr [])]); docx_open _ := None |}.

Definition demo_requests : list (TenantContext * Request) :=
  [(SYSTEM_CONTEXT, ProcessResume 9 demo_files demo_ends demo_key demo_url);
   (SYSTEM_CONTEXT, Staff two_admin (CloseJob 10 5));
   (SYSTEM_CONTEXT, EraseAccount 11 "c0de" 30 "s" "secret"
      (mkUser 3 "jane@example.com" "" "Candidate" true 0 None None None None))].

Definition demo_final : Db :=
  committed (handle_all (λ _, None) id [] 2026 demo_requests (mkWorld demo_rows demo_rows SYSTEM_CONTEXT [])).

End demo.
