(* ===== verification/Retention.v ===== *)
(** The backups that are kept ([backup/retention.py]) and the parts of the
    backup command that choose backups by them ([backup/ats_backup.py]). *)
From S2P Require Import Prelude PyText SkillGraph.
From stdpp Require Import sorting.
From Stdlib Require Import OrderedTypeEx.
Local Open Scope string_scope.
Local Open Scope Z_scope.
Local Open Scope list_scope.

(** ** Dates *)

Definition SECOND : Z := 1000000.
Definition DAY : Z := 86400 * SECOND.

(** [(t.year, t.month)] of an instant: the proleptic Gregorian calendar, in
    eras of 400 years that start in March. *)
Definition civil_month (days : Z) : Z * Z :=
  let z := days + 719468 in
  let doe := z mod 146097 in
  let yoe := (doe - doe / 1460 + doe / 36524 - doe / 146096) / 365 in
  let mp := (5 * (doe - (365 * yoe + yoe / 4 - yoe / 100)) + 2) / 153 in
  let month := if mp <? 10 then mp + 3 else mp - 9 in
  (yoe + z / 146097 * 400 + (if month <=? 2 then 1 else 0), month).

Definition month_of (t : instant) : Z * Z := civil_month (t / DAY).

(** ** The policy *)

Definition HOURLY_RETENTION : Z := 2 * DAY.
Definition DAILY_RETENTION : Z := 30 * DAY.
Definition MONTHLY_RETENTION : Z := 365 * DAY.

Record BackupItem := mkBackup { kind : string; path : string; created_at : instant }.

#[global] Instance BackupItem_eq_dec : EqDecision BackupItem.
Proof. solve_decision. Defined.

Definition created_le (a b : BackupItem) : Prop := created_at a <= created_at b.
#[global] Instance created_le_dec : RelDecision created_le.
Proof. intros a b. unfold created_le. apply _. Defined.

(** [key=lambda item: (item.kind, item.created_at)] *)
Definition item_le (a b : BackupItem) : Prop :=
  (kind a ≠ kind b ∧ text_le (kind a) (kind b)) ∨ (kind a = kind b ∧ created_at a <= created_at b).
#[global] Instance item_le_dec : RelDecision item_le.
Proof. intros a b. unfold item_le. apply _. Defined.

Definition of_kind (k : string) (items : list BackupItem) : list BackupItem := filter (λ i, kind i = k) items.

(** [first_of_month.setdefault(..)] over the snapshots in order; [.values()]. *)
Definition monthly_representatives (ordered : list BackupItem) : list BackupItem :=
  (map_to_list (foldl (λ d item, match d !! month_of (created_at item) with
                                 | Some _ => d
                                 | None => <[month_of (created_at item) := item]> d
                                 end) (∅ : gmap (Z * Z) BackupItem) ordered)).*2.

Section policy.
Context (now hourly daily monthly : Z).

Definition keeps (representatives : list BackupItem) (is_newest : bool) (item : BackupItem) : bool :=
  let age := now - created_at item in
  is_newest || (age <=? daily) || (bool_decide (item ∈ representatives) && (age <=? monthly)).

(** The loop: the last item is the newest one. *)
Fixpoint expired_in (representatives ordered : list BackupItem) : list BackupItem :=
  match ordered with
  | [] => []
  | item :: rest =>
      let expired := expired_in representatives rest in
      if keeps representatives (bool_decide (rest = [])) item then expired else item :: expired
  end.

Definition _expired_snapshots (snapshots : list BackupItem) : list BackupItem :=
  let ordered := merge_sort created_le snapshots in
  expired_in (monthly_representatives ordered) ordered.

(** [max(fulls) if fulls else None] *)
Definition wal_floor (items : list BackupItem) : option instant :=
  match created_at <$> of_kind "full" items with [] => None | t :: ts => Some (foldr Z.max t ts) end.

Definition wal_expired (floor : option instant) (item : BackupItem) : bool :=
  bool_decide (kind item = "wal") && (hourly <? now - created_at item) &&
  match floor with None => true | Some f => created_at item <? f end.

Definition plan_deletions (items : list BackupItem) : list BackupItem :=
  let expired := filter (λ i, wal_expired (wal_floor items) i = true) items in
  merge_sort item_le (expired ++ _expired_snapshots (of_kind "full" items) ++ _expired_snapshots (of_kind "resumes" items)).
End policy.

(** ** The command *)

(** What [rclone] is told to remove. *)
Inductive RemoteCommand := Purge (path : string) | DeleteFile (path : string).

Definition cmd_retention (dry_run : bool) (inventory : list BackupItem) (utc_now : instant) : list RemoteCommand :=
  if dry_run then [] else
  (λ item, if bool_decide (kind item = "full") then Purge (path item) else DeleteFile (path item)) <$>
  plan_deletions utc_now HOURLY_RETENTION DAILY_RETENTION MONTHLY_RETENTION inventory.

(** The order of [inventory()]. *)
Definition sorted_items (items : list BackupItem) : list BackupItem := merge_sort item_le items.

(** The choice of [recover] ([full]) and [cmd_restore_resumes] ([resumes]). *)
Definition latest_before (k : string) (limit : instant) (items : list BackupItem) : option BackupItem :=
  last (filter (λ i, kind i = k ∧ created_at i <= limit) (sorted_items items)).

(** [cmd_ensure_full]: is a first full backup due? *)
Definition full_is_due (items : list BackupItem) : bool := bool_decide (of_kind "full" items = []).

(** ** The calendar is the one of [datetime.date] *)

Definition is_leap (y : Z) : bool := (y mod 4 =? 0) && (negb (y mod 100 =? 0) || (y mod 400 =? 0)).

Definition days_in_month (y m : Z) : Z :=
  if m =? 2 then (if is_leap y then 29 else 28)
  else if bool_decide (m ∈ [4; 6; 9; 11]) then 30 else 31.

Definition days_before_month (y m : Z) : Z :=
  foldr Z.add 0 (days_in_month y <$> seqZ 1 (m - 1)).

(** [date(y, m, d).toordinal()], from the first of January 1970. *)
Definition epoch_day (y m d : Z) : Z :=
  let p := y - 1 in 365 * p + p / 4 - p / 100 + p / 400 + days_before_month y m + d - 719163.

Lemma is_leap_era y q : is_leap (y + 400 * q) = is_leap y.
Proof.
  unfold is_leap.
  replace ((y + 400 * q) mod 4) with (y mod 4) by (replace (y + 400 * q) with (y + 100 * q * 4) by lia; by rewrite Z.mod_add).
  replace ((y + 400 * q) mod 100) with (y mod 100) by (replace (y + 400 * q) with (y + 4 * q * 100) by lia; by rewrite Z.mod_add).
  replace ((y + 400 * q) mod 400) with (y mod 400) by (replace (y + 400 * q) with (y + q * 400) by lia; by rewrite Z.mod_add).
  done.
Qed.

Lemma epoch_day_era y q m d : epoch_day (y + 400 * q) m d = epoch_day y m d + 146097 * q.
Proof.
  unfold epoch_day. cbv zeta.
  replace (y + 400 * q - 1) with (y - 1 + 400 * q) by lia.
  replace ((y - 1 + 400 * q) / 4) with ((y - 1) / 4 + 100 * q)
    by (replace (y - 1 + 400 * q) with (y - 1 + 100 * q * 4) by lia; by rewrite Z.div_add).
  replace ((y - 1 + 400 * q) / 100) with ((y - 1) / 100 + 4 * q)
    by (replace (y - 1 + 400 * q) with (y - 1 + 4 * q * 100) by lia; by rewrite Z.div_add).
  replace ((y - 1 + 400 * q) / 400) with ((y - 1) / 400 + q)
    by (replace (y - 1 + 400 * q) with (y - 1 + q * 400) by lia; by rewrite Z.div_add).
  assert (days_before_month (y + 400 * q) m = days_before_month y m) as ->; [|lia].
  unfold days_before_month. f_equal. apply list_fmap_ext. intros i x _. unfold days_in_month. by rewrite is_leap_era.
Qed.

Lemma civil_month_era days q : civil_month (days + 146097 * q) = ((civil_month days).1 + 400 * q, (civil_month days).2).
Proof.
  unfold civil_month. cbv zeta. replace (days + 146097 * q + 719468) with (days + 719468 + q * 146097) by lia.
  rewrite Z.mod_add, Z.div_add by done. cbn [fst snd]. f_equal. lia.
Qed.

Definition calendar_ok (y m : Z) : bool :=
  let before := epoch_day y m 0 in
  bool_decide (civil_month (before + 1) = (y, m)) && bool_decide (civil_month (before + days_in_month y m) = (y, m)).

Lemma calendar_of_an_era : forallb (λ y, forallb (calendar_ok y) (seqZ 1 12)) (seqZ 1 400) = true.
Proof. vm_compute. reflexivity. Qed.

Lemma calendar_ok_days y m d : calendar_ok y m = true → d = 1 ∨ d = days_in_month y m → civil_month (epoch_day y m 0 + d) = (y, m).
Proof.
  unfold calendar_ok. cbv zeta. rewrite andb_true_iff, !bool_decide_eq_true. intros [Hf Hl] [->| ->]; done.
Qed.

Lemma epoch_day_zero y m d : epoch_day y m d = epoch_day y m 0 + d.
Proof. unfold epoch_day. lia. Qed.

(** The first and the last day of every month fall in it. *)
Lemma civil_month_date y m d :
  1 <= m <= 12 → d = 1 ∨ d = days_in_month y m → civil_month (epoch_day y m d) = (y, m).
Proof.
  intros Hm Hd. set (r := (y - 1) mod 400 + 1). set (q := (y - 1) / 400).
  assert (y = r + 400 * q) as Hy by (unfold r, q; pose proof (Z.div_mod (y - 1) 400); lia).
  assert (1 <= r <= 400) as Hr by (unfold r; pose proof (Z.mod_pos_bound (y - 1) 400); lia).
  assert (days_in_month y m = days_in_month r m) as Hdm by (unfold days_in_month; by rewrite Hy, is_leap_era).
  rewrite Hy, epoch_day_era, civil_month_era.
  assert (civil_month (epoch_day r m d) = (r, m)) as ->; [|done].
  pose proof calendar_of_an_era as Hc. rewrite forallb_elem_of in Hc.
  specialize (Hc r ltac:(apply elem_of_seqZ; lia)). rewrite forallb_elem_of in Hc.
  specialize (Hc m ltac:(apply elem_of_seqZ; lia)). rewrite epoch_day_zero.
  apply calendar_ok_days; [exact Hc|]. rewrite <- Hdm. exact Hd.
Qed.

(** ** The loop over the snapshots *)

#[global] Instance created_le_total : Total created_le.
Proof. intros a b. unfold created_le. lia. Qed.
#[global] Instance created_le_trans : Transitive created_le.
Proof. intros a b c. unfold created_le. lia. Qed.

Lemma expired_in_subset now daily monthly reps l x : x ∈ expired_in now daily monthly reps l → x ∈ l.
Proof.
  induction l as [|y l IH]; cbn [expired_in]; [done|]. rewrite list_elem_of_In. destruct (keeps _ _ _ _ _ _).
  - rewrite <- list_elem_of_In. set_solver.
  - rewrite <- list_elem_of_In. set_solver.
Qed.

(** What is removed is not the last; what the loop passes over, it keeps. *)
Lemma expired_in_spec now daily monthly reps l x :
  NoDup l → x ∈ expired_in now daily monthly reps l ↔ x ∈ l ∧ last l ≠ Some x ∧ keeps now daily monthly reps false x = false.
Proof.
  induction l as [|y l IH]; cbn [expired_in]; intros Hn.
  - split; [by intros Hx%elem_of_nil|]. by intros [Hx%elem_of_nil _].
  - apply NoDup_cons in Hn as [Hy Hn]. specialize (IH Hn).
    assert (last (y :: l) = if decide (l = []) then Some y else last l) as Hlast.
    { destruct l as [|z l]; [done|]. by rewrite decide_False by done. }
    assert (l = [] → keeps now daily monthly reps (bool_decide (l = [])) y = true) as Hk.
    { intros ->. done. }
    assert (l ≠ [] → keeps now daily monthly reps (bool_decide (l = [])) y = keeps now daily monthly reps false y) as Hk'.
    { intros Hl. by rewrite bool_decide_false. }
    rewrite Hlast. destruct (decide (l = [])) as [El|Hl].
    + rewrite (Hk El). subst l. split; [by intros Hx%elem_of_nil|].
      intros (Hx & Hne & _). apply list_elem_of_singleton in Hx. by subst.
    + rewrite (Hk' Hl). assert (y ∉ expired_in now daily monthly reps l) as Hye by (intros ?%expired_in_subset; done).
      destruct (decide (x = y)) as [->|Hxy].
      * assert (last l ≠ Some y) as Hly by (intros E%last_Some_elem_of; done).
        destruct (keeps now daily monthly reps false y); set_solver.
      * destruct (keeps now daily monthly reps false y); set_solver.
Qed.

(** A representative is the first of its month. *)
Definition first_of (k : Z * Z) (l : list BackupItem) : option BackupItem :=
  head (filter (λ i, month_of (created_at i) = k) l).

Lemma head_app {A} (l1 l2 : list A) : head (l1 ++ l2) = match head l1 with Some x => Some x | None => head l2 end.
Proof. by destruct l1. Qed.

Lemma representative_first ordered x :
  x ∈ monthly_representatives ordered ↔ first_of (month_of (created_at x)) ordered = Some x.
Proof.
  unfold monthly_representatives. set (step := λ d item, _).
  assert (∀ k, foldl step (∅ : gmap (Z * Z) BackupItem) ordered !! k = first_of k ordered) as Hd.
  { intros k. unfold first_of. induction ordered as [|y l IH] using rev_ind; [apply lookup_empty|].
    rewrite foldl_app, filter_app, head_app, <- IH, filter_cons, filter_nil. cbn [foldl]. unfold step at 1.
    set (d := foldl step ∅ l). destruct (d !! month_of (created_at y)) as [y'|] eqn:Ey.
    - destruct (d !! k) as [z|] eqn:Ez; [done|]. destruct (decide _) as [E|]; [congruence|done].
    - destruct (decide (month_of (created_at y) = k)) as [<-|Hne].
      + by rewrite lookup_insert_eq, Ey.
      + rewrite lookup_insert_ne by done. by destruct (d !! k). }
  rewrite list_elem_of_fmap. split.
  - intros ([k y] & -> & Hin%elem_of_map_to_list). rewrite Hd in Hin. cbn [snd].
    assert (y ∈ filter (λ i, month_of (created_at i) = k) ordered) as Hy by (by apply head_Some_elem_of).
    apply list_elem_of_filter in Hy as [<- _]. exact Hin.
  - intros Hf. exists (month_of (created_at x), x). split; [done|]. apply elem_of_map_to_list. by rewrite Hd.
Qed.

(** ** The choice of a backup *)

Lemma text_le_cases a b : text_le a b ↔ a = b ∨ String_as_OT.lt a b.
Proof.
  unfold text_le, String.leb. rewrite <- String_as_OT.cmp_lt. change String_as_OT.cmp with String.compare.
  destruct (String.compare a b) eqn:E.
  - apply String.compare_eq_iff in E. by split; [left|].
  - by split; [right|].
  - split; [done|]. intros [->|?]; [|done]. pose proof (String.compare_antisym b b) as Ha. by rewrite E in Ha.
Qed.

#[global] Instance text_le_trans : Transitive text_le.
Proof.
  intros a b c. rewrite !text_le_cases. intros [->|Hab] [->|Hbc]; auto. right. by eapply String_as_OT.lt_trans.
Qed.

#[global] Instance item_le_total : Total item_le.
Proof.
  intros a b. unfold item_le. destruct (decide (kind a = kind b)) as [E|Hne].
  - destruct (Z.le_total (created_at a) (created_at b)); [left|right]; by right.
  - destruct (text_le_total (kind a) (kind b)); auto.
Qed.

#[global] Instance item_le_trans : Transitive item_le.
Proof.
  intros a b c [[Hab Lab]|[Eab Tab]] [[Hbc Lbc]|[Ebc Tbc]]; unfold item_le.
  - left. split; [|by etrans]. intros E. rewrite <- E in Lbc. apply Hab. by apply String.leb_antisym.
  - left. by rewrite <- Ebc.
  - left. by rewrite Eab.
  - right. split; [congruence|lia].
Qed.

Lemma StronglySorted_filter {A} (R : relation A) (P : A → Prop) `{∀ x, Decision (P x)} l :
  StronglySorted R l → StronglySorted R (filter P l).
Proof.
  induction 1 as [|x l Hs IH Hx]; [constructor|]. rewrite filter_cons. case_decide; [|done].
  constructor; [done|]. apply Forall_forall. intros y Hy. apply list_elem_of_filter in Hy as [_ Hy].
  by eapply Forall_forall in Hx.
Qed.

Lemma StronglySorted_last {A} (R : relation A) (l : list A) n x :
  StronglySorted R l → last l = Some n → x ∈ l → x = n ∨ R x n.
Proof.
  intros Hs Hl Hx. apply last_Some in Hl as [l' ->]. apply elem_of_app in Hx as [Hx|Hx%list_elem_of_singleton]; [right|by left].
  induction l' as [|y l' IH]; [by apply elem_of_nil in Hx|]. apply StronglySorted_cons in Hs as [Hf Hs].
  apply elem_of_cons in Hx as [->|Hx]; [|by apply IH]. rewrite Forall_forall in Hf. apply Hf. set_solver.
Qed.

Lemma StronglySorted_head {A} (R : relation A) (l : list A) n x :
  StronglySorted R l → head l = Some n → x ∈ l → x = n ∨ R n x.
Proof.
  intros Hs Hl Hx. destruct l as [|y l]; [done|]. injection Hl as ->. apply StronglySorted_cons in Hs as [Hf _].
  apply elem_of_cons in Hx as [->|Hx]; [by left|right]. by rewrite Forall_forall in Hf; apply Hf.
Qed.

(** The backup that is chosen is the newest there is. *)
Lemma latest_before_newest k limit items b :
  latest_before k limit items = Some b →
  b ∈ items ∧ kind b = k ∧ created_at b <= limit ∧
  ∀ y, y ∈ items → kind y = k → created_at y <= limit → created_at y <= created_at b.
Proof.
  unfold latest_before. intros Hb. set (chosen := filter _ _) in Hb.
  assert (∀ y, y ∈ chosen ↔ (kind y = k ∧ created_at y <= limit) ∧ y ∈ items) as Hin
    by (intros y; unfold chosen, sorted_items; by rewrite list_elem_of_filter, merge_sort_Permutation).
  assert (b ∈ chosen) as [[Hk Hlim] Hi]%Hin by (by apply last_Some_elem_of). split_and!; try done.
  intros y Hy Hky Hly. destruct (StronglySorted_last item_le chosen b y) as [->|[[? _]|[_ ?]]]; try done.
  - apply StronglySorted_filter, StronglySorted_merge_sort; apply _.
  - by apply Hin.
  - by rewrite Hky, Hk in *.
Qed.

Lemma latest_before_is_some k limit items y :
  y ∈ items → kind y = k → created_at y <= limit → is_Some (latest_before k limit items).
Proof.
  intros Hy Hk Hl. unfold latest_before. apply last_is_Some. intros E.
  assert (y ∈ filter (λ i, kind i = k ∧ created_at i <= limit) (sorted_items items)) as Hin.
  { apply list_elem_of_filter. split; [done|]. unfold sorted_items. by rewrite merge_sort_Permutation. }
  rewrite E in Hin. by apply elem_of_nil in Hin.
Qed.

(** ** What is deleted *)

Section deletions.
Context (now hourly daily monthly : Z) (items : list BackupItem) (Hitems : NoDup items).
#[local] Abbreviation plan := (plan_deletions now hourly daily monthly items).
#[local] Abbreviation ordered k := (merge_sort created_le (of_kind k items)).

Lemma elem_of_ordered k x : x ∈ ordered k ↔ x ∈ items ∧ kind x = k.
Proof. rewrite merge_sort_Permutation. unfold of_kind. rewrite list_elem_of_filter. tauto. Qed.

Lemma ordered_NoDup k : NoDup (ordered k).
Proof. rewrite merge_sort_Permutation. by apply NoDup_filter. Qed.

Lemma snapshots_spec k x :
  x ∈ _expired_snapshots now daily monthly (of_kind k items) ↔
  (x ∈ items ∧ kind x = k) ∧ last (ordered k) ≠ Some x ∧
  keeps now daily monthly (monthly_representatives (ordered k)) false x = false.
Proof. unfold _expired_snapshots. rewrite expired_in_spec by apply ordered_NoDup. by rewrite elem_of_ordered. Qed.

Lemma elem_of_plan x :
  x ∈ plan ↔ (x ∈ items ∧ wal_expired now hourly (wal_floor items) x = true) ∨
    x ∈ _expired_snapshots now daily monthly (of_kind "full" items) ∨
    x ∈ _expired_snapshots now daily monthly (of_kind "resumes" items).
Proof. unfold plan_deletions. rewrite merge_sort_Permutation, !elem_of_app, list_elem_of_filter. tauto. Qed.

Lemma wal_expired_kind floor x : wal_expired now hourly floor x = true → kind x = "wal".
Proof. unfold wal_expired. rewrite !andb_true_iff, bool_decide_eq_true. tauto. Qed.

Definition snapshot (k : string) : Prop := k = "full" ∨ k = "resumes".

Lemma plan_snapshot x : snapshot (kind x) → x ∈ plan ↔ x ∈ _expired_snapshots now daily monthly (of_kind (kind x) items).
Proof.
  intros Hk. rewrite elem_of_plan. split; [|destruct Hk as [-> | ->]; auto].
  intros [[_ Hw%wal_expired_kind]|[Hx|Hx]].
  - exfalso. destruct Hk; congruence.
  - pose proof Hx as [[_ ->] _]%snapshots_spec. done.
  - pose proof Hx as [[_ ->] _]%snapshots_spec. done.
Qed.

Lemma plan_wal x : kind x = "wal" → x ∈ plan → x ∈ items ∧ wal_expired now hourly (wal_floor items) x = true.
Proof. intros Hk. rewrite elem_of_plan. intros [?|[Hx|Hx]]; [done| |]; apply snapshots_spec in Hx as [[_ ?] _]; congruence. Qed.

(** No full backup is later than the floor, and one is at it. *)
Lemma wal_floor_spec f : wal_floor items = Some f → ∀ x, x ∈ items → kind x = "full" → created_at x <= f.
Proof.
  unfold wal_floor. destruct (created_at <$> of_kind "full" items) as [|t ts] eqn:E; [done|]. intros [= <-] x Hx Hk.
  assert (created_at x ∈ t :: ts) as Hin by (rewrite <- E; apply list_elem_of_fmap_2; unfold of_kind; by apply list_elem_of_filter).
  clear E. apply elem_of_cons in Hin as [->|Hin]; induction ts as [|u ts IH]; cbn; [lia|lia|by apply elem_of_nil in Hin|].
  apply elem_of_cons in Hin as [->|Hin]; [lia|]. specialize (IH Hin). lia.
Qed.

Lemma wal_floor_at f : wal_floor items = Some f → ∃ x, x ∈ items ∧ kind x = "full" ∧ created_at x = f.
Proof.
  unfold wal_floor. destruct (created_at <$> of_kind "full" items) as [|t ts] eqn:E; [done|]. intros [= <-].
  assert (foldr Z.max t ts ∈ t :: ts) as Hin.
  { clear E. induction ts as [|u ts IH]; cbn; [by left|]. destruct (Z.max_dec u (foldr Z.max t ts)) as [->| ->]; set_solver. }
  rewrite <- E in Hin. apply list_elem_of_fmap in Hin as (x & Ex & Hx). unfold of_kind in Hx.
  apply list_elem_of_filter in Hx as [Hk Hx]. by exists x.
Qed.

(** The newest backup of a kind is kept. *)
Lemma newest_kept y :
  snapshot (kind y) → y ∈ items →
  ∃ n, n ∈ items ∧ n ∉ plan ∧ kind n = kind y ∧ ∀ z, z ∈ items → kind z = kind y → created_at z <= created_at n.
Proof.
  intros Hk Hy. destruct (last (ordered (kind y))) as [n|] eqn:El.
  - assert (n ∈ items ∧ kind n = kind y) as [Hn Hkn] by (by apply elem_of_ordered, last_Some_elem_of).
    exists n. split_and!; [done| |done|].
    + rewrite plan_snapshot by (by rewrite Hkn). rewrite Hkn, snapshots_spec. tauto.
    + intros z Hz Hkz. destruct (StronglySorted_last created_le (ordered (kind y)) n z) as [->|?]; try done.
      * apply StronglySorted_merge_sort; apply _.
      * by apply elem_of_ordered.
  - apply last_None in El. assert (y ∈ ordered (kind y)) as Hin by (by apply elem_of_ordered).
    rewrite El in Hin. by apply elem_of_nil in Hin.
Qed.

Lemma recent_kept y : snapshot (kind y) → now - created_at y <= daily → y ∉ plan.
Proof.
  intros Hk Hd. rewrite plan_snapshot, snapshots_spec by done. intros (_ & _ & Hf). unfold keeps in Hf. cbv zeta in Hf.
  destruct (Z.leb_spec (now - created_at y) daily); [done|lia].
Qed.

Lemma representative_kept y :
  snapshot (kind y) → first_of (month_of (created_at y)) (ordered (kind y)) = Some y → now - created_at y <= monthly → y ∉ plan.
Proof.
  intros Hk Hr Hm. rewrite plan_snapshot, snapshots_spec by done. intros (_ & _ & Hf). unfold keeps in Hf. cbv zeta in Hf.
  rewrite bool_decide_true in Hf by (by apply representative_first). rewrite (proj2 (Z.leb_le _ _) Hm) in Hf.
  by rewrite orb_true_r in Hf.
Qed.

(** The first backup of a month. *)
Lemma first_of_month y :
  y ∈ items → ∃ x, first_of (month_of (created_at y)) (ordered (kind y)) = Some x ∧ x ∈ items ∧ kind x = kind y ∧
    month_of (created_at x) = month_of (created_at y) ∧ created_at x <= created_at y.
Proof.
  intros Hy. unfold first_of. set (l := filter _ _).
  assert (y ∈ l) as Hyl by (apply list_elem_of_filter; split; [done|]; by apply elem_of_ordered).
  destruct (head l) as [x|] eqn:Eh; [|by apply head_None in Eh; rewrite Eh in Hyl; apply elem_of_nil in Hyl].
  exists x. split; [done|]. pose proof (head_Some_elem_of _ _ Eh) as [Hm [Hx Hkx]%elem_of_ordered]%list_elem_of_filter.
  split_and!; try done. assert (StronglySorted created_le l) as Hs by (apply StronglySorted_filter, StronglySorted_merge_sort; apply _).
  destruct (StronglySorted_head created_le l x y Hs Eh Hyl) as [->|?]; [lia|done].
Qed.

(** Of a month longer ago, one backup is kept besides the newest of all. *)
Lemma month_kept x :
  snapshot (kind x) → x ∈ items → x ∉ plan → daily < now - created_at x →
  (∃ z, z ∈ items ∧ kind z = kind x ∧ created_at x < created_at z) →
  now - created_at x <= monthly ∧ first_of (month_of (created_at x)) (ordered (kind x)) = Some x.
Proof.
  intros Hk Hx Hp Hd (z & Hz & Hkz & Hlt). rewrite plan_snapshot, snapshots_spec in Hp by done.
  assert (keeps now daily monthly (monthly_representatives (ordered (kind x))) false x = true) as Hkeep.
  { destruct (keeps _ _ _ _ _ x) eqn:E; [done|]. exfalso. apply Hp. split_and!; try done. intros El.
    destruct (StronglySorted_last created_le (ordered (kind x)) x z) as [->|Hle]; try done.
    - apply StronglySorted_merge_sort; apply _.
    - by apply elem_of_ordered.
    - lia.
    - unfold created_le in Hle. lia. }
  unfold keeps in Hkeep. cbv zeta in Hkeep. destruct (Z.leb_spec (now - created_at x) daily); [lia|]. cbn [orb] in Hkeep.
  apply andb_true_iff in Hkeep as [Hr%bool_decide_eq_true Hm%Z.leb_le]. split; [done|]. by apply representative_first.
Qed.
End deletions.

(** What the command leaves. *)
Definition remaining (utc_now : instant) (items : list BackupItem) : list BackupItem :=
  filter (λ i, i ∉ plan_deletions utc_now HOURLY_RETENTION DAILY_RETENTION MONTHLY_RETENTION items) items.

(** No backup of its kind is newer. *)
Definition newest (items : list BackupItem) (x : BackupItem) : Prop :=
  ∀ y, y ∈ items → kind y = kind x → created_at y <= created_at x.

Section remaining.
Context (utc_now : instant) (items : list BackupItem) (Hn : NoDup items).
#[local] Abbreviation kept := (remaining utc_now items).

Lemma elem_of_kept x :
  x ∈ kept ↔ x ∉ plan_deletions utc_now HOURLY_RETENTION DAILY_RETENTION MONTHLY_RETENTION items ∧ x ∈ items.
Proof. unfold remaining. by rewrite list_elem_of_filter. Qed.

Lemma newer_exists x : ¬ newest items x → ∃ z, z ∈ items ∧ kind z = kind x ∧ created_at x < created_at z.
Proof.
  intros Hx. destruct (decide (Exists (λ z, kind z = kind x ∧ created_at x < created_at z) items)) as [He|He].
  - apply Exists_exists in He as (z & Hz & ? & ?). eauto.
  - exfalso. apply Hx. intros y Hy Hk. destruct (Z.le_gt_cases (created_at y) (created_at x)); [done|].
    exfalso. apply He, Exists_exists. exists y. split; [done|]. split; [done|lia].
Qed.

Lemma equal_kept base :
  snapshot (kind base) → base ∈ items → utc_now - created_at base <= DAILY_RETENTION ∨ newest items base →
  ∃ n, n ∈ kept ∧ kind n = kind base ∧ created_at n = created_at base.
Proof.
  intros Hk Hi [Hage|Hage].
  - exists base. split; [|done]. apply elem_of_kept. split; [|done]. by apply recent_kept.
  - destruct (newest_kept utc_now HOURLY_RETENTION DAILY_RETENTION MONTHLY_RETENTION items Hn base Hk Hi)
      as (n & Hni & Hnp & Hkn & Hnn).
    exists n. split; [by apply elem_of_kept|]. split; [done|].
    specialize (Hnn base Hi eq_refl). specialize (Hage n Hni Hkn). lia.
Qed.

Lemma choice_kept limit base :
  snapshot (kind base) → latest_before (kind base) limit items = Some base →
  utc_now - created_at base <= DAILY_RETENTION ∨ newest items base →
  created_at <$> latest_before (kind base) limit kept = Some (created_at base).
Proof.
  intros Hk Hb Hage. apply latest_before_newest in Hb as (Hi & _ & Hl & Hmax).
  destruct (equal_kept base Hk Hi Hage) as (n & Hnk & Hkn & Hcn).
  destruct (latest_before_is_some (kind base) limit kept n) as [b Eb]; [done|done|lia|]. rewrite Eb. cbn. f_equal.
  apply latest_before_newest in Eb as (Hbi & Hkb & Hlb & Hbmax).
  apply elem_of_kept in Hbi as [_ Hbi].
  specialize (Hbmax n Hnk Hkn ltac:(lia)). specialize (Hmax b Hbi Hkb Hlb). lia.
Qed.

Lemma wal_kept full wal :
  full ∈ items → kind full = "full" → utc_now - created_at full <= HOURLY_RETENTION ∨ newest items full →
  wal ∈ items → kind wal = "wal" → created_at full <= created_at wal → wal ∈ kept.
Proof.
  intros Hf Hkf Hage Hw Hkw Hlt. apply elem_of_kept. split; [|done]. intros Hp.
  apply plan_wal in Hp as [_ Hp]; [|done|done]. unfold wal_expired in Hp.
  apply andb_true_iff in Hp as [[_ Hh%Z.ltb_lt]%andb_true_iff Hp].
  destruct Hage as [Hage|Hage]; [lia|]. destruct (wal_floor items) as [f|] eqn:Ef.
  - apply Z.ltb_lt in Hp. destruct (wal_floor_at items Hn f Ef) as (x & Hx & Hkx & <-).
    specialize (Hage x Hx ltac:(congruence)). lia.
  - unfold wal_floor in Ef. destruct (created_at <$> of_kind "full" items) eqn:E; [|done].
    assert (created_at full ∈ created_at <$> of_kind "full" items) as Hin
      by (apply list_elem_of_fmap_2; unfold of_kind; by apply list_elem_of_filter).
    rewrite E in Hin. by apply elem_of_nil in Hin.
Qed.

Lemma monthly_kept x :
  x ∈ kept → snapshot (kind x) → ¬ newest items x → DAILY_RETENTION < utc_now - created_at x →
  utc_now - created_at x <= MONTHLY_RETENTION ∧
  first_of (month_of (created_at x)) (merge_sort created_le (of_kind (kind x) items)) = Some x.
Proof.
  intros [Hxp Hx]%elem_of_kept Hk Hxn Hd.
  exact (month_kept utc_now HOURLY_RETENTION DAILY_RETENTION MONTHLY_RETENTION items Hn x Hk Hx Hxp Hd (newer_exists x Hxn)).
Qed.

(** A backup as old as the first of its month is kept, for a year. *)
Lemma month_first_kept y :
  y ∈ items → snapshot (kind y) → utc_now - created_at y <= MONTHLY_RETENTION →
  (∀ z, z ∈ items → kind z = kind y → month_of (created_at z) = month_of (created_at y) → created_at y <= created_at z) →
  ∃ x, x ∈ kept ∧ kind x = kind y ∧ created_at x = created_at y.
Proof.
  intros Hy Hk Hm Hmin. destruct (first_of_month items y Hy) as (x & Hf & Hx & Hkx & Hmx & Hle).
  specialize (Hmin x Hx Hkx Hmx). exists x. split; [|split; [done|lia]]. apply elem_of_kept. split; [|done].
  apply representative_kept; [done|by rewrite Hkx|by rewrite Hkx, Hmx|lia].
Qed.
End remaining.

(** C39. The retention policy keeps what a recovery needs and no more. For any
    moment to recover to, the full backup [recover] (or the set of resumes
    [restore]) would have chosen, or one of the very same instant, is chosen
    after the deletions too, if it is at most thirty days old or the newest of
    its kind. Every log segment since a full backup is kept, if the backup is at
    most two days old or the newest. Of every month that the backups of a kind
    go back to, the first one is kept for 365 days; and of those more than
    thirty days old no other is kept, besides the newest of all. *)
Theorem backups_stay_restorable (utc_now : instant) (items : list BackupItem) :
  NoDup items →
  let kept := remaining utc_now items in
  let age x := utc_now - created_at x in
  (∀ limit base, snapshot (kind base) → latest_before (kind base) limit items = Some base →
     age base <= 30 * DAY ∨ newest items base →
     created_at <$> latest_before (kind base) limit kept = Some (created_at base)) ∧
  (∀ full wal, full ∈ items → kind full = "full" → age full <= 2 * DAY ∨ newest items full →
     wal ∈ items → kind wal = "wal" → created_at full <= created_at wal → wal ∈ kept) ∧
  (∀ y, y ∈ items → snapshot (kind y) → age y <= 365 * DAY →
     (∀ z, z ∈ items → kind z = kind y → month_of (created_at z) = month_of (created_at y) → created_at y <= created_at z) →
     ∃ x, x ∈ kept ∧ kind x = kind y ∧ created_at x = created_at y) ∧
  (∀ x y, x ∈ kept → y ∈ kept → snapshot (kind x) → kind y = kind x → ¬ newest items x → ¬ newest items y →
     30 * DAY < age x → 30 * DAY < age y →
     age x <= 365 * DAY ∧ (month_of (created_at x) = month_of (created_at y) → x = y)).
Proof.
  intros Hn kept age. split_and!.
  - intros. by apply choice_kept.
  - intros full wal Hf Hkf Hage Hw Hkw Hlt. exact (wal_kept utc_now items Hn full wal Hf Hkf Hage Hw Hkw Hlt).
  - intros y Hy Hk Hm Hmin. exact (month_first_kept utc_now items Hn y Hy Hk Hm Hmin).
  - intros x y Hx Hy Hk Hky Hxn Hyn Hdx Hdy.
    destruct (monthly_kept utc_now items Hn x Hx Hk Hxn Hdx) as [Hm Hfx]. split; [done|]. intros Em.
    destruct (monthly_kept utc_now items Hn y Hy ltac:(by rewrite Hky) Hyn Hdy) as [_ Hfy].
    rewrite Hky, <- Em in Hfy. congruence.
Qed.

(** *** Full backups of eleven weeks, logs of five days *)

Section demo.
Definition at_hour (day hour : Z) : instant := day * DAY + hour * 3600 * SECOND.
Definition demo_now : instant := at_hour (epoch_day 2026 10 13) 12.
Definition demo_items : list BackupItem :=
  ((λ d, mkBackup "full" ("full/" +:+ pretty d) (at_hour (epoch_day 2026 10 13 - d) 2)) <$> [0; 7; 14; 21; 28; 35; 42; 49; 56; 63; 70]) ++
  ((λ d, mkBackup "wal" ("wal/" +:+ pretty d) (at_hour (epoch_day 2026 10 13 - d) 3)) <$> seqZ 0 5).

(** The backups of thirty days are kept and the first ones of September and
    August; of the logs, those of two days. *)
Lemma backups_stay_restorable_witness :
  path <$> of_kind "full" (remaining demo_now demo_items) =
    ["full/0"; "full/7"; "full/14"; "full/21"; "full/28"; "full/42"; "full/70"] ∧
  path <$> of_kind "wal" (remaining demo_now demo_items) = ["wal/0"; "wal/1"] ∧
  created_at <$> latest_before "full" (at_hour (epoch_day 2026 9 22) 12) (remaining demo_now demo_items) =
    Some (at_hour (epoch_day 2026 9 22) 2).
Proof.
  split; [vm_compute; reflexivity|]. split; [vm_compute; reflexivity|].
  assert (NoDup demo_items) as Hn by (apply (bool_decide_unpack _); vm_compute; exact I).
  destruct (backups_stay_restorable demo_now demo_items Hn) as (Hs & _ & _).
  apply (Hs (at_hour (epoch_day 2026 9 22) 12) (mkBackup "full" "full/21" (at_hour (epoch_day 2026 9 22) 2))).
  - by left.
  - vm_compute. reflexivity.
  - left. vm_compute. discriminate.
Defined.
End demo.
