(* ===== verification/Dataset.v ===== *)
(** The split of the fine-tuning data ([app/datasets/finetune/split.py]), the
    files it is written to ([build.py]) and the validator's checks of it
    ([validate_checks.py]). *)
From S2P Require Import Prelude SkillGraph.
From stdpp Require Import sorting.
From Stdlib Require Import QArith Qabs Lqa.
Local Open Scope string_scope.
Local Open Scope Z_scope.
Local Open Scope list_scope.

(** ** Python's [max] with a key, and counters *)

(** [max(x :: l, key=f)]: the first one that no later one exceeds. *)
Definition py_max {A} (lt : A → A → bool) (x : A) (l : list A) : A := foldl (λ best y, if lt best y then y else best) x l.

Definition Qlt_bool (a b : Q) : bool := negb (Qle_bool b a).

(** A [Counter]: a key that is missing counts zero. *)
Definition counted {K} `{Countable K} (c : gmap K nat) (k : K) : nat := default 0%nat (c !! k).
Definition count_one {K} `{Countable K} (k : K) (c : gmap K nat) : gmap K nat := <[k := S (counted c k)]> c.

(** ** [split.py] *)

Definition SPLITS : list (string * Q) := [("train", 8 # 10); ("validation", 1 # 10); ("test", 1 # 10)]%Q.
Definition DEFAULT_SEED : Z := 42.

Definition SCORE_BUCKET_WIDTH : Z := 20.
Definition SCORE_BUCKETS : Z := 5.
Definition score_bucket (score : Z) : Z := Z.min (score / SCORE_BUCKET_WIDTH) (SCORE_BUCKETS - 1).

(** [random.Random(seed).shuffle]: some reordering that the seed determines. *)
Class Random := {
  shuffle : string → list string → list string;
  shuffle_perm seed l : shuffle seed l ≡ₚ l }.

Definition vote_lt (a b : Z * nat) : bool := (a.2 <? b.2)%nat || (bool_decide (a.2 = b.2) && (b.1 <? a.1)).

(** [max(votes.items(), key=lambda pair: (pair[1], -pair[0]))[0]]; a group has a vote. *)
Definition dominant (votes : gmap Z nat) : Z :=
  match map_to_list votes with [] => 0 | x :: l => (py_max vote_lt x l).1 end.

Definition tally (st : gmap string nat * gmap string (gmap Z nat)) (item : string * Z) :
    gmap string nat * gmap string (gmap Z nat) :=
  let '(group, bucket) := item in
  (count_one group st.1, <[group := count_one bucket (default ∅ (st.2 !! group))]> st.2).

Definition group_buckets (items : list (string * Z)) : gmap string Z * gmap string nat :=
  let '(sizes, bucket_votes) := foldl tally (∅, ∅) items in (dominant <$> bucket_votes, sizes).

(** [ordered.sort(key=lambda group: -sizes[group])], which is stable. *)
Fixpoint insert_larger (sizes : gmap string nat) (x : string) (l : list string) : list string :=
  match l with
  | [] => [x]
  | y :: r => if (counted sizes y <=? counted sizes x)%nat then x :: y :: r else y :: insert_larger sizes x r
  end.
Definition largest_first (sizes : gmap string nat) (l : list string) : list string := foldr (insert_larger sizes) [] l.

(** [split[1] * total - filled[split[0]]] *)
Definition room (total : nat) (filled : gmap string nat) (split : string * Q) : Q :=
  split.2 * inject_Z (Z.of_nat total) - inject_Z (Z.of_nat (counted filled split.1)).

Definition emptiest (total : nat) (filled : gmap string nat) : string :=
  match SPLITS with
  | [] => ""
  | x :: l => (py_max (λ a b, Qlt_bool (room total filled a) (room total filled b)) x l).1
  end.

Definition place (sizes : gmap string nat) (total : nat) (st : gmap string nat * gmap string string) (group : string) :
    gmap string nat * gmap string string :=
  let '(filled, assignment) := st in
  let name := emptiest total filled in
  (<[name := (counted filled name + counted sizes group)%nat]> filled, <[group := name]> assignment).

Section splits.
Context `{Random}.

Definition _assign_bucket (groups : list string) (sizes : gmap string nat) (seed bucket : Z) : gmap string string :=
  let ordered := largest_first sizes
    (shuffle (pretty seed +:+ ":" +:+ pretty bucket) (merge_sort text_le groups)) in
  let total := sum_list_with (counted sizes) ordered in
  snd (foldl (place sizes total) (list_to_map ((λ split, (split.1, 0%nat)) <$> SPLITS), ∅) ordered).

Definition by_bucket (buckets : gmap string Z) : gmap Z (list string) :=
  foldl (λ d '(group, bucket), <[bucket := default [] (d !! bucket) ++ [group]]> d) ∅ (map_to_list buckets).

Definition assign_splits (items : list (string * Z)) (seed : Z) : gmap string string :=
  let '(buckets, sizes) := group_buckets items in
  let d := by_bucket buckets in
  foldl (λ assignment bucket, _assign_bucket (default [] (d !! bucket)) sizes seed bucket ∪ assignment) ∅
    (merge_sort Z.le (elements (dom d))).
End splits.

(** ** [build.py]: the files of the splits *)

(** What the cleansing keeps of an application; [record] as it is written. *)
Record CleanRecord := mkClean { record : string; group : string; bucket : Z; pii_hashes : list string; cr_tokens : Z }.

(** A [.jsonl] file with its part of the manifest and of the statistics. *)
Record SplitFile := mkSplitFile { lines : list string; manifest : list (string * list string); tokens : list Z }.

Definition write_line (item : CleanRecord) (f : SplitFile) : SplitFile :=
  mkSplitFile (lines f ++ [record item]) (manifest f ++ [(group item, pii_hashes item)]) (tokens f ++ [cr_tokens item]).

Definition no_lines : SplitFile := mkSplitFile [] [] [].

(** [None] is the [KeyError] of a group without a split. *)
Definition _write_splits (items : list CleanRecord) (assignment : gmap string string) : option (gmap string SplitFile) :=
  foldl (λ files item, files ← files; name ← assignment !! group item; f ← files !! name;
                       Some (<[name := write_line item f]> files))
    (Some (list_to_map ((λ split, (split.1, no_lines)) <$> SPLITS))) items.

(** [_write_splits(temp_path, options.out_dir, assign_splits(meta, options.seed))] *)
Definition write_dataset `{Random} (items : list CleanRecord) (seed : Z) : option (gmap string SplitFile) :=
  _write_splits items (assign_splits ((λ c, (group c, bucket c)) <$> items) seed).

(** ** [validate.py] and [validate_checks.py] *)

Definition TARGETS : list (string * Q) := [("train", 8 # 10); ("validation", 1 # 10); ("test", 1 # 10)]%Q.
Definition DEFAULT_TOLERANCE : Q := 1 # 100.

(** What [_validate_split] reports of a file to [check_splits]: the number of
    its lines and the groups of its entries. *)
Definition split_count (files : gmap string SplitFile) (name : string) : nat :=
  length (lines (default no_lines (files !! name))).
Definition split_groups (files : gmap string SplitFile) (name : string) : gset string :=
  list_to_set (manifest (default no_lines (files !! name))).*1.

Fixpoint leakage (groups : list (string * gset string)) : list string :=
  match groups with
  | [] => []
  | (first, s) :: rest =>
      ((λ p, "leakage_group:" +:+ first +:+ "/" +:+ p.1) <$> filter (λ p, s ∩ p.2 ≠ ∅) rest) ++ leakage rest
  end.

Definition ratio (counts : gmap string nat) (total : nat) (name : string) : Q :=
  if (0 <? total)%nat then inject_Z (Z.of_nat (counted counts name)) / inject_Z (Z.of_nat total) else 0.

Definition check_splits (groups : list (string * gset string)) (counts : gmap string nat) (targets : list (string * Q))
    (tolerance : Q) : list string :=
  let total := sum_list (map_to_list counts).*2 in
  leakage groups ++
  ((λ t, "split_ratio:" +:+ t.1) <$>
     filter (λ t, Qlt_bool tolerance (Qabs (ratio counts total t.1 - t.2)) = true) targets).

(** [validate_dataset], as far as the split goes. *)
Definition check_files (files : gmap string SplitFile) (tolerance : Q) : list string :=
  check_splits ((λ t, (t.1, split_groups files t.1)) <$> TARGETS)
    (list_to_map ((λ t, (t.1, split_count files t.1)) <$> TARGETS)) TARGETS tolerance.

(** ** Laws *)

Lemma py_max_spec {A} (f : A → Q) (x : A) (l : list A) :
  let best := py_max (λ a b, Qlt_bool (f a) (f b)) x l in
  best ∈ x :: l ∧ ∀ y, y ∈ x :: l → (f y <= f best)%Q.
Proof.
  cbv zeta. unfold py_max. induction l as [|y l IH] using rev_ind; cbn.
  - split; [left|]. intros y ->%list_elem_of_singleton. apply Qle_refl.
  - rewrite foldl_app. cbn. destruct IH as [Hin Hmax]. set (b := foldl _ x l) in *. unfold Qlt_bool.
    destruct (Qle_bool (f y) (f b)) eqn:E; cbn [negb].
    + apply Qle_bool_iff in E. split; [set_solver|]. intros z Hz.
      assert (z ∈ x :: l ∨ z = y) as [?| ->] by set_solver; auto.
    + assert (f b < f y)%Q as Hlt by (apply Qnot_le_lt; intros Hle%Qle_bool_iff; congruence).
      split; [set_solver|]. intros z Hz. assert (z ∈ x :: l ∨ z = y) as [Hzl| ->] by set_solver.
      * specialize (Hmax z Hzl). lra.
      * apply Qle_refl.
Qed.

Lemma py_max_in {A} (lt : A → A → bool) (x : A) (l : list A) : py_max lt x l ∈ x :: l.
Proof.
  unfold py_max. induction l as [|y l IH] using rev_ind; cbn; [left|].
  rewrite foldl_app. cbn. destruct (lt _ y); set_solver.
Qed.

Lemma insert_larger_perm sizes x l : insert_larger sizes x l ≡ₚ x :: l.
Proof. induction l as [|y l IH]; cbn; [done|]. case_match; [done|]. rewrite IH. apply Permutation_swap. Qed.

Lemma largest_first_perm sizes l : largest_first sizes l ≡ₚ l.
Proof. induction l as [|x l IH]; cbn; [done|]. by rewrite insert_larger_perm, IH. Qed.

(** *** Counting *)

Lemma counted_one {K} `{Countable K} (k k' : K) (c : gmap K nat) :
  counted (count_one k c) k' = if decide (k = k') then S (counted c k) else counted c k'.
Proof. unfold count_one, counted at 1. destruct (decide (k = k')) as [->|]; [by rewrite lookup_insert_eq|by rewrite lookup_insert_ne]. Qed.

Lemma group_sizes (items : list (string * Z)) g :
  counted (group_buckets items).2 g = length (filter (λ p, p.1 = g) items).
Proof.
  unfold group_buckets. destruct (foldl tally (∅, ∅) items) as [sizes votes] eqn:E. cbn [snd].
  replace sizes with (foldl tally (∅, ∅) items).1 by (by rewrite E). clear E.
  induction items as [|[group b] items IH] using rev_ind; [done|].
  rewrite foldl_app, filter_app, length_app. cbn [foldl tally fst]. rewrite counted_one, IH, filter_cons. cbn [fst].
  destruct (decide (group = g)) as [->|]; cbn [filter length]; rewrite ?IH; cbn; lia.
Qed.

(** A group has a bucket, one of those its records are in. *)
Lemma group_bucket (items : list (string * Z)) g :
  (g ∈ items.*1 → is_Some ((group_buckets items).1 !! g)) ∧
  ∀ b, (group_buckets items).1 !! g = Some b → (g, b) ∈ items.
Proof.
  unfold group_buckets. destruct (foldl tally (∅, ∅) items) as [sizes votes] eqn:E. cbn [fst].
  assert (votes = (foldl tally (∅, ∅) items).2) as -> by (by rewrite E). clear E.
  assert ((g ∈ items.*1 → is_Some ((foldl tally (∅, ∅) items).2 !! g)) ∧
    ∀ v, (foldl tally (∅, ∅) items).2 !! g = Some v → v ≠ ∅ ∧ ∀ b n, v !! b = Some n → (g, b) ∈ items) as [Hs Hv].
  { induction items as [|[group b] items IH] using rev_ind; [cbn; set_solver|].
    destruct IH as [IHs IHv]. rewrite foldl_app, fmap_app. cbn [foldl tally snd]. split.
    - intros Hin. destruct (decide (group = g)) as [->|Hne]; [rewrite lookup_insert_eq; eauto|].
      rewrite lookup_insert_ne by done. apply IHs. set_solver.
    - intros v. destruct (decide (group = g)) as [->|Hne].
      + rewrite lookup_insert_eq. intros [= <-]. split; [apply insert_non_empty|]. intros b' n'. unfold count_one.
        destruct (decide (b = b')) as [->|]; [intros _; set_solver|]. rewrite lookup_insert_ne by done.
        destruct ((foldl tally (∅, ∅) items).2 !! g) as [v|] eqn:Ev; cbn [default]; [|by rewrite lookup_empty].
        intros Hb. destruct (IHv v eq_refl) as [_ Hin]. apply Hin in Hb. set_solver.
      + rewrite lookup_insert_ne by done. intros Hv. destruct (IHv v Hv) as [? Hb]. split; [done|].
        intros b' n' Hb'. apply Hb in Hb'. set_solver. }
  split.
  - intros Hin%Hs. rewrite lookup_fmap. by apply fmap_is_Some.
  - intros b. rewrite lookup_fmap. intros (v & Hg & ->)%fmap_Some. apply Hv in Hg as [Hne Hb].
    unfold dominant. destruct (map_to_list v) as [|x l] eqn:El.
    { by apply map_to_list_empty_iff in El. }
    pose proof (py_max_in vote_lt x l) as Hin. rewrite <-El in Hin. destruct (py_max vote_lt x l) as [b n].
    apply elem_of_map_to_list in Hin. eauto.
Qed.

Lemma sum_ext {A} (f g : A → nat) l : (∀ x, x ∈ l → f x = g x) → sum_list_with f l = sum_list_with g l.
Proof. induction l as [|x l IH]; intros Heq; cbn; [done|]. rewrite IH, (Heq x) by set_solver. done. Qed.

(** The records of some groups, counted by group. *)
Lemma records_by_group {A} (key : A → string) (P : string → Prop) `{!∀ g, Decision (P g)} (items : list A) (L : list string) :
  NoDup L → (∀ x, x ∈ items → key x ∈ L) →
  sum_list_with (λ g, length (filter (λ x, key x = g) items)) (filter P L) = length (filter (λ x, P (key x)) items).
Proof.
  intros HL. induction items as [|x items IH]; intros Hin.
  - cbn. induction (filter P L); cbn; auto.
  - assert (∀ L' : list string, NoDup L' →
      sum_list_with (λ g, length (filter (λ y, key y = g) (x :: items))) L' =
      ((if decide (key x ∈ L') then 1 else 0) + sum_list_with (λ g, length (filter (λ y, key y = g) items)) L')%nat) as Hone.
    { induction 1 as [|g L' Hg _ IH']; [done|]. cbn [sum_list_with]. rewrite IH', filter_cons.
      destruct (decide (key x = g)) as [<-|Hne].
      - rewrite (decide_False (P := key x ∈ L')), decide_True by set_solver. cbn. lia.
      - destruct (decide (key x ∈ L')); [rewrite decide_True by set_solver|rewrite decide_False by set_solver]; lia. }
    rewrite Hone by (by apply NoDup_filter). rewrite IH by set_solver. rewrite filter_cons.
    assert (key x ∈ L) as Hx by set_solver.
    destruct (decide (P (key x))); [rewrite decide_True by (by apply list_elem_of_filter)|
      rewrite decide_False by (rewrite list_elem_of_filter; tauto)]; cbn; lia.
Qed.

Lemma score_bucket_range score : 0 <= score <= 100 → 0 <= score_bucket score < SCORE_BUCKETS.
Proof.
  unfold score_bucket, SCORE_BUCKETS, SCORE_BUCKET_WIDTH. intros.
  pose proof (Z.div_pos score 20 ltac:(lia) ltac:(lia)). lia.
Qed.

(** *** One bucket *)

Definition load (sizes : gmap string nat) (a : gmap string string) (groups : list string) (name : string) : nat :=
  sum_list_with (counted sizes) (filter (λ g, a !! g = Some name) groups).

#[global] Instance load_proper sizes a : Proper ((≡ₚ) ==> (=) ==> (=)) (load sizes a).
Proof. intros l k Hp ? n ->. unfold load. by rewrite Hp. Qed.

(** Decide the equalities of literals. *)
Ltac decide_names :=
  repeat match goal with
  | |- context [decide (?a = ?b)] =>
      first [rewrite (decide_True (P := a = b)) by reflexivity | rewrite (decide_False (P := a = b)) by discriminate]
  end.

(** What the loop keeps after the groups [done]. *)
Record filled_ok (sizes : gmap string nat) (total m : nat) (done : list string)
    (st : gmap string nat * gmap string string) : Prop := {
  fo_dom g : g ∈ done ↔ is_Some (st.2 !! g);
  fo_name g n : st.2 !! g = Some n → n ∈ SPLITS.*1;
  fo_load n : counted st.1 n = load sizes st.2 done n;
  fo_sum : (counted st.1 "train" + counted st.1 "validation" + counted st.1 "test")%nat = sum_list_with (counted sizes) done;
  fo_room split : split ∈ SPLITS → (- inject_Z (Z.of_nat m) <= room total st.1 split)%Q }.

Definition nothing_filled : gmap string nat := list_to_map ((λ split, (split.1, 0%nat)) <$> SPLITS).

Lemma nothing_counted n : counted nothing_filled n = 0%nat.
Proof. unfold counted, nothing_filled. cbn. rewrite !lookup_insert. by repeat case_decide. Qed.

Lemma emptiest_spec total filled :
  ∃ split, split ∈ SPLITS ∧ emptiest total filled = split.1 ∧ ∀ s, s ∈ SPLITS → (room total filled s <= room total filled split)%Q.
Proof.
  unfold emptiest, SPLITS. destruct (py_max_spec (room total filled) ("train", 8 # 10)%Q
    [("validation", 1 # 10); ("test", 1 # 10)]%Q) as [Hin Hmax]. eexists. split; [exact Hin|]. done.
Qed.

Lemma splits_forall (P : string * Q → Prop) :
  (∀ split, split ∈ SPLITS → P split) ↔ P ("train", 8 # 10)%Q ∧ P ("validation", 1 # 10)%Q ∧ P ("test", 1 # 10)%Q.
Proof.
  unfold SPLITS. split; [intros Hp; split_and!; apply Hp; set_solver|].
  intros (? & ? & ?) split Hs. rewrite !elem_of_cons, elem_of_nil in Hs. by destruct Hs as [->|[->|[->|[]]]].
Qed.

Lemma split_by_name s t : s ∈ SPLITS → t ∈ SPLITS → s.1 = t.1 → s = t.
Proof.
  unfold SPLITS. rewrite !elem_of_cons, !elem_of_nil. intros [->|[->|[->|[]]]] [->|[->|[->|[]]]]; done.
Qed.

(** The rooms add up to what is still to be placed. *)
Lemma rooms_sum total filled :
  (room total filled ("train", 8 # 10) + room total filled ("validation", 1 # 10) + room total filled ("test", 1 # 10) ==
   inject_Z (Z.of_nat total) -
   inject_Z (Z.of_nat (counted filled "train" + counted filled "validation" + counted filled "test")))%Q.
Proof. unfold room. cbn [fst snd]. rewrite !Nat2Z.inj_add, !inject_Z_plus. lra. Qed.

Lemma counted_insert {K} `{Countable K} (k k' : K) n (c : gmap K nat) :
  counted (<[k := n]> c) k' = if decide (k = k') then n else counted c k'.
Proof. unfold counted. destruct (decide (k = k')) as [->|]; [by rewrite lookup_insert_eq|by rewrite lookup_insert_ne]. Qed.

Lemma inject_nat_le a b : (a ≤ b)%nat → (inject_Z (Z.of_nat a) <= inject_Z (Z.of_nat b))%Q.
Proof. intros. rewrite <-Zle_Qle. lia. Qed.

Lemma filter_ext_in {A} (P Q : A → Prop) `{!∀ x, Decision (P x), !∀ x, Decision (Q x)} (l : list A) :
  (∀ x, x ∈ l → P x ↔ Q x) → filter P l = filter Q l.
Proof.
  induction l as [|x l IH]; intros Heq; [done|]. rewrite !filter_cons, IH by set_solver.
  specialize (Heq x ltac:(left)). repeat case_decide; tauto.
Qed.

Lemma nat_Q_nonneg a : (0 <= inject_Z (Z.of_nat a))%Q.
Proof. apply (inject_nat_le 0). lia. Qed.

Lemma place_load sizes a done g name n :
  g ∉ done → load sizes (<[g := name]> a) (done ++ [g]) n =
  (load sizes a done n + if decide (name = n) then counted sizes g else 0)%nat.
Proof.
  intros Hg. unfold load. rewrite filter_app, sum_list_with_app. f_equal.
  - f_equal. apply filter_ext_in. intros x Hx. rewrite lookup_insert_ne; [done|]. intros ->. done.
  - rewrite filter_cons, lookup_insert_eq. destruct (decide (name = n)) as [->|];
      [rewrite decide_True by done|rewrite decide_False by congruence]; cbn; lia.
Qed.

Lemma fill_bucket sizes m done rest :
  NoDup (done ++ rest) → (∀ g, g ∈ done ++ rest → counted sizes g ≤ m)%nat →
  let total := sum_list_with (counted sizes) (done ++ rest) in
  filled_ok sizes total m done (foldl (place sizes total) (nothing_filled, ∅) done).
Proof.
  revert rest. induction done as [|g done IH] using rev_ind; intros rest Hnd Hm; cbv zeta.
  - cbn [foldl]. constructor; cbn [fst snd].
    + intros g. rewrite lookup_empty. split; [by intros ?%elem_of_nil|intros []%is_Some_None].
    + by intros g n ?%lookup_empty_Some.
    + intros n. apply nothing_counted.
    + by rewrite !nothing_counted.
    + apply splits_forall. pose proof (nat_Q_nonneg (sum_list_with (counted sizes) ([] ++ rest))).
      pose proof (nat_Q_nonneg m). unfold room. rewrite !nothing_counted. change (inject_Z (Z.of_nat 0)) with 0%Q. cbn [fst snd] in *. split_and!; lra.
  - rewrite <-app_assoc in *. specialize (IH ([g] ++ rest) Hnd Hm). cbv zeta in IH.
    set (total := sum_list_with _ _) in *. rewrite foldl_app. cbn [foldl].
    destruct (foldl (place sizes total) (nothing_filled, ∅) done) as [filled a]. destruct IH as [Hdom Hname Hload Hsum Hroom].
    cbn [place fst snd] in *. destruct (emptiest_spec total filled) as (split & Hin & -> & Hmax).
    assert (g ∉ done) as Hg by (apply NoDup_app in Hnd as (_ & Hd & _); intros ?%Hd; set_solver).
    constructor; cbn [fst snd].
    + intros x. destruct (decide (x = g)) as [->|]; [rewrite lookup_insert_eq; set_solver|].
      rewrite lookup_insert_ne, <-Hdom by done. set_solver.
    + intros x n. destruct (decide (x = g)) as [->|]; [rewrite lookup_insert_eq; intros [= <-]; set_solver|].
      rewrite lookup_insert_ne by done. apply Hname.
    + intros n. rewrite counted_insert, place_load, <-!Hload by done. case_decide; subst; lia.
    + rewrite sum_list_with_app, <-Hsum. rewrite !counted_insert. cbn [sum_list_with].
      clear -Hin. revert split Hin. apply splits_forall. cbn [fst]. decide_names. cbn. lia.
    + assert (sum_list_with (counted sizes) done + counted sizes g ≤ total)%nat as Hle
        by (unfold total; rewrite !sum_list_with_app; cbn; lia).
      assert (counted sizes g ≤ m)%nat as Hgm by (apply Hm; set_solver).
      apply inject_nat_le in Hle, Hgm. pose proof (rooms_sum total filled) as Hs. rewrite Hsum in Hs.
      rewrite Nat2Z.inj_add, inject_Z_plus in Hle. pose proof (nat_Q_nonneg (counted sizes g)) as H0.
      intros s Hs'. specialize (Hroom s Hs'). unfold room in *. rewrite counted_insert. case_decide as E; [|done].
      assert (s = split) as -> by (by apply split_by_name).
      rewrite Nat2Z.inj_add, inject_Z_plus. apply splits_forall in Hmax as (H1 & H2 & H3). cbn [fst snd] in *. lra.
Qed.

Section laws.
Context `{Random}.

(** Each part of a bucket is within twice the largest group of its share. *)
Lemma assign_bucket_ok groups sizes seed bucket m :
  NoDup groups → (∀ g, g ∈ groups → counted sizes g ≤ m)%nat →
  let a := _assign_bucket groups sizes seed bucket in
  (∀ g, g ∈ groups ↔ is_Some (a !! g)) ∧ (∀ g n, a !! g = Some n → n ∈ SPLITS.*1) ∧
  ∀ split, split ∈ SPLITS →
    (Qabs (split.2 * inject_Z (Z.of_nat (sum_list_with (counted sizes) groups)) -
           inject_Z (Z.of_nat (load sizes a groups split.1))) <= 2 * inject_Z (Z.of_nat m))%Q.
Proof.
  intros Hnd Hm. unfold _assign_bucket. set (ordered := largest_first _ _).
  assert (ordered ≡ₚ groups) as Hp by (unfold ordered; by rewrite largest_first_perm, shuffle_perm, merge_sort_Permutation).
  pose proof (fill_bucket sizes m ordered []) as Hf. cbv zeta in Hf. rewrite app_nil_r in Hf.
  specialize (Hf ltac:(by rewrite Hp) ltac:(intros g; rewrite Hp; apply Hm)).
  fold nothing_filled. destruct (foldl _ _ ordered) as [filled a]. destruct Hf as [Hdom Hname Hload Hsum Hroom]. cbn [fst snd] in *.
  split; [intros g; by rewrite <-Hp|]. split; [done|].
  pose proof (rooms_sum (sum_list_with (counted sizes) ordered) filled) as Hs. rewrite Hsum in Hs.
  assert (∀ split, split ∈ SPLITS → room (sum_list_with (counted sizes) ordered) filled split =
    (split.2 * inject_Z (Z.of_nat (sum_list_with (counted sizes) groups)) - inject_Z (Z.of_nat (load sizes a groups split.1)))%Q) as Hr
    by (intros split Hin; unfold room; by rewrite Hload, Hp).
  intros split Hin. rewrite <-Hr by done. revert split Hin. apply splits_forall in Hroom as (? & ? & ?).
  apply splits_forall. split_and!; apply Qabs_Qle_condition; split; lra.
Qed.

(** *** All buckets *)

Lemma by_bucket_spec (buckets : gmap string Z) b :
  default [] (by_bucket buckets !! b) = (filter (λ p, p.2 = b) (map_to_list buckets)).*1 ∧
  (is_Some (by_bucket buckets !! b) ↔ ∃ g, buckets !! g = Some b).
Proof.
  unfold by_bucket. setoid_rewrite <-elem_of_map_to_list. induction (map_to_list buckets) as [|[g c] l IH] using rev_ind.
  - cbn [foldl]. rewrite lookup_empty. split; [done|]. split; [intros []%is_Some_None|intros [g []%elem_of_nil]].
  - rewrite foldl_app, filter_app, fmap_app. cbn [foldl]. destruct IH as [IHl IHd]. split.
    + rewrite filter_cons. cbn [snd]. destruct (decide (c = b)) as [->|];
        [rewrite lookup_insert_eq|rewrite lookup_insert_ne by done]; cbn; rewrite IHl, ?app_nil_r; done.
    + destruct (decide (c = b)) as [->|Hne].
      * rewrite lookup_insert_eq. split; [intros _; exists g; set_solver|eauto].
      * rewrite lookup_insert_ne, IHd by done. split; intros [x Hx]; exists x; [set_solver|].
        apply elem_of_app in Hx as [?|[= -> ->]%list_elem_of_singleton]; done.
Qed.

Definition bucket_groups (buckets : gmap string Z) (b : Z) : list string := default [] (by_bucket buckets !! b).
Definition bucket_keys (buckets : gmap string Z) : list Z := merge_sort Z.le (elements (dom (by_bucket buckets))).

Lemma elem_of_bucket_groups buckets b g : g ∈ bucket_groups buckets b ↔ buckets !! g = Some b.
Proof.
  unfold bucket_groups. rewrite (proj1 (by_bucket_spec buckets b)), list_elem_of_fmap. setoid_rewrite list_elem_of_filter.
  split; [intros ([g' b'] & -> & <- & Hin); by apply elem_of_map_to_list|].
  intros Hg. exists (g, b). split; [done|]. split; [done|]. by apply elem_of_map_to_list.
Qed.

Lemma bucket_groups_NoDup buckets b : NoDup (bucket_groups buckets b).
Proof.
  unfold bucket_groups. rewrite (proj1 (by_bucket_spec buckets b)). apply NoDup_fmap_2_strong; [|apply NoDup_filter, NoDup_map_to_list].
  intros [g c] [g' c'] [Hc _]%list_elem_of_filter [Hc' _]%list_elem_of_filter Hg. cbn in *. by subst.
Qed.

Lemma elem_of_bucket_keys buckets b : b ∈ bucket_keys buckets ↔ ∃ g, buckets !! g = Some b.
Proof.
  unfold bucket_keys. rewrite <-(proj2 (by_bucket_spec buckets b)), <-elem_of_dom, <-elem_of_elements. generalize (elements (dom (by_bucket buckets))).
  intros l. by rewrite merge_sort_Permutation.
Qed.

Lemma bucket_keys_NoDup buckets : NoDup (bucket_keys buckets).
Proof.
  unfold bucket_keys. pose proof (NoDup_elements (dom (by_bucket buckets))) as Hnd. revert Hnd.
  generalize (elements (dom (by_bucket buckets))). intros l. by rewrite merge_sort_Permutation.
Qed.

Lemma foldl_union_lookup {A} (f : Z → gmap string A) (g : string) (b : Z) keys : ∀ a,
  b ∈ keys → is_Some (f b !! g) → (∀ c, c ≠ b → f c !! g = None) →
  foldl (λ a c, f c ∪ a) a keys !! g = f b !! g.
Proof.
  assert (∀ keys a, is_Some (f b !! g) → (∀ c, c ≠ b → f c !! g = None) → a !! g = f b !! g →
    foldl (λ a c, f c ∪ a) a keys !! g = f b !! g) as Hkeep.
  { clear keys. induction keys as [|c keys IH]; intros a Hs Hc Ha; [done|]. cbn. apply IH; [done..|].
    destruct (decide (c = b)) as [->|Hne]; [destruct Hs as [x Hx]; rewrite Hx; by apply lookup_union_Some_l|].
    rewrite lookup_union_r; auto. }
  induction keys as [|c keys IH]; intros a Hb Hs Hc; [by apply elem_of_nil in Hb|]. cbn.
  destruct (decide (c = b)) as [->|Hne].
  - apply Hkeep; [done..|]. destruct Hs as [x Hx]. rewrite Hx. by apply lookup_union_Some_l.
  - apply IH; [set_solver|done..].
Qed.

Lemma sum_over_buckets {A B} (f : B → nat) (P : B → Prop) `{!∀ x, Decision (P x)} (G : A → list B) keys :
  sum_list_with f (filter P (keys ≫= G)) = sum_list_with (λ b, sum_list_with f (filter P (G b))) keys.
Proof. induction keys as [|b keys IH]; [done|]. cbn [mbind list_bind]. rewrite filter_app, sum_list_with_app. cbn. by rewrite <-IH. Qed.

Context (items : list (string * Z)) (seed : Z).
#[local] Abbreviation buckets := (group_buckets items).1.
#[local] Abbreviation sizes := (group_buckets items).2.
#[local] Abbreviation part b := (_assign_bucket (bucket_groups buckets b) sizes seed b).

Lemma part_dom b g : g ∈ bucket_groups buckets b ↔ is_Some (part b !! g).
Proof.
  apply (assign_bucket_ok _ sizes seed b (length items)); [apply bucket_groups_NoDup|].
  intros x _. rewrite group_sizes. apply length_filter.
Qed.

Lemma assign_lookup g b : buckets !! g = Some b → assign_splits items seed !! g = part b !! g.
Proof.
  intros Hg. unfold assign_splits. destruct (group_buckets items) as [bs ss] eqn:E.
  pose proof part_dom as Hd. rewrite E in Hd. cbn [fst snd] in *.
  rewrite (foldl_union_lookup (λ c, _assign_bucket (bucket_groups bs c) ss seed c) g b (bucket_keys bs)); [done|..].
  - apply elem_of_bucket_keys. eauto.
  - by apply Hd, elem_of_bucket_groups.
  - intros c Hc. apply eq_None_not_Some. rewrite <-Hd, elem_of_bucket_groups. congruence.
Qed.

Definition all_groups : list string := bucket_keys buckets ≫= bucket_groups buckets.

Lemma all_groups_NoDup : NoDup all_groups.
Proof.
  unfold all_groups. apply NoDup_bind; [|intros; apply bucket_groups_NoDup|apply bucket_keys_NoDup].
  intros b c g _ _ Hb Hc. rewrite !elem_of_bucket_groups in *. congruence.
Qed.

Lemma elem_of_all_groups p : p ∈ items → p.1 ∈ all_groups.
Proof.
  intros Hp. destruct (proj1 (group_bucket items p.1)) as [b Hb]; [by apply list_elem_of_fmap_2|].
  unfold all_groups. apply list_elem_of_bind. exists b. rewrite elem_of_bucket_groups, elem_of_bucket_keys. eauto.
Qed.

(** A part as a whole is as close to its share as its buckets are. *)
Lemma splits_are_close m split :
  (∀ g, length (filter (λ p, p.1 = g) items) ≤ m)%nat → split ∈ SPLITS →
  (Qabs (split.2 * inject_Z (Z.of_nat (length items)) -
         inject_Z (Z.of_nat (length (filter (λ p, assign_splits items seed !! p.1 = Some split.1) items)))) <=
   2 * inject_Z (Z.of_nat m) * inject_Z (Z.of_nat (length (bucket_keys buckets))))%Q.
Proof.
  intros Hm Hin.
  assert (∀ (P : string → Prop) `{!∀ g, Decision (P g)}, length (filter (λ p, P p.1) items) =
    sum_list_with (λ b, sum_list_with (counted sizes) (filter P (bucket_groups buckets b))) (bucket_keys buckets)) as Hcount.
  { intros P ?. rewrite <-(records_by_group fst P items all_groups) by (apply all_groups_NoDup || apply elem_of_all_groups).
    rewrite <-sum_over_buckets. apply sum_ext. intros g _. by rewrite group_sizes. }
  pose proof (Hcount (λ _, True) _) as Hall. rewrite (Prelude.filter_all _ items) in Hall by done.
  assert (length (filter (λ p, assign_splits items seed !! p.1 = Some split.1) items) =
    sum_list_with (λ b, load sizes (assign_splits items seed) (bucket_groups buckets b) split.1) (bucket_keys buckets)) as ->.
  { etrans; [|exact (Hcount (λ g, assign_splits items seed !! g = Some split.1) _)]. done. }
  rewrite Hall. clear Hall Hcount.
  rewrite (sum_ext (λ b, load sizes (assign_splits items seed) _ _) (λ b, load sizes (part b) (bucket_groups buckets b) split.1)).
  2: { intros b _. unfold load. f_equal. apply filter_ext_in. intros g Hg%elem_of_bucket_groups. by rewrite assign_lookup with (b := b). }
  rewrite (sum_ext (λ b, sum_list_with _ (filter _ _)) (λ b, sum_list_with (counted sizes) (bucket_groups buckets b))) by (intros; by rewrite filter_all).
  induction (bucket_keys buckets) as [|b keys IH]; cbn [sum_list_with length].
  { change (inject_Z (Z.of_nat 0)) with 0%Q. apply Qabs_Qle_condition. split; lra. }
  pose proof (assign_bucket_ok (bucket_groups buckets b) sizes seed b m (bucket_groups_NoDup _ _)) as (_ & _ & Hb).
  { intros g _. by rewrite group_sizes. }
  specialize (Hb split Hin). apply Qabs_Qle_condition in Hb as [? ?], IH as [? ?]. apply Qabs_Qle_condition.
  rewrite !Nat2Z.inj_add, Nat2Z.inj_succ, <-Z.add_1_r, !inject_Z_plus. change (inject_Z 1) with 1%Q. split; lra.
Qed.
End laws.

(** *** The files *)

Section files.
Context (a : gmap string string).

Definition file_of (items : list CleanRecord) (name : string) : SplitFile :=
  let l := filter (λ c, a !! group c = Some name) items in
  mkSplitFile (record <$> l) ((λ c, (group c, pii_hashes c)) <$> l) (cr_tokens <$> l).

Lemma write_splits_files items :
  (∀ c, c ∈ items → ∃ name, a !! group c = Some name ∧ name ∈ SPLITS.*1) →
  ∃ files, _write_splits items a = Some files ∧ ∀ name, name ∈ SPLITS.*1 → files !! name = Some (file_of items name).
Proof.
  unfold _write_splits. induction items as [|c items IH] using rev_ind; intros Ha.
  - eexists. split; [reflexivity|]. intros name. cbn. rewrite !elem_of_cons, elem_of_nil, !lookup_insert.
    intros [->|[->|[->|[]]]]; decide_names; done.
  - destruct IH as (files & Hf & Hall); [set_solver|]. destruct (Ha c ltac:(set_solver)) as (name & Hn & Hin).
    rewrite foldl_app. cbn [foldl]. rewrite Hf. cbn [mbind option_bind]. rewrite Hn. cbn [mbind option_bind].
    rewrite (Hall name Hin). eexists. split; [reflexivity|]. intros name' Hin'. unfold file_of at 2. rewrite !filter_app, filter_cons.
    destruct (decide (name = name')) as [->|Hne].
    + rewrite lookup_insert_eq, decide_True by done. unfold write_line. cbn. by rewrite !fmap_app.
    + rewrite lookup_insert_ne, Hall by done. rewrite decide_False by congruence. cbn. by rewrite app_nil_r.
Qed.

(** Every record is in one of the three. *)
Lemma files_partition items :
  (∀ c, c ∈ items → ∃ name, a !! group c = Some name ∧ name ∈ SPLITS.*1) →
  lines (file_of items "train") ++ lines (file_of items "validation") ++ lines (file_of items "test") ≡ₚ record <$> items.
Proof.
  cbn. intros Ha. rewrite <-!fmap_app. apply fmap_Permutation. induction items as [|c items IH]; [done|].
  destruct (Ha c ltac:(left)) as (name & Hn & Hin). rewrite !filter_cons, Hn. specialize (IH ltac:(set_solver)).
  cbn in Hin. rewrite !elem_of_cons, elem_of_nil in Hin.
  destruct Hin as [->|[->|[->|[]]]]; decide_names; cbn.
  - by rewrite IH.
  - by rewrite <-Permutation_middle, IH.
  - by rewrite app_assoc, <-Permutation_middle, <-app_assoc, IH.
Qed.
End files.

(** *** The checks *)

Lemma counts_total (f : string → nat) :
  sum_list (map_to_list (list_to_map ((λ t, (t.1, f t.1)) <$> TARGETS) : gmap string nat)).*2 =
  (f "train" + f "validation" + f "test")%nat.
Proof.
  rewrite map_to_list_to_map; [cbn; lia|]. by apply (bool_decide_eq_true_1 (NoDup ["train"; "validation"; "test"])).
Qed.

Lemma elem_of_split_groups (a : gmap string string) items (files : gmap string SplitFile) name g :
  files !! name = Some (file_of a items name) → g ∈ split_groups files name → a !! g = Some name.
Proof.
  intros Hf. unfold split_groups. rewrite Hf, elem_of_list_to_set. cbn. rewrite <-list_fmap_compose.
  intros (c & -> & Hc)%list_elem_of_fmap. by apply list_elem_of_filter in Hc as [Hc _].
Qed.

Lemma leakage_of_files (a : gmap string string) items (files : gmap string SplitFile) :
  (∀ name, name ∈ SPLITS.*1 → files !! name = Some (file_of a items name)) →
  leakage ((λ t, (t.1, split_groups files t.1)) <$> TARGETS) = [].
Proof.
  intros Hf. assert (∀ n n', n ∈ SPLITS.*1 → n' ∈ SPLITS.*1 → n ≠ n' → ¬ split_groups files n ∩ split_groups files n' ≠ ∅) as Hd.
  { intros n n' Hn Hn' Hne Hx. apply Hx, set_eq. intros g. split; [|set_solver]. rewrite elem_of_intersection.
    intros [H1%(elem_of_split_groups a items) H2%(elem_of_split_groups a items)]; auto. congruence. }
  cbn [fmap list_fmap TARGETS leakage fst]. rewrite !filter_cons_False by (apply Hd; [set_solver|set_solver|discriminate]). done.
Qed.

Lemma ratio_close (t tol : Q) (c n : nat) (k : Q) :
  (0 < n)%nat → (Qabs (t * inject_Z (Z.of_nat n) - inject_Z (Z.of_nat c)) <= k)%Q → (k <= tol * inject_Z (Z.of_nat n))%Q →
  Qlt_bool tol (Qabs (inject_Z (Z.of_nat c) / inject_Z (Z.of_nat n) - t)) = false.
Proof.
  intros Hn Hc Hk. apply negb_false_iff, Qle_bool_iff. apply Qabs_Qle_condition in Hc as [H1 H2].
  assert (0 < inject_Z (Z.of_nat n))%Q as Hpos by (change 0%Q with (inject_Z 0); rewrite <-Zlt_Qlt; lia).
  set (x := (inject_Z (Z.of_nat c) / inject_Z (Z.of_nat n))%Q).
  assert (x * inject_Z (Z.of_nat n) == inject_Z (Z.of_nat c))%Q as Hx by (unfold x; field; lra).
  apply Qabs_Qle_condition. split; apply (Qmult_lt_0_le_reg_r _ _ (inject_Z (Z.of_nat n)) Hpos); lra.
Qed.

Section theorems.
Context `{Random}.

(** Every group has a split. *)
Lemma assigned (items : list CleanRecord) seed c :
  c ∈ items → ∃ name, assign_splits ((λ c, (group c, bucket c)) <$> items) seed !! group c = Some name ∧ name ∈ SPLITS.*1.
Proof.
  intros Hc. set (pairs := (λ c, (group c, bucket c)) <$> items).
  destruct (proj1 (group_bucket pairs (group c))) as [b Hb].
  { unfold pairs. rewrite <-list_fmap_compose. by apply (list_elem_of_fmap_2 (fst ∘ (λ c, (group c, bucket c)))). }
  rewrite (assign_lookup pairs seed _ b) by done.
  destruct (assign_bucket_ok (bucket_groups (group_buckets pairs).1 b) (group_buckets pairs).2 seed b (length pairs)
    (bucket_groups_NoDup _ _)) as (Hdom & Hname & _).
  { intros g _. rewrite group_sizes. apply length_filter. }
  destruct (proj1 (Hdom (group c))) as [name Hn]; [by apply elem_of_bucket_groups|]. eauto.
Qed.

Lemma filter_fmap_length {A B} (f : A → B) (P : B → Prop) `{!∀ y, Decision (P y)} (l : list A) :
  length (filter P (f <$> l)) = length (filter (λ x, P (f x)) l).
Proof. induction l as [|x l IH]; [done|]. rewrite fmap_cons, !filter_cons. case_decide; cbn; by rewrite IH. Qed.

Lemma few_buckets (pairs : list (string * Z)) :
  (∀ p, p ∈ pairs → 0 <= p.2 < SCORE_BUCKETS) → (length (bucket_keys (group_buckets pairs).1) ≤ 5)%nat.
Proof.
  intros Hb. change 5%nat with (length [0; 1; 2; 3; 4]). apply submseteq_length, NoDup_submseteq; [apply bucket_keys_NoDup|].
  intros b [g Hg]%elem_of_bucket_keys. apply (proj2 (group_bucket pairs g)) in Hg. specialize (Hb _ Hg). cbn in Hb.
  unfold SCORE_BUCKETS in Hb. rewrite !elem_of_cons. lia.
Qed.

Lemma file_ratio (items : list CleanRecord) seed (m : nat) tol split :
  items ≠ [] → (∀ c, c ∈ items → 0 <= bucket c < SCORE_BUCKETS) → (∀ g, length (filter (λ c, group c = g) items) ≤ m)%nat →
  (10 * inject_Z (Z.of_nat m) <= tol * inject_Z (Z.of_nat (length items)))%Q → split ∈ SPLITS →
  let a := assign_splits ((λ c, (group c, bucket c)) <$> items) seed in
  Qlt_bool tol (Qabs (inject_Z (Z.of_nat (length (filter (λ c, a !! group c = Some split.1) items))) /
                      inject_Z (Z.of_nat (length items)) - split.2)) = false.
Proof.
  intros Hne Hb Hm Htol Hin a. set (pairs := (λ c, (group c, bucket c)) <$> items) in *.
  assert (∀ g, length (filter (λ p, p.1 = g) pairs) ≤ m)%nat as Hm' by (intros g; unfold pairs; rewrite filter_fmap_length; apply Hm).
  assert (length (bucket_keys (group_buckets pairs).1) ≤ 5)%nat as Hk.
  { apply few_buckets. intros p (c & -> & Hc)%list_elem_of_fmap. by apply Hb. }
  pose proof (splits_are_close pairs seed m split Hm' Hin) as Hclose. apply inject_nat_le in Hk. fold a in Hclose.
  unfold pairs in Hclose at 1 2. rewrite filter_fmap_length, length_fmap in Hclose.
  eapply ratio_close; [by destruct items; [|cbn; lia]|exact Hclose|].
  change (inject_Z (Z.of_nat 5)) with 5%Q in Hk. pose proof (nat_Q_nonneg m). nra.
Qed.

Lemma counted_targets (f : string → nat) t :
  t ∈ SPLITS → counted (list_to_map ((λ t, (t.1, f t.1)) <$> TARGETS) : gmap string nat) t.1 = f t.1.
Proof. revert t. apply splits_forall. unfold counted. cbn. rewrite !lookup_insert. decide_names. done. Qed.

End theorems.

(** *** Twenty candidates *)

Definition demo_random : Random := {| shuffle _ l := reverse l; shuffle_perm _ l := reverse_Permutation l |}.

Definition demo_items : list CleanRecord :=
  (λ i, mkClean (pretty i) (pretty i) (score_bucket (Z.of_nat (5 * i))) [] 100) <$> seq 0 20.

Lemma largest_group (items : list CleanRecord) m :
  Forall (λ c, length (filter (λ c', group c' = group c) items) ≤ m)%nat items →
  ∀ g, (length (filter (λ c, group c = g) items) ≤ m)%nat.
Proof.
  intros Hall g. destruct (filter (λ c, group c = g) items) as [|c l] eqn:E; [cbn; lia|]. rewrite <-E.
  assert (c ∈ filter (λ c, group c = g) items) as Hc by (rewrite E; left). apply list_elem_of_filter in Hc as [<- Hc].
  by apply (proj1 (Forall_forall _ _) Hall).
Qed.

