(* ===== verification/Ops.v ===== *)
(** Notices of the monitoring and of the deployments ([app/routers/ops.py],
    [app/schemas/ops.py], [app/core/ops_notifier.py]). *)
From S2P Require Import Prelude PyText Sanitize Config Models Tenancy Orm OrmLaws Invariants.
From stdpp Require Import sorting.
Local Open Scope string_scope.
Local Open Scope Z_scope.
Local Open Scope list_scope.

(** ** Who is told *)

(** [ORDER BY users.created_at, users.id] *)
Definition user_order (a b : User) : Prop :=
  user_created_at a < user_created_at b ∨ (user_created_at a = user_created_at b ∧ (user_id a ≤ user_id b)%N).
#[global] Instance user_order_dec : RelDecision user_order.
Proof. intros a b. unfold user_order. apply _. Defined.

(** [role.strip() for role in s.split(",") if role.strip()] *)
Definition comma_list (s : string) : list string := filter (λ r, nonempty r = true) (strip <$> PyText.split ","%char s).

Section ops.
Context `{Settings}.

Definition get_ops_recipient_roles : list string := comma_list OPS_ALERT_RECIPIENT_ROLES.

Definition get_operator_tenant_id : M World (option uuid) :=
  if nonempty OPS_ALERT_TENANT_ID then
    match uuid_parse OPS_ALERT_TENANT_ID with Some t => mret (Some t) | None => raise (PyError "ValueError") end
  else
    admins ← select_where (λ u, bool_decide (user_role u = "Admin") && bool_decide (is_Some (user_tenant_id u)));
    mret (head (merge_sort user_order admins) ≫= user_tenant_id).

Definition is_recipient (operator : uuid) (u : User) : bool :=
  bool_decide (user_role u ∈ get_ops_recipient_roles) && user_is_active u && sql_eq (user_tenant_id u) (Some operator).

Definition get_ops_recipient_ids : M World (list uuid) :=
  operator_tenant_id ← get_operator_tenant_id;
  match operator_tenant_id with
  | None => mret []
  | Some t => users ← select_where (is_recipient t); mret (user_id <$> users)
  end.

(** ** What they are told *)

Definition char_upper (c : ascii) : ascii := if bool_decide (97 ≤ code c ≤ 122)%N then ascii_of_N (code c - 32) else c.
Definition upper (s : string) : string := map_chars char_upper s.

(** [startsAt] and [endsAt] as [isoformat] prints them. *)
Record AlertmanagerAlert := mkAlert {
  al_status : string; labels : gmap string string; annotations : gmap string string;
  startsAt : option string; endsAt : option string }.

Definition _SEVERITY_ICONS : gmap string string :=
  list_to_map [("critical", "🔴"); ("warning", "🟠"); ("info", "🔵")].
Definition _EVENT_LEVEL_ICONS : gmap string string :=
  list_to_map [("success", "✅"); ("failure", "❌"); ("info", "ℹ️")].

Definition line_break : string := String (ascii_of_N 10) "".

(** [if x := d.get(key): lines.append(prefix + x)] *)
Definition some_line (prefix : string) (x : option string) : list string :=
  match x with Some s => if nonempty s then [prefix +:+ s] else [] | None => [] end.

(** A time that is there is a line of its own. *)
Definition time_line (prefix : string) (x : option string) : list string :=
  match x with Some s => [prefix +:+ s] | None => [] end.

Definition format_alert_message (alert : AlertmanagerAlert) : string * string :=
  let alert_name := default "UnknownAlert" (labels alert !! "alertname") in
  let severity := default "warning" (labels alert !! "severity") in
  let resolved := bool_decide (al_status alert = "resolved") in
  let title :=
    if resolved then "✅ [برطرف شد] " +:+ alert_name
    else default "🟠" (_SEVERITY_ICONS !! severity) +:+ " [" +:+ upper severity +:+ "] " +:+ alert_name in
  let lines :=
    some_line "" (annotations alert !! "summary") ++ some_line "" (annotations alert !! "description") ++
    some_line "منبع: " (labels alert !! "instance") ++ time_line "شروع: " (startsAt alert) ++
    (if resolved then time_line "پایان: " (endsAt alert) else []) in
  (title, PyText.join line_break lines).

(** [OpsEventRequest]; [None]: the validation of pydantic refuses it (422). *)
Record OpsEvent := mkEvent { ev_title : string; ev_content : option string; ev_level : string; ev_category : string }.

Definition OpsEventRequest (title : string) (content : option string) (level category : string) : option OpsEvent :=
  let e := mkEvent (strip_html_tags title) (strip_html_tags <$> content) level (strip_html_tags category) in
  let within lo hi s := (lo <=? py_len s)%nat && (py_len s <=? hi)%nat in
  if within 1%nat 200%nat (ev_title e) && match ev_content e with Some c => within 0%nat 4000%nat c | None => true end &&
     bool_decide (level ∈ ["success"; "failure"; "info"]) && within 1%nat 50%nat (ev_category e)
  then Some e else None.

(** ** Delivery *)

(** The ids of the new rows are random: [fresh j]. *)
Definition broadcast (now : instant) (fresh : nat → uuid) (recipient_ids : list uuid) (title : string)
    (content : option string) (category : string) : list Notification :=
  imap (λ j user_id, mkNotification (fresh j) user_id (py_take 255 title) content false (Some category) now) recipient_ids.

Fixpoint add_all (l : list Notification) : M World unit :=
  match l with [] => mret tt | n :: r => insert_row n;; add_all r end.

Definition add_broadcast (now : instant) (fresh : nat → uuid) (recipient_ids : list uuid) (title : string)
    (content : option string) (category : string) : M World nat :=
  add_all (broadcast now fresh recipient_ids title content category);;
  mret (length recipient_ids).

Definition verify_ops_token (credentials : option string) : M World unit :=
  reject_if (negb (nonempty OPS_WEBHOOK_TOKEN)) 503;;
  reject_if (negb (bool_decide (credentials = Some OPS_WEBHOOK_TOKEN))) 401.

(** The loop over the alerts, from the [i]th on. *)
Fixpoint deliver_alerts (now : instant) (fresh : nat → nat → uuid) (recipient_ids : list uuid) (i : nat)
    (alerts : list AlertmanagerAlert) : M World nat :=
  match alerts with
  | [] => mret 0%nat
  | alert :: rest =>
      let '(title, content) := format_alert_message alert in
      n ← add_broadcast now (fresh i) recipient_ids title (Some content) "alert";
      m ← deliver_alerts now fresh recipient_ids (S i) rest;
      mret (n + m)%nat
  end.

Record OpsDeliveryResponse := mkDelivery { delivered_notifications : nat; recipients : nat }.

Definition receive_alertmanager_webhook (now : instant) (fresh : nat → nat → uuid) (credentials : option string)
    (alerts : list AlertmanagerAlert) : M World OpsDeliveryResponse :=
  verify_ops_token credentials;;
  recipient_ids ← get_ops_recipient_ids;
  delivered ← deliver_alerts now fresh recipient_ids 0 alerts;
  commit;;
  mret (mkDelivery delivered (length recipient_ids)).

Definition receive_ops_event (now : instant) (fresh : nat → uuid) (credentials : option string) (payload : OpsEvent) :
    M World OpsDeliveryResponse :=
  verify_ops_token credentials;;
  recipient_ids ← get_ops_recipient_ids;
  icon ← match _EVENT_LEVEL_ICONS !! ev_level payload with Some i => mret i | None => raise (PyError "KeyError") end;
  delivered ← add_broadcast now fresh recipient_ids (icon +:+ " " +:+ ev_title payload) (ev_content payload)
                (ev_category payload);
  commit;;
  mret (mkDelivery delivered (length recipient_ids)).
End ops.

(** ** Laws *)

Section laws.
Context `{Settings}.

Definition stored (l : list Notification) (w : World) : World :=
  upd_session (λ db, with_rows (foldl (λ m n, <[ntf_id n := n]> m) (notifications db) l) db) w.

(** The platform stores any new notices of users. *)
Lemma add_all_ok l : ∀ w,
  ctx w = SYSTEM_CONTEXT → NoDup (ntf_id <$> l) →
  (∀ n, n ∈ l → notifications (session w) !! ntf_id n = None ∧ is_Some (users (session w) !! ntf_user_id n)) →
  add_all l w = (inr tt, stored l w).
Proof.
  induction l as [|n l IH]; intros w Hc Hnd Hn.
  - cbn. unfold stored, upd_session. cbn. by destruct w as [? []].
  - apply NoDup_cons in Hnd as [Hnin Hnd]. destruct (Hn n ltac:(left)) as [Hnew Huser].
    cbn [add_all]. rewrite (bind_ok _ _ _ tt (upd_session (λ db, with_rows (<[ntf_id n := n]> (notifications db)) db) w)).
    + rewrite IH; [done|done|done|]. intros n' Hn'. cbn. destruct (Hn n' ltac:(by right)) as [Hnew' Huser'].
      rewrite lookup_insert_ne; [done|]. intros E. apply Hnin. rewrite E. by apply list_elem_of_fmap_2.
    + refine (system_insert (R:=Notification) n w Hc Hnew _). cbn. unfold exists_row. by destruct Huser as [? ->].
Qed.

Lemma stored_app l k w : stored k (stored l w) = stored (l ++ k) w.
Proof. unfold stored, upd_session. cbn. by rewrite foldl_app. Qed.
(** The notices of the alerts from the [i]th on. *)
Fixpoint notices (now : instant) (fresh : nat → nat → uuid) (recipient_ids : list uuid) (i : nat)
    (alerts : list AlertmanagerAlert) : list Notification :=
  match alerts with
  | [] => []
  | alert :: rest =>
      let '(title, content) := format_alert_message alert in
      broadcast now (fresh i) recipient_ids title (Some content) "alert" ++ notices now fresh recipient_ids (S i) rest
  end.

Lemma add_all_app_ok l k w : ∀ w1 w2,
  add_all l w = (inr tt, w1) → add_all k w1 = (inr tt, w2) → add_all (l ++ k) w = (inr tt, w2).
Proof.
  revert w. induction l as [|n l IH]; intros w w1 w2; cbn; [by intros [= ->]|].
  intros Hl Hk. apply bind_inv in Hl as [(e & _ & [=])|([] & w' & Hn & Hl)]. rewrite (bind_ok _ _ _ tt w'); eauto.
Qed.

Lemma deliver_alerts_ok now fresh ids alerts : ∀ i w,
  ctx w = SYSTEM_CONTEXT → NoDup (ntf_id <$> notices now fresh ids i alerts) →
  (∀ n, n ∈ notices now fresh ids i alerts →
    notifications (session w) !! ntf_id n = None ∧ is_Some (users (session w) !! ntf_user_id n)) →
  deliver_alerts now fresh ids i alerts w =
    (inr (length alerts * length ids)%nat, stored (notices now fresh ids i alerts) w).
Proof.
  induction alerts as [|alert alerts IH]; intros i w Hc Hnd Hn.
  - cbn. unfold stored, upd_session. cbn. by destruct w as [? []].
  - cbn [notices deliver_alerts] in *. destruct (format_alert_message alert) as [title content].
    rewrite fmap_app in Hnd. apply NoDup_app in Hnd as (Hnd1 & Hdisj & Hnd2).
    set (first := broadcast now (fresh i) ids title (Some content) "alert") in *.
    rewrite (bind_ok _ _ _ (length ids) (stored first w)).
    2: { unfold add_broadcast. fold first. rewrite (bind_ok _ _ _ tt (stored first w)); [done|].
         apply add_all_ok; [done|done|]. intros n Hin. apply Hn. set_solver. }
    rewrite (bind_ok _ _ _ (length alerts * length ids)%nat (stored (notices now fresh ids (S i) alerts) (stored first w))).
    2: { apply IH; [done|done|]. intros n Hin. destruct (Hn n ltac:(set_solver)) as [Hnone Huser]. split; [|done].
         cbn. assert (ntf_id n ∉ ntf_id <$> first) as Hout by (intros Hx; apply (Hdisj _ Hx); by apply list_elem_of_fmap_2).
         clear -Hnone Hout. revert Hnone. generalize (notifications (session w)). induction first as [|x l IH]; intros m Hm; [done|].
         cbn in *. apply not_elem_of_cons in Hout as [? ?]. apply IH; [done|]. by rewrite lookup_insert_ne. }
    by rewrite stored_app.
Qed.
(** The notice of one alert to one user. *)
Definition notice (now : instant) (id u : uuid) (alert : AlertmanagerAlert) : Notification :=
  mkNotification id u (py_take 255 (format_alert_message alert).1) (Some (format_alert_message alert).2) false (Some "alert") now.

Lemma elem_of_notices now fresh ids alerts n : ∀ i,
  n ∈ notices now fresh ids i alerts ↔
  ∃ k alert j u, alerts !! k = Some alert ∧ ids !! j = Some u ∧ n = notice now (fresh (i + k)%nat j) u alert.
Proof.
  induction alerts as [|alert alerts IH]; intros i; cbn [notices].
  - split; [by intros ?%elem_of_nil|]. intros (k & a & j & u & ? & _). by rewrite lookup_nil in *.
  - unfold notice in *. destruct (format_alert_message alert) as [title content] eqn:Ef.
    rewrite elem_of_app, IH. unfold broadcast. rewrite elem_of_lookup_imap. split.
    + intros [(j & u & -> & Hj)|(k & a & j & u & Hk & Hj & ->)].
      * exists 0%nat, alert, j, u. rewrite Nat.add_0_r, Ef. done.
      * exists (S k), a, j, u. rewrite Nat.add_succ_r. done.
    + intros (k & a & j & u & Hk & Hj & ->). destruct k as [|k]; cbn in Hk.
      * injection Hk as ->. left. exists j, u. by rewrite Nat.add_0_r, Ef.
      * right. exists k, a, j, u. by rewrite Nat.add_succ_r.
Qed.

Lemma notices_NoDup now fresh ids alerts : (∀ i j i' j', fresh i j = fresh i' j' → i = i' ∧ j = j') →
  ∀ i, NoDup (ntf_id <$> notices now fresh ids i alerts).
Proof.
  intros Hf. induction alerts as [|alert alerts IH]; intros i; cbn [notices]; [apply NoDup_nil_2|].
  destruct (format_alert_message alert) as [title content]. rewrite fmap_app. apply NoDup_app. split_and!; [| |apply IH].
  - unfold broadcast. rewrite fmap_imap. apply NoDup_alt. intros a b x. rewrite !list_lookup_imap.
    intros (u & _ & ->)%fmap_Some (v & _ & E)%fmap_Some. cbn in E. by apply Hf in E as [_ ?].
  - intros x (n & -> & Hn)%list_elem_of_fmap (n' & E & Hn')%list_elem_of_fmap.
    unfold broadcast in Hn. apply elem_of_lookup_imap in Hn as (j & u & -> & _).
    apply elem_of_notices in Hn' as (k & a & j' & u' & _ & _ & ->). cbn in E. apply Hf in E as [? _]. lia.
Qed.

(** The rows after any number of inserts under new ids. *)
Lemma stored_lookup l (m : gmap uuid Notification) id n : NoDup (ntf_id <$> l) → (∀ x, x ∈ l → m !! ntf_id x = None) →
  foldl (λ m n, <[ntf_id n := n]> m) m l !! id = Some n ↔ (n ∈ l ∧ ntf_id n = id) ∨ m !! id = Some n.
Proof.
  revert m. induction l as [|x l IH]; intros m Hnd Hm; cbn [foldl]; [set_solver|].
  apply NoDup_cons in Hnd as [Hx Hnd]. rewrite IH; [|done|].
  - destruct (decide (ntf_id x = id)) as [<-|Hne].
    + rewrite lookup_insert_eq, (Hm x) by left. split; [intros [[??]|[= ->]]|intros [[[->|?]%elem_of_cons ?]|[=]]]; auto; left; set_solver.
    + rewrite lookup_insert_ne by done. rewrite elem_of_cons. naive_solver.
  - intros y Hy. rewrite lookup_insert_ne; [apply Hm; by right|]. intros E. apply Hx. rewrite E. by apply list_elem_of_fmap_2.
Qed.
End laws.

Section theorems.
Context `{Settings}.

(** The users that are told, when the operator is [operator]. *)
Definition told (operator : option uuid) (db : Db) (u : uuid) : Prop :=
  ∃ user t, users db !! u = Some user ∧ operator = Some t ∧ user_tenant_id user = Some t ∧ user_is_active user = true ∧
    user_role user ∈ get_ops_recipient_roles.

Lemma recipients_ok w operator :
  ctx w = SYSTEM_CONTEXT → table_ok User (session w) → get_operator_tenant_id w = (inr operator, w) →
  ∃ ids, get_ops_recipient_ids w = (inr ids, w) ∧ NoDup ids ∧ ∀ u, u ∈ ids ↔ told operator (session w) u.
Proof.
  intros Hc Hok Hop. unfold get_ops_recipient_ids. rewrite (bind_ok _ _ _ _ _ Hop). destruct operator as [t|].
  2: { exists []. split; [done|]. split; [apply NoDup_nil_2|]. intros u. split; [by intros ?%elem_of_nil|]. by intros (? & ? & _ & [=] & _). }
  rewrite select_where_bind, system_rows by done. set (l := filter _ _). exists (user_id <$> l). split; [done|].
  assert (∀ u, u ∈ l ↔ users (session w) !! user_id u = Some u ∧ is_recipient t u = true) as Hl.
  { intros u. unfold l. rewrite list_elem_of_filter, list_elem_of_fmap. split.
    - intros [Hr ([k u'] & -> & Hin%elem_of_map_to_list)]. split; [|done]. destruct (Hok k u' Hin) as [<- _]. done.
    - intros [Hu Hr]. split; [done|]. exists (user_id u, u). split; [done|]. by apply elem_of_map_to_list. }
  split.
  - apply NoDup_fmap_2_strong; [intros x y [Hx _]%Hl [Hy _]%Hl E; rewrite E in Hx; congruence|].
    unfold l. apply NoDup_filter. apply NoDup_fmap_2_strong; [|apply NoDup_map_to_list].
    intros [k x] [k' y] Hx%elem_of_map_to_list Hy%elem_of_map_to_list E. cbn in E. subst y.
    destruct (Hok _ _ Hx) as [Ex _], (Hok _ _ Hy) as [Ey _]. congruence.
  - intros u. rewrite list_elem_of_fmap. unfold told. split.
    + intros (x & -> & [Hx Hr]%Hl). unfold is_recipient in Hr. apply andb_true_iff in Hr as [[Hrole Hact]%andb_true_iff Ht].
      exists x, t. apply sql_eq_true in Ht as (y & ? & [= ->]). by apply bool_decide_eq_true in Hrole.
    + intros (x & t' & Hx & [= <-] & Ht & Hact & Hrole). destruct (Hok u x Hx) as [Eu _]. cbn in Eu. exists x. split; [done|].
      apply Hl. rewrite Eu. split; [done|]. unfold is_recipient. rewrite bool_decide_true, Hact by done. apply sql_eq_true. eauto.
Qed.

(** The alerts of the monitoring reach the technical team: who shows the
    token of the webhooks has every alert of the group put into the inbox of
    every active user with one of the configured roles in the organisation of
    the operator, of nobody else, once, in one transaction, and the answer
    counts them; nothing else is changed. Who does not show the token is
    refused, and nothing changes. *)
Theorem ops_alerts_reach_operators (now : instant) (fresh : nat → nat → uuid) (alerts : list AlertmanagerAlert) (w : World)
    (operator : option uuid) :
  ctx w = SYSTEM_CONTEXT → table_ok User (session w) → nonempty OPS_WEBHOOK_TOKEN = true →
  get_operator_tenant_id w = (inr operator, w) →
  (∀ i j, notifications (session w) !! fresh i j = None) → (∀ i j i' j', fresh i j = fresh i' j' → i = i' ∧ j = j') →
  (∃ ids w', receive_alertmanager_webhook now fresh (Some OPS_WEBHOOK_TOKEN) alerts w =
     (inr (mkDelivery (length alerts * length ids) (length ids)), w') ∧
   NoDup ids ∧ (∀ u, u ∈ ids ↔ told operator (session w) u) ∧
   committed w' = session w' ∧ ctx w' = ctx w ∧ effects w' = effects w ∧
   session w' = with_rows (notifications (session w')) (session w) ∧
   ∀ id n, notifications (session w') !! id = Some n ↔ notifications (session w) !! id = Some n ∨
     ∃ i alert j u, alerts !! i = Some alert ∧ ids !! j = Some u ∧ id = fresh i j ∧ n = notice now id u alert) ∧
  ∀ credentials, credentials ≠ Some OPS_WEBHOOK_TOKEN →
    receive_alertmanager_webhook now fresh credentials alerts w = (inl (HTTPException 401), w).
Proof.
  intros Hc Hok Htok Hop Hnew Hinj. unfold receive_alertmanager_webhook, verify_ops_token. rewrite Htok. split.
  2: { intros credentials Hcred. rewrite bool_decide_false by done. done. }
  destruct (recipients_ok w operator Hc Hok Hop) as (ids & Hids & Hnd & Htold).
  set (l := notices now fresh ids 0 alerts). exists ids, (snd (commit (stored l w))). split.
  { rewrite bool_decide_true by done. rewrite (bind_ok _ _ _ tt w) by done. rewrite (bind_ok _ _ _ _ _ Hids).
    rewrite (bind_ok _ _ _ (length alerts * length ids)%nat (stored l w)); [done|].
    apply deliver_alerts_ok; [done|by apply notices_NoDup|].
    intros n (k & a & j & u & _ & Hj & ->)%elem_of_notices. split; [apply Hnew|]. cbn.
    apply list_elem_of_lookup_2, Htold in Hj as (user & t & Hu & _). eauto. }
  split; [done|]. split; [done|]. do 4 (split; [done|]). intros id n. cbn.
  rewrite stored_lookup; [|by apply notices_NoDup|intros x (k & a & j & u & _ & _ & ->)%elem_of_notices; apply Hnew].
  unfold l. rewrite elem_of_notices. cbn [Nat.add]. split.
  - intros [[(k & a & j & u & Hk & Hj & ->) <-]|?]; [|by left]. right. exists k, a, j, u. done.
  - intros [?|(k & a & j & u & Hk & Hj & -> & ->)]; [by right|]. left. split; [|done]. eauto 8.
Qed.
End theorems.
